(* ===== verification/_CoqProject ===== *)
-Q . S2P
Prelude.v
Skb.v
Net.v
TcpFrame.v
TcpStream.v
FakeHeaders.v
RxHeader.v
Peer.v
TcpReader.v
TcpReaderSpec.v
TcpWriter.v
TcpChannel.v
Admission.v
TcpPeer.v
TcpPeerSpec.v
TcpHandover.v
Endpoint.v
Listener.v
ListenSocket.v
Replay.v
AllowedIps.v
AllowedIpsSpec.v
AllowedIpsTable.v
PeerLookup.v
Crypto.v
Noise.v
Ratelimiter.v
Cookie.v
Keypairs.v
Handshake.v
HandshakeSpec.v
PrevQueue.v
DataPath.v
Nonces.v
Timers.v
DataPathSpec.v
DataRoundtrip.v
Encoding.v
Field25519.v
Curve25519.v
Fiat32.v
Curve25519Spec.v
Fiat32Spec.v
Text.v
Config.v
ShowConf.v
NumericLibc.v
DeviceConfig.v
DeviceConfigSpec.v
Netlink.v
IpcSet.v
IpcSetSpec.v
IpcKernel.v
IpcRefine.v
IpcSplit.v
