(* ===== verification/Prelude.v ===== *)
(** * WireGuard over TCP: a verification of the kernel module and its tool

    The program is the WireGuard kernel module with a second transport (src/kernel)
    and the tool [wg] that configures it (src/tools).  Over UDP a message is a
    datagram.  Over TCP it is a record of a byte stream, and the module itself has
    to find the records in the stream,
    connect and accept, decide which of two crossing connections a peer keeps,
    move a connection from the provisional peer that accepted it to the peer that
    authenticates over it, and take all of this down again while socket callbacks
    and work items run.  The messages are the same in both cases, and so is what
    happens to them: the handshake, the session keys with their replay windows,
    and the table that ties addresses to peers.

    ** How the code is modelled

    C functions are Rocq functions on the state they change.  Structures are
    records with the fields the modelled code reads or writes ([r{{ f := v }}] is
    an assignment to a field), pointers to peers, sockets and nodes are keys of
    finite maps or places in a tree, machine integers are [Z] with the wrap-around
    written out ([u8] ... [u64]), bytes are lists of [Z], error codes are the
    negative numbers of the code.  What the kernel decides (whether an allocation
    succeeds, what [kernel_recvmsg] returns, what [getname] reports, which random
    number is drawn) is an argument.  Kernel services that compute something
    (checksums, the allocator, cryptography) are classes of operations, with a
    second class that states what their documentation promises; theorems assume
    only the second, and each comes with a witness that instantiates it.
    Concurrency follows the locks: a section under a spinlock is one step.
    Functions that only hold a mutex take lists of the steps others make in
    their gaps, and the writer and the promotion worker are step relations.

    ** The files

    - Prelude: record updates, machine integers, bytes and lists, tactics
      ([zlia], [simpl_guards], [case_if], [div_mod_lia]) and the hint bases.
    - Skb, Net, Peer: socket buffers with headroom and tailroom; addresses,
      endpoints and their comparisons (socket.c, wg_tcp.c); the fields of
      [struct wg_peer], [wg_device], [wg_socket_data] and of sockets.
    - TcpFrame, TcpStream: the record header with its checksum, the frame builder
      ([wg_tcp_build_frame]) and, as the specification of a reader, the function
      [decode] on byte streams.
    - FakeHeaders, RxHeader: the IP and UDP headers a record is given
      ([wg_tcp_build_fake_headers]) and the check every packet passes on receipt
      ([prepare_skb_header]).
    - TcpReader, TcpReaderSpec: [wg_tcp_read_worker] and its proof against [decode].
    - TcpWriter: the send queue and [wg_tcp_write_worker].
    - TcpChannel: writer, network, reader and receive check together.
    - Admission: rate limit and list of accepted connections, reaper.
    - TcpPeer, TcpPeerSpec, TcpHandover: connecting, callbacks, removing, stopping
      and promoting; the ownership invariant and its preservation.
    - Endpoint: setting endpoints, roaming, the promotion worker.
    - Listener, ListenSocket: the accept loop and the listening sockets.
    - Replay: the replay window of a session ([counter_validate]).
    - AllowedIps, AllowedIpsSpec, AllowedIpsTable: the trie of allowed addresses
      (allowedips.c), its tries as maps, its operations as map operations.
    - PeerLookup: the tables of indices and of public keys (peerlookup.c).
    - Crypto, Noise: the primitives as classes, the handshake messages with their
      layout (messages.h), and the key derivation (noise.c).
    - Keypairs: the sessions of a peer, their slots, counts and indices (noise.c).
    - Handshake, HandshakeSpec: the four handshake messages (noise.c) and their
      theorems.
    - PrevQueue: the lock-free queue of a peer (queueing.c), as interleaved steps.
    - DataPath: nonces, encryption and decryption of packets (send.c, receive.c).
    - Nonces, DataPathSpec, DataRoundtrip: runs of the data path with the sections
      on sessions, and the way of a packet between two peers.
    - Ratelimiter, Cookie: the limit on handshakes (ratelimiter.c), their MACs and
      cookies (cookie.c) and the decision what to do with one (receive.c).
    - Encoding: keys as text (tools/encoding.c).
    - Timers: the five timers of a peer and who starts and stops them (timers.c,
      send.c, receive.c).
    - DeviceConfig, DeviceConfigSpec: the request that configures a device
      (netlink.c), creating and removing peers (peer.c), opening the UDP sockets
      (socket.c), and the invariant of all histories of requests.
    - Field25519, Curve25519, Fiat32: X25519 as the reference, and the tool's two
      implementations for 64-bit and 32-bit machines (tools/curve25519.c,
      curve25519-hacl64.h, curve25519-fiat32.h);
      Curve25519Spec, Fiat32Spec: their proofs.
    - Text: the text functions of the C library that the tool uses, tools/ctype.h.
    - Config, ShowConf: reading a configuration (tools/config.c, containers.h,
      setconf.c) and printing one (tools/showconf.c); the resolver and the address
      conversions are parameters, and NumericLibc is an instance of them.
    - Netlink, IpcSet: netlink attributes (tools/netlink.h) and the messages and the
      loop of [kernel_set_device] (tools/ipc-linux.h), byte by byte; IpcSetSpec: the
      attributes of each message and its size; IpcKernel: what the kernel reads in it;
      IpcRefine, IpcSplit: the effect of the messages on the device.

    ** What the theorems show

    The stream: whatever the segmentation, the reader delivers exactly the records
    of the stream and stays inside its buffers; the writer puts on the wire exactly
    the accepted frames in order; together a carrier is a reliable ordered channel
    of messages (TcpReaderSpec, TcpWriter, TcpChannel).  A corrupted header byte is
    noticed (TcpFrame), and a record's sender is the remote end of its connection
    (FakeHeaders).

    The connections: whatever happens to a peer it owns at most one socket and every
    other one was released exactly once (TcpHandover, Endpoint); every accepted
    socket is accounted for, and teardown releases all (Listener); limits and
    counters of admission are exact (Admission); starting to listen is all or
    nothing (ListenSocket); no promotion request is lost and the newest connection
    decides where a peer is dialed (Endpoint).

    The messages: the replay window accepts each counter at most once and refuses
    nothing else inside the window (Replay); the table of allowed addresses is a
    longest-prefix-match map, with exact lists per peer and a walk that fits its
    stack (AllowedIpsTable).

    The keys: the index table, with its unlocked search for an unused index, is a
    map (PeerLookup); a handshake between two configured peers leads to one session
    with crossed keys and indices at both ends (Handshake); a consumed initiation is
    refused from then on, and of two that cross over TCP exactly one is consumed
    (HandshakeSpec); sessions are reference-counted exactly, and one that the index
    table yields is allocated and in a slot of its peer (Keypairs).

    The packets: the queue of a peer is first-in first-out and loses nothing
    (PrevQueue); no session gives a nonce to two packets (Nonces); what is delivered
    was encrypted by the peer its source address belongs to, and no message counts
    twice (DataPathSpec); a packet arrives with the bytes it was sent with
    (DataRoundtrip).

    The gate: the rate limiter is a token bucket for each source, which collecting
    idle entries does not disturb (Ratelimiter); a peer that takes part in the
    cookie exchange gets past a receiver under load (Cookie).  The text of a key is
    the usual encoding, and nothing else is accepted as one (Encoding).

    The timers: unanswered data, unheard data, unfinished handshakes, old keys and
    idle links are each noticed within their time (Timers).

    The configuration: after any history of requests, failed ones included, the
    list, the table of keys, the count, the addresses and the sessions of a device
    agree (DeviceConfigSpec).  What the tool reads is always a well-formed device
    (Config), and what it prints it reads back (ShowConf).  Both implementations of
    Curve25519 compute X25519 on all inputs, without overflow (Fiat32Spec).
    A configuration that takes several messages has the effect of a single request,
    and each message fits its buffer (IpcSplit).

    ** Bounds and fuel

    The loops of the readers and reapers run with an explicit bound that is proved
    sufficient: the reader's by the number of bytes that are there
    ([reader_delivers_stream] shows that every run ends), the reaper's and the
    teardown's by the length of the list ([reaper_pass], [destruct_claims_all],
    [teardown_releases_all]), the walk of a trie by its number of nodes
    ([allowedips_free_bounded]), the stream decoder's by the length of the stream
    ([decode_n_enough]), the messages of a configuration by the number of its peers
    and addresses ([split_configuration_exact]), the attributes of a message by its
    length ([mnl_attrs_bytes]).
    ** Not modelled

    Device and module life cycle (device.c, main.c): calls into the kernel with
    little state of their own.  Of the UDP sockets only endpoints and the opening of
    the sockets; sending and routing are the kernel's.  Of the netlink interface the
    requests, not the dump; attributes are parsed by the kernel's netlink library.
    Within a request, connecting and stopping the transport are recorded as calls
    and not carried out.  The reference counts of peers and of trie nodes: memory is
    reclaimed when nothing points to it, so a lookup finds what is in the table.  Of
    the tool, the coloured listings, the dispatch to subcommands, the sockets and the
    reading of the kernel's answers and of a dumped device.  Printing (wg_tcp_debug.c), the self tests and the
    scripts.  The congestion and retransmission of TCP and the cryptographic
    strength of the primitives are the kernel's; that the tool's Curve25519 computes
    X25519 is proved. *)
From stdpp Require Import prelude list.
From Stdlib Require Import ZArith Lia.

#[local] Open Scope Z_scope.

(** * Record updates

    The C code assigns single fields of large structures.  [r {{ f := v }}]
    is the record [r] with field [f] replaced, and [r {{ f ::= g }}] applies
    [g] to it; both need an instance of [Settable], the eta expansion of the
    record written with its projections. *)
Class Settable (R : Type) := eta : R → R.

Class Setter {R E : Type} (getter : R → E) := set : (E → E) → R → R.
Arguments set {R E} getter {Setter} f r.
#[global] Hint Mode Setter - - ! : typeclass_instances.

Definition const_to {E : Type} (v : E) : E → E := λ _, v.
Arguments const_to {E} v _ /.

Ltac solve_setter R getter :=
  let s := constr:(_ : Settable R) in
  let h := lazymatch s with ?c => c end in
  let e := eval cbv delta [h] in s in
  lazymatch eval pattern getter in e with
  | ?u _ =>
      let t := eval cbv beta in (λ f : _, u (λ r, f (getter r))) in
      exact t
  end.

#[export] Hint Extern 1 (@Setter ?R ?E ?getter) => solve_setter R getter
  : typeclass_instances.

Declare Scope record_scope.
#[global] Open Scope record_scope.
Declare Custom Entry record_update.
Notation "f := v" := (set f (const_to v))
  (in custom record_update at level 1, f constr at level 1, v constr at level 99).
Notation "f ::= g" := (set f g)
  (in custom record_update at level 1, f constr at level 1, g constr at level 99).
Notation "r {{ u }}" := (u r)
  (at level 1, left associativity, u custom record_update at level 1,
   format "r {{ u }}") : record_scope.
Notation "r {{ u ; .. ; v ; w }}" := (w (v .. (u r) ..))
  (at level 1, left associativity, u custom record_update at level 1,
   v custom record_update at level 1, w custom record_update at level 1)
  : record_scope.

(** * Results and errno values

    Kernel functions return 0 or a negated errno; pointer-valued functions
    return [ERR_PTR].  The former are integers, the latter [result]s. *)
Inductive result (A : Type) :=
  | Ok (a : A)
  | Err (e : Z).
Arguments Ok {A} a.
Arguments Err {A} e.

#[export] Instance Ok_inj {A} : Inj (=) (=) (@Ok A).
Proof. by injection 1. Qed.

Definition ENOENT := 2.
Definition EBADF := 9.
Definition EAGAIN := 11.
Definition ENOMEM := 12.
Definition EBUSY := 16.
Definition ENODEV := 19.
Definition EINVAL := 22.
Definition ENOSPC := 28.
Definition EPIPE := 32.
Definition ENONET := 64.
Definition EMSGSIZE := 90.
Definition EAFNOSUPPORT := 97.
Definition EADDRNOTAVAIL := 99.
Definition ECONNABORTED := 103.
Definition ENOBUFS := 105.
Definition ENOTCONN := 107.
Definition ESHUTDOWN := 108.
Definition ECONNREFUSED := 111.
Definition EALREADY := 114.
Definition EINPROGRESS := 115.
Definition ESTALE := 116.
Definition EUCLEAN := 117.
Definition ERESTARTSYS := 512.

(** * Machine integers

    An unsigned w-bit integer is a [Z] in [0, 2^w); arithmetic that can leave
    the range is wrapped explicitly. *)
Definition wrap (w z : Z) : Z := z mod 2 ^ w.
Definition u8 (z : Z) : Z := wrap 8 z.
Definition u16 (z : Z) : Z := wrap 16 z.
Definition u32 (z : Z) : Z := wrap 32 z.
Definition u64 (z : Z) : Z := wrap 64 z.

Definition is_byte (b : Z) : Prop := 0 <= b < 256.
#[export] Instance is_byte_dec b : Decision (is_byte b).
Proof. unfold is_byte. apply _. Defined.

(** The signed reading of a 64-bit word. *)
Definition s64 (z : Z) : Z := let z := u64 z in if z <? 2 ^ 63 then z else z - 2 ^ 64.

Lemma wrap_small w z : 0 <= z < 2 ^ w → wrap w z = z.
Proof. apply Z.mod_small. Qed.

Lemma wrap_range w z : 0 <= w → 0 <= wrap w z < 2 ^ w.
Proof. intros. apply Z.mod_pos_bound. lia. Qed.

(** * Sequences indexed by [Z]

    Lengths and offsets of buffers are [size_t] values, kept in [Z]. *)
Definition zlen {A} (l : list A) : Z := Z.of_nat (length l).
Definition ztake {A} (n : Z) (l : list A) : list A := take (Z.to_nat n) l.
Definition zdrop {A} (n : Z) (l : list A) : list A := drop (Z.to_nat n) l.

Section zlist.
Context {A : Type}.
Implicit Types l k : list A.

Lemma zlen_nonneg l : 0 <= zlen l.
Proof. unfold zlen. lia. Qed.

Lemma zlen_nil : zlen (@nil A) = 0.
Proof. reflexivity. Qed.

Lemma zlen_cons x l : zlen (x :: l) = 1 + zlen l.
Proof. unfold zlen. cbn [length]. lia. Qed.

Lemma zlen_app l k : zlen (l ++ k) = zlen l + zlen k.
Proof. unfold zlen. rewrite length_app. lia. Qed.

Lemma zlen_ztake n l : 0 <= n <= zlen l → zlen (ztake n l) = n.
Proof. unfold zlen, ztake. intros. rewrite length_take. lia. Qed.

Lemma zlen_ztake_le n l : zlen (ztake n l) <= zlen l.
Proof. unfold zlen, ztake. rewrite length_take. lia. Qed.

Lemma zlen_ztake_min n l : 0 <= n → zlen (ztake n l) = Z.min n (zlen l).
Proof. unfold zlen, ztake. intros. rewrite length_take. lia. Qed.

Lemma zlen_zdrop n l : 0 <= n <= zlen l → zlen (zdrop n l) = zlen l - n.
Proof. unfold zlen, zdrop. intros. rewrite length_drop. lia. Qed.

Lemma zlen_zdrop_le n l : zlen (zdrop n l) <= zlen l.
Proof. unfold zlen, zdrop. rewrite length_drop. lia. Qed.

Lemma zlen_0_inv l : zlen l <= 0 → l = [].
Proof. destruct l; [done|]. rewrite zlen_cons. pose proof (zlen_nonneg l). lia. Qed.

Lemma ztake_zdrop n l : ztake n l ++ zdrop n l = l.
Proof. apply take_drop. Qed.

Lemma ztake_all n l : zlen l <= n → ztake n l = l.
Proof. unfold zlen, ztake. intros. apply take_ge. lia. Qed.

Lemma zdrop_all n l : zlen l <= n → zdrop n l = [].
Proof. unfold zlen, zdrop. intros. apply drop_ge. lia. Qed.

Lemma ztake_0 l : ztake 0 l = [].
Proof. reflexivity. Qed.

Lemma zdrop_0 l : zdrop 0 l = l.
Proof. reflexivity. Qed.

Lemma ztake_app_le n l k : n <= zlen l → ztake n (l ++ k) = ztake n l.
Proof. unfold zlen, ztake. intros. apply take_app_le. lia. Qed.

Lemma zdrop_app_le n l k : n <= zlen l → zdrop n (l ++ k) = zdrop n l ++ k.
Proof. unfold zlen, zdrop. intros. apply drop_app_le. lia. Qed.

Lemma ztake_app_length n l k : n = zlen l → ztake n (l ++ k) = l.
Proof. intros ->. rewrite ztake_app_le by lia. apply ztake_all. lia. Qed.

Lemma zdrop_app_length n l k : n = zlen l → zdrop n (l ++ k) = k.
Proof. intros ->. rewrite zdrop_app_le, zdrop_all by lia. done. Qed.

Lemma zdrop_zdrop n m l : 0 <= n → 0 <= m → zdrop n (zdrop m l) = zdrop (m + n) l.
Proof. unfold zdrop. intros. rewrite drop_drop. f_equal. lia. Qed.

Lemma ztake_ztake n m l : n <= m → ztake n (ztake m l) = ztake n l.
Proof. unfold ztake. intros. rewrite take_take. f_equal. lia. Qed.

Lemma zdrop_ztake n m l : 0 <= n → zdrop n (ztake m l) = ztake (m - n) (zdrop n l).
Proof. unfold zdrop, ztake. intros. rewrite skipn_firstn_comm. f_equal. lia. Qed.

Lemma zdrop_ztake_app m n l :
  m <= n → n <= zlen l → zdrop m (ztake n l) ++ zdrop n l = zdrop m l.
Proof.
  intros. rewrite <- (ztake_zdrop n l) at 3. unfold zdrop, ztake, zlen in *.
  rewrite drop_app_le by (rewrite length_take; lia). done.
Qed.

Lemma zdrop_1_cons x l : zdrop 1 (x :: l) = l.
Proof. reflexivity. Qed.
End zlist.

Create Rewrite HintDb zlen.
#[export] Hint Rewrite @zlen_nil @zlen_cons @zlen_app : zlen.
#[export] Hint Rewrite @zlen_ztake @zlen_zdrop using lia : zlen.

(** [zlia] pushes lengths through the list operations and calls [lia]. *)
Ltac zlen_pose :=
  repeat match goal with
  | |- context [zlen ?l] =>
      lazymatch goal with
      | _ : 0 <= zlen l |- _ => fail
      | _ => pose proof (zlen_nonneg l)
      end
  | _ : context [zlen ?l] |- _ =>
      lazymatch goal with
      | _ : 0 <= zlen l |- _ => fail
      | _ => pose proof (zlen_nonneg l)
      end
  end.

Ltac zlia := zlen_pose; autorewrite with zlen in *; zlen_pose; lia.

(** * Big-endian wire words *)
Definition be_val (bs : list Z) : Z := foldl (λ acc b, acc * 256 + b) 0 bs.

Definition be16 (z : Z) : list Z := [u8 (z / 256); u8 z].
Definition be32 (z : Z) : list Z :=
  [u8 (z / 2 ^ 24); u8 (z / 2 ^ 16); u8 (z / 2 ^ 8); u8 z].

(** The [n] low bytes of a word, most significant first. *)
Fixpoint be_bytes (n : nat) (z : Z) : list Z :=
  match n with
  | O => []
  | S n => u8 (z / 256 ^ Z.of_nat n) :: be_bytes n z
  end.

(** Little-endian words: the message type field, and integers stored in memory
    by a little-endian host. *)
Definition le_val (bs : list Z) : Z := foldr (λ b acc, b + 256 * acc) 0 bs.
Definition le16 (z : Z) : list Z := [u8 z; u8 (z / 256)].

(** Byte swaps: the integer a little-endian host sees in a network-order field. *)
Definition htons (z : Z) : Z := be_val (le16 z).
Definition htonl (z : Z) : Z := le_val (be_bytes 4 z).

Ltac div_mod_lia := Z.div_mod_to_equations; lia.

Lemma be16_val z : 0 <= z < 2 ^ 16 → be_val (be16 z) = z.
Proof. intros. cbn -[Z.mul Z.add]. unfold u8, wrap. div_mod_lia. Qed.

Lemma be32_val z : 0 <= z < 2 ^ 32 → be_val (be32 z) = z.
Proof. intros. cbn -[Z.mul Z.add]. unfold u8, wrap. div_mod_lia. Qed.

Lemma be_val_cons b bs : be_val (b :: bs) = b * 256 ^ zlen bs + be_val bs.
Proof.
  unfold be_val. cbn [foldl]. rewrite Z.mul_0_l, Z.add_0_l.
  assert (∀ acc, foldl (λ acc b, acc * 256 + b) acc bs
    = acc * 256 ^ zlen bs + foldl (λ acc b, acc * 256 + b) 0 bs) as H.
  { induction bs as [|x bs IH]; intros acc; cbn [foldl]; [rewrite zlen_nil; lia|].
    rewrite (IH (acc * 256 + x)), (IH (0 * 256 + x)), zlen_cons.
    rewrite Z.pow_add_r by zlia. lia. }
  apply H.
Qed.

Lemma zlen_be_bytes n z : zlen (be_bytes n z) = Z.of_nat n.
Proof. induction n as [|n IH]; [done|]. cbn [be_bytes]. rewrite zlen_cons, IH. lia. Qed.

Lemma zlen_be16 z : zlen (be16 z) = 2.
Proof. reflexivity. Qed.

Lemma zlen_le16 z : zlen (le16 z) = 2.
Proof. reflexivity. Qed.

#[export] Hint Rewrite zlen_be_bytes zlen_be16 zlen_le16 : zlen.

Lemma be_bytes_val n z : 0 <= z < 256 ^ Z.of_nat n → be_val (be_bytes n z) = z.
Proof.
  intros Hz. enough (∀ z, be_val (be_bytes n z) = z mod 256 ^ Z.of_nat n) as H.
  { rewrite H. by apply Z.mod_small. }
  clear. intros z. induction n as [|n IH]; [symmetry; apply Z.mod_1_r|].
  cbn [be_bytes]. rewrite be_val_cons, zlen_be_bytes, IH, Nat2Z.inj_succ, Z.pow_succ_r by lia.
  unfold u8, wrap. rewrite (Z.mul_comm 256), Z.rem_mul_r by lia.
  change (2 ^ 8) with 256. lia.
Qed.

Lemma zlen_rev (l : list Z) : zlen (rev l) = zlen l.
Proof. unfold zlen. by rewrite length_rev. Qed.

Lemma le_val_app l1 l2 : le_val (l1 ++ l2) = le_val l1 + 256 ^ zlen l1 * le_val l2.
Proof.
  induction l1 as [|b l1 IH]; [change (zlen (@nil Z)) with 0; cbn [app le_val foldr]; fold (le_val l2); lia|].
  cbn [app le_val foldr]. fold (le_val (l1 ++ l2)) (le_val l1). rewrite IH, zlen_cons, Z.pow_add_r by zlia. lia.
Qed.

Lemma be_val_app l1 l2 : be_val (l1 ++ l2) = be_val l1 * 256 ^ zlen l2 + be_val l2.
Proof.
  induction l1 as [|b l1 IH]; [done|]. cbn [app]. rewrite !be_val_cons, IH, zlen_app, Z.pow_add_r by zlia. lia.
Qed.

Lemma le_val_rev l : le_val (rev l) = be_val l.
Proof.
  induction l as [|b l IH]; [done|]. cbn [rev]. rewrite le_val_app, be_val_cons, IH.
  rewrite (zlen_rev l). cbn [le_val foldr]. lia.
Qed.

(** Little-endian words of [n] bytes. *)
Definition le_bytes (n : nat) (z : Z) : list Z := rev (be_bytes n z).

Lemma zlen_le_bytes n z : zlen (le_bytes n z) = Z.of_nat n.
Proof. unfold le_bytes. rewrite zlen_rev. apply zlen_be_bytes. Qed.

Lemma le_bytes_val n z : 0 <= z < 256 ^ Z.of_nat n → le_val (le_bytes n z) = z.
Proof. intros Hz. unfold le_bytes. rewrite le_val_rev. by apply be_bytes_val. Qed.

#[export] Hint Rewrite zlen_rev zlen_le_bytes : zlen.

Lemma be16_bytes z : Forall is_byte (be16 z).
Proof. repeat constructor; apply (wrap_range 8); lia. Qed.

Lemma be32_bytes z : Forall is_byte (be32 z).
Proof. repeat constructor; apply (wrap_range 8); lia. Qed.

(** * Case analysis on boolean guards

    [simpl_guards] turns the boolean tests of the code, wherever they occur,
    into the propositions they decide. *)
Create Rewrite HintDb guards.
#[export] Hint Rewrite Z.ltb_lt Z.ltb_ge Z.leb_le Z.leb_gt Z.eqb_eq Z.eqb_neq
  andb_true_iff andb_false_iff orb_true_iff orb_false_iff negb_true_iff
  negb_false_iff : guards.

Ltac simpl_guards := autorewrite with guards in *.

(** Case split on the scrutinee of an [if] or [match] in the goal. *)
Ltac case_if :=
  match goal with
  | |- context [if ?b then _ else _] => destruct b eqn:?
  end.

(** A closed decidable proposition, by evaluating its decision. *)
Ltac by_evaluation := apply (bool_decide_unpack _); vm_compute; exact I.

(** * Bitwise facts on words *)
Lemma wrap_land_ones w z : 0 <= w → wrap w z = Z.land z (Z.ones w).
Proof. intros. unfold wrap. by rewrite Z.land_ones. Qed.

Lemma wrap_lxor w a b :
  0 <= w → wrap w (Z.lxor a b) = Z.lxor (wrap w a) (wrap w b).
Proof.
  intros. rewrite !wrap_land_ones by done. apply Z.bits_inj'. intros i Hi.
  rewrite !Z.land_spec, !Z.lxor_spec, !Z.land_spec.
  by destruct (Z.testbit a i), (Z.testbit b i), (Z.testbit (Z.ones w) i).
Qed.

Lemma wrap_lor w a b :
  0 <= w → wrap w (Z.lor a b) = Z.lor (wrap w a) (wrap w b).
Proof. intros. rewrite !wrap_land_ones by done. apply Z.land_lor_distr_l. Qed.

Lemma lor_range w a b :
  0 <= w → 0 <= a < 2 ^ w → 0 <= b < 2 ^ w → 0 <= Z.lor a b < 2 ^ w.
Proof.
  intros Hw Ha Hb. rewrite <- (wrap_small w a), <- (wrap_small w b), <- wrap_lor by done.
  by apply wrap_range.
Qed.

Lemma lxor_range w a b :
  0 <= w → 0 <= a < 2 ^ w → 0 <= b < 2 ^ w → 0 <= Z.lxor a b < 2 ^ w.
Proof.
  intros Hw Ha Hb. rewrite <- (wrap_small w a), <- (wrap_small w b), <- wrap_lxor by done.
  by apply wrap_range.
Qed.

Lemma testbit_above w a i : 0 <= a < 2 ^ w → w <= i → Z.testbit a i = false.
Proof.
  intros [H0 Hw] Hi. destruct (Z.eq_dec a 0) as [->|]; [apply Z.bits_0|].
  apply Z.bits_above_log2; [done|]. assert (Z.log2 a < w) by (apply Z.log2_lt_pow2; lia). lia.
Qed.

(** A disjunction of words with no common bit is a sum. *)
Lemma lor_shiftl_add a b k :
  0 <= k → 0 <= b < 2 ^ k → Z.lor (Z.shiftl a k) b = a * 2 ^ k + b.
Proof.
  intros Hk Hb. rewrite <- Z.shiftl_mul_pow2 by done.
  pose proof (Z.add_lor_land (Z.shiftl a k) b) as H.
  enough (Z.land (Z.shiftl a k) b = 0) by lia.
  apply Z.bits_inj'. intros i Hi. rewrite Z.land_spec, Z.bits_0, Z.shiftl_spec by done.
  destruct (Z_lt_ge_dec i k).
  - by rewrite Z.testbit_neg_r by lia.
  - rewrite (testbit_above k b i) by lia. apply andb_false_r.
Qed.

Lemma lxor_cancel_l a b c : Z.lxor a b = Z.lxor a c → b = c.
Proof.
  intros H. rewrite <- (Z.lxor_0_l b), <- (Z.lxor_0_l c), <- (Z.lxor_nilpotent a).
  by rewrite !Z.lxor_assoc, H.
Qed.

Lemma lxor_cancel_r a b c : Z.lxor b a = Z.lxor c a → b = c.
Proof. rewrite !(Z.lxor_comm _ a). apply lxor_cancel_l. Qed.

Lemma NoDup_middle {A} (l1 : list A) x l2 :
  NoDup (l1 ++ x :: l2) → (x ∉ l1 ++ l2) ∧ NoDup (l1 ++ l2).
Proof. rewrite <- Permutation_middle. by intros []%NoDup_cons. Qed.

(** Strengthening a pointwise relation by a property of the right-hand list. *)
Lemma Forall2_with {A B} (R S : A → B → Prop) (P : B → Prop) xs ys :
  Forall2 R xs ys → Forall P ys → (∀ x y, R x y → P y → S x y) → Forall2 S xs ys.
Proof.
  intros HR HP H. induction HR as [|x y xs ys Hxy _ IH]; [constructor|].
  inversion HP; subst. constructor; auto.
Qed.

(** * Bytes of words *)
Lemma le_val_range bs : Forall is_byte bs → 0 <= le_val bs < 2 ^ (8 * zlen bs).
Proof.
  induction 1 as [|b bs Hb _ IH]; [done|]. cbn [le_val foldr]. fold (le_val bs).
  rewrite zlen_cons. replace (8 * (1 + zlen bs)) with (8 + 8 * zlen bs) by lia.
  rewrite Z.pow_add_r by zlia. unfold is_byte in Hb. lia.
Qed.

Lemma le_val_testbit bs i j :
  Forall is_byte bs → 0 <= j < 8 →
  Z.testbit (le_val bs) (8 * Z.of_nat i + j) = Z.testbit (nth i bs 0) j.
Proof.
  intros Hbs Hj. revert i. induction Hbs as [|b bs Hb Hbs IH]; intros i.
  { cbn. destruct i; by rewrite !Z.bits_0. }
  cbn [le_val foldr]. fold (le_val bs). unfold is_byte in Hb. destruct i as [|i]; cbn [nth].
  - rewrite Z.add_0_l. rewrite <- (Z.mod_pow2_bits_low (b + 256 * le_val bs) 8) by lia.
    f_equal. change 256 with (2 ^ 8). rewrite Z.mul_comm, Z.mod_add, Z.mod_small; lia.
  - rewrite <- IH. replace (8 * Z.of_nat (S i) + j) with ((8 * Z.of_nat i + j) + 8) by lia.
    rewrite <- Z.div_pow2_bits by lia. f_equal. change (2 ^ 8) with 256.
    rewrite Z.mul_comm, Z.div_add, Z.div_small; lia.
Qed.

Lemma Forall_ztake {A} (P : A → Prop) n l : Forall P l → Forall P (ztake n l).
Proof. apply Forall_take. Qed.

Lemma Forall_zdrop {A} (P : A → Prop) n l : Forall P l → Forall P (zdrop n l).
Proof. apply Forall_drop. Qed.

Lemma is_byte_u8 z : is_byte (u8 z).
Proof. apply (wrap_range 8). done. Qed.

Lemma be_bytes_bytes n z : Forall is_byte (be_bytes n z).
Proof. induction n as [|n IH]; constructor; auto using is_byte_u8. Qed.

Lemma le_bytes_bytes n z : Forall is_byte (le_bytes n z).
Proof. apply Forall_rev, be_bytes_bytes. Qed.

Lemma le_val_inj l k :
  Forall is_byte l → Forall is_byte k → length l = length k → le_val l = le_val k → l = k.
Proof.
  intros Hl. revert k. induction Hl as [|b l Hb Hl IH]; intros [|c k] Hk Hlen Heq; try done.
  inversion Hk as [|?? Hc Hk']; subst. cbn [le_val foldr] in Heq. fold (le_val l) (le_val k) in Heq.
  unfold is_byte in Hb, Hc. assert (b = c) by lia. f_equal; [done|]. apply IH; [done|by injection Hlen|lia].
Qed.

(** A fact about every number of a range, by trying all of them. *)
Lemma all_in_range (P : Z → Prop) `{∀ x, Decision (P x)} a n :
  bool_decide (Forall P (seqZ a n)) = true → ∀ x, a <= x < a + n → P x.
Proof. intros HP%bool_decide_eq_true x Hx. rewrite Forall_forall in HP. apply HP, elem_of_seqZ. lia. Qed.
