(* ===== verification/Skb.v ===== *)
(** * Socket buffers and message constants

    [sk_buff] is a linear kernel socket buffer: the bytes in front of the data
    (a pull leaves them in memory, where the header offsets still refer to
    them), the data bytes, the room behind them, the header offsets (measured
    from the start of the allocation, as the kernel does), and the part of the
    control block ([struct packet_cb] of kernel/queueing.h) and of the metadata
    that the transport code reads or writes.  The allocator is the kernel's: an
    allocation may be larger than requested ([kmalloc_size]), is not
    initialised ([kmalloc_junk]) and may fail; the failure is an input of the
    definitions that allocate. *)
From stdpp Require Import prelude list.
From S2P Require Import Prelude.

#[local] Open Scope Z_scope.

(** ** kernel/messages.h *)
Definition NOISE_PUBLIC_KEY_LEN := 32.
Definition NOISE_SYMMETRIC_KEY_LEN := 32.
Definition NOISE_TIMESTAMP_LEN := 12.
Definition NOISE_AUTHTAG_LEN := 16.
Definition NOISE_HASH_LEN := 32.
Definition COOKIE_LEN := 16.
Definition COOKIE_NONCE_LEN := 24.
Definition noise_encrypted_len (plain_len : Z) : Z := plain_len + NOISE_AUTHTAG_LEN.

Definition MAX_QUEUED_PACKETS := 1024.
Definition MAX_QUEUED_INCOMING_HANDSHAKES := 4096.
Definition MAX_STAGED_PACKETS := 128.

Definition MESSAGE_HANDSHAKE_INITIATION := 1.
Definition MESSAGE_HANDSHAKE_RESPONSE := 2.
Definition MESSAGE_HANDSHAKE_COOKIE := 3.
Definition MESSAGE_DATA := 4.

(** Sizes of the message structures of kernel/messages.h. *)
Definition sizeof_message_header := 4.
Definition sizeof_message_macs := 2 * COOKIE_LEN.
Definition sizeof_message_handshake_initiation :=
  sizeof_message_header + 4 + NOISE_PUBLIC_KEY_LEN
  + noise_encrypted_len NOISE_PUBLIC_KEY_LEN
  + noise_encrypted_len NOISE_TIMESTAMP_LEN + sizeof_message_macs.
Definition sizeof_message_handshake_response :=
  sizeof_message_header + 4 + 4 + NOISE_PUBLIC_KEY_LEN
  + noise_encrypted_len 0 + sizeof_message_macs.
Definition sizeof_message_handshake_cookie :=
  sizeof_message_header + 4 + COOKIE_NONCE_LEN + noise_encrypted_len COOKIE_LEN.
Definition sizeof_message_data := sizeof_message_header + 4 + 8.
Definition message_data_len (plain_len : Z) : Z :=
  noise_encrypted_len plain_len + sizeof_message_data.
Definition MESSAGE_PADDING_MULTIPLE := 16.
Definition MESSAGE_MINIMUM_LENGTH := message_data_len 0.

(** ** Buffers *)
Record packet_cb := mk_packet_cb {
  cb_nonce : Z;
  cb_tcp_connection_id : Z;
  cb_mtu : Z;
  cb_frag_id : Z;
  cb_frag_off : Z;
  cb_ds : Z;
  cb_outer_ipproto : Z;
}.

#[export] Instance eta_packet_cb : Settable packet_cb := λ c,
  mk_packet_cb (cb_nonce c) (cb_tcp_connection_id c) (cb_mtu c) (cb_frag_id c)
    (cb_frag_off c) (cb_ds c) (cb_outer_ipproto c).

Definition packet_cb_zero : packet_cb := mk_packet_cb 0 0 0 0 0 0 0.

Record sk_buff := mk_sk_buff {
  skb_head : list Z;
  skb_data : list Z;
  skb_tailroom : Z;
  skb_network_header : Z;
  skb_transport_header : Z;
  skb_protocol : Z;
  skb_iif : Z;
  PACKET_CB : packet_cb;
}.

#[export] Instance eta_sk_buff : Settable sk_buff := λ s,
  mk_sk_buff (skb_head s) (skb_data s) (skb_tailroom s)
    (skb_network_header s) (skb_transport_header s) (skb_protocol s)
    (skb_iif s) (PACKET_CB s).

Definition skb_headroom (s : sk_buff) : Z := zlen (skb_head s).
Definition skb_len (s : sk_buff) : Z := zlen (skb_data s).

(** The allocator rounds a request up to the size of its bucket and returns
    memory with arbitrary contents. *)
Class KernelMem := {
  kmalloc_size : Z → Z;
  kmalloc_junk : Z → list Z;
}.
Class KernelMemOk (K : KernelMem) : Prop := {
  kmalloc_size_ge : ∀ n, n <= kmalloc_size n;
  kmalloc_junk_len : ∀ n, 0 <= n → zlen (kmalloc_junk n) = n;
  kmalloc_junk_bytes : ∀ n, Forall is_byte (kmalloc_junk n);
}.

(** A concrete allocator: exact sizes, memory filled with a poison byte. *)
Definition exact_mem : KernelMem :=
  {| kmalloc_size := λ n, n; kmalloc_junk := λ n, replicate (Z.to_nat n) 0x6b |}.

#[export] Instance exact_mem_ok : KernelMemOk exact_mem.
Proof.
  split; cbn; intros n; [lia| |].
  - intros. unfold zlen. rewrite length_replicate. lia.
  - by apply Forall_replicate.
Qed.

Lemma skb_ext (s s' : sk_buff) :
  skb_head s = skb_head s' → skb_data s = skb_data s' → skb_tailroom s = skb_tailroom s' →
  skb_network_header s = skb_network_header s' →
  skb_transport_header s = skb_transport_header s' →
  skb_protocol s = skb_protocol s' → skb_iif s = skb_iif s' → PACKET_CB s = PACKET_CB s' →
  s = s'.
Proof. destruct s, s'; cbn; congruence. Qed.

Section skb_ops.
Context {K : KernelMem}.

Definition alloc_skb (size : Z) : sk_buff :=
  mk_sk_buff [] [] (kmalloc_size size) 0 0 0 0 packet_cb_zero.

(** [skb_reserve] is only called on an empty buffer. *)
Definition skb_reserve (s : sk_buff) (n : Z) : sk_buff :=
  s{{ skb_head := skb_head s ++ kmalloc_junk n; skb_tailroom := skb_tailroom s - n }}.

(** [skb_put] followed by a copy of [bs] into the new area. *)
Definition skb_put_data (s : sk_buff) (bs : list Z) : sk_buff :=
  s{{ skb_data := skb_data s ++ bs; skb_tailroom := skb_tailroom s - zlen bs }}.

(** [skb_pull] refuses to remove more than the buffer holds. *)
Definition skb_pull (s : sk_buff) (n : Z) : sk_buff :=
  if skb_len s <? n then s
  else s{{ skb_head := skb_head s ++ ztake n (skb_data s);
           skb_data := zdrop n (skb_data s) }}.

(** [skb_push] uncovers [n] bytes of the headroom.  The kernel panics when
    there are fewer, so its uses are shown to have [n <= skb_headroom s]. *)
Definition skb_push (s : sk_buff) (n : Z) : sk_buff :=
  let k := skb_headroom s - n in
  s{{ skb_head := ztake k (skb_head s);
      skb_data := zdrop k (skb_head s) ++ skb_data s }}.

(** Store [bs] over the bytes of the data from offset [off] on. *)
Definition skb_store (s : sk_buff) (off : Z) (bs : list Z) : sk_buff :=
  s{{ skb_data := ztake off (skb_data s) ++ bs
                  ++ zdrop (off + zlen bs) (skb_data s) }}.

Definition skb_trim (s : sk_buff) (n : Z) : sk_buff :=
  if n <? skb_len s
  then s{{ skb_data := ztake n (skb_data s);
           skb_tailroom := skb_tailroom s + (skb_len s - n) }}
  else s.

(** [skb_copy_expand] copies the data and the end of the headroom. *)
Definition skb_copy_expand (s : sk_buff) (newheadroom newtailroom : Z) : sk_buff :=
  let oldheadroom := skb_headroom s in
  let head_copy_len := Z.min oldheadroom newheadroom in
  let off := newheadroom - oldheadroom in
  s{{ skb_head := kmalloc_junk (newheadroom - head_copy_len)
                  ++ zdrop (oldheadroom - head_copy_len) (skb_head s);
      skb_tailroom := kmalloc_size (newheadroom + skb_len s + newtailroom)
                      - newheadroom - skb_len s;
      skb_network_header := skb_network_header s + off;
      skb_transport_header := skb_transport_header s + off }}.

Definition skb_reset_network_header (s : sk_buff) : sk_buff :=
  s{{ skb_network_header := skb_headroom s }}.
Definition skb_reset_transport_header (s : sk_buff) : sk_buff :=
  s{{ skb_transport_header := skb_headroom s }}.

(** Memory from an offset (counted from the start of the allocation) on, as
    [ip_hdr], [ipv6_hdr] and [udp_hdr] read it. *)
Definition skb_at (s : sk_buff) (off : Z) : list Z :=
  zdrop off (skb_head s ++ skb_data s).

Lemma skb_data_put s bs : skb_data (skb_put_data s bs) = skb_data s ++ bs.
Proof. reflexivity. Qed.

Lemma skb_data_pull s n :
  0 <= n <= skb_len s → skb_data (skb_pull s n) = zdrop n (skb_data s).
Proof. intros. unfold skb_pull. destruct (Z.ltb_spec (skb_len s) n); [lia|done]. Qed.

Lemma skb_pull_eq s n :
  0 <= n <= skb_len s →
  skb_pull s n = s{{ skb_head := skb_head s ++ ztake n (skb_data s);
                     skb_data := zdrop n (skb_data s) }}.
Proof. intros. unfold skb_pull. destruct (Z.ltb_spec (skb_len s) n); [lia|done]. Qed.

(** Pulling moves the boundary; the memory is the same. *)
Lemma skb_at_pull s n off : skb_at (skb_pull s n) off = skb_at s off.
Proof.
  unfold skb_pull, skb_at. case_if; [done|]. cbn.
  by rewrite <- app_assoc, ztake_zdrop.
Qed.

Lemma skb_data_trim s n :
  skb_data (skb_trim s n) = ztake n (skb_data s).
Proof.
  unfold skb_trim, skb_len. destruct (Z.ltb_spec n (zlen (skb_data s))); [done|].
  by rewrite ztake_all by lia.
Qed.

Lemma skb_data_trim_all s n : skb_len s <= n → skb_trim s n = s.
Proof. intros. unfold skb_trim. destruct (Z.ltb_spec n (skb_len s)); [lia|done]. Qed.

Lemma skb_headroom_pull s n :
  0 <= n <= skb_len s → skb_headroom (skb_pull s n) = skb_headroom s + n.
Proof.
  intros. rewrite skb_pull_eq by done. unfold skb_headroom, skb_len in *. cbn. zlia.
Qed.

(** Expanding with the headroom unchanged is a plain copy. *)
Lemma skb_head_expand {KOk : KernelMemOk K} s n :
  skb_head (skb_copy_expand s (skb_headroom s) n) = skb_head s.
Proof.
  unfold skb_copy_expand. cbn. rewrite Z.min_id, Z.sub_diag, zdrop_0.
  pose proof (kmalloc_junk_len 0). by rewrite (zlen_0_inv (kmalloc_junk 0)) by lia.
Qed.

Lemma skb_headroom_expand {KOk : KernelMemOk K} s n :
  skb_headroom (skb_copy_expand s (skb_headroom s) n) = skb_headroom s.
Proof. exact (f_equal zlen (skb_head_expand s n)). Qed.
End skb_ops.
