(* ===== verification/Net.v ===== *)
(** * Addresses, endpoints and sockets

    Socket addresses and [struct endpoint] (kernel/device.h) as tagged unions:
    the C code reads a union member only after testing the address family, so
    the constructor is the family and its arguments are the members of that
    family.  Addresses and ports are the host-order values of their
    network-order fields.  The comparison and conversion helpers of
    kernel/wg_tcp.c and kernel/socket.c follow. *)
From stdpp Require Import prelude list.
From S2P Require Import Prelude Skb.

#[local] Open Scope Z_scope.

Definition AF_INET := 2.
Definition AF_INET6 := 10.
Definition IPPROTO_TCP := 6.
Definition IPPROTO_UDP := 17.
Definition ETH_P_IP := 0x0800.
Definition ETH_P_IPV6 := 0x86DD.
Definition sizeof_sockaddr_in := 16.
Definition sizeof_sockaddr_in6 := 28.
Definition sizeof_udphdr := 8.
Definition sizeof_iphdr := 20.
Definition sizeof_ipv6hdr := 40.

Inductive sockaddr :=
  | SaUnspec
  | Sa4 (port addr : Z)
  | Sa6 (port addr scope_id : Z).

Inductive endpoint :=
  | EpUnspec
  | Ep4 (port addr src4 src_if4 : Z)
  | Ep6 (port addr scope_id src6 : Z).

#[export] Instance sockaddr_eq_dec : EqDecision sockaddr.
Proof. solve_decision. Defined.
#[export] Instance endpoint_eq_dec : EqDecision endpoint.
Proof. solve_decision. Defined.

(** The [addr] member of the union. *)
Definition ep_addr (e : endpoint) : sockaddr :=
  match e with
  | EpUnspec => SaUnspec
  | Ep4 port addr _ _ => Sa4 port addr
  | Ep6 port addr scope _ => Sa6 port addr scope
  end.

Definition sa_family (a : sockaddr) : Z :=
  match a with SaUnspec => 0 | Sa4 _ _ => AF_INET | Sa6 _ _ _ => AF_INET6 end.

(** [ipv6_addr_type(addr) & IPV6_ADDR_LINKLOCAL]: the prefix fe80::/10. *)
Definition ipv6_link_local (addr : Z) : bool := Z.shiftr addr 118 =? 0x3fa.

(** [ipv6_iface_scope_id]: the interface for addresses that need a scope. *)
Definition ipv6_iface_scope_id (addr iface : Z) : Z :=
  if ipv6_link_local addr then iface else 0.

(** ** Comparisons *)
Definition endpoint_eq (a b : endpoint) : bool :=
  match a, b with
  | Ep4 ap aa asrc aif, Ep4 bp ba bsrc bif =>
      (ap =? bp) && (aa =? ba) && (asrc =? bsrc) && (aif =? bif)
  | Ep6 ap aa ascope asrc, Ep6 bp ba bscope bsrc =>
      (ap =? bp) && (aa =? ba) && (ascope =? bscope) && (asrc =? bsrc)
  | EpUnspec, EpUnspec => true
  | _, _ => false
  end.

Definition wg_tcp_dial_target_eq (a b : endpoint) : bool :=
  match a, b with
  | Ep4 ap aa _ _, Ep4 bp ba _ _ => (ap =? bp) && (aa =? ba)
  | Ep6 ap aa ascope _, Ep6 bp ba bscope _ =>
      (ap =? bp) && (aa =? ba) && (ascope =? bscope)
  | _, _ => false
  end.

Definition wg_sockaddrs_match (a b : sockaddr) : bool :=
  match a, b with
  | Sa4 ap aa, Sa4 bp ba => (ap =? bp) && (aa =? ba)
  | Sa6 ap aa ascope, Sa6 bp ba bscope =>
      (ap =? bp) && (aa =? ba) &&
      (negb (ipv6_link_local aa) || negb (ipv6_link_local ba) || (ascope =? bscope))
  | _, _ => false
  end.

Definition wg_sockaddrs_same_host (a b : sockaddr) : bool :=
  match a, b with
  | Sa4 _ aa, Sa4 _ ba => aa =? ba
  | Sa6 _ aa ascope, Sa6 _ ba bscope =>
      (aa =? ba) && (negb (ipv6_link_local aa) || (ascope =? bscope))
  | _, _ => false
  end.

Definition wg_sockaddr_length_valid (addr : sockaddr) (length : Z) : bool :=
  match addr with
  | Sa4 _ _ => sizeof_sockaddr_in <=? length
  | Sa6 _ _ _ => sizeof_sockaddr_in6 <=? length
  | SaUnspec => false
  end.

Definition wg_endpoints_match (a b : endpoint) : bool :=
  wg_sockaddrs_match (ep_addr a) (ep_addr b).

(** ** Sockets

    The fields of [struct sock] and [struct inet_sock] read by the transport. *)
Record sock := mk_sock {
  sk_family : Z;
  inet_saddr : Z;
  inet_sport : Z;
  inet_daddr : Z;
  inet_dport : Z;
  sk_v6_saddr : Z;
  sk_v6_rcv_saddr : Z;
  sk_v6_daddr : Z;
  sk_bound_dev_if : Z;
}.

(** [wg_extract_endpoint_from_sock]: the remote end of a connected socket. *)
Definition wg_extract_endpoint_from_sock (sk : sock) : endpoint :=
  if sk_family sk =? AF_INET then Ep4 (inet_dport sk) (inet_daddr sk) 0 0
  else if sk_family sk =? AF_INET6 then
    Ep6 (inet_dport sk) (sk_v6_daddr sk)
      (if ipv6_link_local (sk_v6_daddr sk) then sk_bound_dev_if sk else 0) 0
  else EpUnspec.

(** [wg_get_endpoint_from_socket] leaves [ep] alone when the socket has no
    remote address. *)
Definition wg_get_endpoint_from_socket (sk : sock) (ep : endpoint) : endpoint :=
  if sk_family sk =? AF_INET then
    if (inet_daddr sk =? 0) || (inet_dport sk =? 0) then ep
    else Ep4 (inet_dport sk) (inet_daddr sk) (inet_saddr sk) (sk_bound_dev_if sk)
  else if sk_family sk =? AF_INET6 then
    if (sk_v6_daddr sk =? 0) || (inet_dport sk =? 0) then ep
    else Ep6 (inet_dport sk) (sk_v6_daddr sk)
           (ipv6_iface_scope_id (sk_v6_rcv_saddr sk) (sk_bound_dev_if sk))
           (sk_v6_rcv_saddr sk)
  else ep.

(** [copy_sock_addresses]: local and remote address of a socket.  The two
    [getname] calls are inputs: a negative errno, or a length with the address
    written. *)
Definition copy_sock_addresses (local remote : result (Z * sockaddr))
    : Z * sockaddr * sockaddr :=
  match local with
  | Err e => (e, SaUnspec, SaUnspec)
  | Ok (local_len, src) =>
      if negb (wg_sockaddr_length_valid src local_len) then (-EINVAL, src, SaUnspec)
      else
        match remote with
        | Err e => (e, src, SaUnspec)
        | Ok (remote_len, dst) =>
            if negb (wg_sockaddr_length_valid dst remote_len) then (-EINVAL, src, dst)
            else if negb (sa_family src =? sa_family dst) then (-EAFNOSUPPORT, src, dst)
            else (0, src, dst)
        end
  end.

(** Fields within their widths. *)
Definition is_port (z : Z) : Prop := 0 <= z < 2 ^ 16.
Definition is_addr4 (z : Z) : Prop := 0 <= z < 256 ^ 4.
Definition is_addr6 (z : Z) : Prop := 0 <= z < 256 ^ 16.

Definition wf_sockaddr (a : sockaddr) : Prop :=
  match a with
  | SaUnspec => True
  | Sa4 port addr => is_port port ∧ is_addr4 addr
  | Sa6 port addr _ => is_port port ∧ is_addr6 addr
  end.

Definition wf_sock (sk : sock) : Prop :=
  is_port (inet_sport sk) ∧ is_port (inet_dport sk) ∧
  is_addr4 (inet_saddr sk) ∧ is_addr4 (inet_daddr sk) ∧
  is_addr6 (sk_v6_saddr sk) ∧ is_addr6 (sk_v6_daddr sk).

#[export] Instance wf_sock_dec sk : Decision (wf_sock sk).
Proof. unfold wf_sock, is_port, is_addr4, is_addr6. apply _. Defined.

(** ** Facts *)
Lemma endpoint_eq_spec a b : endpoint_eq a b = true ↔ a = b.
Proof.
  destruct a, b; cbn; rewrite ?andb_true_iff, ?Z.eqb_eq;
    (split; [intros; destruct_and?; congruence|by inversion 1]).
Qed.

Lemma sockaddrs_same_host_spec a b :
  wg_sockaddrs_same_host a b = true ↔
  match a, b with
  | Sa4 _ aa, Sa4 _ ba => aa = ba
  | Sa6 _ aa sa, Sa6 _ ba sb => aa = ba ∧ (ipv6_link_local aa = true → sa = sb)
  | _, _ => False
  end.
Proof.
  destruct a, b; cbn; try (split; [done|done || tauto]); [by rewrite Z.eqb_eq|].
  rewrite andb_true_iff, orb_true_iff, negb_true_iff, !Z.eqb_eq.
  destruct (ipv6_link_local _); intuition congruence.
Qed.

(** Being the same host is an equivalence on addresses that have a family. *)
Lemma sockaddrs_same_host_refl a : a ≠ SaUnspec → wg_sockaddrs_same_host a a = true.
Proof. intros. apply sockaddrs_same_host_spec. by destruct a. Qed.

Lemma sockaddrs_same_host_sym a b :
  wg_sockaddrs_same_host a b = wg_sockaddrs_same_host b a.
Proof.
  apply eq_true_iff_eq. rewrite !sockaddrs_same_host_spec.
  destruct a, b; split; naive_solver.
Qed.

Lemma sockaddrs_same_host_trans a b c :
  wg_sockaddrs_same_host a b = true → wg_sockaddrs_same_host b c = true →
  wg_sockaddrs_same_host a c = true.
Proof. rewrite !sockaddrs_same_host_spec. destruct a, b, c; naive_solver congruence. Qed.
