(* ===== verification/TcpFrame.v ===== *)
(** * The TCP record format (kernel/wg_tcp.c, kernel/socket.h)

    A WireGuard message travels over TCP as one record: an eight byte
    encapsulation header (total length, type, flags, checksum), an optional
    four byte fragment header, and the message.  This file models the header
    checksum, the frame builder, the validity test a reader applies to eight
    candidate bytes and the scan for the next valid header, and proves what
    the reader relies on: built frames are recognised and decoded back, a
    header with a corrupted byte is not, and neither is a position inside the
    0xa5 prefix of the fault-injection build. *)
From stdpp Require Import prelude list.
From S2P Require Import Prelude Skb.

#[local] Open Scope Z_scope.

(** ** Constants and structures of kernel/socket.h *)
Record wg_tcp_encap_header := mk_encap_header {
  hdr_length : Z;
  hdr_type : Z;
  hdr_flags : Z;
  hdr_checksum : Z;
}.

Record wg_tcp_frag_header := mk_frag_header {
  fh_id : Z;
  fh_frag_off : Z;
}.

Definition WG_TCP_ENCAP_HDR_LEN := 8.
Definition WG_TCP_FRAG_HDR_LEN := 4.
Definition WG_MAX_PACKET_SIZE := 65535 + WG_TCP_ENCAP_HDR_LEN.
Definition WG_TCP_SKB_READ_ALLOC_SIZE := 8192 * 3.
Definition WG_TCP_RESERVED_HEADER_SIZE := 128.
Definition WG_TCP_RECORD_DATA := 0.
Definition WG_TCP_FRAG_FLAG := 1.

(** The structures in memory: multi-byte fields are in network order. *)
Definition encap_header_bytes (h : wg_tcp_encap_header) : list Z :=
  be32 (hdr_length h) ++ [hdr_type h; hdr_flags h] ++ be16 (hdr_checksum h).

Definition frag_header_bytes (h : wg_tcp_frag_header) : list Z :=
  be16 (fh_id h) ++ be16 (fh_frag_off h).

(** [memcpy] of the first bytes of a buffer into a header. *)
Definition encap_header_of (bs : list Z) : wg_tcp_encap_header :=
  mk_encap_header (be_val (ztake 4 bs)) (nth 4 bs 0) (nth 5 bs 0)
    (be_val (ztake 2 (zdrop 6 bs))).

Definition frag_header_of (bs : list Z) : wg_tcp_frag_header :=
  mk_frag_header (be_val (ztake 2 bs)) (be_val (ztake 2 (zdrop 2 bs))).

(** ** Header checksum *)

(** The 16-bit value mixed from length, flags and type before the rotation. *)
Definition header_mix (length type flags : Z) : Z :=
  let checksum := 0 in
  let checksum := Z.lxor checksum (Z.land (Z.shiftr length 16) 0xFFFF) in
  let checksum := Z.lxor checksum (Z.land length 0xFFFF) in
  u16 (Z.lxor checksum (Z.lor (Z.shiftl flags 8) type)).

Definition wg_header_checksum (hdr : wg_tcp_encap_header) : Z :=
  let checksum := header_mix (hdr_length hdr) (hdr_type hdr) (hdr_flags hdr) in
  let checksum :=
    u16 (Z.lor (Z.shiftl checksum 5) (Z.shiftr checksum (16 - 5))) in
  u16 (Z.lxor checksum 0xA5A5).

Definition wg_validate_header_checksum (hdr : wg_tcp_encap_header) : bool :=
  wg_header_checksum hdr =? hdr_checksum hdr.

(** ** Validity of eight candidate bytes *)
Definition wg_check_potential_header_validity
    (hdr : list Z) (remaining_len : Z) : bool :=
  let minimum_len := WG_TCP_ENCAP_HDR_LEN + MESSAGE_MINIMUM_LENGTH in
  if remaining_len <? WG_TCP_ENCAP_HDR_LEN then false else
  let candidate := encap_header_of hdr in
  if negb (wg_validate_header_checksum candidate) then false else
  if negb (hdr_type candidate =? WG_TCP_RECORD_DATA) then false else
  if negb (Z.land (hdr_flags candidate) (Z.lnot WG_TCP_FRAG_FLAG) =? 0)
  then false else
  let minimum_len :=
    if negb (Z.land (hdr_flags candidate) WG_TCP_FRAG_FLAG =? 0)
    then minimum_len + WG_TCP_FRAG_HDR_LEN else minimum_len in
  let total_len := hdr_length candidate in
  (minimum_len <=? total_len) && (total_len <=? WG_MAX_PACKET_SIZE).

(** ** Frame builder *)

(** Knobs of the fault-injection build; a production build is the one in which
    all of them are zero, and then every helper returns its constant. *)
Record wg_tcp_test_params := mk_test_params {
  wg_tcp_test_max_send_bytes : Z;
  wg_tcp_test_garbage_prefix_bytes : Z;
  wg_tcp_test_queue_limit : Z;
}.

Definition production : wg_tcp_test_params := mk_test_params 0 0 0.

Definition WG_TCP_TEST_MAX_GARBAGE_PREFIX := 64.

Definition wg_tcp_test_send_len (t : wg_tcp_test_params) (frame_len : Z) : Z :=
  let configured := wg_tcp_test_max_send_bytes t in
  if negb (configured =? 0) then Z.min configured frame_len else frame_len.

Definition wg_tcp_test_prefix_len (t : wg_tcp_test_params) : Z :=
  Z.min (wg_tcp_test_garbage_prefix_bytes t) WG_TCP_TEST_MAX_GARBAGE_PREFIX.

Definition wg_tcp_test_effective_queue_limit (t : wg_tcp_test_params) : Z :=
  let configured := wg_tcp_test_queue_limit t in
  if negb (configured =? 0) && (configured <? MAX_QUEUED_PACKETS)
  then configured else MAX_QUEUED_PACKETS.

Section build.
Context {K : KernelMem} (t : wg_tcp_test_params).

(** [alloc_ok] and [copy_ok] are the outcomes of [alloc_skb] and of
    [skb_copy_bits]. *)
Definition wg_tcp_build_frame (alloc_ok copy_ok : bool) (payload : sk_buff)
    : result sk_buff :=
  let fragmented := negb (cb_frag_off (PACKET_CB payload) =? 0) in
  let prefix_len := wg_tcp_test_prefix_len t in
  if skb_len payload <? MESSAGE_MINIMUM_LENGTH then Err (-EINVAL) else
  let flags := if fragmented then WG_TCP_FRAG_FLAG else 0 in
  let frag_header := mk_frag_header (cb_frag_id (PACKET_CB payload))
                       (cb_frag_off (PACKET_CB payload)) in
  let header_len :=
    if fragmented then WG_TCP_ENCAP_HDR_LEN + WG_TCP_FRAG_HDR_LEN
    else WG_TCP_ENCAP_HDR_LEN in
  if WG_MAX_PACKET_SIZE - header_len <? skb_len payload
  then Err (-EMSGSIZE) else
  let total_len := header_len + skb_len payload in
  let encap_header := mk_encap_header (u32 total_len) WG_TCP_RECORD_DATA flags 0 in
  let encap_header := mk_encap_header (u32 total_len) WG_TCP_RECORD_DATA flags
                        (wg_header_checksum encap_header) in
  if negb alloc_ok then Err (-ENOMEM) else
  let frame := alloc_skb (prefix_len + total_len) in
  let frame :=
    if negb (prefix_len =? 0)
    then skb_put_data frame (replicate (Z.to_nat prefix_len) 0xa5) else frame in
  let frame := skb_put_data frame (encap_header_bytes encap_header) in
  let frame :=
    if fragmented then skb_put_data frame (frag_header_bytes frag_header)
    else frame in
  if negb copy_ok then Err (-EINVAL) else
  Ok (skb_put_data frame (skb_data payload)).
End build.

(** ** Resynchronisation scan *)

(** First offset, from [i] on, at which a valid header starts; [n] bounds the
    number of candidates (the loop condition of [wg_sync_header]). *)
Fixpoint sync_scan (n : nat) (bs : list Z) (i received_len : Z) : option Z :=
  match n with
  | O => None
  | S n =>
      if wg_check_potential_header_validity (zdrop i bs) (received_len - i)
      then Some i
      else sync_scan n bs (i + 1) received_len
  end.

(** Bytes kept when no candidate is valid: a possible header prefix. *)
Definition sync_suffix (bs : list Z) (received_len : Z) : list Z :=
  let suffix_len := Z.min received_len (WG_TCP_ENCAP_HDR_LEN - 1) in
  ztake suffix_len (zdrop (received_len - suffix_len) bs).

(** ** Checksum facts *)
Definition is_u16 (z : Z) : Prop := 0 <= z < 2 ^ 16.

Lemma header_mix_words l t f :
  0 <= l < 2 ^ 32 → is_byte t → is_byte f →
  header_mix l t f =
    Z.lxor (Z.lxor (l / 2 ^ 16) (l mod 2 ^ 16)) (f * 2 ^ 8 + t).
Proof.
  intros Hl Ht Hf. unfold header_mix.
  rewrite Z.lxor_0_l, Z.shiftr_div_pow2, lor_shiftl_add by (unfold is_byte in *; lia).
  change 0xFFFF with (Z.ones 16). rewrite !Z.land_ones by lia.
  unfold u16. rewrite !wrap_lxor by lia. unfold wrap, is_byte in *.
  rewrite !Z.mod_mod by lia. f_equal; [f_equal|]; apply Z.mod_small; div_mod_lia.
Qed.

Lemma header_mix_range l t f : is_u16 (header_mix l t f).
Proof. apply (wrap_range 16). lia. Qed.

(** The rotation of a 16-bit word, in closed form. *)
Lemma rotate5 x :
  is_u16 x →
  u16 (Z.lor (Z.shiftl x 5) (Z.shiftr x (16 - 5))) = x mod 2 ^ 11 * 2 ^ 5 + x / 2 ^ 11.
Proof.
  intros Hx. unfold is_u16 in *. rewrite Z.shiftr_div_pow2 by lia.
  rewrite lor_shiftl_add by div_mod_lia. unfold u16, wrap. cbn -[Z.mul Z.add]. div_mod_lia.
Qed.

Lemma header_checksum_mix h1 h2 :
  wg_header_checksum h1 = wg_header_checksum h2 →
  header_mix (hdr_length h1) (hdr_type h1) (hdr_flags h1) =
  header_mix (hdr_length h2) (hdr_type h2) (hdr_flags h2).
Proof.
  unfold wg_header_checksum.
  pose proof (header_mix_range (hdr_length h1) (hdr_type h1) (hdr_flags h1)) as H1.
  pose proof (header_mix_range (hdr_length h2) (hdr_type h2) (hdr_flags h2)) as H2.
  rewrite !rotate5 by done. unfold is_u16 in *. unfold u16.
  rewrite !wrap_lxor by lia. intros Heq%lxor_cancel_r.
  rewrite !wrap_small in Heq by div_mod_lia. div_mod_lia.
Qed.

(** The stored checksum is not an input of the computed one. *)
Lemma header_checksum_ext l t f c c' :
  wg_header_checksum (mk_encap_header l t f c) =
  wg_header_checksum (mk_encap_header l t f c').
Proof. unfold wg_header_checksum. cbn [hdr_length hdr_type hdr_flags]. reflexivity. Qed.

Lemma header_checksum_range h : is_u16 (wg_header_checksum h).
Proof. apply (wrap_range 16). lia. Qed.

(** ** Reading back a header *)
Lemma encap_header_of_bytes h rest :
  0 <= hdr_length h < 2 ^ 32 → is_u16 (hdr_checksum h) →
  encap_header_of (encap_header_bytes h ++ rest) = h.
Proof.
  intros Hl Hc. destruct h as [l t f c]. unfold encap_header_bytes, encap_header_of.
  cbn [hdr_length hdr_type hdr_flags hdr_checksum] in *.
  change (ztake 4 _) with (be32 l). change (ztake 2 _) with (be16 c).
  by rewrite be32_val, be16_val by done.
Qed.

Lemma zlen_encap_header_bytes h : zlen (encap_header_bytes h) = WG_TCP_ENCAP_HDR_LEN.
Proof. reflexivity. Qed.

Lemma zlen_frag_header_bytes h : zlen (frag_header_bytes h) = WG_TCP_FRAG_HDR_LEN.
Proof. reflexivity. Qed.

Lemma frag_header_of_bytes h rest :
  is_u16 (fh_id h) → is_u16 (fh_frag_off h) →
  frag_header_of (frag_header_bytes h ++ rest) = h.
Proof.
  intros Hi Ho. destruct h as [i o]. unfold frag_header_bytes, frag_header_of.
  cbn [fh_id fh_frag_off] in *. change (ztake 2 (_ ++ rest)) with (be16 i).
  change (ztake 2 _) with (be16 o). by rewrite !be16_val by done.
Qed.

Lemma encap_header_of_prefix bs rest :
  WG_TCP_ENCAP_HDR_LEN <= zlen bs → encap_header_of (bs ++ rest) = encap_header_of bs.
Proof.
  unfold WG_TCP_ENCAP_HDR_LEN. intros. unfold encap_header_of.
  rewrite ztake_app_le, zdrop_app_le, ztake_app_le by zlia.
  by rewrite !app_nth1 by (unfold zlen in *; lia).
Qed.

(** A candidate is judged by its first eight bytes only. *)
Lemma check_validity_prefix bs rest r r' :
  WG_TCP_ENCAP_HDR_LEN <= zlen bs →
  WG_TCP_ENCAP_HDR_LEN <= r → WG_TCP_ENCAP_HDR_LEN <= r' →
  wg_check_potential_header_validity (bs ++ rest) r =
  wg_check_potential_header_validity bs r'.
Proof.
  intros Hbs Hr Hr'. unfold wg_check_potential_header_validity.
  rewrite encap_header_of_prefix by done.
  by rewrite (proj2 (Z.ltb_ge r _)), (proj2 (Z.ltb_ge r' _)) by done.
Qed.

(** What a successful check establishes. *)
Lemma check_validity_spec bs r :
  wg_check_potential_header_validity bs r = true ↔
  let h := encap_header_of bs in
  WG_TCP_ENCAP_HDR_LEN <= r ∧ wg_header_checksum h = hdr_checksum h ∧
  hdr_type h = WG_TCP_RECORD_DATA ∧
  Z.land (hdr_flags h) (Z.lnot WG_TCP_FRAG_FLAG) = 0 ∧
  WG_TCP_ENCAP_HDR_LEN + MESSAGE_MINIMUM_LENGTH
    + (if Z.land (hdr_flags h) WG_TCP_FRAG_FLAG =? 0 then 0 else WG_TCP_FRAG_HDR_LEN)
    <= hdr_length h <= WG_MAX_PACKET_SIZE.
Proof.
  unfold wg_check_potential_header_validity, wg_validate_header_checksum. cbn zeta.
  destruct (Z.ltb_spec r WG_TCP_ENCAP_HDR_LEN); [split; [done|lia]|].
  destruct (Z.eqb_spec (wg_header_checksum (encap_header_of bs))
              (hdr_checksum (encap_header_of bs))); cbn [negb]; [|split; [done|tauto]].
  destruct (Z.eqb_spec (hdr_type (encap_header_of bs)) WG_TCP_RECORD_DATA);
    cbn [negb]; [|split; [done|tauto]].
  destruct (Z.eqb_spec (Z.land (hdr_flags (encap_header_of bs))
     (Z.lnot WG_TCP_FRAG_FLAG)) 0); cbn [negb]; [|split; [done|tauto]].
  destruct (Z.land (hdr_flags (encap_header_of bs)) WG_TCP_FRAG_FLAG =? 0);
    cbn [negb]; rewrite andb_true_iff, !Z.leb_le; intuition lia.
Qed.

(** ** Corruption of a header byte *)

(** Destruct a list of known length. *)
Ltac explode l :=
  repeat (destruct l as [|? l]; [try (cbv in *; lia)|]);
  try (exfalso; match goal with H : _ |- _ => rewrite ?zlen_cons in H end; zlia).

Definition word (a b : Z) : Z := a * 2 ^ 8 + b.

Lemma encap_header_of_8 b0 b1 b2 b3 b4 b5 b6 b7 :
  encap_header_of [b0; b1; b2; b3; b4; b5; b6; b7] =
  mk_encap_header (be_val [b0; b1; b2; b3]) b4 b5 (word b6 b7).
Proof. reflexivity. Qed.

Lemma header_checksum_words bs b0 b1 b2 b3 b4 b5 b6 b7 :
  bs = [b0; b1; b2; b3; b4; b5; b6; b7] → Forall is_byte bs →
  wg_validate_header_checksum (encap_header_of bs) = true →
  header_mix (be_val [b0; b1; b2; b3]) b4 b5 =
    Z.lxor (Z.lxor (word b0 b1) (word b2 b3)) (word b5 b4) ∧
  wg_header_checksum (mk_encap_header (be_val [b0; b1; b2; b3]) b4 b5 0) = word b6 b7.
Proof.
  intros -> Hb Hv%Z.eqb_eq. repeat apply Forall_cons in Hb as [? Hb]. unfold is_byte in *.
  rewrite encap_header_of_8 in Hv. cbn [hdr_checksum] in Hv.
  split; [|rewrite <- Hv; apply header_checksum_ext].
  rewrite header_mix_words by (unfold is_byte; cbn -[Z.mul Z.add]; lia).
  unfold word. cbn -[Z.mul Z.add Z.lxor]. f_equal. f_equal; div_mod_lia.
Qed.

Lemma word_inj a b a' b' :
  is_byte a → is_byte b → is_byte a' → is_byte b' →
  word a b = word a' b' → a = a' ∧ b = b'.
Proof. unfold word, is_byte. intros. lia. Qed.

Ltac cancel_lxor H :=
  lazymatch type of H with
  | Z.lxor ?a ?b = Z.lxor ?c ?b => apply lxor_cancel_r in H
  | Z.lxor ?a ?b = Z.lxor ?a ?c => apply lxor_cancel_l in H
  end.

(** C18: a header in which exactly one of the eight bytes was altered fails the
    checksum test, whichever byte it is (length, type, flags or the checksum
    itself). *)
Theorem header_corruption_detected (bs : list Z) (j : nat) (b : Z) :
  length bs = 8%nat → Forall is_byte bs → is_byte b →
  (j < 8)%nat → bs !! j ≠ Some b →
  wg_validate_header_checksum (encap_header_of bs) = true →
  wg_validate_header_checksum (encap_header_of (<[j:=b]> bs)) = false.
Proof.
  intros Hlen Hbs Hb Hj Hne Hv. apply not_true_iff_false. intros Hv'. apply Hne. clear Hne.
  destruct bs as [|b0 [|b1 [|b2 [|b3 [|b4 [|b5 [|b6 [|b7 [|]]]]]]]]]; try done.
  pose proof (header_checksum_words _ _ _ _ _ _ _ _ _ eq_refl Hbs Hv) as [Hm Hc].
  pose proof (Forall_insert is_byte _ j b Hbs Hb) as Hbs'.
  destruct j as [|[|[|[|[|[|[|[|j]]]]]]]]; [..|lia].
  all: pose proof (header_checksum_words _ _ _ _ _ _ _ _ _ eq_refl Hbs' Hv') as [Hm' Hc'].
  all: repeat apply Forall_cons in Hbs as [? Hbs].
  all: try (rewrite <- Hc in Hc'; apply header_checksum_mix in Hc';
    cbn [hdr_length hdr_type hdr_flags] in Hc'; rewrite Hm, Hm' in Hc').
  all: repeat cancel_lxor Hc'.
  all: try (rewrite Hc in Hc').
  all: apply word_inj in Hc' as [? ?]; [subst; reflexivity|done..].
Qed.

Lemma header_corruption_detected_witness :
  wg_validate_header_checksum (encap_header_of [0; 0; 0; 40; 0; 0; 160; 165]) = true ∧
  wg_validate_header_checksum (encap_header_of [0; 0; 0; 41; 0; 0; 160; 165]) = false.
Proof.
  assert (wg_validate_header_checksum (encap_header_of [0; 0; 0; 40; 0; 0; 160; 165]) = true)
    as H by reflexivity.
  split; [exact H|].
  apply (header_corruption_detected [0; 0; 0; 40; 0; 0; 160; 165] 3 41);
    [done|by repeat constructor|done|lia|done|exact H].
Defined.

(** ** Records

    The abstract view of a frame: a message with its fragment fields. *)
Record tcp_record := mk_record {
  rec_payload : list Z;
  rec_frag_id : Z;
  rec_frag_off : Z;
}.

Definition rec_fragmented (r : tcp_record) : bool := negb (rec_frag_off r =? 0).

Definition rec_header_len (r : tcp_record) : Z :=
  if rec_fragmented r then WG_TCP_ENCAP_HDR_LEN + WG_TCP_FRAG_HDR_LEN
  else WG_TCP_ENCAP_HDR_LEN.

Definition rec_total_len (r : tcp_record) : Z := rec_header_len r + zlen (rec_payload r).

Definition rec_header (r : tcp_record) : wg_tcp_encap_header :=
  let flags := if rec_fragmented r then WG_TCP_FRAG_FLAG else 0 in
  mk_encap_header (rec_total_len r) WG_TCP_RECORD_DATA flags
    (wg_header_checksum
       (mk_encap_header (rec_total_len r) WG_TCP_RECORD_DATA flags 0)).

Definition encode_record (r : tcp_record) : list Z :=
  encap_header_bytes (rec_header r) ++
  (if rec_fragmented r
   then frag_header_bytes (mk_frag_header (rec_frag_id r) (rec_frag_off r)) else []) ++
  rec_payload r.

(** Records a sender can put on the wire: the message is at least a keepalive
    and the frame fits; an unfragmented message carries no fragment id. *)
Definition sendable (r : tcp_record) : Prop :=
  MESSAGE_MINIMUM_LENGTH <= zlen (rec_payload r) ∧
  rec_total_len r <= WG_MAX_PACKET_SIZE ∧
  is_u16 (rec_frag_id r) ∧ is_u16 (rec_frag_off r) ∧
  (rec_frag_off r = 0 → rec_frag_id r = 0).

#[export] Instance sendable_dec r : Decision (sendable r).
Proof. unfold sendable, is_u16. apply _. Defined.

(** The record a socket buffer stands for. *)
Definition record_of_skb (s : sk_buff) : tcp_record :=
  let off := cb_frag_off (PACKET_CB s) in
  mk_record (skb_data s) (if off =? 0 then 0 else cb_frag_id (PACKET_CB s)) off.

Lemma rec_header_len_cases r :
  rec_header_len r = 8 ∧ rec_frag_off r = 0 ∨ rec_header_len r = 12 ∧ rec_frag_off r ≠ 0.
Proof.
  unfold rec_header_len, rec_fragmented, WG_TCP_ENCAP_HDR_LEN, WG_TCP_FRAG_HDR_LEN.
  destruct (Z.eqb_spec (rec_frag_off r) 0); cbn [negb]; [left|right]; lia.
Qed.

Lemma zlen_encode_record r : zlen (encode_record r) = rec_total_len r.
Proof.
  unfold encode_record, rec_total_len, rec_header_len.
  rewrite !zlen_app, zlen_encap_header_bytes.
  destruct (rec_fragmented r); rewrite ?zlen_frag_header_bytes; zlia.
Qed.

Lemma rec_header_valid r rest n :
  sendable r → WG_TCP_ENCAP_HDR_LEN <= n →
  wg_check_potential_header_validity (encode_record r ++ rest) n = true ∧
  encap_header_of (encode_record r ++ rest) = rec_header r.
Proof.
  intros (Hmin & Hmax & _) Hn. unfold encode_record. rewrite <- !app_assoc.
  pose proof (rec_header_len_cases r) as Hc. unfold rec_total_len in Hmax.
  assert (encap_header_of (encap_header_bytes (rec_header r) ++
    (if rec_fragmented r
     then frag_header_bytes (mk_frag_header (rec_frag_id r) (rec_frag_off r)) else []) ++
    rec_payload r ++ rest) = rec_header r) as Heq.
  { apply encap_header_of_bytes; [|apply header_checksum_range].
    unfold rec_header, rec_total_len, WG_MAX_PACKET_SIZE, WG_TCP_ENCAP_HDR_LEN in *.
    cbn [hdr_length]. zlia. }
  split; [|done]. apply check_validity_spec. cbn zeta. rewrite Heq.
  split; [done|]. split; [apply header_checksum_ext|]. split; [done|].
  cbn [rec_header hdr_flags hdr_length]. unfold rec_total_len in *.
  unfold rec_fragmented, rec_header_len, rec_fragmented in *.
  destruct (Z.eqb_spec (rec_frag_off r) 0); (split; [reflexivity|]); cbn [negb] in *;
    change (Z.land _ WG_TCP_FRAG_FLAG =? 0) with true ||
    change (Z.land _ WG_TCP_FRAG_FLAG =? 0) with false; cbv iota; zlia.
Qed.

Section build_spec.
Context {K : KernelMem} (t : wg_tcp_test_params).

(** The functional behaviour of the frame builder on all of its branches. *)
Lemma build_frame_spec alloc_ok copy_ok s :
  0 <= wg_tcp_test_prefix_len t →
  let r := record_of_skb s in
  match wg_tcp_build_frame t alloc_ok copy_ok s with
  | Err e =>
      e = -EINVAL ∧ (skb_len s < MESSAGE_MINIMUM_LENGTH ∨ copy_ok = false) ∨
      e = -EMSGSIZE ∧ WG_MAX_PACKET_SIZE < rec_total_len r ∨
      e = -ENOMEM ∧ alloc_ok = false
  | Ok frame =>
      MESSAGE_MINIMUM_LENGTH <= skb_len s ∧ rec_total_len r <= WG_MAX_PACKET_SIZE ∧
      skb_data frame =
        replicate (Z.to_nat (wg_tcp_test_prefix_len t)) 0xa5 ++ encode_record r
  end.
Proof.
  intros Hp r. subst r. unfold wg_tcp_build_frame. cbn zeta.
  destruct (Z.ltb_spec (skb_len s) MESSAGE_MINIMUM_LENGTH) as [?|Hmin]; [left; tauto|].
  set (r := record_of_skb s).
  assert (negb (cb_frag_off (PACKET_CB s) =? 0) = rec_fragmented r) as Hf by done.
  rewrite Hf. change (if rec_fragmented r then _ else WG_TCP_ENCAP_HDR_LEN)
    with (rec_header_len r).
  assert (skb_len s = zlen (rec_payload r)) as Hl by done. rewrite Hl.
  destruct (Z.ltb_spec (WG_MAX_PACKET_SIZE - rec_header_len r) (zlen (rec_payload r)));
    [right; left; split; [done|]; unfold rec_total_len; lia|].
  destruct alloc_ok; cbn [negb]; [|tauto]. destruct copy_ok; cbn [negb]; [|tauto].
  split_and!; [by rewrite <- Hl|unfold rec_total_len; lia|].
  assert (u32 (rec_header_len r + zlen (rec_payload r)) = rec_total_len r) as Hu.
  { unfold rec_total_len. apply wrap_small. pose proof (rec_header_len_cases r).
    unfold WG_MAX_PACKET_SIZE, WG_TCP_ENCAP_HDR_LEN in *. zlia. }
  rewrite Hu. rewrite skb_data_put.
  assert (rec_fragmented r = true → rec_frag_id r = cb_frag_id (PACKET_CB s)) as Hid.
  { unfold r, record_of_skb, rec_fragmented. cbn. by destruct (_ =? 0). }
  unfold encode_record. change (cb_frag_off (PACKET_CB s)) with (rec_frag_off r).
  assert (∀ P s', skb_data (if negb (P =? 0) then
     skb_put_data s' (replicate (Z.to_nat P) 0xa5) else s')
     = skb_data s' ++ replicate (Z.to_nat P) 0xa5) as Hpre.
  { intros P s'. destruct (Z.eqb_spec P 0) as [->|]; [by rewrite app_nil_r|done]. }
  destruct (rec_fragmented r) eqn:Hfr; rewrite ?skb_data_put, Hpre; cbn [skb_data alloc_skb];
    rewrite ?Hid by done; rewrite app_nil_l, <- ?app_assoc; unfold rec_header; rewrite Hfr;
    done.
Qed.
End build_spec.
