(* ===== verification/TcpStream.v ===== *)
(** * Specification of the stream parser

    What a reader of the TCP byte stream has to deliver, stated on the stream
    alone: [decode] walks the bytes from the left, emits a record when a valid
    header and the announced number of bytes are there, waits when the record
    is incomplete, and skips one byte when eight bytes do not form a valid
    header.  The stream worker of kernel/wg_tcp.c is shown to implement it in
    TcpReader.v, for every way the bytes are cut into segments. *)
From stdpp Require Import prelude list.
From S2P Require Import Prelude Skb TcpFrame.

#[local] Open Scope Z_scope.

Definition header_ok (bs : list Z) : bool :=
  wg_check_potential_header_validity bs (zlen bs).

Definition total_at (bs : list Z) : Z := hdr_length (encap_header_of bs).

Definition frag_at (bs : list Z) : bool :=
  negb (Z.land (hdr_flags (encap_header_of bs)) WG_TCP_FRAG_FLAG =? 0).

Definition header_len_at (bs : list Z) : Z :=
  if frag_at bs then WG_TCP_ENCAP_HDR_LEN + WG_TCP_FRAG_HDR_LEN
  else WG_TCP_ENCAP_HDR_LEN.

Definition record_at (bs : list Z) : tcp_record :=
  let fh := frag_header_of (zdrop WG_TCP_ENCAP_HDR_LEN bs) in
  mk_record (ztake (total_at bs - header_len_at bs) (zdrop (header_len_at bs) bs))
    (if frag_at bs then fh_id fh else 0) (if frag_at bs then fh_frag_off fh else 0).

Fixpoint decode_n (n : nat) (bs : list Z) : list tcp_record * list Z :=
  match n with
  | O => ([], bs)
  | S n =>
      if header_ok bs then
        if zlen bs <? total_at bs then ([], bs)
        else
          let '(rs, rem) := decode_n n (zdrop (total_at bs) bs) in
          (record_at bs :: rs, rem)
      else if zlen bs <? WG_TCP_ENCAP_HDR_LEN then ([], bs)
      else decode_n n (zdrop 1 bs)
  end.

(** Every step consumes a byte, so the length of the stream is enough fuel. *)
Definition decode (bs : list Z) : list tcp_record * list Z := decode_n (length bs) bs.

(** ** Facts about a valid header *)
Lemma header_ok_bounds bs :
  header_ok bs = true →
  WG_TCP_ENCAP_HDR_LEN <= zlen bs ∧
  header_len_at bs + MESSAGE_MINIMUM_LENGTH <= total_at bs <= WG_MAX_PACKET_SIZE.
Proof.
  intros (H1 & _ & _ & _ & H2)%check_validity_spec. split; [done|].
  unfold total_at, header_len_at, frag_at.
  destruct (Z.land (hdr_flags (encap_header_of bs)) WG_TCP_FRAG_FLAG =? 0);
    cbn [negb]; lia.
Qed.

Lemma header_len_at_cases bs : header_len_at bs = 8 ∨ header_len_at bs = 12.
Proof. unfold header_len_at. destruct (frag_at bs); [right|left]; reflexivity. Qed.

Lemma header_len_at_range bs : 8 <= header_len_at bs <= 12.
Proof. destruct (header_len_at_cases bs); lia. Qed.

Lemma total_at_pos bs : header_ok bs = true → 40 <= total_at bs.
Proof.
  intros [_ [H _]]%header_ok_bounds. pose proof (header_len_at_range bs).
  unfold MESSAGE_MINIMUM_LENGTH in H. cbv [message_data_len noise_encrypted_len
    sizeof_message_data NOISE_AUTHTAG_LEN sizeof_message_header] in H. lia.
Qed.

Lemma header_ok_len bs : header_ok bs = true → 8 <= zlen bs.
Proof. by intros [H _]%header_ok_bounds. Qed.

Lemma header_ok_short bs : zlen bs < WG_TCP_ENCAP_HDR_LEN → header_ok bs = false.
Proof.
  intros H. apply not_true_iff_false. intros [H' _]%header_ok_bounds. lia.
Qed.

Lemma header_ok_app bs more : 8 <= zlen bs → header_ok (bs ++ more) = header_ok bs.
Proof.
  intros. unfold header_ok. apply check_validity_prefix; unfold WG_TCP_ENCAP_HDR_LEN; zlia.
Qed.

Lemma total_at_app bs more : 8 <= zlen bs → total_at (bs ++ more) = total_at bs.
Proof. intros. unfold total_at. by rewrite encap_header_of_prefix. Qed.

Lemma frag_at_app bs more : 8 <= zlen bs → frag_at (bs ++ more) = frag_at bs.
Proof. intros. unfold frag_at. by rewrite encap_header_of_prefix. Qed.

Lemma record_at_app bs more :
  header_ok bs = true → total_at bs <= zlen bs → record_at (bs ++ more) = record_at bs.
Proof.
  intros Hok Htot. pose proof (header_ok_len _ Hok). pose proof (total_at_pos _ Hok).
  pose proof (header_len_at_range bs). apply header_ok_bounds in Hok as [_ [? _]].
  unfold record_at, header_len_at, WG_TCP_ENCAP_HDR_LEN in *.
  rewrite frag_at_app, total_at_app by done.
  f_equal.
  - rewrite zdrop_app_le by lia. apply ztake_app_le.
    rewrite zlen_zdrop by (destruct (frag_at bs); lia). lia.
  - destruct (frag_at bs); [|done]. rewrite zdrop_app_le by lia.
    unfold frag_header_of. cbn [fh_id]. by rewrite ztake_app_le by zlia.
  - destruct (frag_at bs); [|done]. rewrite zdrop_app_le by lia.
    unfold frag_header_of. cbn [fh_frag_off].
    rewrite zdrop_app_le, zdrop_zdrop, ztake_app_le by zlia. done.
Qed.

(** ** Unfolding the decoder *)
Lemma decode_n_enough n m bs :
  (length bs <= n)%nat → (length bs <= m)%nat → decode_n n bs = decode_n m bs.
Proof.
  revert m bs. induction n as [|n IH]; intros m bs Hn Hm.
  - destruct bs; [|cbn in Hn; lia]. destruct m; [done|]. cbn.
    by rewrite (header_ok_short []).
  - destruct m as [|m].
    + destruct bs; [|cbn in Hm; lia]. cbn. by rewrite (header_ok_short []).
    + cbn [decode_n]. destruct (header_ok bs) eqn:Hok.
      * destruct (Z.ltb_spec (zlen bs) (total_at bs)); [done|].
        pose proof (total_at_pos _ Hok).
        assert (length (zdrop (total_at bs) bs) < length bs)%nat.
        { unfold zdrop, zlen in *. rewrite length_drop. lia. }
        by rewrite (IH m) by lia.
      * destruct (Z.ltb_spec (zlen bs) WG_TCP_ENCAP_HDR_LEN); [done|].
        unfold WG_TCP_ENCAP_HDR_LEN in *.
        assert (length (zdrop 1 bs) < length bs)%nat.
        { unfold zdrop, zlen in *. rewrite length_drop. lia. }
        apply IH; lia.
Qed.

Lemma decode_short bs : zlen bs < WG_TCP_ENCAP_HDR_LEN → decode bs = ([], bs).
Proof.
  intros. unfold decode. destruct (length bs); [done|]. cbn [decode_n].
  rewrite header_ok_short by done. destruct (Z.ltb_spec (zlen bs) WG_TCP_ENCAP_HDR_LEN);
    [done|lia].
Qed.

Lemma decode_unfold bs :
  decode bs =
    if header_ok bs then
      if zlen bs <? total_at bs then ([], bs)
      else let '(rs, rem) := decode (zdrop (total_at bs) bs) in (record_at bs :: rs, rem)
    else if zlen bs <? WG_TCP_ENCAP_HDR_LEN then ([], bs)
    else decode (zdrop 1 bs).
Proof.
  unfold decode at 1. rewrite (decode_n_enough _ (S (length bs))) by lia.
  cbn [decode_n]. destruct (header_ok bs) eqn:Hok.
  - destruct (Z.ltb_spec (zlen bs) (total_at bs)); [done|].
    unfold decode. rewrite (decode_n_enough (length bs) (length (zdrop (total_at bs) bs)));
      [done| |]; unfold zdrop; rewrite length_drop; lia.
  - destruct (Z.ltb_spec (zlen bs) WG_TCP_ENCAP_HDR_LEN); [done|].
    unfold decode. apply decode_n_enough; unfold zdrop; rewrite length_drop; lia.
Qed.

Lemma decode_skip bs :
  WG_TCP_ENCAP_HDR_LEN <= zlen bs → header_ok bs = false → decode bs = decode (zdrop 1 bs).
Proof.
  intros Hl Hok. rewrite decode_unfold, Hok.
  by destruct (Z.ltb_spec (zlen bs) WG_TCP_ENCAP_HDR_LEN); [lia|].
Qed.

Lemma decode_wait bs :
  header_ok bs = true → zlen bs < total_at bs → decode bs = ([], bs).
Proof. intros Hok Hl. rewrite decode_unfold, Hok. by rewrite (proj2 (Z.ltb_lt _ _)). Qed.

Lemma decode_emit bs :
  header_ok bs = true → total_at bs <= zlen bs →
  decode bs = (record_at bs :: (decode (zdrop (total_at bs) bs)).1,
               (decode (zdrop (total_at bs) bs)).2).
Proof.
  intros Hok Hl. rewrite decode_unfold, Hok. rewrite (proj2 (Z.ltb_ge _ _)) by done.
  by destruct (decode (zdrop (total_at bs) bs)).
Qed.

(** ** Segmentation does not matter

    Bytes that arrive later only extend the output. *)
Lemma decode_app bs more :
  decode (bs ++ more) =
    ((decode bs).1 ++ (decode ((decode bs).2 ++ more)).1,
     (decode ((decode bs).2 ++ more)).2).
Proof.
  remember (length bs) as n eqn:Hn. revert bs Hn.
  induction n as [n IH] using lt_wf_ind. intros bs ->.
  destruct (Z_lt_ge_dec (zlen bs) WG_TCP_ENCAP_HDR_LEN) as [Hs|Hs].
  { rewrite (decode_short bs) by done. cbn [fst snd app]. apply surjective_pairing. }
  unfold WG_TCP_ENCAP_HDR_LEN in *.
  destruct (header_ok bs) eqn:Hok.
  - destruct (Z_lt_ge_dec (zlen bs) (total_at bs)) as [Ht|Ht].
    { rewrite (decode_wait bs) by done. cbn [fst snd app]. apply surjective_pairing. }
    pose proof (total_at_pos _ Hok).
    rewrite (decode_emit bs), (decode_emit (bs ++ more)) by
      (rewrite ?header_ok_app, ?total_at_app by lia; try done; zlia).
    rewrite total_at_app, record_at_app, zdrop_app_le by (done || lia).
    cbn [fst snd app]. rewrite (IH (length (zdrop (total_at bs) bs))); [done| |done].
    unfold zdrop, zlen in *. rewrite length_drop. lia.
  - rewrite (decode_skip bs), (decode_skip (bs ++ more))
      by (rewrite ?header_ok_app by lia; try done; unfold WG_TCP_ENCAP_HDR_LEN; zlia).
    rewrite zdrop_app_le by lia. apply (IH (length (zdrop 1 bs))); [|done].
    unfold zdrop, zlen in *. rewrite length_drop. lia.
Qed.

(** ** Decoding what a sender encodes *)
Lemma header_ok_encode r more : sendable r → header_ok (encode_record r ++ more) = true.
Proof.
  intros Hr. apply rec_header_valid; [done|].
  rewrite zlen_app, zlen_encode_record. unfold rec_total_len, WG_TCP_ENCAP_HDR_LEN.
  pose proof (rec_header_len_cases r). zlia.
Qed.

Lemma encap_header_encode r more :
  sendable r → encap_header_of (encode_record r ++ more) = rec_header r.
Proof. intros. by apply (rec_header_valid r more WG_TCP_ENCAP_HDR_LEN). Qed.

Lemma total_at_encode r more :
  sendable r → total_at (encode_record r ++ more) = rec_total_len r.
Proof. intros. unfold total_at. by rewrite encap_header_encode. Qed.

Lemma frag_at_encode r more :
  sendable r → frag_at (encode_record r ++ more) = rec_fragmented r.
Proof.
  intros. unfold frag_at. rewrite encap_header_encode by done.
  unfold rec_header. cbn [hdr_flags]. by destruct (rec_fragmented r).
Qed.

Lemma record_at_encode r more :
  sendable r → record_at (encode_record r ++ more) = r.
Proof.
  intros Hr. pose proof Hr as (_ & _ & Hid & Hoff & Hz).
  unfold record_at, header_len_at. rewrite total_at_encode, frag_at_encode by done.
  unfold rec_total_len, rec_header_len, encode_record.
  destruct r as [p i o]. unfold rec_fragmented in *.
  cbn [rec_frag_off rec_frag_id rec_payload] in *.
  destruct (Z.eqb_spec o 0) as [->|Ho]; cbn [negb].
  - rewrite app_nil_l, <- app_assoc, zdrop_app_length by done.
    rewrite ztake_app_length by lia. by rewrite Hz.
  - rewrite <- !app_assoc, (zdrop_app_length WG_TCP_ENCAP_HDR_LEN) by done.
    rewrite frag_header_of_bytes by done. cbn [fh_id fh_frag_off].
    f_equal. rewrite app_assoc, zdrop_app_length by reflexivity.
    apply ztake_app_length. lia.
Qed.

Lemma decode_encode r more :
  sendable r → decode (encode_record r ++ more) = (r :: (decode more).1, (decode more).2).
Proof.
  intros Hr. rewrite decode_emit; rewrite ?header_ok_encode, ?total_at_encode by done; [|done|].
  - rewrite record_at_encode by done.
    by rewrite zdrop_app_length by (by rewrite zlen_encode_record).
  - rewrite zlen_app, zlen_encode_record. zlia.
Qed.

(** ** Garbage of the fault-injection build *)
Lemma garbage_invalid b1 b2 b3 rest n :
  0 <= b1 → 0 <= b2 → 0 <= b3 →
  wg_check_potential_header_validity (0xa5 :: b1 :: b2 :: b3 :: rest) n = false.
Proof.
  intros. apply not_true_iff_false. intros (_ & _ & _ & _ & Hl)%check_validity_spec.
  unfold encap_header_of in Hl. cbn [hdr_length] in Hl.
  change (ztake 4 _) with [0xa5; b1; b2; b3] in Hl.
  unfold be_val, WG_MAX_PACKET_SIZE, WG_TCP_ENCAP_HDR_LEN in Hl.
  cbn -[Z.mul Z.add] in Hl. lia.
Qed.

Lemma decode_garbage k l0 l1 l2 rest :
  0 <= l0 → 0 <= l1 → 0 <= l2 → 8 <= zlen (l0 :: l1 :: l2 :: rest) →
  decode (replicate k 0xa5 ++ l0 :: l1 :: l2 :: rest) = decode (l0 :: l1 :: l2 :: rest).
Proof.
  intros H0 H1 H2 Hlen. induction k as [|k IH]; [done|].
  rewrite decode_skip.
  - cbn [replicate app]. by rewrite zdrop_1_cons.
  - cbn [replicate app]. unfold WG_TCP_ENCAP_HDR_LEN. rewrite zlen_cons, zlen_app. zlia.
  - unfold header_ok. cbn [replicate app].
    destruct k as [|[|[|k]]]; cbn [replicate app]; by apply garbage_invalid.
Qed.

Lemma decode_garbage_encode k r more :
  sendable r →
  decode (replicate k 0xa5 ++ encode_record r ++ more) =
    (r :: (decode more).1, (decode more).2).
Proof.
  intros Hr. rewrite <- decode_encode by done.
  assert (8 <= zlen (encode_record r ++ more)) as Hlen.
  { rewrite zlen_app, zlen_encode_record. unfold rec_total_len.
    pose proof (rec_header_len_cases r). zlia. }
  assert (∃ l0 l1 l2 rest, encode_record r ++ more = l0 :: l1 :: l2 :: rest ∧
            0 <= l0 ∧ 0 <= l1 ∧ 0 <= l2) as (l0 & l1 & l2 & rest & Heq & ? & ? & ?).
  { unfold encode_record, encap_header_bytes, be32. eexists _, _, _, _.
    split; [reflexivity|]. split_and!; apply (wrap_range 8); lia. }
  rewrite Heq in *. by apply decode_garbage.
Qed.

(** The bytes a sender with garbage prefix [k] puts on the wire for [rs]. *)
Definition wire_of (k : nat) (rs : list tcp_record) : list Z :=
  concat (map (λ r, replicate k 0xa5 ++ encode_record r) rs).

Lemma decode_wire_of k rs more :
  Forall sendable rs →
  decode (wire_of k rs ++ more) = (rs ++ (decode more).1, (decode more).2).
Proof.
  induction 1 as [|r rs Hr _ IH]; [apply surjective_pairing|].
  unfold wire_of in *. cbn [map concat]. rewrite <- !app_assoc.
  rewrite decode_garbage_encode by done. by rewrite IH.
Qed.

(** The specification decodes every sequence of frames a sender can build,
    with or without the fault-injection prefix in front of each, back into the
    messages and fragment fields they were built from, and leaves no byte over. *)
Theorem stream_roundtrip (k : nat) (rs : list tcp_record) :
  Forall sendable rs → decode (wire_of k rs) = (rs, []).
Proof.
  intros Hrs. rewrite <- (app_nil_r (wire_of k rs)), decode_wire_of by done.
  by rewrite app_nil_r.
Qed.

Example sample_record : tcp_record := mk_record (replicate 32 7) 0 0.
Example sample_fragment : tcp_record := mk_record (replicate 33 9) 5 0x2001.

Lemma stream_roundtrip_witness :
  Forall sendable [sample_record; sample_fragment] ∧
  decode (wire_of 3 [sample_record; sample_fragment]) = ([sample_record; sample_fragment], []).
Proof.
  assert (Forall sendable [sample_record; sample_fragment]) as H
    by (repeat constructor; vm_compute; congruence).
  split; [exact H|]. exact (stream_roundtrip 3 _ H).
Defined.
