(* ===== verification/FakeHeaders.v ===== *)
(** * Synthetic UDP/IP headers of received records

    A record taken off the stream is given the UDP and IP headers the rest of
    the receive path expects ([wg_tcp_build_fake_headers] and the part of
    [wg_tcp_read_worker] that restores the fragment fields, kernel/wg_tcp.c),
    and the sender's endpoint is later read back from those headers
    ([wg_socket_endpoint_from_skb], kernel/socket.c).  The theorems show that
    the endpoint read back is the remote end of the connection the record came
    from, and that the headers fit the headroom the reader reserves. *)
From stdpp Require Import prelude list.
From S2P Require Import Prelude Skb Net TcpFrame.

#[local] Open Scope Z_scope.

(** The kernel's checksum routines.  No property of the values is needed: the
    receive path does not look at them. *)
Class KernelCsum := {
  ip_fast_csum : list Z → Z → Z;
  csum_partial : list Z → Z → Z;
  csum_tcpudp_magic : Z → Z → Z → Z → Z → Z;
  csum_add : Z → Z → Z;
  csum_fold : Z → Z;
}.

Definition CSUM_MANGLED_0 := 0xffff.

(** ** Header layouts *)
Definition udp_header (source dest len : Z) (check : list Z) : list Z :=
  be16 source ++ be16 dest ++ be16 len ++ check.

Definition ip_header (tot_len : Z) (id_frag_off check : list Z) (saddr daddr : Z) : list Z :=
  [0x45; 0] ++ be16 tot_len ++ id_frag_off ++ [64; IPPROTO_UDP] ++ check
  ++ be_bytes 4 saddr ++ be_bytes 4 daddr.

Definition ipv6_header (payload_len saddr daddr : Z) : list Z :=
  [0x60; 0; 0; 0] ++ be16 payload_len ++ [IPPROTO_UDP; 64]
  ++ be_bytes 16 saddr ++ be_bytes 16 daddr.

(** The connection a reader has pinned: whether its socket is the peer's
    inbound one, the addresses recorded when it was accepted, and the socket. *)
Record stream_addrs := mk_stream_addrs {
  is_inbound : bool;
  inbound_source : sockaddr;
  inbound_dest : sockaddr;
  stream_sk : option sock;
}.

Section fake.
Context {C : KernelCsum}.

(** A [sockaddr_storage] read through a [sockaddr_in] or [sockaddr_in6]
    pointer.  A cleared address reads as zeroes; an address of the other family
    shares the port, and the bytes where the other address lies are zero (the
    flow label of an accepted connection, the padding of [sockaddr_in]). *)
Definition as_sockaddr_in (a : sockaddr) : Z * Z :=
  match a with SaUnspec => (0, 0) | Sa4 port addr => (port, addr) | Sa6 port _ _ => (port, 0) end.
Definition as_sockaddr_in6 (a : sockaddr) : Z * Z * Z :=
  match a with
  | SaUnspec => (0, 0, 0)
  | Sa4 port _ => (port, 0, 0)
  | Sa6 port addr scope => (port, addr, scope)
  end.

Definition nonzero_check (check : list Z) : list Z :=
  if decide (be_val check = 0) then be16 CSUM_MANGLED_0 else check.

(** The UDP header, then the IPv4 header in front of it. *)
Definition fake_ipv4 (skb : sk_buff) (sport saddr dport daddr : Z) : sk_buff :=
  let payload_len := skb_len skb in
  let skb := skb_reset_transport_header (skb_push skb sizeof_udphdr) in
  let skb := skb_reset_network_header (skb_push skb sizeof_iphdr) in
  let ulen := u16 (sizeof_udphdr + payload_len) in
  let stale := ztake 4 (zdrop 4 (skb_data skb)) in
  let tot_len := u16 (sizeof_iphdr + sizeof_udphdr + payload_len) in
  let check := le16 (ip_fast_csum (ip_header tot_len stale [0; 0] saddr daddr) 5) in
  let iph := ip_header tot_len stale check saddr daddr in
  let skb := skb_store skb 0 (iph ++ udp_header sport dport ulen [0; 0]) in
  let csum := csum_partial (ztake ulen (zdrop sizeof_iphdr (skb_data skb))) 0 in
  let ucheck := nonzero_check (be16 (csum_tcpudp_magic (htonl saddr) (htonl daddr)
                                (htons ulen) IPPROTO_UDP csum)) in
  let skb := skb_store skb (sizeof_iphdr + 6) ucheck in
  skb{{ skb_protocol := ETH_P_IP }}.

Definition fake_ipv6 (skb : sk_buff) (sport saddr scope dport daddr bound_if : Z) : sk_buff :=
  let payload_len := skb_len skb in
  let skb := skb_reset_transport_header (skb_push skb sizeof_udphdr) in
  let skb := skb_reset_network_header (skb_push skb sizeof_ipv6hdr) in
  let ulen := u16 (sizeof_udphdr + payload_len) in
  let ip6h := ipv6_header ulen saddr daddr in
  let skb := skb_store skb 0 (ip6h ++ udp_header sport dport ulen [0; 0]) in
  let csum := csum_partial (ztake ulen (zdrop sizeof_ipv6hdr (skb_data skb))) 0 in
  let csum := csum_partial (be_bytes 16 saddr) csum in
  let csum := csum_partial (be_bytes 16 daddr) csum in
  let csum := csum_add csum (htons ulen) in
  let csum := csum_add csum (htons IPPROTO_UDP) in
  let skb := skb_store skb (sizeof_ipv6hdr + 6) (nonzero_check (le16 (csum_fold csum))) in
  skb{{ skb_iif := if scope =? 0 then bound_if else scope;
        skb_protocol := ETH_P_IPV6 }}.

(** The tuple is the one recorded at accept time for the peer's inbound socket
    and that of the connected socket otherwise, the remote end as source.  On
    an error the caller frees the buffer. *)
Definition wg_tcp_build_fake_headers (skb : sk_buff) (a : stream_addrs) : result sk_buff :=
  match stream_sk a with
  | None => Err (-ENOTCONN)
  | Some sk =>
      if is_inbound a then
        match inbound_source a with
        | Sa4 _ _ =>
            let '(sport, saddr) := as_sockaddr_in (inbound_dest a) in
            let '(dport, daddr) := as_sockaddr_in (inbound_source a) in
            Ok (fake_ipv4 skb sport saddr dport daddr)
        | Sa6 _ _ _ =>
            let '(sport, saddr, scope) := as_sockaddr_in6 (inbound_dest a) in
            let '(dport, daddr, _) := as_sockaddr_in6 (inbound_source a) in
            Ok (fake_ipv6 skb sport saddr scope dport daddr (sk_bound_dev_if sk))
        | SaUnspec => Err (-EAFNOSUPPORT)
        end
      else if sk_family sk =? AF_INET then
        Ok (fake_ipv4 skb (inet_dport sk) (inet_daddr sk) (inet_sport sk) (inet_saddr sk))
      else if sk_family sk =? AF_INET6 then
        Ok (fake_ipv6 skb (inet_dport sk) (sk_v6_daddr sk) 0
              (inet_sport sk) (sk_v6_saddr sk) (sk_bound_dev_if sk))
      else Err (-EAFNOSUPPORT)
  end.

(** The reader writes the fragment fields of the record into an IPv4 header
    and computes its checksum again. *)
Definition restore_fragment_fields (has_frag_header : bool) (fh : wg_tcp_frag_header)
    (skb : sk_buff) : sk_buff :=
  if has_frag_header && (skb_protocol skb =? ETH_P_IP) then
    let skb := skb_store skb 4 (frag_header_bytes fh) in
    let skb := skb_store skb 10 [0; 0] in
    skb_store skb 10 (le16 (ip_fast_csum (ztake sizeof_iphdr (skb_data skb)) 5))
  else skb.
End fake.

(** ** Reading the endpoint back *)
Definition wg_socket_endpoint_from_skb (skb : sk_buff) : result endpoint :=
  let iph := skb_at skb (skb_network_header skb) in
  let udph := skb_at skb (skb_transport_header skb) in
  let source := be_val (ztake 2 udph) in
  if skb_protocol skb =? ETH_P_IP then
    Ok (Ep4 source (be_val (ztake 4 (zdrop 12 iph))) (be_val (ztake 4 (zdrop 16 iph)))
          (skb_iif skb))
  else if skb_protocol skb =? ETH_P_IPV6 then
    let saddr := be_val (ztake 16 (zdrop 8 iph)) in
    Ok (Ep6 source saddr (ipv6_iface_scope_id saddr (skb_iif skb))
          (be_val (ztake 16 (zdrop 24 iph))))
  else Err (-EINVAL).

(** ** Facts *)
Section fake_facts.
Context {C : KernelCsum}.

Lemma zlen_nonzero_check c : zlen c = 2 → zlen (nonzero_check c) = 2.
Proof. intros. unfold nonzero_check. by case_decide. Qed.

Lemma zlen_udp_header sport dport len check :
  zlen check = 2 → zlen (udp_header sport dport len check) = 8.
Proof. intros. unfold udp_header. zlia. Qed.

Lemma zlen_ip_header tot id_frag check saddr daddr :
  zlen id_frag = 4 → zlen check = 2 → zlen (ip_header tot id_frag check saddr daddr) = 20.
Proof. intros. unfold ip_header. zlia. Qed.

Lemma zlen_ipv6_header plen saddr daddr : zlen (ipv6_header plen saddr daddr) = 40.
Proof. unfold ipv6_header. zlia. Qed.

(** Overwriting the two checksum bytes of the UDP header. *)
Lemma store_ucheck h (udp4 : list Z) c0 c1 payload :
  zlen udp4 = 6 →
  ∀ check skb, zlen check = 2 →
  skb_data (skb_store (skb{{ skb_data := h ++ (udp4 ++ [c0; c1]) ++ payload }})
    (zlen h + 6) check) = h ++ udp4 ++ check ++ payload.
Proof.
  intros Hu check skb Hc. cbn.
  rewrite <- (app_assoc udp4), app_assoc, (app_assoc h udp4).
  rewrite (ztake_app_length (zlen h + 6)) by zlia.
  rewrite (app_assoc (h ++ udp4) [c0; c1]), (zdrop_app_length (zlen h + 6 + zlen check)) by zlia.
  by rewrite <- !app_assoc.
Qed.

(** Two pushes uncover the last bytes of the headroom. *)
Lemma push_push s n m :
  0 <= n → 0 <= m → n + m <= skb_headroom s →
  skb_data (skb_push (skb_reset_transport_header (skb_push s n)) m) =
    zdrop (skb_headroom s - n - m) (skb_head s) ++ skb_data s ∧
  skb_head (skb_push (skb_reset_transport_header (skb_push s n)) m) =
    ztake (skb_headroom s - n - m) (skb_head s).
Proof.
  unfold skb_push, skb_reset_transport_header, skb_headroom. cbn. intros Hn Hm Hr.
  rewrite zlen_ztake by lia. split; [|by rewrite ztake_ztake by lia].
  by rewrite app_assoc, zdrop_ztake_app by lia.
Qed.

(** Storing a header over the uncovered bytes. *)
Lemma store_front s h old payload :
  skb_data s = old ++ payload → zlen old = zlen h → skb_data (skb_store s 0 h) = h ++ payload.
Proof.
  intros Hs Hl. cbn. rewrite Hs, ztake_0. cbn [app]. f_equal.
  by apply zdrop_app_length.
Qed.

Definition fake_header4_len := sizeof_iphdr + sizeof_udphdr.
Definition fake_header6_len := sizeof_ipv6hdr + sizeof_udphdr.

(** The buffer after the headers have been written. *)
Definition with_headers (skb : sk_buff) (hdr : list Z) (proto iif : Z) : sk_buff :=
  let off := skb_headroom skb - zlen hdr in
  mk_sk_buff (ztake off (skb_head skb)) (hdr ++ skb_data skb) (skb_tailroom skb)
    off (skb_headroom skb - sizeof_udphdr) proto iif (PACKET_CB skb).

(** Writing the headers in two steps: the headers with a cleared checksum over
    the uncovered bytes, then the checksum. *)
Lemma store_headers s0 s iph udp4 ucheck old :
  skb_data s = old ++ skb_data s0 → zlen old = zlen iph + 8 →
  zlen udp4 = 6 → zlen ucheck = 2 →
  skb_data (skb_store (skb_store s 0 (iph ++ udp4 ++ [0; 0])) (zlen iph + 6) ucheck) =
    (iph ++ udp4 ++ ucheck) ++ skb_data s0.
Proof.
  intros Hs Ho Hu Hc.
  assert (skb_data (skb_store s 0 (iph ++ udp4 ++ [0; 0]))
          = iph ++ (udp4 ++ [0; 0]) ++ skb_data s0) as H1.
  { rewrite (store_front _ _ old (skb_data s0)) by (done || zlia). by rewrite <- app_assoc. }
  transitivity (iph ++ udp4 ++ ucheck ++ skb_data s0); [|by rewrite <- !app_assoc].
  rewrite <- (store_ucheck iph udp4 0 0 (skb_data s0) Hu ucheck s Hc).
  unfold skb_store at 1. cbn -[skb_store]. rewrite H1. done.
Qed.

Lemma put_headers_shape skb ilen iph udp6 ucheck :
  zlen iph = ilen → zlen udp6 = 6 → zlen ucheck = 2 → ilen + 8 <= skb_headroom skb →
  let s1 := skb_reset_network_header
              (skb_push (skb_reset_transport_header (skb_push skb 8)) ilen) in
  skb_store (skb_store s1 0 (iph ++ udp6 ++ [0; 0])) (ilen + 6) ucheck =
    with_headers skb (iph ++ udp6 ++ ucheck) (skb_protocol skb) (skb_iif skb).
Proof.
  intros <- Hu Hc Hr s1.
  destruct (push_push skb 8 (zlen iph)) as [Hd Hh]; [zlia..|].
  assert (zlen (iph ++ udp6 ++ ucheck) = zlen iph + 8) as Hl by zlia.
  apply skb_ext; unfold with_headers; rewrite ?Hl; try reflexivity.
  - change (skb_head s1 = ztake (skb_headroom skb - (zlen iph + 8)) (skb_head skb)).
    unfold s1. cbn -[skb_push skb_reset_transport_header]. rewrite Hh. f_equal. lia.
  - eapply store_headers; [exact Hd| |done..].
    unfold skb_headroom in *. rewrite zlen_zdrop; zlia.
  - change (zlen (skb_head s1) = skb_headroom skb - (zlen iph + 8)).
    unfold s1. cbn -[skb_push skb_reset_transport_header]. rewrite Hh.
    unfold skb_headroom in *. rewrite zlen_ztake; zlia.
  - cbn. unfold sizeof_udphdr, skb_headroom at 1. cbn. unfold skb_headroom in *. rewrite zlen_ztake; zlia.
Qed.

Lemma udp_header_split sport dport len check :
  udp_header sport dport len check = (be16 sport ++ be16 dport ++ be16 len) ++ check.
Proof. unfold udp_header. by rewrite <- !app_assoc. Qed.

Lemma fake_ipv4_shape skb sport saddr dport daddr :
  fake_header4_len <= skb_headroom skb →
  ∃ id_frag check ucheck,
    zlen id_frag = 4 ∧ zlen check = 2 ∧ zlen ucheck = 2 ∧
    fake_ipv4 skb sport saddr dport daddr =
      with_headers skb
        (ip_header (u16 (28 + skb_len skb)) id_frag check saddr daddr
         ++ udp_header sport dport (u16 (8 + skb_len skb)) ucheck)
        ETH_P_IP (skb_iif skb).
Proof.
  unfold fake_header4_len, sizeof_iphdr, sizeof_udphdr. intros Hr.
  destruct (push_push skb 8 20) as [Hd _]; [lia..|].
  unfold fake_ipv4. cbn zeta. unfold sizeof_iphdr, sizeof_udphdr.
  set (s1 := skb_reset_network_header _). set (stale := ztake 4 (zdrop 4 (skb_data s1))).
  assert (zlen stale = 4) as Hstale.
  { unfold stale. change (skb_data s1) with
      (skb_data (skb_push (skb_reset_transport_header (skb_push skb 8)) 20)).
    rewrite Hd. unfold skb_headroom in *. rewrite zlen_ztake; [done|].
    rewrite !zlen_zdrop; rewrite ?zlen_app, ?zlen_zdrop; zlia. }
  set (ucheck := nonzero_check _).
  assert (zlen ucheck = 2) as Huc by by apply zlen_nonzero_check.
  exists stale, (le16 (ip_fast_csum (ip_header (u16 (28 + skb_len skb)) stale [0; 0] saddr daddr) 5)),
    ucheck. split_and!; [done..|].
  rewrite !udp_header_split. unfold s1. rewrite put_headers_shape by
    (done || lia || by apply zlen_ip_header). reflexivity.
Qed.

Lemma fake_ipv6_shape skb sport saddr scope dport daddr bound_if :
  fake_header6_len <= skb_headroom skb →
  ∃ ucheck,
    zlen ucheck = 2 ∧
    fake_ipv6 skb sport saddr scope dport daddr bound_if =
      with_headers skb
        (ipv6_header (u16 (8 + skb_len skb)) saddr daddr
         ++ udp_header sport dport (u16 (8 + skb_len skb)) ucheck)
        ETH_P_IPV6 (if scope =? 0 then bound_if else scope).
Proof.
  unfold fake_header6_len, sizeof_ipv6hdr, sizeof_udphdr. intros Hr.
  unfold fake_ipv6. cbn zeta. unfold sizeof_ipv6hdr, sizeof_udphdr.
  set (s1 := skb_reset_network_header _). set (ucheck := nonzero_check _).
  assert (zlen ucheck = 2) as Huc by by apply zlen_nonzero_check.
  exists ucheck. split; [done|].
  rewrite !udp_header_split. unfold s1. rewrite put_headers_shape by
    (done || lia || by apply zlen_ipv6_header). reflexivity.
Qed.

(** Restoring the fragment fields only replaces the identification, fragment
    offset and checksum of the IPv4 header. *)
Lemma store_ip_field skb pre old new post proto iif off :
  zlen old = zlen new → off = zlen pre →
  skb_store (with_headers skb (pre ++ old ++ post) proto iif) off new =
  with_headers skb (pre ++ new ++ post) proto iif.
Proof.
  intros Hl ->. unfold with_headers, skb_store. apply skb_ext; cbn; rewrite ?zlen_app, ?Hl; try done.
  rewrite <- !app_assoc. rewrite (ztake_app_length (zlen pre)) by done. f_equal. f_equal.
  rewrite (app_assoc pre old), zdrop_app_length by zlia. done.
Qed.

Lemma restore_shape hf fh skb tot id_frag check saddr daddr rest iif :
  zlen id_frag = 4 → zlen check = 2 →
  ∃ check',
    zlen check' = 2 ∧
    restore_fragment_fields hf fh
      (with_headers skb (ip_header tot id_frag check saddr daddr ++ rest) ETH_P_IP iif) =
    with_headers skb
      (ip_header tot (if hf then frag_header_bytes fh else id_frag) check' saddr daddr ++ rest)
      ETH_P_IP iif.
Proof.
  intros Hi Hc. unfold restore_fragment_fields. destruct hf; [|by exists check].
  cbn [andb with_headers skb_protocol]. rewrite Z.eqb_refl.
  assert (∀ idf c, ip_header tot idf c saddr daddr ++ rest =
    ([0x45; 0] ++ be16 tot) ++ idf ++ ([64; IPPROTO_UDP] ++ c ++ be_bytes 4 saddr
      ++ be_bytes 4 daddr ++ rest)) as E1
    by (intros; unfold ip_header; by rewrite <- !app_assoc).
  assert (∀ c, ip_header tot (frag_header_bytes fh) c saddr daddr ++ rest =
    ([0x45; 0] ++ be16 tot ++ frag_header_bytes fh ++ [64; IPPROTO_UDP]) ++ c
      ++ (be_bytes 4 saddr ++ be_bytes 4 daddr ++ rest)) as E2
    by (intros; unfold ip_header; by rewrite <- !app_assoc).
  rewrite E1, store_ip_field by done. rewrite <- E1, E2, !store_ip_field by done.
  eexists. split; [|by rewrite E2]. done.
Qed.

(** Reading memory at the header offsets, before or after any pull. *)
Lemma skb_at_network skb hdr proto iif :
  zlen hdr <= skb_headroom skb →
  skb_at (with_headers skb hdr proto iif) (skb_network_header (with_headers skb hdr proto iif))
    = hdr ++ skb_data skb.
Proof.
  unfold with_headers, skb_at, skb_headroom. cbn. intros.
  apply zdrop_app_length. zlia.
Qed.

Lemma skb_at_transport skb iph udph proto iif :
  zlen udph = sizeof_udphdr → zlen iph + zlen udph <= skb_headroom skb →
  skb_at (with_headers skb (iph ++ udph) proto iif)
    (skb_transport_header (with_headers skb (iph ++ udph) proto iif)) = udph ++ skb_data skb.
Proof.
  unfold with_headers, skb_at, skb_headroom. cbn. intros Hu Hr.
  rewrite <- app_assoc, (app_assoc (ztake _ _)). apply zdrop_app_length. zlia.
Qed.

Lemma udp_header_source sport dport len check rest :
  is_port sport → be_val (ztake 2 (udp_header sport dport len check ++ rest)) = sport.
Proof.
  intros. unfold udp_header. rewrite <- app_assoc, ztake_app_length by done.
  by apply be16_val.
Qed.

Lemma ip_header_addrs tot id_frag check saddr daddr rest :
  zlen id_frag = 4 → zlen check = 2 → is_addr4 saddr → is_addr4 daddr →
  be_val (ztake 4 (zdrop 12 (ip_header tot id_frag check saddr daddr ++ rest))) = saddr ∧
  be_val (ztake 4 (zdrop 16 (ip_header tot id_frag check saddr daddr ++ rest))) = daddr.
Proof.
  intros Hi Hc Hs Hd. unfold ip_header.
  set (p := [0x45; 0] ++ be16 tot ++ id_frag ++ [64; IPPROTO_UDP] ++ check).
  assert (zlen p = 12) as Hp by (unfold p; zlia).
  assert (([0x45; 0] ++ be16 tot ++ id_frag ++ [64; IPPROTO_UDP] ++ check
    ++ be_bytes 4 saddr ++ be_bytes 4 daddr) ++ rest
    = p ++ be_bytes 4 saddr ++ be_bytes 4 daddr ++ rest) as ->
    by (unfold p; by rewrite <- !app_assoc).
  split.
  - rewrite (zdrop_app_length 12), (ztake_app_length 4) by (rewrite ?zlen_be_bytes; lia).
    by apply be_bytes_val.
  - rewrite app_assoc, (zdrop_app_length 16) by zlia. rewrite (ztake_app_length 4) by zlia.
    by apply be_bytes_val.
Qed.

Lemma ipv6_header_addrs plen saddr daddr rest :
  is_addr6 saddr → is_addr6 daddr →
  be_val (ztake 16 (zdrop 8 (ipv6_header plen saddr daddr ++ rest))) = saddr ∧
  be_val (ztake 16 (zdrop 24 (ipv6_header plen saddr daddr ++ rest))) = daddr.
Proof.
  intros Hs Hd. unfold ipv6_header.
  set (p := [0x60; 0; 0; 0] ++ be16 plen ++ [IPPROTO_UDP; 64]).
  assert (([0x60; 0; 0; 0] ++ be16 plen ++ [IPPROTO_UDP; 64]
    ++ be_bytes 16 saddr ++ be_bytes 16 daddr) ++ rest
    = p ++ be_bytes 16 saddr ++ be_bytes 16 daddr ++ rest) as ->
    by (unfold p; by rewrite <- !app_assoc).
  assert (zlen p = 8) as Hp by done. split.
  - rewrite (zdrop_app_length 8), (ztake_app_length 16) by (rewrite ?zlen_be_bytes; lia).
    by apply be_bytes_val.
  - rewrite app_assoc, (zdrop_app_length 24) by zlia. rewrite (ztake_app_length 16) by zlia.
    by apply be_bytes_val.
Qed.

(** The endpoint does not depend on how far the data has been pulled. *)
Lemma endpoint_from_skb_pull s n :
  wg_socket_endpoint_from_skb (skb_pull s n) = wg_socket_endpoint_from_skb s.
Proof.
  unfold wg_socket_endpoint_from_skb. cbn zeta. rewrite !skb_at_pull.
  unfold skb_pull. by destruct (skb_len s <? n).
Qed.

Lemma endpoint_fake_ipv4 skb sport saddr dport daddr hf fh :
  fake_header4_len <= skb_headroom skb → is_port sport → is_addr4 saddr → is_addr4 daddr →
  wg_socket_endpoint_from_skb
    (restore_fragment_fields hf fh (fake_ipv4 skb sport saddr dport daddr)) =
  Ok (Ep4 sport saddr daddr (skb_iif skb)).
Proof.
  intros Hr Hp Hs Hd.
  destruct (fake_ipv4_shape skb sport saddr dport daddr Hr) as (idf & ck & uc & Hi & Hc & Hu & ->).
  destruct (restore_shape hf fh skb (u16 (28 + skb_len skb)) idf ck saddr daddr
    (udp_header sport dport (u16 (8 + skb_len skb)) uc) (skb_iif skb) Hi Hc) as (ck' & Hc' & ->).
  set (idf' := if hf then _ else idf). assert (zlen idf' = 4) as Hi' by (by destruct hf).
  unfold fake_header4_len, sizeof_iphdr, sizeof_udphdr in Hr.
  pose proof (zlen_udp_header sport dport (u16 (8 + skb_len skb)) uc Hu) as Hul.
  pose proof (zlen_ip_header (u16 (28 + skb_len skb)) idf' ck' saddr daddr Hi' Hc') as Hil.
  unfold wg_socket_endpoint_from_skb.
  rewrite skb_at_network, skb_at_transport by (rewrite ?zlen_app; done || lia).
  cbn [with_headers skb_protocol skb_iif]. rewrite Z.eqb_refl, udp_header_source by done.
  rewrite <- app_assoc.
  destruct (ip_header_addrs (u16 (28 + skb_len skb)) idf' ck' saddr daddr
    (udp_header sport dport (u16 (8 + skb_len skb)) uc ++ skb_data skb)) as [-> ->]; done.
Qed.

Lemma endpoint_fake_ipv6 skb sport saddr scope dport daddr bound_if hf fh :
  fake_header6_len <= skb_headroom skb → is_port sport → is_addr6 saddr → is_addr6 daddr →
  wg_socket_endpoint_from_skb
    (restore_fragment_fields hf fh (fake_ipv6 skb sport saddr scope dport daddr bound_if)) =
  Ok (Ep6 sport saddr
        (ipv6_iface_scope_id saddr (if scope =? 0 then bound_if else scope)) daddr).
Proof.
  intros Hr Hp Hs Hd.
  destruct (fake_ipv6_shape skb sport saddr scope dport daddr bound_if Hr) as (uc & Hu & ->).
  unfold restore_fragment_fields. cbn [with_headers skb_protocol].
  rewrite (proj2 (Z.eqb_neq ETH_P_IPV6 ETH_P_IP)), andb_false_r by done.
  unfold fake_header6_len, sizeof_ipv6hdr, sizeof_udphdr in Hr.
  pose proof (zlen_udp_header sport dport (u16 (8 + skb_len skb)) uc Hu) as Hul.
  pose proof (zlen_ipv6_header (u16 (8 + skb_len skb)) saddr daddr) as Hil.
  unfold wg_socket_endpoint_from_skb.
  rewrite skb_at_network, skb_at_transport by (rewrite ?zlen_app; done || lia).
  cbn [with_headers skb_protocol skb_iif].
  rewrite (proj2 (Z.eqb_neq ETH_P_IPV6 ETH_P_IP)), Z.eqb_refl, udp_header_source by done.
  rewrite <- app_assoc.
  destruct (ipv6_header_addrs (u16 (8 + skb_len skb)) saddr daddr
    (udp_header sport dport (u16 (8 + skb_len skb)) uc ++ skb_data skb)) as [-> ->]; done.
Qed.

(** The remote end of the connection, with the local address as source. *)
Definition stream_endpoint (a : stream_addrs) (iif : Z) : option endpoint :=
  match stream_sk a with
  | None => None
  | Some sk =>
      if is_inbound a then
        match inbound_source a, inbound_dest a with
        | Sa4 _ local, Sa4 port remote => Some (Ep4 port remote local iif)
        | Sa6 _ local _, Sa6 port remote scope =>
            Some (Ep6 port remote
                    (ipv6_iface_scope_id remote
                       (if scope =? 0 then sk_bound_dev_if sk else scope)) local)
        | _, _ => None
        end
      else
        match wg_extract_endpoint_from_sock sk with
        | Ep4 port remote _ _ => Some (Ep4 port remote (inet_saddr sk) iif)
        | Ep6 port remote scope _ => Some (Ep6 port remote scope (sk_v6_saddr sk))
        | EpUnspec => None
        end
  end.

(** C19: the endpoint read back from a received record, after any pull and with
    or without restored fragment fields, is the remote end of the connection
    the record was read from: the accepted peer address of an inbound socket,
    the dialed address (with the scope of a link-local one) of an outbound
    socket. *)
Theorem record_endpoint_is_remote (skb skb' : sk_buff) (a : stream_addrs) (e : endpoint)
    (hf : bool) (fh : wg_tcp_frag_header) (n : Z) :
  fake_header6_len <= skb_headroom skb →
  wf_sockaddr (inbound_source a) → wf_sockaddr (inbound_dest a) →
  (∀ sk, stream_sk a = Some sk → wf_sock sk) →
  stream_endpoint a (skb_iif skb) = Some e →
  wg_tcp_build_fake_headers skb a = Ok skb' →
  wg_socket_endpoint_from_skb (skb_pull (restore_fragment_fields hf fh skb') n) = Ok e.
Proof.
  intros Hr Hws Hwd Hsk He Hb. rewrite endpoint_from_skb_pull.
  assert (fake_header4_len <= skb_headroom skb) as Hr4
    by (unfold fake_header4_len, fake_header6_len, sizeof_iphdr, sizeof_ipv6hdr in *; lia).
  unfold wg_tcp_build_fake_headers, stream_endpoint, wg_extract_endpoint_from_sock in *.
  destruct (stream_sk a) as [sk|]; [|done].
  specialize (Hsk sk eq_refl) as (? & ? & ? & ? & ? & ?).
  destruct (is_inbound a).
  - destruct (inbound_source a), (inbound_dest a); try done; destruct_and?;
      apply (inj Some) in He as <-; apply (inj Ok) in Hb as <-; cbn [wf_sockaddr] in *; destruct_and?;
      [by apply endpoint_fake_ipv4|by apply endpoint_fake_ipv6].
  - destruct (sk_family sk =? AF_INET);
      [apply (inj Some) in He as <-; apply (inj Ok) in Hb as <-; by apply endpoint_fake_ipv4|].
    destruct (sk_family sk =? AF_INET6); [|done].
    apply (inj Some) in He as <-. apply (inj Ok) in Hb as <-.
    rewrite endpoint_fake_ipv6 by assumption.
    reflexivity.
Qed.
End fake_facts.

(** ** Examples *)
Definition zero_csum : KernelCsum :=
  {| ip_fast_csum := λ _ _, 0; csum_partial := λ _ _, 0;
     csum_tcpudp_magic := λ _ _ _ _ _, 0; csum_add := λ _ _, 0; csum_fold := λ _, 0 |}.

(** 10.0.0.1:51820 connected to 192.0.2.7:443. *)
Definition sample_sock : sock := {|
  sk_family := AF_INET; inet_saddr := 0x0a000001; inet_sport := 51820;
  inet_daddr := 0xc0000207; inet_dport := 443; sk_v6_saddr := 0; sk_v6_rcv_saddr := 0;
  sk_v6_daddr := 0; sk_bound_dev_if := 3 |}.

Definition sample_addrs : stream_addrs := mk_stream_addrs false SaUnspec SaUnspec (Some sample_sock).

(** A message of a type and with the headroom the reader reserves. *)
Definition sample_skb : sk_buff :=
  mk_sk_buff (replicate 130 0) ([4; 0; 0; 0] ++ replicate 28 9) 0 0 0 0 0 packet_cb_zero.

Definition ok_or {A} (d : A) (x : result A) : A := match x with Ok a => a | Err _ => d end.

Lemma record_endpoint_is_remote_witness :
  wg_socket_endpoint_from_skb (skb_pull (restore_fragment_fields (C := zero_csum) true
      (mk_frag_header 5 0x2001)
      (ok_or sample_skb (wg_tcp_build_fake_headers (C := zero_csum) sample_skb sample_addrs))) 28)
  = Ok (Ep4 443 0xc0000207 0x0a000001 0).
Proof.
  apply (@record_endpoint_is_remote zero_csum sample_skb _ sample_addrs);
    [by vm_compute|done|done| |done|done].
  intros sk [= <-]. by vm_compute.
Defined.
