(* ===== verification/RxHeader.v ===== *)
(** * Entry of the receive path

    [prepare_skb_header] and [validate_header_len] of kernel/receive.c: the UDP
    header of a received datagram is checked and removed, and the message in it
    is accepted only if its type and length agree.  Composed with FakeHeaders.v
    this gives the life of a record between the stream reader and the message
    dispatcher: exactly the message bytes come out, for every message up to the
    largest a UDP length field can describe. *)
From stdpp Require Import prelude list.
From S2P Require Import Prelude Skb Net TcpFrame FakeHeaders.

#[local] Open Scope Z_scope.

Definition U16_MAX := 65535.

(** [ip_tunnel_parse_protocol] of the kernel: the protocol the version nibble
    of the network header names, when a header of that kind fits. *)
Class IpTunnel := { ip_tunnel_parse_protocol : sk_buff → Z }.
Class IpTunnelOk (T : IpTunnel) : Prop := {
  parse_protocol_v4 : ∀ s b rest,
    0 <= skb_network_header s →
    skb_at s (skb_network_header s) = b :: rest → Z.shiftr b 4 = 4 →
    sizeof_iphdr <= zlen (b :: rest) → ip_tunnel_parse_protocol s = ETH_P_IP;
  parse_protocol_v6 : ∀ s b rest,
    0 <= skb_network_header s →
    skb_at s (skb_network_header s) = b :: rest → Z.shiftr b 4 = 6 →
    sizeof_ipv6hdr <= zlen (b :: rest) → ip_tunnel_parse_protocol s = ETH_P_IPV6;
}.

(** An implementation, for the examples. *)
Definition version_tunnel : IpTunnel := {|
  ip_tunnel_parse_protocol s :=
    let h := skb_at s (skb_network_header s) in
    match h with
    | [] => 0
    | b :: _ =>
        if (sizeof_iphdr <=? zlen h) && (Z.shiftr b 4 =? 4) then ETH_P_IP
        else if (sizeof_ipv6hdr <=? zlen h) && (Z.shiftr b 4 =? 6) then ETH_P_IPV6
        else 0
    end
|}.

#[export] Instance version_tunnel_ok : IpTunnelOk version_tunnel.
Proof.
  split; intros s b rest _ Hs Hv Hl; cbn -[zlen]; rewrite Hs, Hv;
    rewrite (proj2 (Z.leb_le _ _) Hl); [done|].
  by destruct (sizeof_iphdr <=? _).
Qed.

(** ** Message types and lengths *)

(** [SKB_TYPE_LE32]: the first word of the message. *)
Definition SKB_TYPE_LE32 (skb : sk_buff) : Z := le_val (ztake 4 (skb_data skb)).

Definition validate_header_len (skb : sk_buff) : Z :=
  if skb_len skb <? sizeof_message_header then 0
  else if (SKB_TYPE_LE32 skb =? MESSAGE_DATA) && (MESSAGE_MINIMUM_LENGTH <=? skb_len skb)
  then sizeof_message_data
  else if (SKB_TYPE_LE32 skb =? MESSAGE_HANDSHAKE_INITIATION)
          && (skb_len skb =? sizeof_message_handshake_initiation)
  then sizeof_message_handshake_initiation
  else if (SKB_TYPE_LE32 skb =? MESSAGE_HANDSHAKE_RESPONSE)
          && (skb_len skb =? sizeof_message_handshake_response)
  then sizeof_message_handshake_response
  else if (SKB_TYPE_LE32 skb =? MESSAGE_HANDSHAKE_COOKIE)
          && (skb_len skb =? sizeof_message_handshake_cookie)
  then sizeof_message_handshake_cookie
  else 0.

Section prepare.
Context {T : IpTunnel}.

Definition wg_check_packet_protocol (skb : sk_buff) : bool :=
  let real_protocol := ip_tunnel_parse_protocol skb in
  negb (real_protocol =? 0) && (skb_protocol skb =? real_protocol).

Definition skb_transport_offset (skb : sk_buff) : Z :=
  skb_transport_header skb - skb_headroom skb.

(** [skb_header_pointer] on a linear buffer, for offsets into its data (the
    two callers of the receive path have the UDP header at or after the data
    pointer). *)
Definition skb_header_pointer (skb : sk_buff) (offset len : Z) : option (list Z) :=
  if (offset <? 0) || (skb_len skb - offset <? len) then None
  else Some (ztake len (zdrop offset (skb_data skb))).

Definition pskb_may_pull (skb : sk_buff) (len : Z) : bool := len <=? skb_len skb.

Definition prepare_skb_header (skb : sk_buff) : result sk_buff :=
  if negb (wg_check_packet_protocol skb)
     || (skb_transport_header skb <? 0)
     || (skb_headroom skb + skb_len skb <? skb_transport_header skb + sizeof_udphdr)
  then Err (-EINVAL) else
  match skb_header_pointer skb (skb_transport_offset skb) sizeof_udphdr with
  | None => Err (-EINVAL)
  | Some udp =>
      let data_offset := u64 (skb_transport_offset skb + sizeof_udphdr) in
      if (U16_MAX <? data_offset) || (skb_len skb <? u64 (data_offset + sizeof_udphdr))
      then Err (-EINVAL) else
      let data_len := be_val (ztake 2 (zdrop 4 udp)) in
      if (data_len <? sizeof_udphdr)
         || (u32 (skb_len skb - skb_transport_offset skb) <? data_len)
      then Err (-EINVAL) else
      let data_len := data_len - sizeof_udphdr in
      if negb (pskb_may_pull skb (data_offset + sizeof_message_header))
      then Err (-EINVAL) else
      let skb := skb_trim skb (data_len + data_offset) in
      let skb := skb_pull skb data_offset in
      if negb (skb_len skb =? data_len) then Err (-EINVAL) else
      let header_len := validate_header_len skb in
      if header_len =? 0 then Err (-EINVAL) else
      let skb := skb_push skb data_offset in
      if negb (pskb_may_pull skb (data_offset + header_len)) then Err (-EINVAL) else
      Ok (skb_pull skb data_offset)
  end.
End prepare.

(** ** Facts *)
Lemma validate_header_len_ext s s' :
  skb_data s = skb_data s' → validate_header_len s = validate_header_len s'.
Proof. intros H. unfold validate_header_len, SKB_TYPE_LE32, skb_len. by rewrite H. Qed.

(** The length announced by an accepted message is within the message. *)
Lemma validate_header_len_le s : validate_header_len s <= skb_len s.
Proof.
  assert (0 <= skb_len s) by apply zlen_nonneg.
  assert (MESSAGE_MINIMUM_LENGTH = 32 ∧ sizeof_message_data = 16) as [? ?] by done.
  unfold validate_header_len. repeat (case_if; simpl_guards; [lia|]). lia.
Qed.

Section prepare_facts.
Context {T : IpTunnel}.

(** Reading the length field of the UDP header. *)
Lemma udp_header_len sport dport len check rest :
  0 <= len < 2 ^ 16 →
  be_val (ztake 2 (zdrop 4 (udp_header sport dport len check ++ rest))) = len.
Proof.
  intros. rewrite udp_header_split, <- !app_assoc, app_assoc.
  rewrite (zdrop_app_length 4), (ztake_app_length 2) by done. by apply be16_val.
Qed.

(** The buffer handed on: the headers pulled, the message left. *)
Definition message_skb (skb : sk_buff) (hdr : list Z) (proto iif : Z) : sk_buff :=
  skb_pull (with_headers skb hdr proto iif) (zlen hdr).

Lemma message_skb_data skb hdr proto iif :
  skb_data (message_skb skb hdr proto iif) = skb_data skb.
Proof.
  unfold message_skb. rewrite skb_data_pull; unfold with_headers, skb_len; cbn; [|zlia].
  by apply zdrop_app_length.
Qed.

(** Undoing a push restores the buffer. *)
Lemma skb_push_pull s n : 0 <= n <= skb_len s → skb_push (skb_pull s n) n = s.
Proof.
  intros Hn. rewrite skb_pull_eq by done. unfold skb_len in *.
  apply skb_ext; cbn; unfold skb_headroom; cbn; try done;
    replace (zlen (skb_head s ++ ztake n (skb_data s)) - n) with (zlen (skb_head s)) by zlia.
  - by rewrite ztake_app_length.
  - by rewrite zdrop_app_length, ztake_zdrop.
Qed.

Lemma prepare_with_headers skb iph sport dport uc proto iif :
  let hdr := iph ++ udp_header sport dport (u16 (8 + skb_len skb)) uc in
  let s := with_headers skb hdr proto iif in
  ip_tunnel_parse_protocol s = proto → proto ≠ 0 → zlen uc = 2 → zlen iph <= 40 →
  zlen hdr <= skb_headroom skb → MESSAGE_MINIMUM_LENGTH <= skb_len skb <= 65535 →
  prepare_skb_header s =
    if (skb_len skb <=? 65527) && negb (validate_header_len skb =? 0)
    then Ok (message_skb skb hdr proto iif) else Err (-EINVAL).
Proof.
  intros hdr s Hp Hp0 Huc Hiph Hr [Hmin Hmax]. change MESSAGE_MINIMUM_LENGTH with 32 in Hmin.
  pose proof (zlen_udp_header sport dport (u16 (8 + skb_len skb)) uc Huc) as Hul.
  assert (zlen hdr = zlen iph + 8) as Hhl by (unfold hdr; zlia).
  assert (skb_len s = zlen hdr + skb_len skb) as Hsl
    by (unfold s, with_headers, skb_len; cbn; zlia).
  assert (skb_headroom s = skb_headroom skb - zlen hdr) as Hsr.
  { unfold s, with_headers, skb_headroom in *. cbn. zlia. }
  assert (skb_transport_offset s = zlen iph) as Hto.
  { unfold skb_transport_offset. rewrite Hsr. unfold s, with_headers. cbn.
    unfold sizeof_udphdr. lia. }
  pose proof (zlen_nonneg iph). pose proof (zlen_nonneg (skb_head skb)).
  unfold prepare_skb_header, wg_check_packet_protocol. rewrite Hp.
  rewrite (proj2 (Z.eqb_neq proto 0) Hp0). change (skb_protocol s) with proto.
  rewrite Z.eqb_refl. cbn [negb andb orb].
  change (skb_transport_header s) with (skb_headroom skb - sizeof_udphdr).
  rewrite Hsr, Hsl, Hto. unfold sizeof_udphdr, skb_header_pointer.
  rewrite (proj2 (Z.ltb_ge _ 0)), (proj2 (Z.ltb_ge _ _)) by lia. cbn [orb].
  rewrite (proj2 (Z.ltb_ge (zlen iph) 0)), Hsl, (proj2 (Z.ltb_ge _ 8)) by lia. cbn [orb].
  assert (zdrop (zlen iph) (skb_data s) =
    udp_header sport dport (u16 (8 + skb_len skb)) uc ++ skb_data skb) as ->.
  { unfold s, with_headers, hdr. cbn. by rewrite <- app_assoc, zdrop_app_length. }
  rewrite (ztake_app_length 8), <- (app_nil_r (udp_header _ _ _ _)), udp_header_len
    by (done || apply (wrap_range 16); lia).
  assert (u64 (zlen iph + 8) = zlen hdr) as -> by (rewrite Hhl; apply wrap_small; lia).
  assert (u64 (zlen hdr + 8) = zlen hdr + 8) as -> by (apply wrap_small; lia).
  assert (u32 (zlen hdr + skb_len skb - zlen iph) = 8 + skb_len skb) as ->
    by (unfold u32; rewrite wrap_small; lia).
  unfold U16_MAX, pskb_may_pull, sizeof_message_header. rewrite Hsl.
  rewrite (proj2 (Z.ltb_ge _ (zlen hdr))), (proj2 (Z.ltb_ge _ (zlen hdr + 8))) by lia. cbn [orb].
  destruct (Z.leb_spec (skb_len skb) 65527); cbn [andb].
  2: { assert (u16 (8 + skb_len skb) = skb_len skb - 65528) as ->
         by (unfold u16, wrap; div_mod_lia).
       by rewrite (proj2 (Z.ltb_lt _ 8)) by lia. }
  assert (u16 (8 + skb_len skb) = 8 + skb_len skb) as -> by (apply wrap_small; lia).
  rewrite (proj2 (Z.ltb_ge _ 8)), Z.ltb_irrefl, (proj2 (Z.leb_le _ _)) by lia. cbn [orb negb].
  rewrite skb_data_trim_all by lia. change (skb_pull s (zlen hdr)) with (message_skb skb hdr proto iif).
  assert (skb_len (message_skb skb hdr proto iif) = skb_len skb) as ->
    by (unfold skb_len; by rewrite message_skb_data).
  rewrite (proj2 (Z.eqb_eq (skb_len skb) _)) by lia. cbn [negb].
  rewrite (validate_header_len_ext _ skb) by apply message_skb_data.
  destruct (validate_header_len skb =? 0); [done|]. cbn [negb].
  unfold message_skb at 1 2. rewrite skb_push_pull by (fold s; lia). fold s. rewrite Hsl.
  pose proof (validate_header_len_le skb).
  by rewrite (proj2 (Z.leb_le _ (zlen hdr + skb_len skb))) by lia.
Qed.

Context {TOk : IpTunnelOk T} {C : KernelCsum}.

(** A record with its synthetic headers is recognised as what it claims to be. *)
Lemma parse_with_headers4 skb tot id_frag check saddr daddr rest iif :
  zlen (ip_header tot id_frag check saddr daddr ++ rest) <= skb_headroom skb →
  zlen id_frag = 4 → zlen check = 2 →
  ip_tunnel_parse_protocol
    (with_headers skb (ip_header tot id_frag check saddr daddr ++ rest) ETH_P_IP iif) = ETH_P_IP.
Proof.
  intros Hr Hi Hc.
  pose proof (skb_at_network skb (ip_header tot id_frag check saddr daddr ++ rest)
    ETH_P_IP iif Hr) as Hat.
  eapply parse_protocol_v4; [cbn -[ip_header]; lia|exact Hat|done|].
  change (_ :: _) with ((ip_header tot id_frag check saddr daddr ++ rest) ++ skb_data skb).
  rewrite !zlen_app, zlen_ip_header by done. unfold sizeof_iphdr. zlia.
Qed.

Lemma parse_with_headers6 skb plen saddr daddr rest iif :
  zlen (ipv6_header plen saddr daddr ++ rest) <= skb_headroom skb →
  ip_tunnel_parse_protocol
    (with_headers skb (ipv6_header plen saddr daddr ++ rest) ETH_P_IPV6 iif) = ETH_P_IPV6.
Proof.
  intros Hr.
  pose proof (skb_at_network skb (ipv6_header plen saddr daddr ++ rest) ETH_P_IPV6 iif Hr) as Hat.
  eapply parse_protocol_v6; [cbn -[ipv6_header]; lia|exact Hat|done|].
  change (_ :: _) with ((ipv6_header plen saddr daddr ++ rest) ++ skb_data skb).
  rewrite !zlen_app, zlen_ipv6_header. unfold sizeof_ipv6hdr. zlia.
Qed.

(** [s] is [skb] behind synthetic headers the receive path will accept. *)
Definition headed (skb s : sk_buff) : Prop :=
  ∃ iph sport dport uc proto iif,
    let hdr := iph ++ udp_header sport dport (u16 (8 + skb_len skb)) uc in
    s = with_headers skb hdr proto iif ∧
    ip_tunnel_parse_protocol s = proto ∧ proto ≠ 0 ∧
    zlen uc = 2 ∧ zlen iph <= 40 ∧ zlen hdr <= skb_headroom skb.

Lemma headed_ipv4 skb sport saddr dport daddr hf fh :
  fake_header6_len <= skb_headroom skb →
  headed skb (restore_fragment_fields hf fh (fake_ipv4 skb sport saddr dport daddr)).
Proof.
  change fake_header6_len with 48. intros Hr.
  destruct (fake_ipv4_shape skb sport saddr dport daddr) as (idf & ck & uc & Hi & Hc & Hu & ->);
    [change fake_header4_len with 28; lia|].
  destruct (restore_shape hf fh skb (u16 (28 + skb_len skb)) idf ck saddr daddr
    (udp_header sport dport (u16 (8 + skb_len skb)) uc) (skb_iif skb) Hi Hc) as (ck' & Hc' & ->).
  set (idf' := if hf then _ else idf). assert (zlen idf' = 4) as Hi' by (by destruct hf).
  eexists _, sport, dport, uc, ETH_P_IP, _. split; [reflexivity|].
  rewrite parse_with_headers4 by (rewrite ?zlen_app, ?zlen_ip_header, ?zlen_udp_header; done || lia).
  rewrite zlen_app, zlen_ip_header, zlen_udp_header by done. repeat split; done || lia.
Qed.

Lemma headed_ipv6 skb sport saddr scope dport daddr bif hf fh :
  fake_header6_len <= skb_headroom skb →
  headed skb (restore_fragment_fields hf fh (fake_ipv6 skb sport saddr scope dport daddr bif)).
Proof.
  change fake_header6_len with 48. intros Hr.
  destruct (fake_ipv6_shape skb sport saddr scope dport daddr bif) as (uc & Hu & ->);
    [change fake_header6_len with 48; lia|].
  unfold restore_fragment_fields. cbn [with_headers skb_protocol].
  rewrite (proj2 (Z.eqb_neq ETH_P_IPV6 ETH_P_IP)), andb_false_r by done.
  eexists _, sport, dport, uc, ETH_P_IPV6, _. split; [reflexivity|].
  rewrite parse_with_headers6 by (rewrite ?zlen_app, ?zlen_ipv6_header, ?zlen_udp_header; done || lia).
  rewrite zlen_app, zlen_ipv6_header, zlen_udp_header by done. repeat split; done || lia.
Qed.

Lemma fake_headers_headed skb skb' a hf fh :
  fake_header6_len <= skb_headroom skb → wg_tcp_build_fake_headers skb a = Ok skb' →
  headed skb (restore_fragment_fields hf fh skb').
Proof.
  intros Hr Hb. unfold wg_tcp_build_fake_headers in Hb.
  destruct (stream_sk a) as [sk|]; [|done]. destruct (is_inbound a).
  - destruct (inbound_source a); [done| |].
    + destruct (as_sockaddr_in (inbound_dest a)). cbn [as_sockaddr_in] in Hb.
      apply (inj Ok) in Hb as <-. by apply headed_ipv4.
    + destruct (as_sockaddr_in6 (inbound_dest a)) as [[] ?]. cbn [as_sockaddr_in6] in Hb.
      apply (inj Ok) in Hb as <-. by apply headed_ipv6.
  - destruct (sk_family sk =? AF_INET);
      [apply (inj Ok) in Hb as <-; by apply headed_ipv4|].
    destruct (sk_family sk =? AF_INET6); [|done].
    apply (inj Ok) in Hb as <-. by apply headed_ipv6.
Qed.

Lemma prepare_built (skb skb' : sk_buff) (a : stream_addrs)
    (hf : bool) (fh : wg_tcp_frag_header) :
  fake_header6_len <= skb_headroom skb →
  MESSAGE_MINIMUM_LENGTH <= skb_len skb <= 65535 →
  wg_tcp_build_fake_headers skb a = Ok skb' →
  let s := restore_fragment_fields hf fh skb' in
  match prepare_skb_header s with
  | Ok m =>
      skb_len skb <= 65527 ∧ validate_header_len skb ≠ 0 ∧
      skb_data m = skb_data skb ∧ PACKET_CB m = PACKET_CB skb ∧
      wg_socket_endpoint_from_skb m = wg_socket_endpoint_from_skb s
  | Err e => e = -EINVAL ∧ (65527 < skb_len skb ∨ validate_header_len skb = 0)
  end.
Proof.
  intros Hr Hn Hb s.
  destruct (fake_headers_headed skb skb' a hf fh Hr Hb)
    as (iph & sp & dp & uc & proto & iif & Hs & Hp & Hp0 & Hu & Hi & Hh).
  fold s in Hs, Hp. rewrite Hs in Hp. rewrite Hs, prepare_with_headers by done.
  destruct (Z.leb_spec (skb_len skb) 65527); cbn [andb]; [|split; [done|by left]].
  destruct (Z.eqb_spec (validate_header_len skb) 0); cbn [negb]; [split; [done|by right]|].
  split_and!; [done|done|apply message_skb_data| |apply endpoint_from_skb_pull].
  unfold message_skb, skb_pull. by case_if.
Qed.
(** C20: a record that the reader has labelled with its synthetic headers comes
    out of the entry check of the receive path as exactly the message bytes,
    with its control block and sender endpoint, whenever the message has a
    known type of the right length and at most 65527 bytes; every other record
    is refused with -EINVAL. *)
Theorem record_message_recovered (skb skb' : sk_buff) (a : stream_addrs)
    (hf : bool) (fh : wg_tcp_frag_header) :
  fake_header6_len <= skb_headroom skb →
  MESSAGE_MINIMUM_LENGTH <= skb_len skb <= 65535 →
  wg_tcp_build_fake_headers skb a = Ok skb' →
  let s := restore_fragment_fields hf fh skb' in
  match prepare_skb_header s with
  | Ok m =>
      skb_len skb <= 65527 ∧ validate_header_len skb ≠ 0 ∧
      skb_data m = skb_data skb ∧ PACKET_CB m = PACKET_CB skb ∧
      wg_socket_endpoint_from_skb m = wg_socket_endpoint_from_skb s
  | Err e => e = -EINVAL ∧ (65527 < skb_len skb ∨ validate_header_len skb = 0)
  end.
Proof. apply prepare_built. Qed.
End prepare_facts.

Lemma record_message_recovered_witness :
  let s := restore_fragment_fields (C := zero_csum) false (mk_frag_header 0 0)
      (ok_or sample_skb (wg_tcp_build_fake_headers (C := zero_csum) sample_skb sample_addrs)) in
  ∃ m, prepare_skb_header (T := version_tunnel) s = Ok m ∧ skb_data m = skb_data sample_skb.
Proof.
  intros s.
  pose proof (@record_message_recovered version_tunnel _ zero_csum sample_skb
    (ok_or sample_skb (wg_tcp_build_fake_headers (C := zero_csum) sample_skb sample_addrs))
    sample_addrs false (mk_frag_header 0 0) ltac:(by vm_compute) ltac:(by vm_compute) eq_refl) as H.
  cbn zeta in H. fold s in H. destruct (prepare_skb_header s) as [m|e].
  - exists m. split; [done|]. apply H.
  - exfalso. destruct H as [_ [H|H]]; by vm_compute in H.
Defined.
