(* ===== verification/Peer.v ===== *)
(** * The TCP state of a peer and its sockets

    The fields of [struct wg_peer] (kernel/peer.h), [struct wg_device]
    (kernel/device.h), [struct wg_socket_data] (kernel/wg_tcp.h) and of the
    kernel's sockets that the TCP transport reads and writes.  A pointer to a
    socket is the socket's number in a store [gmap Z ksock]; a pointer to a peer
    is the peer's [internal_id].  A work item of the peer is represented by
    whether it is queued (delayed work: with which delay in milliseconds). *)
From stdpp Require Import prelude list gmap.
From S2P Require Import Prelude Skb Net.

#[local] Open Scope Z_scope.

Inductive tcp_state :=
  | TCP_ESTABLISHED | TCP_SYN_SENT | TCP_SYN_RECV | TCP_FIN_WAIT1 | TCP_FIN_WAIT2
  | TCP_TIME_WAIT | TCP_CLOSE | TCP_CLOSE_WAIT | TCP_LAST_ACK | TCP_LISTEN
  | TCP_CLOSING | TCP_NEW_SYN_RECV.

#[export] Instance tcp_state_eq_dec : EqDecision tcp_state.
Proof. solve_decision. Defined.

Inductive transport := WG_TRANSPORT_UDP | WG_TRANSPORT_TCP.

#[export] Instance transport_eq_dec : EqDecision transport.
Proof. solve_decision. Defined.

(** A callback slot of a socket: one of WireGuard's, or the kernel's own. *)
Inductive callback := CbKernel | CbWg.

#[export] Instance callback_eq_dec : EqDecision callback.
Proof. solve_decision. Defined.

(** [struct wg_socket_data]; [sd_id] is its address. *)
Record wg_socket_data := mk_socket_data {
  sd_id : Z;
  sd_peer : Z;
  sd_socket : Z;
  sd_inbound : bool;
  sd_original_state_change : callback;
  sd_original_write_space : callback;
  sd_original_data_ready : callback;
}.

#[export] Instance wg_socket_data_eq_dec : EqDecision wg_socket_data.
Proof. solve_decision. Defined.

Record ksock := mk_ksock {
  ks_sk : sock;
  ks_state : tcp_state;
  ks_user_data : option wg_socket_data;
  ks_state_change : callback;
  ks_write_space : callback;
  ks_data_ready : callback;
  ks_rx_pending : bool;
  ks_writeable : bool;
  ks_nospace : bool;
  ks_mark : Z;
  ks_releases : nat;
}.

#[export] Instance eta_ksock : Settable ksock := λ k,
  mk_ksock (ks_sk k) (ks_state k) (ks_user_data k) (ks_state_change k) (ks_write_space k)
    (ks_data_ready k) (ks_rx_pending k) (ks_writeable k) (ks_nospace k) (ks_mark k)
    (ks_releases k).

Abbreviation sockets := (gmap Z ksock).

(** The device fields the peer functions test. *)
Record wg_device := mk_device {
  dev_tcp_cleanup_scheduled : bool;
  dev_transport : transport;
  dev_running : bool;
  dev_fwmark : Z;
}.

(** The fields of the TCP transport.  Left out are those the code writes but
    never reads ([outbound_source], [outbound_dest]) or only prints
    ([inbound_timestamp], [outbound_timestamp]). *)
Record wg_peer := mk_peer {
  internal_id : Z;
  is_dead : bool;
  temp_peer : bool;
  (* endpoints *)
  p_endpoint : endpoint;
  tcp_reply_endpoint : endpoint;
  peer_endpoint : endpoint;
  peer_endpoint_set : bool;
  tcp_peer_listen_port : Z;
  tcp_roaming_connection_id : Z;
  tcp_connection_id : Z;
  (* sockets *)
  peer_socket : option Z;
  inbound_socket : option Z;
  outbound_socket : option Z;
  tcp_inbound_socket_data : option wg_socket_data;
  tcp_outbound_socket_data : option wg_socket_data;
  tcp_inbound_callbacks_set : bool;
  tcp_outbound_callbacks_set : bool;
  p_inbound_source : sockaddr;
  p_inbound_dest : sockaddr;
  (* connection state *)
  tcp_established : bool;
  tcp_pending : bool;
  tcp_connecting : bool;
  inbound_connected : bool;
  outbound_connected : bool;
  tcp_reconnect_requested : bool;
  tcp_stopping : bool;
  tcp_teardown_quarantined : bool;
  tcp_outbound_remove_scheduled : bool;
  tcp_outbound_remove_socket : option Z;
  tcp_inbound_remove_scheduled : bool;
  tcp_inbound_remove_socket : option Z;
  tcp_retry_scheduled : bool;
  (* stream data: the partially received record and the frames to send *)
  read_state : option sk_buff * Z * Z;
  send_queue : list sk_buff;
  tx_bytes : Z;
  (* workers *)
  tcp_read_wq : bool;
  tcp_write_wq : bool;
  tcp_read_worker_scheduled : bool;
  tcp_write_worker_scheduled : bool;
  tcp_bootstrap_socket : option Z;
  tcp_promotion_connection_id : Z;
  tcp_promotion_worker_scheduled : bool;
  (* queued work items *)
  wk_read : bool;
  wk_write : bool;
  wk_bootstrap : bool;
  wk_promotion : bool;
  wk_retry : option Z;
  wk_outbound_remove : option Z;
  wk_inbound_remove : option Z;
}.

#[export] Instance eta_wg_peer : Settable wg_peer := λ p,
  mk_peer (internal_id p) (is_dead p) (temp_peer p) (p_endpoint p) (tcp_reply_endpoint p)
    (peer_endpoint p) (peer_endpoint_set p) (tcp_peer_listen_port p)
    (tcp_roaming_connection_id p) (tcp_connection_id p) (peer_socket p)
    (inbound_socket p) (outbound_socket p) (tcp_inbound_socket_data p)
    (tcp_outbound_socket_data p) (tcp_inbound_callbacks_set p)
    (tcp_outbound_callbacks_set p) (p_inbound_source p) (p_inbound_dest p)
    (tcp_established p) (tcp_pending p) (tcp_connecting p) (inbound_connected p)
    (outbound_connected p) (tcp_reconnect_requested p) (tcp_stopping p)
    (tcp_teardown_quarantined p) (tcp_outbound_remove_scheduled p)
    (tcp_outbound_remove_socket p) (tcp_inbound_remove_scheduled p)
    (tcp_inbound_remove_socket p) (tcp_retry_scheduled p) (read_state p) (send_queue p) (tx_bytes p)
    (tcp_read_wq p) (tcp_write_wq p) (tcp_read_worker_scheduled p)
    (tcp_write_worker_scheduled p) (tcp_bootstrap_socket p)
    (tcp_promotion_connection_id p) (tcp_promotion_worker_scheduled p) (wk_read p)
    (wk_write p) (wk_bootstrap p) (wk_promotion p) (wk_retry p) (wk_outbound_remove p)
    (wk_inbound_remove p).

(** ** Shared conditions *)

(** The stream of the peer may be used and its work may be queued. *)
Definition stream_live (d : wg_device) (p : wg_peer) : bool :=
  negb (is_dead p) && negb (tcp_stopping p) && dev_tcp_cleanup_scheduled d
  && negb (tcp_outbound_remove_scheduled p) && negb (tcp_inbound_remove_scheduled p).

Definition is_tcp (d : wg_device) : bool := bool_decide (dev_transport d = WG_TRANSPORT_TCP).

Definition isSome {A} (o : option A) : bool := match o with Some _ => true | None => false end.

(** Fields selected by the direction of a connection. *)
Definition dir_socket (inbound : bool) (p : wg_peer) : option Z :=
  if inbound then inbound_socket p else outbound_socket p.
Definition dir_data (inbound : bool) (p : wg_peer) : option wg_socket_data :=
  if inbound then tcp_inbound_socket_data p else tcp_outbound_socket_data p.
Definition dir_callbacks (inbound : bool) (p : wg_peer) : bool :=
  if inbound then tcp_inbound_callbacks_set p else tcp_outbound_callbacks_set p.
Definition dir_remove (inbound : bool) (p : wg_peer) : bool :=
  if inbound then tcp_inbound_remove_scheduled p else tcp_outbound_remove_scheduled p.
Definition set_dir_data (inbound : bool) (x : option wg_socket_data) (p : wg_peer) : wg_peer :=
  if inbound then p{{ tcp_inbound_socket_data := x }} else p{{ tcp_outbound_socket_data := x }}.
Definition set_dir_callbacks (inbound x : bool) (p : wg_peer) : wg_peer :=
  if inbound then p{{ tcp_inbound_callbacks_set := x }}
  else p{{ tcp_outbound_callbacks_set := x }}.

(** A peer as the allocator leaves it: every field zero. *)
Definition zero_peer (id : Z) : wg_peer :=
  mk_peer id false false EpUnspec EpUnspec EpUnspec false 0 0 0 None None None None None
    false false SaUnspec SaUnspec false false false false false false false false false None
    false None false (None, 0, 0) [] 0 false false false false None 0 false false false false
    false None None None.

(** ** Examples: a running device and a configured peer with an established
    outbound connection over socket 1. *)
Definition sample_device : wg_device := mk_device true WG_TRANSPORT_TCP true 0.
Definition sample_peer : wg_peer :=
  (zero_peer 7){{ peer_socket := Some 1; outbound_socket := Some 1; tcp_established := true;
                  outbound_connected := true; tcp_read_wq := true; tcp_write_wq := true }}.
