(* ===== verification/TcpReader.v ===== *)
(** * The stream reader (kernel/wg_tcp.c: wg_tcp_read_worker and helpers)

    The reader of a TCP carrier keeps a partially received record in the peer
    ([partial_skb], [expected_len], [received_len]), reads from the socket
    without blocking, cuts the stream into records, gives each one synthetic
    headers and passes it to the receive path.  One iteration of its loop is
    [read_iteration], a run of the work item [wg_tcp_read_worker].

    The environment is a script: the segments, end of stream and errors
    [kernel_recvmsg] returns, and the outcomes of the allocations.  The proofs
    about the reader are in TcpReaderSpec.v. *)
From stdpp Require Import prelude list.
From S2P Require Import Prelude Skb Net TcpFrame FakeHeaders Peer.

#[local] Open Scope Z_scope.

Definition NET_IP_ALIGN := 2.
Definition WG_TCP_READ_BUDGET : nat := 64.

(** ** Environment *)
Inductive rx_event :=
  | RxData (bs : list Z)
  | RxEof
  | RxErr (errno : Z).

(** Result of [kernel_recvmsg]: bytes, or a value that is not positive. *)
Inductive recv_result :=
  | RvBytes (bs : list Z)
  | RvRet (ret : Z).

(** A segment larger than the space offered stays queued with its rest. *)
Fixpoint kernel_recvmsg (rx : list rx_event) (space : Z) : recv_result * list rx_event :=
  match rx with
  | [] => (RvRet (-EAGAIN), [])
  | RxData [] :: rx => kernel_recvmsg rx space
  | RxData bs :: rx =>
      if zlen bs <=? space then (RvBytes bs, rx)
      else (RvBytes (ztake space bs), RxData (zdrop space bs) :: rx)
  | RxEof :: rx => (RvRet 0, rx)
  | RxErr errno :: rx => (RvRet (- errno), rx)
  end.

(** [!skb_queue_empty(&sk->sk_receive_queue)]. *)
Definition rx_pending (rx : list rx_event) : bool :=
  existsb (λ e, match e with RxData (_ :: _) => true | _ => false end) rx.

(** Bytes of the script that have not been read yet. *)
Definition unread (rx : list rx_event) : list Z :=
  concat (map (λ e, match e with RxData bs => bs | _ => [] end) rx).

(** What [wg_receive] finds through the socket: its protocol, and the socket
    data with the device and the peer's provisional connection id. *)
Record receive_ctx := mk_receive_ctx {
  sk_protocol : Z;
  user_data_present : bool;
  device_present : bool;
  temp_connection_id : option Z;
}.

Definition wg_receive (c : receive_ctx) (skb : sk_buff) : option sk_buff :=
  if (sk_protocol c =? IPPROTO_TCP) && negb (user_data_present c) then None
  else if negb (device_present c) then None
  else
    let cb := PACKET_CB skb in
    Some (skb{{ PACKET_CB := cb{{ cb_outer_ipproto := sk_protocol c;
      cb_tcp_connection_id :=
        if sk_protocol c =? IPPROTO_TCP
        then default 0 (temp_connection_id c) else 0 }} }}).

(** ** State *)
Record reader := mk_reader {
  partial_skb : option sk_buff;
  expected_len : Z;
  received_len : Z;
  rx_script : list rx_event;
  alloc_script : list bool;
  delivered : list sk_buff;
}.

#[export] Instance eta_reader : Settable reader := λ r,
  mk_reader (partial_skb r) (expected_len r) (received_len r) (rx_script r)
    (alloc_script r) (delivered r).

(** ** Loop bodies

    A loop body returns a value and goes on, or breaks out of the loop. *)
Definition M (A : Type) : Type := reader → option A * reader.

Definition ret {A} (a : A) : M A := λ r, (Some a, r).
Definition brk {A} : M A := λ r, (None, r).
Definition bind {A B} (m : M A) (k : A → M B) : M B := λ r,
  match m r with
  | (Some a, r) => k a r
  | (None, r) => (None, r)
  end.
Definition get : M reader := λ r, (Some r, r).
Definition put (r : reader) : M unit := λ _, (Some tt, r).
Definition modify (f : reader → reader) : M unit := λ r, (Some tt, f r).
(** The next allocation; an exhausted script means success. *)
Definition pop_alloc : M bool := λ r,
  match alloc_script r with
  | [] => (Some true, r)
  | ok :: rest => (Some ok, r{{ alloc_script := rest }})
  end.

Declare Scope loop_scope.
Delimit Scope loop_scope with loop.
Notation "x <- m ; k" := (bind m (λ x, k))
  (at level 100, m at level 99, right associativity, only parsing) : loop_scope.
Notation "m ;; k" := (bind m (λ _, k))
  (at level 100, right associativity, only parsing) : loop_scope.

Definition wg_peer_discard_partial_read (r : reader) : reader :=
  r{{ partial_skb := None; expected_len := 0; received_len := 0 }}.

(** ** Resynchronisation *)
Definition wg_sync_header (r : reader) : bool * reader :=
  match partial_skb r with
  | None => (false, r)
  | Some skb =>
      if received_len r <? WG_TCP_ENCAP_HDR_LEN then (false, r)
      else
        let candidates := Z.to_nat (received_len r - WG_TCP_ENCAP_HDR_LEN + 1) in
        match sync_scan candidates (skb_data skb) 0 (received_len r) with
        | Some i =>
            (true, r{{ partial_skb := Some (skb_pull skb i);
                       received_len := received_len r - i;
                       expected_len := hdr_length (encap_header_of (zdrop i (skb_data skb))) }})
        | None =>
            let suffix := sync_suffix (skb_data skb) (received_len r) in
            (false, r{{ partial_skb := Some (skb_trim (skb_store skb 0 suffix) (zlen suffix));
                        received_len := zlen suffix;
                        expected_len := 0 }})
        end
  end.

Section reader.
Context {K : KernelMem} {C : KernelCsum}.
Context (a : stream_addrs) (ctx : receive_ctx).

Definition read_alloc_size : Z :=
  WG_TCP_SKB_READ_ALLOC_SIZE + WG_TCP_RESERVED_HEADER_SIZE + NET_IP_ALIGN.

#[local] Open Scope loop_scope.

(** Make sure there is a buffer. *)
Definition ensure_partial : M unit :=
  r <- get;
  match partial_skb r with
  | Some _ => ret tt
  | None =>
      ok <- pop_alloc;
      if negb ok then brk else
      modify (λ r, r{{ expected_len := 0;
        partial_skb := Some (skb_reserve (alloc_skb read_alloc_size)
                               (WG_TCP_RESERVED_HEADER_SIZE + NET_IP_ALIGN)) }})
  end.

Definition record_ready (r : reader) : bool :=
  if negb (expected_len r =? 0) then expected_len r <=? received_len r
  else WG_TCP_ENCAP_HDR_LEN <=? received_len r.

(** Room for a header: a full buffer is copied into a larger one. *)
Definition ensure_header_room (skb : sk_buff) : M sk_buff :=
  if skb_tailroom skb <? WG_TCP_ENCAP_HDR_LEN then
    ok <- pop_alloc;
    if negb ok then modify wg_peer_discard_partial_read;; brk else
    let skb := skb_copy_expand skb (skb_headroom skb) read_alloc_size in
    modify (λ r, r{{ partial_skb := Some skb }});; ret skb
  else ret skb.

(** Append what the socket has, without blocking. *)
Definition fill : M unit :=
  r <- get;
  match partial_skb r with
  | None => brk
  | Some skb =>
      skb <- ensure_header_room skb;
      let space := skb_tailroom skb in
      if space =? 0 then brk else
      r <- get;
      let '(res, rx) := kernel_recvmsg (rx_script r) space in
      modify (λ r, r{{ rx_script := rx }});;
      match res with
      | RvBytes bs =>
          modify (λ r, r{{ partial_skb := Some (skb_put_data skb bs);
                           received_len := received_len r + zlen bs }})
      | RvRet n =>
          if n =? -EAGAIN then brk
          else modify wg_peer_discard_partial_read;; brk
      end
  end.

(** Look at the header of the current record, resynchronising if it is not
    one, and note the record's length. *)
Definition check_header : M bool :=
  r <- get;
  match partial_skb r with
  | None => brk
  | Some skb =>
      if received_len r <? WG_TCP_ENCAP_HDR_LEN then brk else
      hdr <- (if wg_check_potential_header_validity (skb_data skb) (received_len r)
              then ret (encap_header_of (skb_data skb))
              else
                let '(found, r) := wg_sync_header r in
                put r;;
                match partial_skb r with
                | Some skb =>
                    if negb found then
                      if received_len r <? WG_TCP_ENCAP_HDR_LEN then brk
                      else modify wg_peer_discard_partial_read;; brk
                    else if received_len r <? WG_TCP_ENCAP_HDR_LEN
                    then modify wg_peer_discard_partial_read;; brk
                    else if negb (wg_check_potential_header_validity (skb_data skb)
                                    (received_len r))
                    then modify wg_peer_discard_partial_read;; brk
                    else ret (encap_header_of (skb_data skb))
                | None => modify wg_peer_discard_partial_read;; brk
                end);
      modify (λ r, r{{ expected_len := hdr_length hdr }});;
      ret (negb (Z.land (hdr_flags hdr) WG_TCP_FRAG_FLAG =? 0))
  end.

(** Room for the rest of the record. *)
Definition ensure_body_room : M unit :=
  r <- get;
  match partial_skb r with
  | None => ret tt
  | Some skb =>
      if received_len r <? expected_len r then
        let needed := expected_len r - received_len r in
        if skb_tailroom skb <? needed then
          ok <- pop_alloc;
          if negb ok then modify wg_peer_discard_partial_read;; brk else
          modify (λ r, r{{ partial_skb :=
            Some (skb_copy_expand skb (skb_headroom skb) needed) }})
        else ret tt
      else ret tt
  end.

(** The bytes behind the record move to a buffer of their own. *)
Definition split_leftover (skb : sk_buff) : M (sk_buff * option sk_buff) :=
  r <- get;
  let leftover_len := received_len r - expected_len r in
  if 0 <? leftover_len then
    ok <- pop_alloc;
    if negb ok then brk else
    let leftover := skb_reserve
      (alloc_skb (leftover_len + WG_TCP_RESERVED_HEADER_SIZE + NET_IP_ALIGN))
      (WG_TCP_RESERVED_HEADER_SIZE + NET_IP_ALIGN) in
    if skb_len skb <? expected_len r + leftover_len
    then modify wg_peer_discard_partial_read;; brk else
    let leftover := skb_put_data leftover
      (ztake leftover_len (zdrop (expected_len r) (skb_data skb))) in
    ret (skb_trim skb (expected_len r), Some leftover)
  else ret (skb, None).

(** A complete record: strip its header, separate what follows it, label it
    and pass it on. *)
Definition deliver_record (has_frag_header : bool) (skb : sk_buff) : M unit :=
  let packet_header_length :=
    if has_frag_header then WG_TCP_ENCAP_HDR_LEN + WG_TCP_FRAG_HDR_LEN
    else WG_TCP_ENCAP_HDR_LEN in
  let frag_hdr := frag_header_of (zdrop WG_TCP_ENCAP_HDR_LEN (skb_data skb)) in
  r <- get;
  if has_frag_header
     && (received_len r <? WG_TCP_ENCAP_HDR_LEN + WG_TCP_FRAG_HDR_LEN) then brk else
  let skb := skb_pull skb packet_header_length in
  modify (λ r, r{{ partial_skb := Some skb;
                   received_len := received_len r - packet_header_length;
                   expected_len := expected_len r - packet_header_length }});;
  if skb_len skb <=? 0 then modify wg_peer_discard_partial_read;; brk else
  split <- split_leftover skb;
  let '(skb, leftover) := split in
  let cb := PACKET_CB skb in
  let skb := skb{{ PACKET_CB := cb{{
      cb_frag_id := if has_frag_header then fh_id frag_hdr else 0;
      cb_frag_off := if has_frag_header then fh_frag_off frag_hdr else 0 }} }} in
  match wg_tcp_build_fake_headers skb a with
  | Err _ => modify wg_peer_discard_partial_read;; brk
  | Ok skb =>
      let skb := restore_fragment_fields has_frag_header frag_hdr skb in
      modify (λ r, r{{ delivered := delivered r ++ option_list (wg_receive ctx skb);
                       partial_skb := leftover;
                       received_len := match leftover with
                                       | Some l => skb_len l | None => 0 end;
                       expected_len := 0 }})
  end.

(** The body of the record: deliver it if it is complete. *)
Definition process_body (has_frag_header : bool) : M unit :=
  ensure_body_room;;
  r <- get;
  match partial_skb r with
  | None => ret tt
  | Some skb =>
      if (expected_len r <=? received_len r) && (WG_TCP_ENCAP_HDR_LEN <? received_len r)
      then deliver_record has_frag_header skb
      else ret tt
  end.

Definition read_iteration : M unit :=
  ensure_partial;;
  r <- get;
  (if record_ready r then ret tt else fill);;
  has_frag_header <- check_header;
  process_body has_frag_header.

(** The loop with its budget: the flag tells whether the budget was used up. *)
Fixpoint read_loop (budget : nat) (r : reader) : reader * bool :=
  match budget with
  | O => (r, true)
  | S budget =>
      match read_iteration r with
      | (None, r) => (r, false)
      | (Some _, r) => read_loop budget r
      end
  end.

(** ** The work item and its scheduling *)

(** The reader pins the peer's socket. *)
Definition can_read (d : wg_device) (p : wg_peer) : bool :=
  stream_live d p && tcp_established p && isSome (peer_socket p).

(** [d], [p] are the device and the peer when the socket is pinned, [d'], [p']
    at the end of the run; the record in progress is in the [reader].  The
    result is the new value of [tcp_read_worker_scheduled]: whether the item
    queued itself again. *)
Definition wg_tcp_read_worker (d d' : wg_device) (p p' : wg_peer) (r : reader) : reader * bool :=
  if negb (can_read d p) then (r, false)
  else
    let '(r, budget_exhausted) := read_loop WG_TCP_READ_BUDGET r in
    (r, stream_live d' p' && tcp_read_wq p' && bool_decide (peer_socket p' = peer_socket p)
        && (rx_pending (rx_script r)
            || (budget_exhausted && isSome (partial_skb r)
                && (expected_len r =? 0) && (WG_TCP_ENCAP_HDR_LEN <=? received_len r)))).

(** [wg_tcp_data_ready] on a socket with valid socket data claims and queues
    the read work item. *)
Definition wg_tcp_data_ready (d : wg_device) (p : wg_peer) : wg_peer :=
  if is_dead p then p
  else if stream_live d p && negb (tcp_read_worker_scheduled p) && tcp_read_wq p
  then p{{ tcp_read_worker_scheduled := true; wk_read := true }}
  else p.

(** The work item run until it no longer queues itself. *)
Fixpoint run_reader (fuel : nat) (d : wg_device) (p : wg_peer) (r : reader) : reader :=
  match fuel with
  | O => r
  | S fuel =>
      let '(r, again) := wg_tcp_read_worker d d p p r in
      if again then run_reader fuel d p r else r
  end.
End reader.

(** A reader before the first byte of a connection. *)
Definition fresh_reader : reader := mk_reader None 0 0 [] [] [].
