(* ===== verification/TcpReaderSpec.v ===== *)
(** * Correctness of the stream reader

    Stage by stage, what the loop body of TcpReader.v does to the buffer and to
    the stream of bytes, as weakest preconditions over its two exits; then the
    loop, the work item and a connection served over time.  The result is that
    the reader implements the specification [decode] of TcpStream.v for every
    segmentation of the stream, that every run ends, and that its buffers stay
    within their bounds whatever the socket and the allocator do. *)
From stdpp Require Import prelude list.
From S2P Require Import Prelude Skb Net TcpFrame TcpStream FakeHeaders RxHeader Peer TcpReader.

#[local] Open Scope Z_scope.

(** ** Reasoning about loop bodies *)
Definition wp {A} (m : M A) (Q : A → reader → Prop) (B : reader → Prop) (r : reader) : Prop :=
  match m r with
  | (Some x, r') => Q x r'
  | (None, r') => B r'
  end.

Lemma wp_bind {A B} (m : M A) (k : A → M B) Q P r :
  wp m (λ x, wp (k x) Q P) P r → wp (bind m k) Q P r.
Proof. unfold wp, bind. destruct (m r) as [[x|] r']; auto. Qed.

Lemma wp_mono {A} (m : M A) (Q Q' : A → reader → Prop) (P P' : reader → Prop) r :
  wp m Q P r → (∀ x r', Q x r' → Q' x r') → (∀ r', P r' → P' r') → wp m Q' P' r.
Proof. unfold wp. destruct (m r) as [[x|] r']; auto. Qed.

Lemma wp_ret {A} (x : A) (Q : A → reader → Prop) P r : Q x r → wp (ret x) Q P r.
Proof. done. Qed.

Lemma wp_brk {A} (Q : A → reader → Prop) (P : reader → Prop) r : P r → wp brk Q P r.
Proof. done. Qed.

Lemma wp_get (Q : reader → reader → Prop) P r : Q r r → wp get Q P r.
Proof. done. Qed.

Lemma wp_put r' (Q : unit → reader → Prop) P r : Q tt r' → wp (put r') Q P r.
Proof. done. Qed.

Lemma wp_modify f (Q : unit → reader → Prop) P r : Q tt (f r) → wp (modify f) Q P r.
Proof. done. Qed.

(** [wp_step] takes one step of a loop body. *)
Ltac wp_step :=
  lazymatch goal with
  | |- wp (bind _ _) _ _ _ => apply wp_bind
  | |- wp (ret _) _ _ _ => apply wp_ret
  | |- wp brk _ _ _ => apply wp_brk
  | |- wp get _ _ _ => apply wp_get
  | |- wp (put _) _ _ _ => apply wp_put
  | |- wp (modify _) _ _ _ => apply wp_modify
  end; cbn beta zeta iota.

(** ** Buffer safety *)
Definition reader_headroom := WG_TCP_RESERVED_HEADER_SIZE + NET_IP_ALIGN.

Definition skb_safe (s : sk_buff) : Prop :=
  reader_headroom <= skb_headroom s ∧ 0 <= skb_tailroom s.

Definition reader_safe (r : reader) : Prop :=
  0 <= expected_len r ∧
  match partial_skb r with
  | None => received_len r = 0
  | Some s => received_len r = skb_len s ∧ skb_safe s
  end.

Lemma recvmsg_bytes rx space bs rx' :
  0 < space → kernel_recvmsg rx space = (RvBytes bs, rx') →
  1 <= zlen bs <= space ∧ unread rx = bs ++ unread rx'.
Proof.
  intros Hs. induction rx as [|[[|b l]| |] rx IH]; cbn; try done.
  destruct (Z.leb_spec (zlen (b :: l)) space); intros [= <- <-].
  - split; [zlia|done].
  - split; [rewrite zlen_ztake by zlia; zlia|].
    unfold unread. cbn [map concat]. by rewrite app_assoc, ztake_zdrop.
Qed.

Lemma recvmsg_ret_safe rx space n rx' :
  kernel_recvmsg rx space = (RvRet n, rx') → ∃ pre, rx = pre ++ rx' ∧ unread pre = [].
Proof.
  revert n rx'. induction rx as [|[[|b l]| |e] rx IH]; cbn; intros n rx' H; try done.
  - injection H as _ <-. by exists [].
  - destruct (IH _ _ H) as (pre & -> & Hu). by exists (RxData [] :: pre).
  - by destruct (zlen (b :: l) <=? space).
  - injection H as _ <-. by exists [RxEof].
  - injection H as _ <-. by exists [RxErr e].
Qed.

(** On a script of segments the reader sees data or [-EAGAIN] at its end. *)
Lemma recvmsg_data rx space res rx' :
  Forall (λ e, match e with RxData _ => True | _ => False end) rx →
  kernel_recvmsg rx space = (res, rx') →
  Forall (λ e, match e with RxData _ => True | _ => False end) rx' ∧
  match res with
  | RvBytes _ => True
  | RvRet n => n = -EAGAIN ∧ rx' = [] ∧ unread rx = []
  end.
Proof.
  intros Hd. revert res rx'. induction Hd as [|[[|b l]| |] rx He Hd IH]; cbn; try done;
    intros res rx' H; [by injection H as <- <-|].
  destruct (zlen (b :: l) <=? space); injection H as <- <-; split; auto.
Qed.

Section safety.
Context {K : KernelMem} {KOk : KernelMemOk K} {C : KernelCsum}.
Context (a : stream_addrs) (ctx : receive_ctx).
#[local] Open Scope loop_scope.

Lemma reader_headroom_val : reader_headroom = 130.
Proof. reflexivity. Qed.

(** Fresh buffers. *)
Lemma skb_reserve_safe n :
  reader_headroom <= n →
  let s := skb_reserve (alloc_skb n) reader_headroom in
  skb_safe s ∧ skb_data s = [] ∧ n - reader_headroom <= skb_tailroom s.
Proof.
  intros Hn. rewrite reader_headroom_val in *. pose proof (kmalloc_size_ge n).
  cbn. unfold skb_safe, skb_headroom. cbn. rewrite kmalloc_junk_len by lia.
  rewrite reader_headroom_val. repeat split; lia.
Qed.

Lemma skb_expand_safe s n :
  skb_safe s → 0 <= n →
  let s' := skb_copy_expand s (skb_headroom s) n in
  skb_safe s' ∧ skb_data s' = skb_data s ∧ n <= skb_tailroom s'.
Proof.
  intros [Hh Ht] Hn. split_and!; [split| |].
  - by rewrite skb_headroom_expand.
  - cbn. pose proof (kmalloc_size_ge (skb_headroom s + skb_len s + n)). lia.
  - done.
  - cbn. pose proof (kmalloc_size_ge (skb_headroom s + skb_len s + n)). lia.
Qed.

Lemma skb_pull_safe s n : 0 <= n → skb_safe s → skb_safe (skb_pull s n).
Proof.
  intros Hn [? ?]. unfold skb_pull. destruct (Z.ltb_spec (skb_len s) n); [done|].
  split; [|done]. unfold skb_headroom, skb_len in *. cbn. zlia.
Qed.

Lemma skb_put_safe s bs : skb_safe s → zlen bs <= skb_tailroom s → skb_safe (skb_put_data s bs).
Proof. intros [? ?] ?. split; [done|]. cbn. lia. Qed.

Lemma skb_trim_safe s n : skb_safe s → skb_safe (skb_trim s n).
Proof.
  intros [? ?]. unfold skb_trim. destruct (Z.ltb_spec n (skb_len s)); [|done].
  split; [done|]. cbn. lia.
Qed.

Lemma discard_safe r : reader_safe (wg_peer_discard_partial_read r).
Proof. split; [cbn; lia|done]. Qed.

(** No allocation of the script fails and the stream is neither closed nor in
    error. *)
Definition benign (r : reader) : Prop :=
  Forall (λ ok, ok = true) (alloc_script r) ∧
  Forall (λ e, match e with RxData _ => True | _ => False end) (rx_script r).

(** The bytes of the record being received. *)
Definition buf (r : reader) : list Z :=
  match partial_skb r with Some s => skb_data s | None => [] end.

Lemma received_buf r : reader_safe r → received_len r = zlen (buf r).
Proof. unfold reader_safe, buf. by destruct (partial_skb r); intros (? & ?); destruct_and?. Qed.

(** An allocation of a benign script succeeds. *)
Lemma wp_alloc (Q : bool → reader → Prop) P r :
  (∀ rest, (benign r → benign (r{{ alloc_script := rest }})) →
     Q true (r{{ alloc_script := rest }})) →
  (∀ rest, ¬ benign r → Q false (r{{ alloc_script := rest }})) →
  wp pop_alloc Q P r.
Proof.
  intros Ht Hf. unfold wp, pop_alloc. destruct (alloc_script r) as [|ok rest] eqn:E.
  - specialize (Ht []). destruct r. cbn in *. subst. by apply Ht.
  - destruct ok.
    + apply Ht. intros [Ha Hd]. rewrite E in Ha. split; [by inversion Ha|done].
    + apply Hf. intros [Ha _]. rewrite E in Ha. by inversion Ha.
Qed.

Lemma ensure_partial_spec r :
  reader_safe r →
  wp ensure_partial
    (λ _ r', reader_safe r' ∧ is_Some (partial_skb r') ∧ buf r' = buf r ∧
       rx_script r' = rx_script r ∧ delivered r' = delivered r ∧
       expected_len r' = match partial_skb r with Some _ => expected_len r | None => 0 end ∧
       (benign r → benign r'))
    (λ r', reader_safe r' ∧ ¬ benign r) r.
Proof.
  intros Hr. pose proof Hr as [He Hp]. unfold ensure_partial. wp_step. wp_step.
  destruct (partial_skb r) as [s|] eqn:E; wp_step; [rewrite E; eauto 10|].
  unfold buf. rewrite E. apply wp_alloc; intros rest Hb; cbn [negb]; wp_step.
  - destruct (skb_reserve_safe read_alloc_size) as (Hs & Hd & _); [by vm_compute|].
    split_and!; [|by eauto|exact Hd|done|done|done|exact Hb].
    split; [cbn; lia|]. split; [|exact Hs]. cbn [received_len partial_skb set].
    change (received_len r = zlen (skb_data (skb_reserve (alloc_skb read_alloc_size) reader_headroom))).
    by rewrite Hd, Hp.
  - split; [|done]. unfold reader_safe. cbn. by rewrite E.
Qed.

Lemma ensure_header_room_spec r s :
  reader_safe r → partial_skb r = Some s →
  wp (ensure_header_room s)
    (λ s' r', reader_safe r' ∧ partial_skb r' = Some s' ∧ skb_data s' = skb_data s ∧
       8 <= skb_tailroom s' ∧ rx_script r' = rx_script r ∧ delivered r' = delivered r ∧
       expected_len r' = expected_len r ∧ (benign r → benign r'))
    (λ r', reader_safe r' ∧ ¬ benign r) r.
Proof.
  intros Hr E. pose proof Hr as [He Hp]. rewrite E in Hp. destruct Hp as [Hl Hs].
  unfold ensure_header_room. destruct (Z.ltb_spec (skb_tailroom s) WG_TCP_ENCAP_HDR_LEN) as [?|Ht].
  - wp_step. apply wp_alloc; intros rest Hb; cbn [negb]; repeat wp_step.
    + destruct (skb_expand_safe s read_alloc_size Hs) as (Hs' & Hd & Ht); [by vm_compute|].
      split_and!; [|done..| |done|done|done|exact Hb].
      * split; [done|]. split; [exact Hl|exact Hs'].
      * eapply Z.le_trans; [|exact Ht]. by vm_compute.
    + split; [apply discard_safe|done].
  - wp_step. split_and!; done.
Qed.

Lemma fill_spec r :
  reader_safe r → is_Some (partial_skb r) →
  wp fill
    (λ _ r', reader_safe r' ∧ is_Some (partial_skb r') ∧
       expected_len r' = expected_len r ∧ delivered r' = delivered r ∧
       (∃ bs, bs ≠ [] ∧ buf r' = buf r ++ bs ∧
              unread (rx_script r) = bs ++ unread (rx_script r')) ∧
       (benign r → benign r'))
    (λ r', reader_safe r' ∧
       (benign r → benign r' ∧ buf r' = buf r ∧ expected_len r' = expected_len r ∧
          delivered r' = delivered r ∧ unread (rx_script r) = [] ∧ rx_script r' = [])) r.
Proof.
  intros Hr [s E]. unfold fill. wp_step. wp_step. rewrite E. wp_step.
  eapply wp_mono; [apply (ensure_header_room_spec r s Hr E)| |intros r' [? ?]; split; [done|tauto]].
  intros s' r1 (Hr1 & E1 & Hd1 & Ht & Hrx & Hdl & Hex & Hb). cbn zeta beta.
  rewrite (proj2 (Z.eqb_neq (skb_tailroom s') 0)) by lia. wp_step. wp_step.
  destruct (kernel_recvmsg (rx_script r1) (skb_tailroom s')) as [res rx'] eqn:Erx.
  pose proof Hr1 as [He1 Hp1]. rewrite E1 in Hp1. destruct Hp1 as [Hl1 Hs1].
  unfold buf. rewrite E, <- Hd1. wp_step. wp_step. destruct res as [bs|n].
  - wp_step. destruct (recvmsg_bytes (rx_script r1) (skb_tailroom s') bs rx') as [Hbs Hu]; [lia|done|].
    rewrite <- Hrx. split_and!; [|by eauto|exact Hex|exact Hdl| |].
    + split; [done|]. split; [|apply skb_put_safe; [exact Hs1|apply Hbs]].
      cbn. unfold skb_len in *. cbn. zlia.
    + exists bs. split_and!; [intros ->; zlia|done|exact Hu].
    + intros Hbn. destruct (Hb Hbn) as [Ha Hd]. split; [exact Ha|].
      by apply (recvmsg_data _ _ _ _ Hd Erx).
  - assert (benign r → n = -EAGAIN ∧ rx' = [] ∧ unread (rx_script r1) = []) as Hret.
    { intros Hbn. destruct (Hb Hbn) as [Ha Hd]. by apply (recvmsg_data _ _ _ _ Hd Erx). }
    destruct (Z.eqb_spec n (-EAGAIN)) as [->|Hn]; repeat wp_step.
    + split; [split; [done|]; cbn; rewrite E1; by split|].
      intros Hbn. destruct (Hret Hbn) as (_ & -> & Hu). destruct (Hb Hbn) as [Ha _].
      rewrite <- Hrx. cbn. rewrite E1. split_and!; try done; by split; [|constructor].
    + split; [apply discard_safe|]. intros Hbn. by destruct (Hret Hbn).
Qed.

(** ** Resynchronisation finds the next record *)
Lemma sync_scan_spec n bs i :
  0 <= i → i + Z.of_nat n <= zlen bs →
  match sync_scan n bs i (zlen bs) with
  | Some k => i <= k < i + Z.of_nat n ∧ header_ok (zdrop k bs) = true ∧
              ∀ j, i <= j < k → header_ok (zdrop j bs) = false
  | None => ∀ j, i <= j < i + Z.of_nat n → header_ok (zdrop j bs) = false
  end.
Proof.
  revert i. induction n as [|n IH]; intros i Hi Hn; cbn [sync_scan]; [intros; lia|].
  assert (wg_check_potential_header_validity (zdrop i bs) (zlen bs - i) = header_ok (zdrop i bs))
    as -> by (unfold header_ok; by rewrite zlen_zdrop by lia).
  destruct (header_ok (zdrop i bs)) eqn:E; [split_and!; [lia..|done|intros; lia]|].
  specialize (IH (i + 1) ltac:(lia) ltac:(lia)). destruct (sync_scan n bs (i + 1) (zlen bs)).
  - destruct IH as (? & ? & Hj). split_and!; [lia..|done|]. intros j ?.
    destruct (Z.eq_dec j i) as [->|]; [done|apply Hj; lia].
  - intros j ?. destruct (Z.eq_dec j i) as [->|]; [done|apply IH; lia].
Qed.

Lemma decode_skip_to k bs more :
  0 <= k → k + 7 <= zlen bs → (∀ j, 0 <= j < k → header_ok (zdrop j bs) = false) →
  decode (bs ++ more) = decode (zdrop k bs ++ more).
Proof.
  intros Hk Hl Hj.
  revert Hl Hj. pattern k. apply natlike_ind; [done| |done]. clear k Hk.
  intros k Hk IH Hl Hj. rewrite IH by (intros; lia || apply Hj; lia).
  rewrite (decode_skip (zdrop k bs ++ more)).
  - rewrite zdrop_app_le, zdrop_zdrop by zlia. done.
  - unfold WG_TCP_ENCAP_HDR_LEN. zlia.
  - rewrite header_ok_app by zlia. apply Hj. lia.
Qed.

(** The result of looking at the header: the record now starts with a valid
    header, or the reader waits with fewer bytes than a header. *)
Lemma wg_sync_header_spec r s :
  reader_safe r → partial_skb r = Some s → 8 <= skb_len s → header_ok (skb_data s) = false →
  let '(found, r') := wg_sync_header r in
  reader_safe r' ∧ rx_script r' = rx_script r ∧ alloc_script r' = alloc_script r ∧
  delivered r' = delivered r ∧ is_Some (partial_skb r') ∧
  (∀ more, decode (buf r ++ more) = decode (buf r' ++ more)) ∧ zlen (buf r') < zlen (buf r) ∧
  if found then header_ok (buf r') = true else zlen (buf r') = 7 ∧ expected_len r' = 0.
Proof.
  intros Hr E Hl Hok. pose proof Hr as [He Hp]. rewrite E in Hp. destruct Hp as [Hlen Hs].
  unfold wg_sync_header, buf. rewrite E, Hlen. unfold WG_TCP_ENCAP_HDR_LEN, skb_len in *.
  rewrite (proj2 (Z.ltb_ge _ 8)) by lia. set (bs := skb_data s) in *.
  pose proof (sync_scan_spec (Z.to_nat (zlen bs - 8 + 1)) bs 0 ltac:(lia) ltac:(lia)) as Hscan.
  rewrite Z2Nat.id in Hscan by lia.
  destruct (sync_scan _ bs 0 (zlen bs)) as [k|].
  - destruct Hscan as (Hk & Hkok & Hkj).
    assert (k ≠ 0) by (intros ->; by rewrite zdrop_0, Hok in Hkok).
    assert (skb_data (skb_pull s k) = zdrop k bs) as Hd by (apply skb_data_pull; unfold skb_len; fold bs; lia).
    cbn [partial_skb rx_script alloc_script delivered set]. cbn. rewrite Hd.
    split_and!; [|done|done|done|eauto|intros; apply decode_skip_to; [lia..|done]|zlia|done].
    split; [|split; [|by apply skb_pull_safe; [lia|]]].
    + apply total_at_pos in Hkok. change (0 <= total_at (zdrop k bs)). lia.
    + cbn. unfold skb_len. rewrite Hd. zlia.
  - assert (sync_suffix bs (zlen bs) = zdrop (zlen bs - 7) bs) as Hsuf.
    { unfold sync_suffix, WG_TCP_ENCAP_HDR_LEN. rewrite Z.min_r by lia.
      apply ztake_all. zlia. }
    rewrite Hsuf. set (suf := zdrop (zlen bs - 7) bs) in *.
    assert (zlen suf = 7) as Hsl by (unfold suf; zlia).
    assert (skb_data (skb_trim (skb_store s 0 suf) (zlen suf)) = suf) as Hd.
    { rewrite skb_data_trim. cbn. rewrite ztake_0, app_nil_l. by apply ztake_app_length. }
    cbn. rewrite Hd.
    split_and!; [|done|done|done|eauto| |lia|done|done].
    + split; [cbn; lia|]. cbn. unfold skb_len. rewrite Hd. split; [done|].
      apply skb_trim_safe. exact Hs.
    + intros more. apply decode_skip_to; [lia..|]. intros. apply Hscan. lia.
Qed.

Lemma check_header_spec r :
  reader_safe r → is_Some (partial_skb r) →
  wp check_header
    (λ frag r', reader_safe r' ∧ is_Some (partial_skb r') ∧
       rx_script r' = rx_script r ∧ alloc_script r' = alloc_script r ∧
       delivered r' = delivered r ∧ zlen (buf r') <= zlen (buf r) ∧
       (∀ more, decode (buf r ++ more) = decode (buf r' ++ more)) ∧
       header_ok (buf r') = true ∧ expected_len r' = total_at (buf r') ∧
       frag = frag_at (buf r'))
    (λ r', reader_safe r' ∧
       rx_script r' = rx_script r ∧ alloc_script r' = alloc_script r ∧
       delivered r' = delivered r ∧
       (∀ more, decode (buf r ++ more) = decode (buf r' ++ more)) ∧
       (zlen (buf r) < 8 ∧ r' = r ∨
        zlen (buf r') < zlen (buf r) ∧ zlen (buf r') < 8 ∧ expected_len r' = 0)) r.
Proof.
  intros Hr [s E]. pose proof Hr as [He Hp]. rewrite E in Hp. destruct Hp as [Hl Hs].
  assert (buf r = skb_data s) as Hbuf by (unfold buf; by rewrite E).
  unfold check_header, WG_TCP_ENCAP_HDR_LEN. wp_step. wp_step. rewrite E, Hl.
  destruct (Z.ltb_spec (skb_len s) 8); [wp_step; rewrite Hbuf; eauto 10|]. wp_step.
  change (wg_check_potential_header_validity (skb_data s) (skb_len s)) with (header_ok (skb_data s)).
  assert (∀ r1 : reader, is_Some (partial_skb r1) → reader_safe r1 → header_ok (buf r1) = true →
    reader_safe (r1{{ expected_len := hdr_length (encap_header_of (buf r1)) }})) as Hset.
  { intros r1 [s1 E1] [? Hp] Hok. apply total_at_pos in Hok. split; [|exact Hp].
    change (0 <= total_at (buf r1)). lia. }
  destruct (header_ok (skb_data s)) eqn:Hok.
  - repeat wp_step. rewrite <- Hbuf in Hok |- *.
    split_and!; [apply Hset; eauto|exists s; exact E|done..].
  - pose proof (wg_sync_header_spec r s Hr E ltac:(done) Hok) as Hsync.
    destruct (wg_sync_header r) as [found r1].
    destruct Hsync as (Hr1 & Hrx & Hal & Hdl & [s1 E1] & Hdec & Hlt & Hf).
    repeat wp_step. rewrite E1. assert (buf r1 = skb_data s1) as Hb1 by (unfold buf; by rewrite E1).
    assert (received_len r1 = zlen (buf r1)) as Hl1 by by apply received_buf.
    destruct found; cbn [negb].
    + pose proof (header_ok_len _ Hf). rewrite (proj2 (Z.ltb_ge _ 8)), Hl1 by lia.
      rewrite <- Hb1. fold (header_ok (buf r1)). rewrite Hf. cbn [negb]. repeat wp_step.
      split_and!; [apply Hset; eauto|exists s1; exact E1|done|done|done|exact (Z.lt_le_incl _ _ Hlt)|done..].
    + destruct Hf as [H7 Hex]. rewrite (proj2 (Z.ltb_lt _ 8)) by lia. wp_step.
      split_and!; [done..|]. right. lia.
Qed.

Lemma ensure_body_room_spec r :
  reader_safe r → is_Some (partial_skb r) →
  wp ensure_body_room
    (λ _ r', reader_safe r' ∧ is_Some (partial_skb r') ∧ buf r' = buf r ∧
       rx_script r' = rx_script r ∧ delivered r' = delivered r ∧
       expected_len r' = expected_len r ∧ (benign r → benign r'))
    (λ r', reader_safe r' ∧ ¬ benign r) r.
Proof.
  intros Hr [s E]. pose proof Hr as [He Hp]. rewrite E in Hp. destruct Hp as [Hl Hs].
  unfold ensure_body_room. wp_step. wp_step. rewrite E. unfold buf. rewrite E.
  destruct (Z.ltb_spec (received_len r) (expected_len r)); [|wp_step; rewrite E; eauto 10].
  destruct (Z.ltb_spec (skb_tailroom s) (expected_len r - received_len r));
    [|wp_step; rewrite E; eauto 10].
  wp_step. apply wp_alloc; intros rest Hb; cbn [negb]; repeat wp_step.
  - destruct (skb_expand_safe s (expected_len r - received_len r) Hs) as (Hs' & Hd & _); [lia|].
    split_and!; [|by eexists|exact Hd|done..|exact Hb].
    split; [exact He|]. split; [|exact Hs']. exact Hl.
  - split; [apply discard_safe|done].
Qed.

(** ** Delivery *)

(** Conditions under which a record is labelled and handed on. *)
Definition addrs_known : bool :=
  match stream_sk a with
  | None => false
  | Some sk =>
      if is_inbound a then negb (bool_decide (inbound_source a = SaUnspec))
      else (sk_family sk =? AF_INET) || (sk_family sk =? AF_INET6)
  end.

Definition ctx_ready : bool := user_data_present ctx && device_present ctx.

Lemma build_fake_headers_ok skb :
  addrs_known = true → ∃ skb', wg_tcp_build_fake_headers skb a = Ok skb'.
Proof.
  unfold addrs_known, wg_tcp_build_fake_headers. destruct (stream_sk a) as [sk|]; [|done].
  destruct (is_inbound a).
  - destruct (inbound_source a); [by rewrite bool_decide_true|..];
      [destruct (as_sockaddr_in (inbound_dest a))|
       destruct (as_sockaddr_in6 (inbound_dest a)) as [[] ?]]; eauto.
  - destruct (sk_family sk =? AF_INET); [eauto|].
    destruct (sk_family sk =? AF_INET6); [eauto|done].
Qed.

(** [d] is what the receive path gets for the record [rec]. *)
Definition carries (d : sk_buff) (rec : tcp_record) : Prop :=
  ∃ skb skb' hf fh,
    wg_tcp_build_fake_headers skb a = Ok skb' ∧ fake_header6_len <= skb_headroom skb ∧
    skb_data skb = rec_payload rec ∧ cb_frag_id (PACKET_CB skb) = rec_frag_id rec ∧
    cb_frag_off (PACKET_CB skb) = rec_frag_off rec ∧
    wg_receive ctx (restore_fragment_fields hf fh skb') = Some d.

Lemma split_leftover_spec r s :
  reader_safe r → partial_skb r = Some s → expected_len r <= received_len r →
  wp (split_leftover s)
    (λ p r', skb_data p.1 = ztake (expected_len r) (skb_data s) ∧ skb_safe p.1 ∧
       PACKET_CB p.1 = PACKET_CB s ∧
       match p.2 with
       | Some l => skb_safe l ∧ skb_data l = zdrop (expected_len r) (skb_data s)
       | None => zdrop (expected_len r) (skb_data s) = []
       end ∧ ∃ rest, r' = r{{ alloc_script := rest }} ∧ (benign r → benign r'))
    (λ r', reader_safe r' ∧ ¬ benign r) r.
Proof.
  intros Hr E Hle. pose proof Hr as [He Hp]. rewrite E in Hp. destruct Hp as [Hl Hs].
  unfold split_leftover. wp_step. wp_step. rewrite Hl in *. unfold skb_len in *.
  destruct (Z.ltb_spec 0 (zlen (skb_data s) - expected_len r)) as [Hpos|Hz].
  - wp_step. apply wp_alloc; intros rest Hb; cbn [negb]; cbn zeta.
    2: { wp_step. split; [|done]. unfold reader_safe. cbn. rewrite E. done. }
    rewrite (proj2 (Z.ltb_ge _ _)) by lia. wp_step. cbn [fst snd].
    rewrite skb_data_trim. rewrite (ztake_all _ (zdrop _ _)) by zlia.
    destruct (skb_reserve_safe (zlen (skb_data s) - expected_len r + 128 + 2))
      as (Hs' & Hd' & Ht'); [rewrite reader_headroom_val; lia|].
    rewrite reader_headroom_val in Ht'.
    split_and!; [done|by apply skb_trim_safe| | |done|by exists rest].
    + unfold skb_trim. by case_if.
    + apply skb_put_safe; [done|]. rewrite zlen_zdrop by lia.
      eapply Z.le_trans; [|exact Ht']. lia.
  - wp_step. cbn [fst snd].
    rewrite ztake_all, zdrop_all by lia. split_and!; [done..|].
    exists (alloc_script r). split; [by destruct r|done].
Qed.

Lemma wg_receive_some skb : ctx_ready = true → ∃ d, wg_receive ctx skb = Some d.
Proof.
  unfold ctx_ready, wg_receive. intros [-> ->]%andb_true_iff. rewrite andb_false_r. eauto.
Qed.

Lemma deliver_record_spec r s :
  let bs := skb_data s in
  reader_safe r → partial_skb r = Some s → header_ok bs = true →
  expected_len r = total_at bs → total_at bs <= zlen bs →
  wp (deliver_record a ctx (frag_at bs) s)
    (λ _ r', reader_safe r' ∧ expected_len r' = 0 ∧ buf r' = zdrop (total_at bs) bs ∧
       rx_script r' = rx_script r ∧ (benign r → benign r') ∧
       ∃ ds, delivered r' = delivered r ++ ds ∧
         (ctx_ready = true → ∃ d, ds = [d] ∧ carries d (record_at bs)))
    (λ r', reader_safe r' ∧ (addrs_known = true → ¬ benign r)) r.
Proof.
  intros bs Hr E Hok Hex Htot. pose proof Hr as [He Hp]. rewrite E in Hp. destruct Hp as [Hl Hs].
  apply header_ok_bounds in Hok as [H8 [Hmin _]]. change MESSAGE_MINIMUM_LENGTH with 32 in Hmin.
  pose proof (header_len_at_range bs) as Hh. unfold skb_len in Hl. fold bs in Hl.
  unfold deliver_record. fold bs.
  change (if frag_at bs then WG_TCP_ENCAP_HDR_LEN + WG_TCP_FRAG_HDR_LEN else WG_TCP_ENCAP_HDR_LEN)
    with (header_len_at bs).
  cbn zeta. wp_step. wp_step.
  replace (frag_at bs && (received_len r <? WG_TCP_ENCAP_HDR_LEN + WG_TCP_FRAG_HDR_LEN)) with false
    by (symmetry; apply andb_false_iff; right; apply Z.ltb_ge; rewrite Hl;
        unfold WG_TCP_ENCAP_HDR_LEN, WG_TCP_FRAG_HDR_LEN; lia).
  set (s1 := skb_pull s (header_len_at bs)).
  assert (skb_data s1 = zdrop (header_len_at bs) bs) as Hd1
    by (apply skb_data_pull; unfold skb_len; fold bs; lia).
  assert (skb_safe s1) as Hs1 by (apply skb_pull_safe; [lia|done]).
  wp_step. wp_step.
  rewrite (proj2 (Z.leb_gt (skb_len s1) 0)) by (unfold skb_len; rewrite Hd1; zlia).
  wp_step. set (r1 := r{{ partial_skb := Some s1; received_len := _; expected_len := _ }}).
  assert (reader_safe r1) as Hr1.
  { split; [cbn; lia|]. split; [|exact Hs1]. cbn. unfold skb_len. rewrite Hd1. zlia. }
  eapply wp_mono; [apply (split_leftover_spec r1 s1 Hr1 eq_refl)| |].
  { change (expected_len r - header_len_at bs <= received_len r - header_len_at bs). lia. }
  2: { intros r' [? Hnb]. split; [done|]. intros _. exact Hnb. }
  intros [s2 leftover] r2 (Hd2 & Hs2 & Hcb2 & Hlo & rest & -> & Hb). cbn [fst snd] in *.
  cbn zeta.
  change (expected_len r1) with (expected_len r - header_len_at bs) in Hd2, Hlo.
  rewrite Hd1, Hex in Hd2, Hlo. rewrite zdrop_zdrop in Hlo by lia.
  replace (header_len_at bs + (total_at bs - header_len_at bs)) with (total_at bs) in Hlo by lia.
  set (s3 := s2{{ PACKET_CB := _ }}).
  destruct (wg_tcp_build_fake_headers s3 a) as [s4|] eqn:Hbuild.
  2: { repeat wp_step. split; [apply discard_safe|]. intros Ha.
       destruct (build_fake_headers_ok s3 Ha) as [? Hc]. by rewrite Hbuild in Hc. }
  wp_step. split_and!; [|done| |done|exact Hb|].
  - split; [done|]. cbn. destruct leftover; [|done]. by destruct Hlo.
  - unfold buf. cbn. destruct leftover; [by destruct Hlo|done].
  - eexists. split; [reflexivity|]. intros Hctx.
    edestruct wg_receive_some as [d Hd]; [exact Hctx|]. exists d.
    split; [by rewrite Hd|].
    exists s3, s4, (frag_at bs), (frag_header_of (zdrop WG_TCP_ENCAP_HDR_LEN bs)).
    split_and!; [done| |exact Hd2|done|done|exact Hd].
    destruct Hs2 as [Hs2 _]. rewrite reader_headroom_val in Hs2.
    change (48 <= skb_headroom s2). lia.
Qed.

(** ** One iteration *)

(** Bytes received and not yet part of a delivered record. *)
Definition stream (r : reader) : list Z := buf r ++ unread (rx_script r).

(** [r'] has delivered the records that its stream is shorter by. *)
Definition progress (r r' : reader) : Prop :=
  ∃ ds new, delivered r' = delivered r ++ ds ∧ Forall2 carries ds new ∧
    decode (stream r) = (new ++ (decode (stream r')).1, (decode (stream r')).2).

Lemma progress_same r r' :
  delivered r' = delivered r → decode (stream r) = decode (stream r') → progress r r'.
Proof.
  intros Hd Hs. exists [], []. rewrite app_nil_r. split_and!; [done|constructor|].
  rewrite Hs. apply surjective_pairing.
Qed.

Lemma progress_trans r1 r2 r3 : progress r1 r2 → progress r2 r3 → progress r1 r3.
Proof.
  intros (ds & new & Hd & Hc & Hs) (ds' & new' & Hd' & Hc' & Hs').
  exists (ds ++ ds'), (new ++ new'). split_and!.
  - by rewrite Hd', Hd, app_assoc.
  - by apply Forall2_app.
  - rewrite Hs, Hs'. cbn [fst snd]. by rewrite app_assoc.
Qed.

(** A length is only noted for the incomplete record at the front. *)
Definition in_sync (r : reader) : Prop :=
  expected_len r ≠ 0 →
  header_ok (buf r) = true ∧ expected_len r = total_at (buf r) ∧
  zlen (buf r) < expected_len r.

(** Nothing is left that could be delivered. *)
Definition waiting (r : reader) : Prop := decode (buf r) = ([], buf r).

Definition measure (r : reader) : Z :=
  2 * (2 * zlen (unread (rx_script r)) + zlen (buf r)) + (if expected_len r =? 0 then 1 else 0).

(** What a step keeps and achieves in a benign environment. *)
Definition good (r : reader) : Prop := benign r ∧ in_sync r.

Lemma process_body_spec r :
  reader_safe r → is_Some (partial_skb r) → header_ok (buf r) = true →
  expected_len r = total_at (buf r) →
  wp (process_body a ctx (frag_at (buf r)))
    (λ _ r', reader_safe r' ∧
       (ctx_ready = true → benign r → good r' ∧ progress r r' ∧ measure r' <= measure r))
    (λ r', reader_safe r' ∧ (addrs_known = true → ¬ benign r)) r.
Proof.
  intros Hr Hp Hok Hex. unfold process_body. wp_step.
  eapply wp_mono; [apply (ensure_body_room_spec r Hr Hp)| |intros r' [? ?]; split; [done|tauto]].
  intros _ r1 (Hr1 & [s1 E1] & Hb1 & Hrx1 & Hd1 & Hex1 & Hben1). wp_step. wp_step. rewrite E1.
  assert (skb_data s1 = buf r) as Hbuf by (rewrite <- Hb1; unfold buf; by rewrite E1).
  rewrite (received_buf r1 Hr1), Hb1, Hex1, Hex.
  pose proof (total_at_pos _ Hok). pose proof (header_ok_len _ Hok).
  destruct (Z.leb_spec (total_at (buf r)) (zlen (buf r))) as [Hc|Hc]; cbn [andb].
  - rewrite (proj2 (Z.ltb_lt WG_TCP_ENCAP_HDR_LEN _)) by (unfold WG_TCP_ENCAP_HDR_LEN; lia).
    pose proof (deliver_record_spec r1 s1) as Hdel. cbn zeta in Hdel. rewrite Hbuf in Hdel.
    eapply wp_mono; [apply Hdel; try done; congruence| |].
    2: { intros r' [? Hn]. split; [done|]. intros Ha Hb. by apply (Hn Ha), Hben1. }
    intros _ r2 (Hr2 & He2 & Hb2 & Hrx2 & Hben2 & ds & Hds & Hcar).
    split; [done|]. intros Hctx Hb. destruct (Hcar Hctx) as (d & -> & Hd).
    split_and!.
    + split; [by apply Hben2, Hben1|]. by intros ?.
    + exists [d], [record_at (buf r)]. split_and!; [congruence|by repeat constructor|].
      unfold stream. rewrite Hb2, Hrx2, Hrx1.
      rewrite decode_emit; rewrite ?header_ok_app, ?total_at_app by lia; [|done|zlia].
      rewrite record_at_app, zdrop_app_le by (done || lia). done.
    + unfold measure. rewrite Hrx2, Hrx1, Hb2, He2, Hex, zlen_zdrop by lia.
      rewrite (proj2 (Z.eqb_neq (total_at _) 0)) by lia. rewrite Z.eqb_refl. lia.
  - wp_step. split; [done|]. intros _ Hb. split_and!.
    + split; [by apply Hben1|]. intros _. rewrite Hb1. split_and!; [done|congruence|lia].
    + apply progress_same; [done|]. unfold stream. by rewrite Hb1, Hrx1.
    + unfold measure. by rewrite Hrx1, Hex1, Hex, Hb1.
Qed.

(** Effect of an iteration that goes on, and of one that leaves the loop. *)
Definition steps_to (r r' : reader) : Prop :=
  good r' ∧ progress r r' ∧ measure r' < measure r.
Definition settles_to (r r' : reader) : Prop :=
  good r' ∧ progress r r' ∧ waiting r' ∧ (measure r' < measure r ∨ rx_script r' = []).

(** The reader can deliver: its environment is benign, it is in sync, the
    addresses of the connection are known and the device is there. *)
Definition able (r : reader) : Prop :=
  addrs_known = true ∧ ctx_ready = true ∧ good r.

(** From a state in which the reader may look at the header. *)
Lemma check_and_process_spec r r0 :
  reader_safe r → is_Some (partial_skb r) →
  (able r0 → benign r ∧ progress r0 r ∧
     (zlen (buf r) < 8 → in_sync r ∧ measure r < measure r0) ∧
     2 * (2 * zlen (unread (rx_script r)) + zlen (buf r)) < measure r0) →
  wp (bind check_header (process_body a ctx))
    (λ _ r', reader_safe r' ∧ (able r0 → steps_to r0 r'))
    (λ r', reader_safe r' ∧ (able r0 → settles_to r0 r')) r.
Proof.
  intros Hr Hp H0. wp_step.
  eapply wp_mono; [apply (check_header_spec r Hr Hp)| |].
  - intros frag r1 (Hr1 & Hp1 & Hrx & Hal & Hdl & Hlen & Hdec & Hok & Hex & ->).
    pose proof (total_at_pos _ Hok).
    assert (able r0 → progress r0 r1 ∧ benign r1 ∧ measure r1 < measure r0) as H1.
    { intros Hg. destruct (H0 Hg) as ([? ?] & Hpr & _ & Hm). split_and!.
      - eapply progress_trans; [exact Hpr|]. apply progress_same; [done|].
        unfold stream. by rewrite Hdec, Hrx.
      - split; [by rewrite Hal|by rewrite Hrx].
      - unfold measure at 1. rewrite Hrx, (proj2 (Z.eqb_neq (expected_len r1) 0)) by lia. lia. }
    eapply wp_mono; [apply (process_body_spec r1 Hr1 Hp1 Hok Hex)| |].
    + intros _ r2 [Hr2 Hb2]. split; [done|]. intros Hg. destruct (H1 Hg) as (Hpr & Hben & Hm).
      pose proof Hg as (Ha & Hctx & _). destruct (Hb2 Hctx Hben) as (? & ? & ?). split_and!; [done| |lia].
      by eapply progress_trans.
    + intros r2 [Hr2 Hb2]. split; [done|]. intros Hg. destruct (H1 Hg) as (_ & Hben & _).
      pose proof Hg as (Ha & Hctx & _). by destruct (Hb2 Ha).
  - intros r1 (Hr1 & Hrx & Hal & Hdl & Hdec & Hc). split; [done|]. intros Hg.
    destruct (H0 Hg) as ([? ?] & Hpr & Hs & Hm).
    assert (progress r0 r1) as Hpr1.
    { eapply progress_trans; [exact Hpr|]. apply progress_same; [done|].
      unfold stream. by rewrite Hdec, Hrx. }
    assert (zlen (buf r1) < 8 → waiting r1) as Hw by apply decode_short.
    destruct Hc as [[Hlt ->]|(Hlt & H7 & Hex)].
    + destruct (Hs Hlt). split_and!; [by split|done|by apply Hw|by left].
    + split_and!; [|done|by apply Hw|left].
      * split; [split; [by rewrite Hal|by rewrite Hrx]|]. by intros ?.
      * unfold measure at 1. rewrite Hrx, Hex, Z.eqb_refl. lia.
Qed.

Lemma read_iteration_spec r :
  reader_safe r →
  wp (read_iteration a ctx)
    (λ _ r', reader_safe r' ∧ (able r → steps_to r r'))
    (λ r', reader_safe r' ∧ (able r → settles_to r r')) r.
Proof.
  intros Hr. unfold read_iteration. wp_step.
  eapply wp_mono; [apply (ensure_partial_spec r Hr)| |].
  2: { intros r' [? Hn]. split; [done|]. intros (_ & _ & Hb & _). by destruct Hn. }
  intros _ r1 (Hr1 & Hp1 & Hb1 & Hrx1 & Hd1 & Hex1 & Hben1).
  assert (able r → good r1 ∧ progress r r1 ∧ measure r1 = measure r) as Hg1.
  { intros (_ & _ & Hb & Hs). assert (expected_len r1 = expected_len r) as Hee.
    { rewrite Hex1. destruct (partial_skb r) eqn:E; [done|].
      destruct (decide (expected_len r = 0)) as [|Hne]; [done|].
      destruct (Hs Hne) as [Hok _]. unfold buf in Hok. rewrite E in Hok.
      by apply header_ok_len in Hok. }
    split_and!; [split; [by apply Hben1|]; unfold in_sync; by rewrite Hb1, Hee| |].
    - apply progress_same; [done|]. unfold stream. by rewrite Hb1, Hrx1.
    - unfold measure. by rewrite Hb1, Hrx1, Hee. }
  wp_step. wp_step. wp_step.
  pose proof (received_buf r1 Hr1) as Hl1.
  destruct (record_ready r1) eqn:Hready; unfold record_ready in Hready; rewrite Hl1 in Hready.
  - wp_step. apply check_and_process_spec; [done..|]. intros Hg.
    destruct (Hg1 Hg) as ([Hben Hs] & Hpr & Hm). split_and!; [done|done| |].
    + destruct (Z.eqb_spec (expected_len r1) 0); cbn [negb] in Hready; simpl_guards;
        [unfold WG_TCP_ENCAP_HDR_LEN in *; lia|]. intros. destruct (Hs ltac:(done)) as (_ & ? & ?). lia.
    + rewrite <- Hm. unfold measure. destruct (Z.eqb_spec (expected_len r1) 0); [lia|].
      cbn [negb] in Hready. simpl_guards. destruct (Hs ltac:(done)) as (_ & ? & ?). lia.
  - eapply wp_mono; [apply (fill_spec r1 Hr1 Hp1)| |].
    + intros _ r2 (Hr2 & Hp2 & Hex2 & Hd2 & (bs & Hne & Hb2 & Hu2) & Hben2).
      apply check_and_process_spec; [done..|]. intros Hg.
      destruct (Hg1 Hg) as ([Hben Hs] & Hpr & Hm). rewrite <- Hm.
      assert (0 < zlen bs) by (destruct bs; [done|zlia]).
      assert (2 * (2 * zlen (unread (rx_script r2)) + zlen (buf r2)) + 2
        <= 2 * (2 * zlen (unread (rx_script r1)) + zlen (buf r1))) by (rewrite Hb2, Hu2; zlia).
      split_and!; [by apply Hben2| | |unfold measure; case_if; lia].
      * eapply progress_trans; [exact Hpr|]. apply progress_same; [done|].
        unfold stream. by rewrite Hb2, Hu2, app_assoc.
      * intros H8. split; [|unfold measure; rewrite Hex2; case_if; lia].
        intros Hne2. rewrite Hex2 in Hne2. destruct (Hs Hne2) as [Hok _].
        apply header_ok_len in Hok. rewrite Hb2 in H8. zlia.
    + intros r2 (Hr2 & Hb2). split; [done|]. intros Hg.
      destruct (Hg1 Hg) as ([Hben Hs] & Hpr & Hm).
      destruct (Hb2 Hben) as (Hben2 & Hbuf & Hex2 & Hd2 & Hu & Hrx2).
      split_and!; [split; [done|]| | |by right].
      * unfold in_sync. by rewrite Hbuf, Hex2.
      * eapply progress_trans; [exact Hpr|]. apply progress_same; [done|].
        unfold stream. by rewrite Hbuf, Hu, Hrx2.
      * unfold waiting. rewrite Hbuf.
        destruct (Z.eqb_spec (expected_len r1) 0) as [|Hne]; cbn [negb] in Hready; simpl_guards;
          [by apply decode_short|]. destruct (Hs Hne) as (? & ? & ?). apply decode_wait; [done|lia].
Qed.

(** ** The loop, the work item and its repetitions *)
Lemma read_loop_spec n r :
  reader_safe r →
  let '(r', exhausted) := read_loop a ctx n r in
  reader_safe r' ∧
  (able r → good r' ∧ progress r r' ∧
     if exhausted then measure r' + Z.of_nat n <= measure r
     else waiting r' ∧ (measure r' < measure r ∨ rx_script r' = [])).
Proof.
  revert r. induction n as [|n IH]; intros r Hr; cbn [read_loop].
  { split; [done|]. intros (_ & _ & Hg). split_and!; [done|by apply progress_same|lia]. }
  pose proof (read_iteration_spec r Hr) as Hit. unfold wp in Hit.
  destruct (read_iteration a ctx r) as [[[]|] r1]; destruct Hit as [Hr1 H1].
  - specialize (IH r1 Hr1). destruct (read_loop a ctx n r1) as [r2 ex].
    destruct IH as [Hr2 H2]. split; [done|]. intros Hab.
    destruct (H1 Hab) as (Hg1 & Hp1 & Hm1). pose proof Hab as (Ha & Hc & _).
    destruct H2 as (Hg2 & Hp2 & Hm2); [done|].
    split_and!; [done|by eapply progress_trans|]. destruct ex; [lia|].
    destruct Hm2 as [? [?|?]]; split; auto; left; lia.
  - split; [done|]. intros Hab. by destruct (H1 Hab) as (? & ? & ? & ?).
Qed.

Lemma rx_pending_false rx : rx_pending rx = false → unread rx = [].
Proof.
  induction rx as [|[[|b l]| |] rx IH]; cbn; try done.
Qed.

(** The stream is in use. *)
Definition stream_usable (d : wg_device) (p : wg_peer) : bool := can_read d p && tcp_read_wq p.

(** No complete record is left behind when the item does not queue itself. *)
Lemma read_worker_spec d p r :
  reader_safe r →
  let '(r', again) := wg_tcp_read_worker a ctx d d p p r in
  reader_safe r' ∧
  (stream_usable d p = true → able r → good r' ∧ progress r r' ∧
     if again then measure r' < measure r else waiting r' ∧ unread (rx_script r') = []).
Proof.
  intros Hr. unfold wg_tcp_read_worker, stream_usable.
  destruct (can_read d p) eqn:Hf; cbn [negb andb]; [|by split].
  unfold can_read in Hf. apply andb_true_iff in Hf as [Hf _]. apply andb_true_iff in Hf as [Hlive _].
  pose proof (read_loop_spec WG_TCP_READ_BUDGET r Hr) as Hloop.
  destruct (read_loop a ctx WG_TCP_READ_BUDGET r) as [r' ex]. destruct Hloop as [Hr' H].
  split; [done|]. intros Hwq Hab. destruct (H Hab) as (Hg & Hp & Hm).
  change (Z.of_nat WG_TCP_READ_BUDGET) with 64 in Hm.
  rewrite Hlive, Hwq, bool_decide_true by done.
  cbn [andb]. destruct (rx_pending (rx_script r')) eqn:Hpend; cbn [orb].
  { split_and!; [done..|]. destruct ex; [lia|]. destruct Hm as [_ [?|E]]; [done|].
    by rewrite E in Hpend. }
  apply rx_pending_false in Hpend. destruct ex; cbn [andb]; [|by destruct Hm].
  destruct (isSome _ && _ && _) eqn:Hreq;
    split_and!; try done; [lia|]. destruct Hg as [_ Hs].
  destruct (decide (expected_len r' = 0)) as [He|Hne].
  - apply decode_short. rewrite He, Z.eqb_refl, andb_true_r, (received_buf r' Hr') in Hreq.
    unfold buf in *. destruct (partial_skb r'); [|done]. by apply Z.leb_gt in Hreq.
  - destruct (Hs Hne) as (? & ? & ?). apply decode_wait; [done|lia].
Qed.

Lemma run_reader_spec fuel d p r :
  reader_safe r → stream_usable d p = true → able r → measure r < Z.of_nat fuel →
  let r' := run_reader a ctx fuel d p r in
  reader_safe r' ∧ able r' ∧ unread (rx_script r') = [] ∧ waiting r' ∧
  ∃ ds, delivered r' = delivered r ++ ds ∧ Forall2 carries ds (decode (stream r)).1 ∧
        buf r' = (decode (stream r)).2.
Proof.
  intros Hr Hf. revert r Hr. induction fuel as [|fuel IH]; intros r Hr Hab Hm.
  { unfold measure in Hm. destruct (expected_len r =? 0); zlia. }
  cbn [run_reader]. pose proof (read_worker_spec d p r Hr) as Hw.
  destruct (wg_tcp_read_worker a ctx d d p p r) as [r1 again]. destruct Hw as [Hr1 H1].
  destruct (H1 Hf Hab) as (Hg1 & Hp1 & Hc). pose proof Hab as (Ha & Hctx & _).
  destruct Hp1 as (ds & new & Hd & Hcar & Hdec). destruct again.
  - destruct (IH r1) as (? & ? & ? & ? & ds' & Hd' & Hcar' & Hb'); [done|done|lia|].
    split_and!; [done..|]. exists (ds ++ ds'). rewrite Hdec. cbn [fst snd].
    split_and!; [by rewrite Hd', Hd, app_assoc|by apply Forall2_app|done].
  - destruct Hc as [Hw Hu]. split_and!; [done..|]. exists ds. rewrite Hdec.
    unfold stream. rewrite Hu, app_nil_r. unfold waiting in Hw. rewrite Hw. cbn [fst snd].
    by rewrite app_nil_r.
Qed.

(** ** A connection served over time

    Segments arrive in batches; after each batch [data_ready] runs and the work
    item it queues runs, with its own requeueing, until it is idle. *)
Definition enough_fuel (r : reader) : nat := S (Z.to_nat (measure r)).

Fixpoint serve (d : wg_device) (p : wg_peer) (r : reader) (batches : list (list (list Z)))
    : reader :=
  match batches with
  | [] => r
  | segs :: batches =>
      let r := r{{ rx_script := rx_script r ++ map RxData segs }} in
      let queued := wk_read (wg_tcp_data_ready d p) in
      serve d p (if queued then run_reader a ctx (enough_fuel r) d p r else r) batches
  end.

Lemma unread_app rx rx' : unread (rx ++ rx') = unread rx ++ unread rx'.
Proof. unfold unread. by rewrite map_app, concat_app. Qed.

Lemma unread_data segs : unread (map RxData segs) = concat segs.
Proof. unfold unread. rewrite map_map. f_equal. apply map_id. Qed.

(** The stream is in use and its reader idle. *)
Definition stream_idle (d : wg_device) (p : wg_peer) : bool :=
  stream_usable d p && negb (tcp_read_worker_scheduled p).

Lemma data_ready_queues d p :
  stream_idle d p = true → wk_read (wg_tcp_data_ready d p) = true.
Proof.
  unfold stream_idle, stream_usable, can_read, wg_tcp_data_ready, stream_live.
  intros H. simpl_guards. destruct_and!.
  repeat match goal with H : _ = _ |- _ => rewrite H end. done.
Qed.

Lemma serve_spec d p batches r :
  stream_idle d p = true → reader_safe r → able r → unread (rx_script r) = [] → waiting r →
  let r' := serve d p r batches in
  let bytes := buf r ++ concat (map (@concat Z) batches) in
  reader_safe r' ∧
  ∃ ds, delivered r' = delivered r ++ ds ∧ Forall2 carries ds (decode bytes).1 ∧
        buf r' = (decode bytes).2.
Proof.
  intros Hf. revert r. induction batches as [|segs batches IH]; intros r Hr Hab Hu Hw;
    cbn [serve map concat].
  { cbn zeta. rewrite app_nil_r, Hw. split; [done|]. exists []. by rewrite app_nil_r. }
  set (r1 := r{{ rx_script := _ }}).
  rewrite (data_ready_queues d p Hf). apply andb_true_iff in Hf as [Hf _].
  assert (able r1) as Hab1.
  { destruct Hab as (Ha & Hc & [Hal Hrx] & Hs). split; [done|]. split; [done|].
    split; [split; [done|]|done]. apply Forall_app. split; [exact Hrx|]. apply Forall_map. by apply Forall_true. }
  assert (stream r1 = buf r ++ concat segs) as Hst.
  { unfold stream. change (buf r1) with (buf r).
    change (rx_script r1) with (rx_script r ++ map RxData segs).
    by rewrite unread_app, Hu, unread_data. }
  destruct (run_reader_spec (enough_fuel r1) d p r1) as (Hr2 & Hab2 & Hu2 & Hw2 & ds & Hd & Hcar & Hb);
    [done..|unfold enough_fuel; lia|].
  destruct (IH (run_reader a ctx (enough_fuel r1) d p r1) Hr2 Hab2 Hu2 Hw2)
    as (Hr3 & ds' & Hd' & Hcar' & Hb').
  split; [done|]. exists (ds ++ ds'). rewrite Hst in *.
  rewrite (app_assoc (buf r)), (decode_app (buf r ++ concat segs)).
  rewrite Hb in Hcar', Hb'. cbn [fst snd]. split_and!; [|by apply Forall2_app|done].
  rewrite Hd', Hd, app_assoc. done.
Qed.


(** C21: whatever the socket returns (data, end of stream, errors) and whichever
    allocations fail, a run of the reader keeps its buffer consistent: the
    number of received bytes is the length of the buffer, the headroom holds
    the synthetic headers with room to spare, and no write goes past the end of
    the buffer. *)
Theorem reader_buffer_safe (d d' : wg_device) (p p' : wg_peer) (r : reader) :
  reader_safe r → reader_safe (wg_tcp_read_worker a ctx d d' p p' r).1.
Proof.
  intros Hr. unfold wg_tcp_read_worker. case_if; [done|].
  pose proof (read_loop_spec WG_TCP_READ_BUDGET r Hr) as Hloop.
  destruct (read_loop a ctx WG_TCP_READ_BUDGET r). by destruct Hloop.
Qed.
End safety.

(** ** Examples *)
Definition sample_ctx : receive_ctx := mk_receive_ctx IPPROTO_TCP true true None.

Lemma reader_buffer_safe_witness :
  reader_safe (@wg_tcp_read_worker exact_mem zero_csum sample_addrs sample_ctx
    sample_device sample_device sample_peer sample_peer
    (mk_reader None 0 0 [RxData [1; 2; 3]; RxErr 104] [true] [])).1.
Proof.
  apply (@reader_buffer_safe exact_mem _ zero_csum sample_addrs sample_ctx). by split.
Defined.

(** When the buffer for the bytes behind a complete record cannot be allocated,
    the reader has already removed the record's header and stops: the next run
    takes the message for a header, and the complete record is lost although
    every byte of it had arrived. *)
Example leftover_failure_loses_record :
  let r := mk_reader None 0 0
    [RxData (encode_record sample_record ++ encode_record sample_fragment)] [true; false] [] in
  let run := @run_reader exact_mem zero_csum sample_addrs sample_ctx 3 sample_device sample_peer in
  let r' := run ((run r){{ rx_script := [RxData (encode_record sample_record)] }}) in
  (decode (buf r ++ unread (rx_script r) ++ encode_record sample_record)).1
    = [sample_record; sample_fragment; sample_record] ∧
  map (λ d, zdrop 28 (skb_data d)) (delivered r')
    = [rec_payload sample_fragment; rec_payload sample_record].
Proof. by vm_compute. Qed.
