(* ===== verification/TcpWriter.v ===== *)
(** * The stream writer (kernel/wg_tcp.c: wg_tcp_enqueue_frame,
      wg_tcp_write_worker and helpers)

    Frames are appended to the peer's send queue and written to the TCP stream
    by one work item.  Producers, the work item, the write-space callback and
    the kernel run concurrently; what is atomic is a section under the peer's
    locks.  Each section is a function below, and [wstep] interleaves them: the
    state holds the frame the work item has taken off the queue, the bytes the
    stream has accepted and, as a record of what producers were promised, the
    bytes of all frames that were accepted into the queue. *)
From stdpp Require Import prelude list relations.
From S2P Require Import Prelude Skb Net TcpFrame Peer.

#[local] Open Scope Z_scope.

(** ** Scheduling and queueing *)

(** The writer may be queued for the peer's socket. *)
Definition can_write (d : wg_device) (p : wg_peer) : bool :=
  stream_live d p && isSome (peer_socket p) && tcp_established p.

Definition wg_tcp_schedule_write_locked (d : wg_device) (p : wg_peer) : wg_peer :=
  if can_write d p && tcp_write_wq p && negb (tcp_write_worker_scheduled p)
  then p{{ tcp_write_worker_scheduled := true; wk_write := true }}
  else p.

Section writer.
Context (t : wg_tcp_test_params).

Definition wg_tcp_enqueue_frame (d : wg_device) (p : wg_peer) (frame : sk_buff) : Z * wg_peer :=
  let queue_limit := wg_tcp_test_effective_queue_limit t in
  if is_dead p || tcp_stopping p || negb (dev_tcp_cleanup_scheduled d) || negb (is_tcp d)
     || negb (isSome (peer_socket p)) || negb (tcp_established p)
     || tcp_outbound_remove_scheduled p || tcp_inbound_remove_scheduled p
  then (-ENOTCONN, p)
  else if queue_limit <=? zlen (send_queue p) then (-ENOBUFS, p)
  else (0, wg_tcp_schedule_write_locked d (p{{ send_queue := send_queue p ++ [frame] }})).

(** [alloc_ok] and [copy_ok] are the outcomes of building the frame; [gap] is
    what other code does to the peer between the two locked sections;
    [udp_ret] is the result of the UDP path. *)
Definition wg_socket_send_skb_to_peer {K : KernelMem} (alloc_ok copy_ok : bool)
    (gap : wg_peer → wg_peer) (udp_ret : Z) (d : wg_device) (p : wg_peer) (skb : sk_buff)
    : Z * wg_peer :=
  let '(ret, p) :=
    if is_tcp d then
      let tcp_connected := can_write d p in
      let p := gap p in
      if tcp_connected then
        match wg_tcp_build_frame t alloc_ok copy_ok skb with
        | Err e => (e, p)
        | Ok frame => wg_tcp_enqueue_frame d p frame
        end
      else if negb (is_dead p) && negb (tcp_stopping p) && dev_tcp_cleanup_scheduled d
              && is_tcp d && peer_endpoint_set p && negb (tcp_retry_scheduled p)
              && negb (tcp_outbound_remove_scheduled p)
      then (-ENOTCONN, p{{ tcp_retry_scheduled := true; wk_retry := Some 0 }})
      else (-ENOTCONN, p)
    else (udp_ret, p) in
  if ret =? 0 then (0, p{{ tx_bytes := u64 (tx_bytes p + skb_len skb) }}) else (ret, p).

(** ** Failing a connection after a terminal send error

    The second result tells whether the device's cleanup work is queued. *)
Definition wg_tcp_fail_exact_socket (d : wg_device) (p : wg_peer) (socket : Z)
    : wg_peer * bool :=
  if negb (bool_decide (peer_socket p = Some socket)) then (p, false)
  else if temp_peer p then
    if negb (bool_decide (inbound_socket p = Some socket)) then (p, false)
    else (p{{ is_dead := true }}, dev_tcp_cleanup_scheduled d)
  else if is_dead p || tcp_stopping p || negb (dev_tcp_cleanup_scheduled d)
          || negb (is_tcp d) || negb (bool_decide (outbound_socket p = Some socket))
  then (p, false)
  else if tcp_outbound_remove_scheduled p
          && negb (bool_decide (tcp_outbound_remove_socket p = Some socket))
  then (p, false)
  else
    let p := p{{ outbound_connected := false; tcp_pending := false;
                 tcp_established := false; tcp_reconnect_requested := true }} in
    if negb (tcp_connecting p) && negb (tcp_outbound_remove_scheduled p)
    then (p{{ tcp_outbound_remove_scheduled := true;
              tcp_outbound_remove_socket := Some socket;
              wk_outbound_remove := Some 0 }}, false)
    else (p, false).

(** ** The work item *)

(** Where the work item is: not running, between frames, holding a frame it is
    about to send, or about to leave; the last three with the pinned socket
    (none if the stream was not usable when it started). *)
Inductive wpc :=
  | WIdle
  | WLoop (socket : Z)
  | WSending (socket : Z) (skb : sk_buff)
  | WOut (socket : option Z).

Record wstate := mk_wstate {
  w_dev : wg_device;
  w_peer : wg_peer;
  w_pc : wpc;
  w_writeable : bool;
  w_nospace : bool;
  w_wire : list Z;
  w_accepted : list Z;
  w_lost : bool;
}.

#[export] Instance eta_wstate : Settable wstate := λ w,
  mk_wstate (w_dev w) (w_peer w) (w_pc w) (w_writeable w) (w_nospace w) (w_wire w)
    (w_accepted w) (w_lost w).

(** A producer: an accepted frame is added to what was promised. *)
Definition do_enqueue (frame : sk_buff) (w : wstate) : wstate :=
  let '(ret, p) := wg_tcp_enqueue_frame (w_dev w) (w_peer w) frame in
  let w := w{{ w_peer := p }} in
  if ret =? 0 then w{{ w_accepted := w_accepted w ++ skb_data frame }} else w.

(** The workqueue starts the item: the socket is pinned or given up. *)
Definition do_start (w : wstate) : wstate :=
  let p := w_peer w in
  let pc := match peer_socket p with
            | Some socket => if can_write (w_dev w) p then WLoop socket else WOut None
            | None => WOut None
            end in
  w{{ w_peer := p{{ wk_write := false }}; w_pc := pc }}.

(** Take the first frame, or leave. *)
Definition do_dequeue (socket : Z) (w : wstate) : wstate :=
  match send_queue (w_peer w) with
  | [] => w{{ w_pc := WOut (Some socket) }}
  | skb :: q => w{{ w_peer := (w_peer w){{ send_queue := q }}; w_pc := WSending socket skb }}
  end.

Definition requeue_head (socket : Z) (skb : sk_buff) (w : wstate) : wstate :=
  let p := w_peer w in
  w{{ w_peer := p{{ send_queue := skb :: send_queue p }};
      w_nospace := true; w_pc := WOut (Some socket) }}.

Definition drop_and_fail (socket : Z) (w : wstate) : wstate :=
  w{{ w_peer := (wg_tcp_fail_exact_socket (w_dev w) (w_peer w) socket).1;
      w_lost := true; w_pc := WOut (Some socket) }}.

(** The result [sent] of [wg_tcp_send_frame] on the frame in hand. *)
Definition do_sent (socket : Z) (skb : sk_buff) (sent : Z) (w : wstate) : wstate :=
  if 0 <? sent then
    if skb_len skb <? sent then drop_and_fail socket w
    else
      let rest := skb_pull skb sent in
      let w := w{{ w_wire := w_wire w ++ ztake sent (skb_data skb) }} in
      if negb (skb_len rest =? 0) then requeue_head socket rest w
      else w{{ w_pc := WLoop socket }}
  else if sent =? -EAGAIN then requeue_head socket skb w
  else drop_and_fail socket w.

(** The final section: give up the claim, or take it again at once. *)
Definition do_out (socket : option Z) (w : wstate) : wstate :=
  let p := (w_peer w){{ tcp_write_worker_scheduled := false }} in
  let p := if stream_live (w_dev w) p && isSome socket
              && bool_decide (peer_socket p = socket) && tcp_established p
              && tcp_write_wq p && (0 <? zlen (send_queue p)) && w_writeable w
           then p{{ tcp_write_worker_scheduled := true; wk_write := true }} else p in
  w{{ w_peer := p; w_pc := WIdle }}.

(** [wg_tcp_write_space], called by the kernel on a socket whose sender asked
    for it. *)
Definition wg_tcp_write_space (d : wg_device) (p : wg_peer) : wg_peer :=
  if is_dead p || negb (tcp_write_wq p) then p else wg_tcp_schedule_write_locked d p.

(** The kernel accepts at most what it was offered. *)
Definition send_result_ok (skb : sk_buff) (sent : Z) : Prop :=
  sent <= wg_tcp_test_send_len t (skb_len skb).

Inductive wstep : wstate → wstate → Prop :=
  | ws_enqueue w frame :
      wstep w (do_enqueue frame w)
  | ws_start w :
      w_pc w = WIdle → wk_write (w_peer w) = true → wstep w (do_start w)
  | ws_dequeue w socket :
      w_pc w = WLoop socket → wstep w (do_dequeue socket w)
  | ws_sent w socket skb sent :
      w_pc w = WSending socket skb → send_result_ok skb sent →
      wstep w (do_sent socket skb sent w)
  | ws_out w socket :
      w_pc w = WOut socket → wstep w (do_out socket w)
  | ws_write_space w :
      w_nospace w = true →
      wstep w (w{{ w_nospace := false; w_writeable := true;
                   w_peer := wg_tcp_write_space (w_dev w) (w_peer w) }})
  | ws_buffer w b :
      wstep w (w{{ w_writeable := b }}).

(** A connection before anything was sent on it. *)
Definition w_init (d : wg_device) (p : wg_peer) : wstate :=
  mk_wstate d p WIdle true false [] [] false.
End writer.

(** ** Correctness of the writer *)
Section writer_spec.
Context (t : wg_tcp_test_params).

(** The frame in the hands of the work item. *)
Definition inflight (w : wstate) : list sk_buff :=
  match w_pc w with WSending _ skb => [skb] | _ => [] end.

Definition queued_bytes (q : list sk_buff) : list Z := concat (map skb_data q).

(** Nothing is lost, duplicated or reordered. *)
Definition conserved (w : wstate) : Prop :=
  w_lost w = false →
  w_wire w ++ queued_bytes (inflight w ++ send_queue (w_peer w)) = w_accepted w.

(** One claim on the work item at a time. *)
Definition serial_at (pc : wpc) (p : wg_peer) : Prop :=
  (pc ≠ WIdle → tcp_write_worker_scheduled p = true ∧ wk_write p = false) ∧
  (wk_write p = true → tcp_write_worker_scheduled p = true).

Definition serial (w : wstate) : Prop := serial_at (w_pc w) (w_peer w).

Definition bounded (w : wstate) : Prop :=
  zlen (inflight w ++ send_queue (w_peer w)) <= wg_tcp_test_effective_queue_limit t + 1.

Definition writer_inv (w : wstate) : Prop := conserved w ∧ serial w ∧ bounded w.

Lemma schedule_write_fields d p :
  send_queue (wg_tcp_schedule_write_locked d p) = send_queue p ∧
  (tcp_write_worker_scheduled p = true → wg_tcp_schedule_write_locked d p = p) ∧
  (wk_write (wg_tcp_schedule_write_locked d p) = true →
     wk_write p = true ∨ tcp_write_worker_scheduled (wg_tcp_schedule_write_locked d p) = true).
Proof.
  unfold wg_tcp_schedule_write_locked.
  destruct (tcp_write_worker_scheduled p); cbn [negb].
  - rewrite andb_false_r. auto.
  - case_if; cbn; (split_and!; [done|done|auto]).
Qed.

Lemma fail_exact_fields d p s :
  let p' := (wg_tcp_fail_exact_socket d p s).1 in
  send_queue p' = send_queue p ∧ wk_write p' = wk_write p ∧
  tcp_write_worker_scheduled p' = tcp_write_worker_scheduled p.
Proof. unfold wg_tcp_fail_exact_socket. repeat case_if; done. Qed.

Lemma queue_limit_pos : 0 <= wg_tcp_test_queue_limit t → 0 < wg_tcp_test_effective_queue_limit t.
Proof.
  intros. unfold wg_tcp_test_effective_queue_limit, MAX_QUEUED_PACKETS.
  destruct (Z.eqb_spec (wg_tcp_test_queue_limit t) 0); cbn [negb andb]; [lia|].
  destruct (Z.ltb_spec (wg_tcp_test_queue_limit t) 1024); lia.
Qed.

(** Scheduling keeps the single claim. *)
Lemma serial_schedule d pc p :
  serial_at pc p → serial_at pc (wg_tcp_schedule_write_locked d p).
Proof.
  intros [Hr Hq]. destruct (schedule_write_fields d p) as (_ & Hid & Hwk).
  split.
  - intros Hpc. destruct (Hr Hpc). by rewrite Hid.
  - intros H. destruct (Hwk H) as [H'|]; [|done]. by rewrite Hid, Hq by auto.
Qed.

Lemma enqueue_inv w frame : writer_inv w → writer_inv (do_enqueue t frame w).
Proof.
  intros (Hc & Hs & Hb). unfold do_enqueue, wg_tcp_enqueue_frame.
  repeat (case_if; [by destruct w|]).
  set (p1 := (w_peer w){{ send_queue := _ }}).
  destruct (schedule_write_fields (w_dev w) p1) as (Hq & _ & _).
  pose proof (serial_schedule (w_dev w) (w_pc w) p1 Hs) as Hs1.
  rewrite Z.eqb_refl. split_and!; [|exact Hs1|].
  - intros Hl. cbn -[wg_tcp_schedule_write_locked]. rewrite Hq. cbn.
    rewrite <- (Hc Hl). unfold queued_bytes, inflight. cbn.
    rewrite !map_app, !concat_app. cbn. by rewrite !app_nil_r, !app_assoc.
  - unfold bounded, inflight in *. cbn -[wg_tcp_schedule_write_locked]. rewrite Hq. cbn.
    simpl_guards. destruct (w_pc w); zlia.
Qed.

Lemma start_inv w :
  w_pc w = WIdle → wk_write (w_peer w) = true → writer_inv w → writer_inv (do_start w).
Proof.
  intros Hpc Hwk (Hc & [_ Hs] & Hb). specialize (Hs Hwk).
  unfold writer_inv, conserved, serial, serial_at, bounded, do_start, inflight in *. rewrite Hpc in *. cbn.
  destruct (peer_socket (w_peer w)); [case_if|]; cbn; repeat split; done.
Qed.

Lemma dequeue_inv w s : w_pc w = WLoop s → writer_inv w → writer_inv (do_dequeue s w).
Proof.
  intros Hpc (Hc & [Hr Hs] & Hb). rewrite Hpc in Hr. destruct Hr as [Hsch Hwk]; [done|].
  unfold writer_inv, conserved, serial, serial_at, bounded, do_dequeue, inflight in *. rewrite Hpc in *.
  destruct (send_queue (w_peer w)) as [|skb q] eqn:E; cbn in *; rewrite ?E; repeat split; done.
Qed.

Lemma requeue_inv s skb w old :
  w_pc w = WSending s old → serial w → bounded w →
  (w_lost w = false →
     w_wire w ++ skb_data skb ++ queued_bytes (send_queue (w_peer w)) = w_accepted w) →
  writer_inv (requeue_head s skb w).
Proof.
  intros Hpc [Hr Hs] Hb Hc. rewrite Hpc in Hr. destruct Hr as [Hsch Hwk]; [done|].
  unfold writer_inv, conserved, serial, serial_at, bounded, requeue_head, inflight in *. rewrite Hpc in *.
  cbn in *. repeat split; try done.
Qed.

Lemma drop_inv s skb w :
  w_pc w = WSending s skb → serial w → bounded w → writer_inv (drop_and_fail s w).
Proof.
  intros Hpc [Hr Hs] Hb. rewrite Hpc in Hr. destruct Hr as [Hsch Hwk]; [done|].
  destruct (fail_exact_fields (w_dev w) (w_peer w) s) as (Hq & Hk & Hsc).
  unfold writer_inv, conserved, serial, serial_at, bounded, drop_and_fail, inflight in *. rewrite Hpc in *.
  cbn -[wg_tcp_fail_exact_socket] in *. rewrite Hq, Hk, Hsc.
  repeat split; try done; try congruence. zlia.
Qed.

Lemma sent_inv w s skb n :
  w_pc w = WSending s skb → writer_inv w → writer_inv (do_sent s skb n w).
Proof.
  intros Hpc (Hc & Hs & Hb). unfold do_sent.
  assert (w_lost w = false → w_wire w ++ skb_data skb ++ queued_bytes (send_queue (w_peer w))
    = w_accepted w) as Hc'.
  { intros Hl. rewrite <- (Hc Hl). unfold inflight. by rewrite Hpc. }
  destruct (Z.ltb_spec 0 n); [|case_if; [by eapply requeue_inv|by eapply drop_inv]].
  destruct (Z.ltb_spec (skb_len skb) n); [by eapply drop_inv|].
  assert (skb_data (skb_pull skb n) = zdrop n (skb_data skb)) as Hd by (apply skb_data_pull; lia).
  destruct (Z.eqb_spec (skb_len (skb_pull skb n)) 0) as [Hz|Hnz]; cbn [negb].
  - unfold skb_len in Hz. rewrite Hd in Hz.
    assert (zdrop n (skb_data skb) = []) as Hz' by (apply zlen_0_inv; lia).
    pose proof (ztake_zdrop n (skb_data skb)) as Htd. rewrite Hz', app_nil_r in Htd.
    destruct Hs as [Hr Hs]. rewrite Hpc in Hr. destruct Hr as [Hsch Hwk]; [done|].
    unfold writer_inv, conserved, serial, serial_at, bounded, inflight in *. rewrite Hpc in *. cbn in *.
    rewrite Htd, <- app_assoc. repeat split; try done. zlia.
  - eapply requeue_inv; [exact Hpc|done|done|]. intros Hl. rewrite Hd.
    transitivity (w_accepted w); [|done]. rewrite <- (Hc' Hl). cbn.
    by rewrite <- app_assoc, (app_assoc (ztake n _)), ztake_zdrop.
Qed.

Lemma out_inv w s : w_pc w = WOut s → writer_inv w → writer_inv (do_out s w).
Proof.
  intros Hpc (Hc & [Hr Hs] & Hb). rewrite Hpc in Hr. destruct Hr as [Hsch Hwk]; [done|].
  unfold writer_inv, conserved, serial, serial_at, bounded, do_out, inflight in *. rewrite Hpc in *.
  case_if; cbn; repeat split; try done. by rewrite Hwk.
Qed.

Lemma write_space_inv w b :
  writer_inv w →
  writer_inv (w{{ w_nospace := false; w_writeable := b;
                  w_peer := wg_tcp_write_space (w_dev w) (w_peer w) }}).
Proof.
  intros (Hc & Hs & Hb). unfold wg_tcp_write_space. case_if; [done|].
  destruct (schedule_write_fields (w_dev w) (w_peer w)) as (Hq & _ & _).
  pose proof (serial_schedule (w_dev w) (w_pc w) (w_peer w) Hs) as Hs1.
  split_and!; [|exact Hs1|].
  - unfold conserved, inflight in *. cbn -[wg_tcp_schedule_write_locked]. by rewrite Hq.
  - unfold bounded, inflight in *. cbn -[wg_tcp_schedule_write_locked]. by rewrite Hq.
Qed.

Lemma wstep_inv w w' : wstep t w w' → writer_inv w → writer_inv w'.
Proof.
  destruct 1; intros Hinv.
  - by apply enqueue_inv.
  - by apply start_inv.
  - by apply dequeue_inv.
  - by apply sent_inv.
  - by apply out_inv.
  - by apply write_space_inv.
  - exact Hinv.
Qed.

(** A peer whose writer has nothing to do. *)
Definition quiet (p : wg_peer) : Prop :=
  send_queue p = [] ∧ wk_write p = false ∧ tcp_write_worker_scheduled p = false.

Lemma reachable_inv d p w :
  quiet p → 0 <= wg_tcp_test_queue_limit t → rtc (wstep t) (w_init d p) w → writer_inv w.
Proof.
  intros (Hq & Hwk & Hsch) Hlim Hr.
  assert (writer_inv (w_init d p)) as Hi.
  { pose proof (queue_limit_pos Hlim). unfold writer_inv, conserved, serial, serial_at, bounded, w_init. cbn.
    rewrite Hq, Hwk. repeat split; try done. cbn. unfold zlen. cbn. lia. }
  revert Hi. induction Hr as [|w1 w2 w3 Hstep _ IH]; [done|]. intros Hi.
  by apply IH, (wstep_inv w1).
Qed.

(** C4: for every interleaving of producers, the writer, the write-space
    callback and the kernel, as long as no frame had to be dropped because the
    connection failed, the bytes on the wire followed by the unsent rest of the
    queue are exactly the frames that were accepted, in the order they were
    accepted: short writes and full buffers never lose, repeat or reorder a
    byte. *)
Theorem writer_preserves_stream (d : wg_device) (p : wg_peer) (w : wstate) :
  quiet p → 0 <= wg_tcp_test_queue_limit t → rtc (wstep t) (w_init d p) w →
  w_lost w = false →
  w_wire w ++ queued_bytes (inflight w ++ send_queue (w_peer w)) = w_accepted w.
Proof. intros Hp Hl Hr. by apply (reachable_inv d p w Hp Hl Hr). Qed.

(** C22: at any time the writer's work item is claimed at most once (it is
    never queued while it runs, and the claim flag is set whenever it is queued
    or running), and the queue together with the frame in hand never exceeds
    the limit by more than one frame. *)
Theorem writer_serial_and_bounded (d : wg_device) (p : wg_peer) (w : wstate) :
  quiet p → 0 <= wg_tcp_test_queue_limit t → rtc (wstep t) (w_init d p) w →
  (w_pc w ≠ WIdle → tcp_write_worker_scheduled (w_peer w) = true ∧ wk_write (w_peer w) = false) ∧
  (wk_write (w_peer w) = true → tcp_write_worker_scheduled (w_peer w) = true) ∧
  zlen (inflight w ++ send_queue (w_peer w)) <= wg_tcp_test_effective_queue_limit t + 1.
Proof.
  intros Hp Hl Hr. destruct (reachable_inv d p w Hp Hl Hr) as (_ & [? ?] & ?).
  split_and!; done.
Qed.

(** ** Sending a message *)
Lemma schedule_write_claims d p :
  can_write d p = true → tcp_write_wq p = true →
  tcp_write_worker_scheduled (wg_tcp_schedule_write_locked d p) = true.
Proof.
  intros Hc Hw. unfold wg_tcp_schedule_write_locked. rewrite Hc, Hw.
  by destruct (tcp_write_worker_scheduled p) eqn:E.
Qed.

Lemma schedule_write_tx d p : tx_bytes (wg_tcp_schedule_write_locked d p) = tx_bytes p.
Proof. unfold wg_tcp_schedule_write_locked. by case_if. Qed.

Lemma enqueue_frame_spec d p frame :
  let '(ret, p') := wg_tcp_enqueue_frame t d p frame in
  tx_bytes p' = tx_bytes p ∧
  (ret = 0 ∧ can_write d p = true ∧
     zlen (send_queue p) < wg_tcp_test_effective_queue_limit t ∧
     send_queue p' = send_queue p ++ [frame] ∧
     (tcp_write_wq p = true → tcp_write_worker_scheduled p' = true) ∨
   ret ∈ [-ENOTCONN; -ENOBUFS] ∧ p' = p).
Proof.
  unfold wg_tcp_enqueue_frame. case_if; [split; [done|right; split; [set_solver|done]]|].
  destruct (Z.leb_spec (wg_tcp_test_effective_queue_limit t) (zlen (send_queue p)));
    [split; [done|right; split; [set_solver|done]]|].
  set (p1 := p{{ send_queue := _ }}). rewrite schedule_write_tx. split; [done|]. left.
  destruct (schedule_write_fields d p1) as (Hq & _).
  assert (can_write d p = true) as Hc.
  { unfold can_write, stream_live. simpl_guards. destruct_and!.
    repeat match goal with H : _ = _ |- _ => rewrite H end. done. }
  split_and!; [done|done|done|exact Hq|]. intros Hw. by apply schedule_write_claims.
Qed.

(** sending a message over TCP either queues exactly one frame holding the
    encoded message behind everything queued before it, claims the writer and
    counts the bytes, or reports one of five errors and leaves the queue and
    the byte count alone; it succeeds only on a usable connection with room in
    the queue. *)
Theorem send_skb_to_peer_spec {K : KernelMem} (alloc_ok copy_ok : bool)
    (gap : wg_peer → wg_peer) (udp_ret : Z) (d : wg_device) (p : wg_peer) (skb : sk_buff) :
  is_tcp d = true → 0 <= wg_tcp_test_prefix_len t →
  let '(ret, p') := wg_socket_send_skb_to_peer t alloc_ok copy_ok gap udp_ret d p skb in
  let g := gap p in
  ret = 0 ∧ can_write d p = true ∧ can_write d g = true ∧
    zlen (send_queue g) < wg_tcp_test_effective_queue_limit t ∧
    (tcp_write_wq g = true → tcp_write_worker_scheduled p' = true) ∧
    tx_bytes p' = u64 (tx_bytes g + skb_len skb) ∧
    (∃ frame, send_queue p' = send_queue g ++ [frame] ∧
       skb_data frame = replicate (Z.to_nat (wg_tcp_test_prefix_len t)) 0xa5
                        ++ encode_record (record_of_skb skb)) ∨
  ret ∈ [-ENOTCONN; -ENOBUFS; -EINVAL; -EMSGSIZE; -ENOMEM] ∧
    send_queue p' = send_queue g ∧ tx_bytes p' = tx_bytes g.
Proof.
  intros Htcp Hpre. unfold wg_socket_send_skb_to_peer. rewrite Htcp. cbn zeta.
  destruct (can_write d p).
  2: { case_if; (right; split_and!; [set_solver|done|done]). }
  pose proof (build_frame_spec t alloc_ok copy_ok skb Hpre) as Hb.
  destruct (wg_tcp_build_frame t alloc_ok copy_ok skb) as [frame|e].
  - destruct Hb as (_ & _ & Hd).
    pose proof (enqueue_frame_spec d (gap p) frame) as He.
    destruct (wg_tcp_enqueue_frame t d (gap p) frame) as [ret p1].
    destruct He as [Htx [(-> & Hc & Hl & Hq & Hw)|[Hret ->]]].
    + rewrite Z.eqb_refl. left. cbn. rewrite Htx.
      split_and!; [done..|]. by exists frame.
    + assert (ret ≠ 0) as Hne by (intros ->; set_solver).
      rewrite (proj2 (Z.eqb_neq ret 0) Hne). right. set_solver.
  - assert (e ∈ [-ENOTCONN; -ENOBUFS; -EINVAL; -EMSGSIZE; -ENOMEM] ∧ e ≠ 0) as [He Hne].
    { destruct Hb as [[-> _]|[[-> _]|[-> _]]]; (split; [set_solver|done]). }
    rewrite (proj2 (Z.eqb_neq e 0) Hne). right. done.
Qed.
End writer_spec.

(** ** Examples and two ways a stream stalls or tears *)
Definition sample_frame (b : Z) : sk_buff := mk_sk_buff [] (replicate 40 b) 0 0 0 0 0 packet_cb_zero.

(** Steps by name, to run the writer on a concrete state. *)
Inductive wlabel := LEnqueue (frame : sk_buff) | LStart | LDequeue | LSent (n : Z) | LOut
  | LBuffer (b : bool).

Definition wexec (w : wstate) (l : wlabel) : option wstate :=
  match l, w_pc w with
  | LEnqueue frame, _ => Some (do_enqueue production frame w)
  | LStart, WIdle => if wk_write (w_peer w) then Some (do_start w) else None
  | LDequeue, WLoop socket => Some (do_dequeue socket w)
  | LSent n, WSending socket skb =>
      if n <=? wg_tcp_test_send_len production (skb_len skb) then Some (do_sent socket skb n w)
      else None
  | LOut, WOut socket => Some (do_out socket w)
  | LBuffer b, _ => Some (w{{ w_writeable := b }})
  | _, _ => None
  end.

Lemma wexec_sound w l w' : wexec w l = Some w' → wstep production w w'.
Proof.
  unfold wexec. destruct l, (w_pc w) eqn:Hpc; try discriminate; try case_if; try discriminate;
    intros H; apply (inj Some) in H as <-; try (by constructor).
  constructor; [done|]. unfold send_result_ok. by apply Z.leb_le.
Qed.

Fixpoint wrun (w : wstate) (ls : list wlabel) : option wstate :=
  match ls with
  | [] => Some w
  | l :: ls => match wexec w l with Some w => wrun w ls | None => None end
  end.

Lemma wrun_sound w ls w' : wrun w ls = Some w' → rtc (wstep production) w w'.
Proof.
  revert w. induction ls as [|l ls IH]; cbn; intros w.
  - intros H. by apply (inj Some) in H as <-.
  - destruct (wexec w l) as [w1|] eqn:E; [|done]. intros H.
    eapply rtc_l; [by eapply wexec_sound|by apply IH].
Qed.

Lemma wrun_reaches w ls (P : wstate → Prop) :
  match wrun w ls with Some w' => P w' | None => False end →
  ∃ w', rtc (wstep production) w w' ∧ P w'.
Proof.
  destruct (wrun w ls) as [w'|] eqn:E; [|done]. intros HP. exists w'.
  split; [by eapply wrun_sound|done].
Qed.

Definition sample_short_write : wstate :=
  do_sent 1 (sample_frame 5) 15 (do_dequeue 1 (do_start
    (do_enqueue production (sample_frame 5) (w_init sample_device sample_peer)))).

Lemma sample_short_write_reachable :
  rtc (wstep production) (w_init sample_device sample_peer) sample_short_write.
Proof.
  apply (wrun_sound _ [LEnqueue (sample_frame 5); LStart; LDequeue; LSent 15]).
  vm_compute. reflexivity.
Qed.

Lemma writer_preserves_stream_witness :
  w_wire sample_short_write
    ++ queued_bytes (inflight sample_short_write ++ send_queue (w_peer sample_short_write))
  = w_accepted sample_short_write ∧ w_wire sample_short_write = replicate 15 5.
Proof.
  split; [|reflexivity].
  apply (writer_preserves_stream production sample_device sample_peer);
    [by split|done|exact sample_short_write_reachable|done].
Defined.

Lemma writer_serial_and_bounded_witness :
  zlen (inflight sample_short_write ++ send_queue (w_peer sample_short_write)) <= 1025.
Proof.
  apply (writer_serial_and_bounded production sample_device sample_peer sample_short_write);
    [by split|done|exact sample_short_write_reachable].
Defined.

Lemma send_skb_to_peer_spec_witness :
  let '(ret, p') := @wg_socket_send_skb_to_peer production exact_mem true true id 0
    sample_device sample_peer (sample_frame 4) in
  ret = 0 ∧ ∃ frame, send_queue p' = [frame] ∧
    skb_data frame = encode_record (record_of_skb (sample_frame 4)).
Proof.
  pose proof (@send_skb_to_peer_spec production exact_mem true true id 0
    sample_device sample_peer (sample_frame 4) ltac:(by vm_compute) ltac:(by vm_compute)) as H.
  destruct (wg_socket_send_skb_to_peer _ _ _ _ _ _ _ _) as [ret p'] eqn:E.
  destruct H as [(Hr & _ & _ & _ & _ & _ & f & Hq & Hd)|[Hr _]].
  - split; [exact Hr|]. exists f. split; [exact Hq|exact Hd].
  - exfalso. vm_compute in E. injection E as <- _. set_solver.
Defined.

(** The final section of the work item does not arm the write-space callback: a
    frame queued while the item was leaving, on a socket whose buffer is then
    above its low mark although every send succeeded, is left in the queue with
    the item neither queued nor running and no callback due. *)
Example writer_lost_wakeup :
  ∃ w, rtc (wstep production) (w_init sample_device sample_peer) w ∧
    w_lost w = false ∧ w_pc w = WIdle ∧ wk_write (w_peer w) = false ∧ w_nospace w = false ∧
    can_write (w_dev w) (w_peer w) = true ∧ send_queue (w_peer w) = [sample_frame 2].
Proof.
  apply (wrun_reaches _ [LEnqueue (sample_frame 1); LStart; LDequeue; LSent 40; LDequeue;
    LEnqueue (sample_frame 2); LBuffer false; LOut]). by vm_compute.
Qed.

(** A configured peer whose active connection is an accepted one: a terminal
    send error drops the rest of a frame whose beginning is on the wire, but
    the connection is not failed, and the next frame follows the torn one. *)
Definition promoted_peer : wg_peer :=
  sample_peer{{ outbound_socket := None; outbound_connected := false;
                inbound_socket := Some 1; inbound_connected := true }}.

Example send_error_tears_accepted_stream :
  ∃ w, rtc (wstep production) (w_init sample_device promoted_peer) w ∧
    can_write (w_dev w) (w_peer w) = true ∧
    wk_outbound_remove (w_peer w) = None ∧ wk_inbound_remove (w_peer w) = None ∧
    w_wire w = replicate 10 1 ++ replicate 40 2.
Proof.
  apply (wrun_reaches _ [LEnqueue (sample_frame 1); LEnqueue (sample_frame 2); LStart; LDequeue;
    LSent 10; LOut; LStart; LDequeue; LSent (-ENOBUFS); LOut; LStart; LDequeue; LSent 40]).
  by vm_compute.
Qed.
