(* ===== verification/TcpChannel.v ===== *)
(** * End to end: messages over a TCP carrier

    Composition of the writer (TcpWriter.v), the byte stream of the kernel, the
    reader (TcpReader.v, TcpReaderSpec.v) and the entry check of the receive
    path (RxHeader.v).  The kernel's TCP is used for what it promises: the
    receiver is given the bytes the sender's socket accepted, in order, cut
    into arbitrary segments that arrive at arbitrary times. *)
From stdpp Require Import prelude list relations.
From S2P Require Import Prelude Skb Net TcpFrame TcpStream FakeHeaders RxHeader Peer.
From S2P Require Import TcpReader TcpReaderSpec TcpWriter.

#[local] Open Scope Z_scope.

Section channel.
Context {K : KernelMem} {KOk : KernelMemOk K} {C : KernelCsum} {T : IpTunnel} {TOk : IpTunnelOk T}.
Context (a : stream_addrs) (ctx : receive_ctx) (t : wg_tcp_test_params).

(** A buffer that carries the bytes [bs] and nothing else. *)
Definition bare_skb (bs : list Z) : sk_buff := mk_sk_buff [] bs 0 0 0 0 0 packet_cb_zero.

(** The receive path turns the delivered buffer into the message of the record,
    with its fragment fields and marked as received over TCP; it refuses it
    only if it is no WireGuard message or too long for a UDP length field. *)
Definition receives (d : sk_buff) (rec : tcp_record) : Prop :=
  match prepare_skb_header d with
  | Ok m =>
      skb_data m = rec_payload rec ∧
      cb_frag_id (PACKET_CB m) = rec_frag_id rec ∧
      cb_frag_off (PACKET_CB m) = rec_frag_off rec ∧
      cb_outer_ipproto (PACKET_CB m) = sk_protocol ctx
  | Err e =>
      e = -EINVAL ∧
      (65527 < zlen (rec_payload rec) ∨ validate_header_len (bare_skb (rec_payload rec)) = 0)
  end.

(** The control block takes no part in labelling a record. *)
Lemma build_fake_headers_cb skb cb :
  wg_tcp_build_fake_headers (skb{{ PACKET_CB := cb }}) a =
  match wg_tcp_build_fake_headers skb a with
  | Ok s => Ok (s{{ PACKET_CB := cb }})
  | Err e => Err e
  end.
Proof.
  unfold wg_tcp_build_fake_headers. destruct (stream_sk a) as [sk|]; [|done].
  destruct (is_inbound a).
  - destruct (inbound_source a); [done| |].
    + by destruct (as_sockaddr_in (inbound_dest a)).
    + by destruct (as_sockaddr_in6 (inbound_dest a)) as [[] ?].
  - destruct (sk_family sk =? AF_INET); [done|]. by destruct (sk_family sk =? AF_INET6).
Qed.

Lemma restore_fragment_cb hf fh skb cb :
  restore_fragment_fields hf fh (skb{{ PACKET_CB := cb }}) =
  (restore_fragment_fields hf fh skb){{ PACKET_CB := cb }}.
Proof. unfold restore_fragment_fields. cbn. by case_if. Qed.

Lemma carries_receives d rec :
  carries a ctx d rec → MESSAGE_MINIMUM_LENGTH <= zlen (rec_payload rec) <= 65535 →
  receives d rec.
Proof.
  intros (skb & skb' & hf & fh & Hb & Hr & Hp & Hid & Hoff & Hrx) Hlen.
  assert (∃ cb, d = (restore_fragment_fields hf fh skb'){{ PACKET_CB := cb }} ∧
    cb_frag_id cb = cb_frag_id (PACKET_CB skb) ∧ cb_frag_off cb = cb_frag_off (PACKET_CB skb) ∧
    cb_outer_ipproto cb = sk_protocol ctx) as (cb & -> & Hcid & Hcoff & Hcp).
  { assert (PACKET_CB (restore_fragment_fields hf fh skb') = PACKET_CB skb) as Hcb.
    { destruct (fake_headers_headed skb skb' a hf fh Hr Hb) as (? & ? & ? & ? & ? & ? & -> & _).
      done. }
    unfold wg_receive in Hrx. destruct (_ && _); [done|]. destruct (negb _); [done|].
    apply (inj Some) in Hrx as <-. rewrite Hcb. by eexists. }
  rewrite <- restore_fragment_cb. unfold receives.
  pose proof (build_fake_headers_cb skb cb) as Hb2. rewrite Hb in Hb2.
  pose proof (prepare_built (skb{{ PACKET_CB := cb }}) (skb'{{ PACKET_CB := cb }}) a hf fh) as H.
  cbn zeta in H. specialize (H Hr). change (skb_len (skb{{ PACKET_CB := cb }})) with (skb_len skb) in H.
  unfold skb_len in H. rewrite Hp in H. specialize (H Hlen Hb2).
  destruct (prepare_skb_header _) as [m|e].
  - destruct H as (_ & _ & Hd & Hcb & _). rewrite Hcb, Hd. cbn. rewrite Hcid, Hcoff. done.
  - destruct H as [-> H]. split; [done|]. destruct H as [?|Hv]; [by left|right].
    rewrite <- Hv. apply validate_header_len_ext. by cbn.
Qed.

Lemma decode_prefix wire rest k rs :
  Forall sendable rs → wire ++ rest = wire_of k rs →
  (decode wire).1 `prefix_of` rs ∧ (rest = [] → (decode wire).1 = rs).
Proof.
  intros Hs Hw. pose proof (decode_wire_of k rs [] Hs) as Hd.
  rewrite app_nil_r, <- Hw in Hd. change (decode []) with (@nil tcp_record, @nil Z) in Hd.
  cbn [fst snd] in Hd. rewrite app_nil_r in Hd. split.
  - rewrite decode_app in Hd. injection Hd as Hd _. by exists (decode ((decode wire).2 ++ rest)).1.
  - intros ->. rewrite app_nil_r in Hd. by rewrite Hd.
Qed.

Lemma sendable_payload r :
  sendable r → MESSAGE_MINIMUM_LENGTH <= zlen (rec_payload r) <= 65535.
Proof.
  intros (Hmin & Hmax & _). split; [done|]. unfold rec_total_len in Hmax.
  pose proof (rec_header_len_cases r). change WG_MAX_PACKET_SIZE with 65543 in Hmax. lia.
Qed.

End channel.

(** Three messages sent with a short write in the middle, received in pieces. *)
Definition sample_message (b : Z) : sk_buff :=
  bare_skb ([MESSAGE_DATA; 0; 0; 0] ++ replicate 28 b).

Definition sample_records : list tcp_record :=
  [record_of_skb (sample_message 1); record_of_skb (sample_message 2)].

Definition frame_of (b : Z) : sk_buff := bare_skb (encode_record (record_of_skb (sample_message b))).

Definition sample_sent : wstate :=
  do_sent 1 (frame_of 2) 20 (do_dequeue 1 (do_sent 1 (frame_of 1) 40 (do_dequeue 1 (do_start
    (do_enqueue production (frame_of 2) (do_enqueue production (frame_of 1)
      (w_init sample_device sample_peer))))))).

