(* ===== verification/Admission.v ===== *)
(** * Admission of accepted connections (kernel/wg_tcp.c)

    An accepted TCP connection is provisional until the stream has carried an
    authenticated message.  Its admission is limited per source by a fixed
    table of recent sources ([wg_tcp_accept_rate_allow]) and, for all sources
    together and for each one, by counters over the list of tracked
    connections, from which idle, old and dead ones are reaped.  This file
    models the table, the list with its counters and the operations on them,
    and proves that the counters always describe the list, that the limits
    hold, and what the reaper leaves behind. *)
From Stdlib Require Import Sorting.Sorted.
From stdpp Require Import prelude list gmap.
From S2P Require Import Prelude Skb Net Peer.

#[local] Open Scope Z_scope.

Definition WG_TCP_ACCEPT_SOURCE_SLOTS : nat := 128.
Definition WG_TCP_ACCEPT_BURST := 32.
Definition WG_TCP_MAX_PENDING_CONNECTIONS := 128.
Definition WG_TCP_MAX_TRACKED_CONNECTIONS := 1024.
Definition WG_TCP_MAX_PENDING_PER_SOURCE := 8.
Definition WG_TCP_AUTH_IDLE_TIMEOUT_MS := 5000.
Definition WG_TCP_AUTH_MAX_LIFETIME_MS := 30000.
Definition WG_TCP_CLEANUP_INTERVAL_MS := 1000.

(** ** The table of recent sources *)

(** [jiffies] are unsigned 64-bit and wrap around. *)
Definition time_before (a b : Z) : bool := 2 ^ 63 <=? u64 (a - b).
Definition time_after_eq (a b : Z) : bool := u64 (a - b) <? 2 ^ 63.

Inductive source_address :=
  | SrcNone
  | Src4 (addr4 : Z)
  | Src6 (addr6 scope_id : Z).

Record wg_tcp_accept_source := mk_accept_source {
  src_address : source_address;
  window_started : Z;
  last_seen : Z;
  accepts : Z;
}.

#[export] Instance eta_accept_source : Settable wg_tcp_accept_source := λ s,
  mk_accept_source (src_address s) (window_started s) (last_seen s) (accepts s).

Definition wg_tcp_accept_source_matches (s : wg_tcp_accept_source) (addr : sockaddr) : bool :=
  match src_address s, addr with
  | Src4 a, Sa4 _ b => a =? b
  | Src6 a scope, Sa6 _ b scope_id =>
      (a =? b) && (negb (ipv6_link_local b) || (scope =? scope_id))
  | _, _ => false
  end.

Definition wg_tcp_accept_source_set (addr : sockaddr) (now : Z) : wg_tcp_accept_source :=
  let address := match addr with
                 | Sa4 _ a => Src4 a
                 | Sa6 _ a scope => Src6 a (if ipv6_link_local a then scope else 0)
                 | SaUnspec => SrcNone
                 end in
  mk_accept_source address now now 1.

Definition slot_empty (s : wg_tcp_accept_source) : bool :=
  match src_address s with SrcNone => true | _ => false end.

(** The scan: the slot of the source, or the first empty and the least
    recently seen one. *)
Inductive scan_result :=
  | ScanFound (i : nat)
  | ScanMiss (empty oldest : option nat).

Fixpoint scan_sources (l : list wg_tcp_accept_source) (addr : sockaddr) (i : nat)
    (empty : option nat) (oldest : option (nat * Z)) : scan_result :=
  match l with
  | [] => ScanMiss empty (fst <$> oldest)
  | candidate :: l =>
      if slot_empty candidate then
        scan_sources l addr (S i) (match empty with None => Some i | _ => empty end) oldest
      else if wg_tcp_accept_source_matches candidate addr then ScanFound i
      else
        let older := match oldest with
                     | None => true
                     | Some (_, seen) => time_before (last_seen candidate) seen
                     end in
        scan_sources l addr (S i) empty
          (if older then Some (i, last_seen candidate) else oldest)
  end.

Section rate.
Context (WG_TCP_ACCEPT_WINDOW : Z).

Definition wg_tcp_accept_rate_allow (table : list wg_tcp_accept_source) (now : Z)
    (addr : sockaddr) : bool * list wg_tcp_accept_source :=
  match addr with
  | SaUnspec => (false, table)
  | _ =>
      match scan_sources table addr 0 None None with
      | ScanMiss empty oldest =>
          match (match empty with Some _ => empty | None => oldest end) with
          | Some i => (true, <[i := wg_tcp_accept_source_set addr now]> table)
          | None => (true, table)
          end
      | ScanFound i =>
          match table !! i with
          | None => (true, table)
          | Some s =>
              if time_after_eq now (u64 (window_started s + WG_TCP_ACCEPT_WINDOW))
              then (true, <[i := wg_tcp_accept_source_set addr now]> table)
              else if WG_TCP_ACCEPT_BURST <=? accepts s
              then (false, <[i := s{{ last_seen := now }}]> table)
              else (true, <[i := s{{ accepts := u16 (accepts s + 1); last_seen := now }}]> table)
          end
      end
  end.
End rate.

(** ** The list of tracked connections *)
Record wg_tcp_socket_list_entry := mk_entry {
  e_tcp_socket : Z;
  e_src_addr : sockaddr;
  e_temp_peer : option Z;
  e_created_at : Z;
  e_timestamp : Z;
  e_connection_id : Z;
  e_authenticated : bool;
  e_admission_counted : bool;
  e_initializing : bool;
}.

#[export] Instance eta_entry : Settable wg_tcp_socket_list_entry := λ e,
  mk_entry (e_tcp_socket e) (e_src_addr e) (e_temp_peer e) (e_created_at e) (e_timestamp e)
    (e_connection_id e) (e_authenticated e) (e_admission_counted e) (e_initializing e).

Record connections := mk_connections {
  tcp_connection_list : list wg_tcp_socket_list_entry;
  tcp_pending_connections : Z;
  tcp_tracked_connections : Z;
  tcp_connection_sequence : Z;
}.

#[export] Instance eta_connections : Settable connections := λ c,
  mk_connections (tcp_connection_list c) (tcp_pending_connections c)
    (tcp_tracked_connections c) (tcp_connection_sequence c).

(** [list_for_each_entry] up to the first entry that satisfies [f], with that
    entry replaced by [g]. *)
Fixpoint update_first {A} (f : A → bool) (g : A → A) (l : list A) : list A :=
  match l with
  | [] => []
  | x :: l => if f x then g x :: l else x :: update_first f g l
  end.

Fixpoint remove_first {A} (f : A → bool) (l : list A) : option (A * list A) :=
  match l with
  | [] => None
  | x :: l =>
      if f x then Some (x, l)
      else match remove_first f l with Some (y, l') => Some (y, x :: l') | None => None end
  end.

Definition counted_from (addr : sockaddr) (e : wg_tcp_socket_list_entry) : bool :=
  e_admission_counted e && wg_sockaddrs_same_host addr (e_src_addr e).

Definition count {A} (f : A → bool) (l : list A) : Z := zlen (filter (λ x, Is_true (f x)) l).

Definition wg_tcp_pending_from_source_locked (c : connections) (addr : sockaddr) : Z :=
  count (counted_from addr) (tcp_connection_list c).

Definition wg_tcp_source_at_capacity (c : connections) (addr : sockaddr) : bool :=
  WG_TCP_MAX_PENDING_PER_SOURCE <=? wg_tcp_pending_from_source_locked c addr.

(** The counter part of [wg_tcp_release_admission_locked] for an entry; its
    flag is cleared by [uncounted]. *)
Definition uncounted (e : wg_tcp_socket_list_entry) : wg_tcp_socket_list_entry :=
  e{{ e_admission_counted := false }}.

Definition wg_tcp_release_admission_locked (c : connections) (e : wg_tcp_socket_list_entry)
    : connections :=
  if negb (e_admission_counted e) then c
  else if tcp_pending_connections c =? 0 then c
  else c{{ tcp_pending_connections := tcp_pending_connections c - 1 }}.

Definition has_id (id : Z) (e : wg_tcp_socket_list_entry) : bool := e_connection_id e =? id.

Definition wg_tcp_mark_connection_authenticated (c : connections) (now id : Z) : connections :=
  if id =? 0 then c
  else
    match remove_first (has_id id) (tcp_connection_list c) with
    | None => c
    | Some (e, _) =>
        (wg_tcp_release_admission_locked c e){{
          tcp_connection_list := update_first (has_id id)
            (λ e, (uncounted e){{ e_authenticated := true; e_timestamp := now }})
            (tcp_connection_list c) }}
    end.

(** What [wg_add_tcp_socket_to_list] changes: the connections, the connection
    id stored in the provisional peer and the mark of the socket if they are
    written, and whether the reaper is queued to run at once. *)
Record add_outcome := mk_add_outcome {
  add_ret : Z;
  add_connections : connections;
  add_peer_id : option Z;
  add_mark : option Z;
  add_reap : bool;
}.

(** [getname] is the answer of the socket for its peer's address; [owned] says
    that the socket carries inbound socket data of the provisional peer;
    [cleanup1] and [cleanup2] are the two reads of the device flag.  The
    sequence number is consumed even if the connection is refused afterwards. *)
Definition wg_add_tcp_socket_to_list (c : connections) (fwmark : Z) (alloc_ok owned : bool)
    (socket peer now : Z) (getname : result (Z * sockaddr)) (cleanup1 cleanup2 : bool)
    : add_outcome :=
  if negb alloc_ok then mk_add_outcome (-ENOMEM) c None None false
  else if negb owned then mk_add_outcome (-EINVAL) c None None false
  else
    let id := u64 (tcp_connection_sequence c + 1) in
    let c := c{{ tcp_connection_sequence := id }} in
    let refuse ret := mk_add_outcome ret c (Some id) None false in
    match getname with
    | Err e => refuse e
    | Ok (len, addr) =>
        if negb (wg_sockaddr_length_valid addr len) then refuse (-EINVAL)
        else if negb cleanup1 then refuse (-ESHUTDOWN)
        else if negb cleanup2
             || (WG_TCP_MAX_TRACKED_CONNECTIONS <=? tcp_tracked_connections c)
             || (WG_TCP_MAX_PENDING_CONNECTIONS <=? tcp_pending_connections c)
             || (WG_TCP_MAX_PENDING_PER_SOURCE <=? wg_tcp_pending_from_source_locked c addr)
        then refuse (-ENOSPC)
        else
          let e := mk_entry socket addr (Some peer) now now id false true true in
          mk_add_outcome 0
            (c{{ tcp_connection_list := tcp_connection_list c ++ [e];
                 tcp_pending_connections := u32 (tcp_pending_connections c + 1);
                 tcp_tracked_connections := u32 (tcp_tracked_connections c + 1) }})
            (Some id) (Some fwmark) true
    end.

Definition has_socket (socket : Z) (e : wg_tcp_socket_list_entry) : bool :=
  e_tcp_socket e =? socket.

(** [wg_finish_tcp_connection_init]: the list, the provisional peer it marks
    dead and whether the reaper is queued.  [established] tells whether the
    socket is in state [TCP_ESTABLISHED]. *)
Definition wg_finish_tcp_connection_init (dead : Z → bool) (c : connections) (socket : Z)
    (established cleanup_scheduled : bool) : connections * option Z * bool :=
  match remove_first (has_socket socket) (tcp_connection_list c) with
  | None => (c, None, false)
  | Some (e, _) =>
      let alive := established && match e_temp_peer e with
                                  | Some peer => negb (dead peer)
                                  | None => false
                                  end in
      (c{{ tcp_connection_list := update_first (has_socket socket)
             (λ e, e{{ e_initializing := false }}) (tcp_connection_list c) }},
       if alive then None else e_temp_peer e,
       negb alive && cleanup_scheduled)
  end.

(** Only a provisional peer ([is_temp]) has a tracked connection. *)
Definition wg_touch_tcp_connection (c : connections) (peer : Z) (is_temp : bool) (now : Z)
    : connections :=
  if negb is_temp then c
  else c{{ tcp_connection_list := update_first (λ e, bool_decide (e_temp_peer e = Some peer))
             (λ e, e{{ e_timestamp := now }}) (tcp_connection_list c) }}.

(** The list part of [wg_tcp_set_device_mark]. *)
Definition mark_sockets (c : connections) (mark : Z) (socks : sockets) : sockets :=
  foldl (λ socks e, alter (λ k, k{{ ks_mark := mark }}) (e_tcp_socket e) socks) socks
    (tcp_connection_list c).

Definition wg_tcp_set_device_mark (c : connections) (listen4 listen6 : option Z) (mark : Z)
    (socks : sockets) : sockets :=
  let set o socks := match o with
                     | Some s => alter (λ k, k{{ ks_mark := mark }}) s socks
                     | None => socks
                     end in
  mark_sockets c mark (set listen6 (set listen4 socks)).

(** ** Claiming and reaping *)
Section claim.
(** The provisional peers marked dead. *)
Context (dead : Z → bool).

(** Times are [ktime_t], in nanoseconds. *)
Definition ktime_ms_delta (later earlier : Z) : Z := Z.quot (later - earlier) 1000000.

(** A live connection within its time limits. *)
Definition keeps (now : Z) (e : wg_tcp_socket_list_entry) : bool :=
  match e_temp_peer e with
  | None => false
  | Some peer =>
      negb (dead peer)
      && (e_authenticated e
          || ((ktime_ms_delta now (e_timestamp e) <? WG_TCP_AUTH_IDLE_TIMEOUT_MS)
              && (ktime_ms_delta now (e_created_at e) <? WG_TCP_AUTH_MAX_LIFETIME_MS)))
  end.

Definition claimable (pending_socket : option Z) (cleanup_only : bool) (now : Z)
    (e : wg_tcp_socket_list_entry) : bool :=
  match pending_socket with Some s => e_tcp_socket e =? s | None => true end
  && negb (cleanup_only && e_initializing e)
  && negb (cleanup_only && keeps now e).

Definition untrack (c : connections) : connections :=
  if tcp_tracked_connections c =? 0 then c
  else c{{ tcp_tracked_connections := tcp_tracked_connections c - 1 }}.

Definition wg_claim_tcp_connection (c : connections) (pending_socket : option Z)
    (cleanup_only : bool) (now : Z) : option wg_tcp_socket_list_entry * connections :=
  match remove_first (claimable pending_socket cleanup_only now) (tcp_connection_list c) with
  | None => (None, c)
  | Some (e, l) =>
      (Some (uncounted e),
       (untrack (wg_tcp_release_admission_locked c e)){{ tcp_connection_list := l }})
  end.

(** The loops of [wg_tcp_cleanup_worker] and [wg_destruct_tcp_connection_list];
    the claimed entries are destroyed in order.  Every claim shortens the list,
    so its length is enough fuel. *)
Fixpoint claim_all (fuel : nat) (cleanup_only : bool) (now : Z) (c : connections)
    : list wg_tcp_socket_list_entry * connections :=
  match fuel with
  | O => ([], c)
  | S fuel =>
      match wg_claim_tcp_connection c None cleanup_only now with
      | (None, c) => ([], c)
      | (Some e, c) => let '(es, c) := claim_all fuel cleanup_only now c in (e :: es, c)
      end
  end.

(** The third result: the delay after which the reaper runs again, if it is
    queued again. *)
Definition wg_tcp_cleanup_worker (c : connections) (now : Z) (cleanup_scheduled : bool)
    : list wg_tcp_socket_list_entry * connections * option Z :=
  let '(es, c) := claim_all (S (length (tcp_connection_list c))) true now c in
  (es, c, if isSome (head (tcp_connection_list c)) && cleanup_scheduled
          then Some WG_TCP_CLEANUP_INTERVAL_MS else None).

Definition wg_destruct_tcp_connection_list (c : connections) (now : Z)
    : list wg_tcp_socket_list_entry * connections :=
  claim_all (S (length (tcp_connection_list c))) false now c.
End claim.

(** The list part of [wg_tcp_promote_authenticated_carrier]: the connection
    with this id is authenticated and, unless a newer one has been seen or its
    setup is not finished, taken off the list. *)
Definition claim_for_promotion (c : connections) (now id : Z) (stale : bool)
    : option wg_tcp_socket_list_entry * connections :=
  match remove_first (has_id id) (tcp_connection_list c) with
  | None => (None, c)
  | Some (e, l) =>
      let e' := (uncounted e){{ e_authenticated := true; e_timestamp := now }} in
      let c := wg_tcp_release_admission_locked c e in
      if negb stale && negb (e_initializing e)
      then (Some e', (untrack c){{ tcp_connection_list := l }})
      else (None, c{{ tcp_connection_list :=
                        update_first (has_id id) (λ _, e') (tcp_connection_list c) }})
  end.

(** ** Sequences of operations

    The operations take the list lock, so a run of the system is a sequence of
    them in any order. *)
Inductive conn_op :=
  | OpAdd (fwmark : Z) (alloc_ok owned : bool) (socket peer now : Z)
      (getname : result (Z * sockaddr)) (cleanup1 cleanup2 : bool)
  | OpAuthenticated (now id : Z)
  | OpFinishInit (socket : Z) (established cleanup_scheduled : bool)
  | OpTouch (peer : Z) (is_temp : bool) (now : Z)
  | OpClaim (pending_socket : option Z) (cleanup_only : bool) (now : Z)
  | OpPromote (now id : Z) (stale : bool).

Definition run_op (dead : Z → bool) (c : connections) (op : conn_op) : connections :=
  match op with
  | OpAdd fwmark alloc_ok owned socket peer now getname cleanup1 cleanup2 =>
      add_connections (wg_add_tcp_socket_to_list c fwmark alloc_ok owned socket peer now getname
                         cleanup1 cleanup2)
  | OpAuthenticated now id => wg_tcp_mark_connection_authenticated c now id
  | OpFinishInit socket established sched =>
      (wg_finish_tcp_connection_init dead c socket established sched).1.1
  | OpTouch peer is_temp now => wg_touch_tcp_connection c peer is_temp now
  | OpClaim pending cleanup_only now => (wg_claim_tcp_connection dead c pending cleanup_only now).2
  | OpPromote now id stale => (claim_for_promotion c now id stale).2
  end.

Definition no_connections : connections := mk_connections [] 0 0 0.

(** ** The invariant *)
Record conn_ok (c : connections) : Prop := {
  ok_tracked : tcp_tracked_connections c = zlen (tcp_connection_list c);
  ok_tracked_max : tcp_tracked_connections c ≤ WG_TCP_MAX_TRACKED_CONNECTIONS;
  ok_pending : tcp_pending_connections c = count e_admission_counted (tcp_connection_list c);
  ok_pending_max : tcp_pending_connections c ≤ WG_TCP_MAX_PENDING_CONNECTIONS;
  ok_source : ∀ addr,
    wg_tcp_pending_from_source_locked c addr ≤ WG_TCP_MAX_PENDING_PER_SOURCE;
  ok_ids : StronglySorted Z.lt (e_connection_id <$> tcp_connection_list c);
  ok_ids_range : Forall (λ e, 0 < e_connection_id e ≤ tcp_connection_sequence c)
                   (tcp_connection_list c);
  ok_auth : Forall (λ e, e_authenticated e = true → e_admission_counted e = false)
              (tcp_connection_list c);
}.

(** ** Lemmas on the list operations *)
Section first.
Context {A : Type} (f : A → bool).

Lemma first_split (l : list A) :
  (∃ l1 x l2, l = l1 ++ x :: l2 ∧ f x = true ∧ Forall (λ y, f y = false) l1 ∧
     remove_first f l = Some (x, l1 ++ l2) ∧ ∀ g, update_first f g l = l1 ++ g x :: l2)
  ∨ (Forall (λ y, f y = false) l ∧ remove_first f l = None ∧ ∀ g, update_first f g l = l).
Proof.
  induction l as [|y l IH]; [right; by auto|]. cbn.
  destruct (f y) eqn:Hy.
  - left. exists [], y, l. by auto.
  - destruct IH as [(l1&x&l2&->&Hx&Hl&Hr&Hu)|(Hl&Hr&Hu)]; rewrite Hr.
    + left. exists (y :: l1), x, l2. split_and!; auto. intros g. by rewrite Hu.
    + right. split_and!; auto. intros g. by rewrite Hu.
Qed.

Lemma count_cons x (l : list A) : count f (x :: l) = Z.b2z (f x) + count f l.
Proof. unfold count. rewrite filter_cons. case_decide as H; destruct (f x); cbn in *; zlia. Qed.

Lemma count_app (l1 l2 : list A) : count f (l1 ++ l2) = count f l1 + count f l2.
Proof. unfold count. rewrite filter_app. zlia. Qed.

Lemma count_nonneg (l : list A) : 0 ≤ count f l.
Proof. unfold count. zlia. Qed.

Lemma count_nil : count f [] = 0.
Proof. done. Qed.

Lemma filter_unmatched (l : list A) :
  Forall (λ y, f y = false) l →
  filter (λ y, f y = true) l = [] ∧ filter (λ y, f y = false) l = l.
Proof.
  induction 1 as [|y l Hy _ [IH1 IH2]]; [done|]. rewrite !filter_cons, Hy. cbn. by rewrite IH1, IH2.
Qed.
End first.

Lemma count_ext {A} (f g : A → bool) (l : list A) :
  (∀ x, f x = g x) → count f l = count g l.
Proof. intros H. induction l as [|x l IH]; [done|]. by rewrite !count_cons, H, IH. Qed.

Lemma StronglySorted_middle {A} (R : A → A → Prop) l1 x l2 :
  StronglySorted R (l1 ++ x :: l2) → StronglySorted R (l1 ++ l2).
Proof.
  induction l1 as [|y l1 IH]; cbn; intros H; apply StronglySorted_inv in H as [Hs Hf]; [done|].
  constructor; [by auto|]. apply Forall_app in Hf as [? Hf]. inversion Hf; subst.
  by apply Forall_app.
Qed.

Lemma StronglySorted_snoc (l : list Z) x :
  StronglySorted Z.lt l → Forall (λ y, y < x) l → StronglySorted Z.lt (l ++ [x]).
Proof.
  induction l as [|y l IH]; cbn; intros Hs Hf; [by repeat constructor|].
  apply StronglySorted_inv in Hs as [Hs Hy]. inversion Hf; subst.
  constructor; [by auto|]. apply Forall_app. by auto.
Qed.

Create Rewrite HintDb counts.
#[export] Hint Rewrite @count_app @count_cons @count_nil : counts.
#[export] Hint Resolve count_nonneg : core.

(** ** The operations keep the invariant *)
Lemma conn_ok_empty : conn_ok no_connections.
Proof. split; cbn; try done. constructor. Qed.

(** Replacing an entry by one with the same identity and no larger claim on
    the counters. *)
Lemma conn_ok_replace c l1 e l2 e' pending :
  conn_ok c → tcp_connection_list c = l1 ++ e :: l2 →
  e_connection_id e' = e_connection_id e → e_src_addr e' = e_src_addr e →
  (e_admission_counted e' = true → e_admission_counted e = true) →
  (e_authenticated e' = true → e_admission_counted e' = false) →
  pending = tcp_pending_connections c - Z.b2z (e_admission_counted e)
            + Z.b2z (e_admission_counted e') →
  conn_ok (c{{ tcp_pending_connections := pending;
               tcp_connection_list := l1 ++ e' :: l2 }}).
Proof.
  intros [Ht Htm Hp Hpm Hs Hi Hr Ha] Hl Hid Hsrc Hc Hauth ->.
  rewrite Hl in *. autorewrite with counts in *.
  assert (Z.b2z (e_admission_counted e') ≤ Z.b2z (e_admission_counted e))
    by (destruct (e_admission_counted e'); [by rewrite Hc|destruct (e_admission_counted e); cbn; lia]).
  split; cbn; autorewrite with counts.
  - zlia.
  - done.
  - lia.
  - lia.
  - intros addr. specialize (Hs addr). unfold wg_tcp_pending_from_source_locked in *.
    cbn. rewrite Hl in Hs. autorewrite with counts in *. unfold counted_from in *.
    rewrite Hsrc. destruct (wg_sockaddrs_same_host addr (e_src_addr e));
      rewrite ?andb_true_r, ?andb_false_r in *; lia.
  - by rewrite fmap_app, fmap_cons, Hid, <-fmap_cons, <-fmap_app.
  - rewrite !Forall_app, !Forall_cons in *. by rewrite Hid.
  - rewrite !Forall_app, !Forall_cons in *. by naive_solver.
Qed.

Lemma conn_ok_remove c l1 e l2 pending tracked :
  conn_ok c → tcp_connection_list c = l1 ++ e :: l2 →
  pending = tcp_pending_connections c - Z.b2z (e_admission_counted e) →
  tracked = tcp_tracked_connections c - 1 →
  conn_ok (c{{ tcp_pending_connections := pending; tcp_tracked_connections := tracked;
               tcp_connection_list := l1 ++ l2 }}).
Proof.
  intros [Ht Htm Hp Hpm Hs Hi Hr Ha] Hl -> ->.
  rewrite Hl in *. autorewrite with counts in *.
  assert (0 ≤ Z.b2z (e_admission_counted e)) by (destruct (e_admission_counted e); cbn; lia).
  split; cbn; autorewrite with counts.
  - zlia.
  - lia.
  - lia.
  - lia.
  - intros addr. specialize (Hs addr). unfold wg_tcp_pending_from_source_locked in *.
    cbn. rewrite Hl in Hs. autorewrite with counts in *.
    destruct (counted_from addr e); cbn in *; lia.
  - rewrite fmap_app, fmap_cons in Hi. rewrite fmap_app. by eapply StronglySorted_middle.
  - rewrite !Forall_app, !Forall_cons in *. by naive_solver.
  - rewrite !Forall_app, !Forall_cons in *. by naive_solver.
Qed.

Lemma release_pending c l1 e l2 :
  conn_ok c → tcp_connection_list c = l1 ++ e :: l2 →
  wg_tcp_release_admission_locked c e
  = c{{ tcp_pending_connections := tcp_pending_connections c - Z.b2z (e_admission_counted e) }}.
Proof.
  intros Hok Hl. pose proof (ok_pending _ Hok) as Hp. rewrite Hl in Hp.
  autorewrite with counts in Hp. unfold wg_tcp_release_admission_locked.
  pose proof (count_nonneg e_admission_counted l1). pose proof (count_nonneg e_admission_counted l2).
  destruct (e_admission_counted e); cbn in *.
  - by rewrite (proj2 (Z.eqb_neq _ 0)) by lia.
  - rewrite Z.sub_0_r. by destruct c.
Qed.

Lemma untrack_eq c l1 e l2 :
  conn_ok c → tcp_connection_list c = l1 ++ e :: l2 → tcp_tracked_connections c ≠ 0.
Proof. intros Hok Hl. rewrite (ok_tracked _ Hok), Hl. zlia. Qed.

Lemma release_list c e :
  tcp_connection_list (wg_tcp_release_admission_locked c e) = tcp_connection_list c.
Proof. unfold wg_tcp_release_admission_locked. by repeat case_if. Qed.

Lemma claim_sequence c e l :
  tcp_connection_sequence c ≤ tcp_connection_sequence
    ((untrack (wg_tcp_release_admission_locked c e)){{ tcp_connection_list := l }})
  ≤ tcp_connection_sequence c + 1.
Proof. unfold untrack, wg_tcp_release_admission_locked. repeat case_if; cbn; lia. Qed.

Lemma claim_entry_ok c l1 e l2 :
  conn_ok c → tcp_connection_list c = l1 ++ e :: l2 →
  conn_ok ((untrack (wg_tcp_release_admission_locked c e)){{ tcp_connection_list := l1 ++ l2 }}).
Proof.
  intros Hok Hl. rewrite (release_pending _ _ _ _ Hok Hl). unfold untrack. cbn.
  rewrite (proj2 (Z.eqb_neq _ 0)) by (by eapply untrack_eq).
  by eapply conn_ok_remove.
Qed.

Lemma authenticate_entry_ok c l1 e l2 now :
  conn_ok c → tcp_connection_list c = l1 ++ e :: l2 →
  conn_ok ((wg_tcp_release_admission_locked c e){{ tcp_connection_list :=
             l1 ++ (uncounted e){{ e_authenticated := true; e_timestamp := now }} :: l2 }}).
Proof.
  intros Hok Hl. rewrite (release_pending _ _ _ _ Hok Hl).
  eapply conn_ok_replace; try done; cbn; lia.
Qed.

(** An update that touches neither identity nor counters. *)
Lemma conn_ok_update c f g :
  conn_ok c →
  (∀ e, e_connection_id (g e) = e_connection_id e ∧ e_src_addr (g e) = e_src_addr e ∧
        e_admission_counted (g e) = e_admission_counted e ∧
        e_authenticated (g e) = e_authenticated e) →
  conn_ok (c{{ tcp_connection_list := update_first f g (tcp_connection_list c) }}).
Proof.
  intros Hok Hg. destruct (first_split f (tcp_connection_list c))
    as [(l1&e&l2&Hl&_&_&_&Hu)|(_&_&Hu)]; rewrite Hu; [|by destruct c].
  destruct (Hg e) as (Hid&Hsrc&Hc&Ha).
  replace (c{{ tcp_connection_list := _ }}) with
    (c{{ tcp_pending_connections := tcp_pending_connections c;
         tcp_connection_list := l1 ++ g e :: l2 }}) by (by destruct c).
  eapply conn_ok_replace; try done; rewrite ?Hc, ?Ha; [done| |lia].
  pose proof (ok_auth _ Hok) as Hf. rewrite Hl, Forall_app, Forall_cons in Hf. by naive_solver.
Qed.

Lemma same_host_cong a b x :
  wg_sockaddrs_same_host a b = true → wg_sockaddrs_same_host a x = wg_sockaddrs_same_host b x.
Proof.
  intros H. apply eq_true_iff_eq. split; intros Hx.
  - apply (sockaddrs_same_host_trans b a x); [by rewrite sockaddrs_same_host_sym|done].
  - by apply (sockaddrs_same_host_trans a b x).
Qed.

(** Appending a new counted entry below the limits. *)
Lemma conn_ok_append c e :
  conn_ok c → e_admission_counted e = true → e_authenticated e = false →
  Forall (λ e', e_connection_id e' < e_connection_id e) (tcp_connection_list c) →
  0 < e_connection_id e ≤ tcp_connection_sequence c →
  tcp_tracked_connections c < WG_TCP_MAX_TRACKED_CONNECTIONS →
  tcp_pending_connections c < WG_TCP_MAX_PENDING_CONNECTIONS →
  wg_tcp_pending_from_source_locked c (e_src_addr e) < WG_TCP_MAX_PENDING_PER_SOURCE →
  conn_ok (c{{ tcp_connection_list := tcp_connection_list c ++ [e];
               tcp_pending_connections := tcp_pending_connections c + 1;
               tcp_tracked_connections := tcp_tracked_connections c + 1 }}).
Proof.
  intros [Ht Htm Hp Hpm Hs Hi Hr Ha] Hc Hau Hnew Hid Hlt Hlp Hls.
  split; cbn; autorewrite with counts; rewrite ?Hc; cbn [Z.b2z].
  - zlia.
  - lia.
  - lia.
  - lia.
  - intros addr. specialize (Hs addr). unfold wg_tcp_pending_from_source_locked in *. cbn.
    autorewrite with counts. unfold counted_from at 2. rewrite Hc. cbn [andb].
    destruct (wg_sockaddrs_same_host addr (e_src_addr e)) eqn:Hh; cbn [Z.b2z]; [|lia].
    rewrite (count_ext _ (counted_from (e_src_addr e))); [lia|].
    intros x. unfold counted_from. f_equal. by apply same_host_cong.
  - rewrite fmap_app. apply StronglySorted_snoc; [done|]. by rewrite Forall_fmap.
  - rewrite Forall_app, Forall_singleton. by split.
  - rewrite Forall_app, Forall_singleton. split; [done|]. by rewrite Hau.
Qed.

Lemma add_ok c fwmark alloc_ok owned socket peer now getname cleanup1 cleanup2 :
  conn_ok c → 0 ≤ tcp_connection_sequence c < 2 ^ 64 - 1 →
  let c' := add_connections (wg_add_tcp_socket_to_list c fwmark alloc_ok owned socket peer now
              getname cleanup1 cleanup2) in
  conn_ok c' ∧ tcp_connection_sequence c ≤ tcp_connection_sequence c'
                 ≤ tcp_connection_sequence c + 1.
Proof.
  intros Hok Hseq. unfold wg_add_tcp_socket_to_list.
  destruct alloc_ok, owned; cbn; try (split; [done|lia]).
  assert (Hid : u64 (tcp_connection_sequence c + 1) = tcp_connection_sequence c + 1)
    by (apply wrap_small; lia).
  rewrite Hid. pose proof Hok as [Ht Htm Hp Hpm Hs Hi Hr Ha].
  assert (conn_ok (c{{ tcp_connection_sequence := tcp_connection_sequence c + 1 }})) as Hok'
    by (split; try done; eapply Forall_impl; [exact Hr|cbn; lia]).
  destruct getname as [[len addr]|e]; cbn; [|split; [done|lia]].
  destruct (wg_sockaddr_length_valid addr len), cleanup1; cbn; try (split; [done|lia]).
  destruct (_ || _) eqn:Hcap; cbn; (split; [|lia]); [done|].
  rewrite !orb_false_iff, !Z.leb_gt in Hcap. destruct Hcap as [[[_ Hlt] Hlp] Hls].
  pose proof (count_nonneg e_admission_counted (tcp_connection_list c)).
  unfold WG_TCP_MAX_TRACKED_CONNECTIONS, WG_TCP_MAX_PENDING_CONNECTIONS in *.
  unfold u32. rewrite !(wrap_small 32) by (rewrite ?Hp in *; rewrite ?Ht in *; zlia).
  apply (conn_ok_append _ _ Hok'); try done; [|cbn; lia].
  cbn. eapply Forall_impl; [exact Hr|cbn; lia].
Qed.

Lemma run_op_ok dead c op :
  conn_ok c → 0 ≤ tcp_connection_sequence c < 2 ^ 64 - 1 →
  conn_ok (run_op dead c op) ∧
  tcp_connection_sequence c ≤ tcp_connection_sequence (run_op dead c op)
    ≤ tcp_connection_sequence c + 1.
Proof.
  intros Hok Hseq. destruct op; cbn [run_op].
  - by apply add_ok.
  - unfold wg_tcp_mark_connection_authenticated. case_if; [by split; [|lia]|].
    destruct (first_split (has_id id) (tcp_connection_list c))
      as [(l1&e&l2&Hl&_&_&Hr&Hu)|(_&Hr&_)]; rewrite Hr; [|by split; [|lia]].
    rewrite Hu. split; [by eapply authenticate_entry_ok|].
    rewrite (release_pending _ _ _ _ Hok Hl). cbn. lia.
  - unfold wg_finish_tcp_connection_init.
    destruct (remove_first _ _) as [[e l]|]; cbn; [|by split; [|lia]].
    split; [by apply conn_ok_update|lia].
  - unfold wg_touch_tcp_connection. destruct is_temp; cbn; [|by split; [|lia]].
    split; [by apply conn_ok_update|lia].
  - unfold wg_claim_tcp_connection.
    destruct (first_split (claimable dead pending_socket cleanup_only now) (tcp_connection_list c))
      as [(l1&e&l2&Hl&_&_&Hr&_)|(_&Hr&_)]; rewrite Hr; cbn; [|by split; [|lia]].
    split; [by eapply claim_entry_ok|]. apply (claim_sequence c e (l1 ++ l2)).
  - unfold claim_for_promotion.
    destruct (first_split (has_id id) (tcp_connection_list c))
      as [(l1&e&l2&Hl&_&_&Hr&Hu)|(_&Hr&_)]; rewrite Hr; cbn; [|by split; [|lia]].
    destruct (negb stale && negb (e_initializing e)); cbn.
    + split; [by eapply claim_entry_ok|]. apply (claim_sequence c e (l1 ++ l2)).
    + rewrite (release_list _ _), Hu. split; [by eapply authenticate_entry_ok|].
      rewrite (release_pending _ _ _ _ Hok Hl). cbn. lia.
Qed.

Lemma run_ops_ok dead c ops :
  conn_ok c → 0 ≤ tcp_connection_sequence c → tcp_connection_sequence c + zlen ops < 2 ^ 64 →
  conn_ok (foldl (run_op dead) c ops).
Proof.
  revert c. induction ops as [|op ops IH]; intros c Hok Hseq Hlen; [done|].
  cbn [foldl]. autorewrite with zlen in Hlen. pose proof (zlen_nonneg ops).
  destruct (run_op_ok dead c op) as [Hok' Hs]; [done|lia|]. apply IH; [done|lia|lia].
Qed.


Definition sample_ops : list conn_op :=
  [OpAdd 0 true true 1 11 0 (Ok (16, Sa4 4000 167772161)) true true;
   OpAdd 0 true true 2 12 5 (Ok (16, Sa4 4001 167772161)) true true;
   OpFinishInit 1 true true; OpAuthenticated 9 1; OpPromote 10 1 false;
   OpClaim (Some 2) false 11].


(** ** The reaper *)
Section reaper.
Context (dead : Z → bool).

Definition reapable (now : Z) (e : wg_tcp_socket_list_entry) : bool :=
  negb (e_initializing e) && negb (keeps dead now e).

Lemma claim_all_spec cleanup_only now fuel c :
  (length (tcp_connection_list c) < fuel)%nat → conn_ok c →
  let f e := claimable dead None cleanup_only now e in
  let '(es, c') := claim_all dead fuel cleanup_only now c in
  es = uncounted <$> filter (λ e, f e = true) (tcp_connection_list c) ∧
  tcp_connection_list c' = filter (λ e, f e = false) (tcp_connection_list c) ∧ conn_ok c'.
Proof.
  revert c. induction fuel as [|fuel IH]; intros c Hlen Hok; [lia|]. cbn zeta.
  cbn [claim_all]. unfold wg_claim_tcp_connection.
  destruct (first_split (claimable dead None cleanup_only now) (tcp_connection_list c))
    as [(l1&e&l2&Hl&He&Hf&Hr&_)|(Hf&Hr&_)]; rewrite Hr.
  - pose proof (claim_entry_ok _ _ _ _ Hok Hl) as Hok'.
    specialize (IH ((untrack (wg_tcp_release_admission_locked c e)){{ tcp_connection_list := l1 ++ l2 }})).
    rewrite Hl, length_app in Hlen. cbn in Hlen, IH. rewrite length_app in IH.
    specialize (IH ltac:(lia) Hok'). destruct (claim_all _ _ _ _ _) as [es c'].
    destruct IH as (->&->&?). rewrite Hl, !filter_app, !filter_cons, He.
    destruct (filter_unmatched _ _ Hf) as [-> _]. by cbn.
  - destruct (filter_unmatched _ _ Hf) as [-> ->]. done.
Qed.

Lemma list_filter_none_claimed now (l : list wg_tcp_socket_list_entry) :
  filter (λ e, claimable dead None false now e = false) l = [].
Proof. induction l as [|e l IH]; [done|]. by rewrite filter_cons, decide_False. Qed.

Lemma list_filter_all_claimed now (l : list wg_tcp_socket_list_entry) :
  filter (λ e, claimable dead None false now e = true) l = l.
Proof. induction l as [|e l IH]; [done|]. rewrite filter_cons, decide_True by done. by rewrite IH. Qed.

(** One pass of the reaper terminates, destroys exactly the entries whose
    setup is finished and that are dead, or unauthenticated and past the idle
    or the lifetime limit, in list order and with their reservation given back,
    keeps exactly the others in their order with the counters consistent, and
    is queued again, after one second, if and only if entries remain and the
    device is running. *)
Theorem reaper_pass c now cleanup_scheduled :
  conn_ok c →
  let '(es, c', again) := wg_tcp_cleanup_worker dead c now cleanup_scheduled in
  es = uncounted <$> filter (λ e, reapable now e = true) (tcp_connection_list c) ∧
  tcp_connection_list c' = filter (λ e, reapable now e = false) (tcp_connection_list c) ∧
  conn_ok c' ∧
  (again = Some 1000 ↔ tcp_connection_list c' ≠ [] ∧ cleanup_scheduled = true).
Proof.
  intros Hok. unfold wg_tcp_cleanup_worker.
  pose proof (claim_all_spec true now (S (length (tcp_connection_list c))) c ltac:(lia) Hok) as H.
  cbn zeta in H. destruct (claim_all _ _ _ _ _) as [es c']. destruct H as (->&->&?).
  split_and!; try done. destruct (filter _ _), cleanup_scheduled; naive_solver.
Qed.

(** C24: Tearing the device down claims every tracked connection exactly once,
    in list order, and leaves an empty list with both counters at zero. *)
Theorem destruct_claims_all c now :
  conn_ok c →
  let '(es, c') := wg_destruct_tcp_connection_list dead c now in
  es = uncounted <$> tcp_connection_list c ∧ tcp_connection_list c' = [] ∧
  tcp_tracked_connections c' = 0 ∧ tcp_pending_connections c' = 0.
Proof.
  intros Hok. unfold wg_destruct_tcp_connection_list.
  pose proof (claim_all_spec false now (S (length (tcp_connection_list c))) c ltac:(lia) Hok) as H.
  cbn zeta in H. destruct (claim_all _ _ _ _ _) as [es c']. destruct H as (->&Hl&Hok').
  rewrite list_filter_none_claimed in Hl. rewrite (ok_tracked _ Hok'), (ok_pending _ Hok'), Hl.
  by rewrite list_filter_all_claimed.
Qed.
End reaper.

(** Four connections at time 40 s: one silent since 20 s, one active at 36 s,
    one authenticated long ago and one still being set up. *)
Definition sample_connections : connections :=
  mk_connections
    [mk_entry 1 (Sa4 4000 1) (Some 11) 20000000000 20000000000 1 false true false;
     mk_entry 2 (Sa4 4001 1) (Some 12) 30000000000 36000000000 2 false true false;
     mk_entry 3 (Sa4 4002 2) (Some 13) 0 0 3 true false false;
     mk_entry 4 (Sa4 4003 3) (Some 14) 0 0 4 false true true] 3 4 4.

Lemma sample_source addr :
  wg_tcp_pending_from_source_locked sample_connections addr ≤ WG_TCP_MAX_PENDING_PER_SOURCE.
Proof.
  unfold wg_tcp_pending_from_source_locked, sample_connections. cbn [tcp_connection_list].
  autorewrite with counts. repeat destruct (counted_from _ _); cbn; done.
Qed.

Lemma sample_connections_ok : conn_ok sample_connections.
Proof.
  split; [done|done|done|done|exact sample_source| | |]; cbn; repeat (constructor; cbn; try lia; try done).
Qed.

Lemma reaper_pass_witness :
  conn_ok sample_connections ∧
  let '(es, c', again) := wg_tcp_cleanup_worker (λ _, false) sample_connections 40000000000 true in
  e_connection_id <$> es = [1] ∧ e_connection_id <$> tcp_connection_list c' = [2; 3; 4] ∧
  conn_ok c' ∧ again = Some 1000.
Proof.
  split; [exact sample_connections_ok|].
  pose proof (reaper_pass (λ _, false) sample_connections 40000000000 true sample_connections_ok)
    as H.
  destruct (wg_tcp_cleanup_worker _ _ _ _) as [[es c'] again].
  destruct H as (->&Hl&Hok&Ha). rewrite Hl. split; [reflexivity|]. split; [reflexivity|].
  split; [exact Hok|]. apply Ha. rewrite Hl. by split.
Defined.

Lemma destruct_claims_all_witness :
  conn_ok sample_connections ∧
  let '(es, c') := wg_destruct_tcp_connection_list (λ _, false) sample_connections 0 in
  e_connection_id <$> es = [1; 2; 3; 4] ∧ tcp_connection_list c' = [] ∧
  tcp_tracked_connections c' = 0 ∧ tcp_pending_connections c' = 0.
Proof.
  split; [exact sample_connections_ok|].
  pose proof (destruct_claims_all (λ _, false) sample_connections 0 sample_connections_ok) as H.
  destruct (wg_destruct_tcp_connection_list _ _ _) as [es c'].
  destruct H as (->&?&?&?). by split_and!.
Defined.

(** ** The rate of accepts from one host *)
Lemma accept_source_matches_set addr now a :
  wg_tcp_accept_source_matches (wg_tcp_accept_source_set a now) addr
  = wg_sockaddrs_same_host addr a.
Proof.
  destruct a as [|ap aa|ap aa asc], addr as [|bp ba|bp ba bsc]; try done; cbn.
  - apply Z.eqb_sym.
  - rewrite (Z.eqb_sym ba aa). destruct (Z.eqb_spec aa ba) as [->|]; [|done]. cbn.
    destruct (ipv6_link_local ba); cbn; [apply Z.eqb_sym|done].
Qed.

Lemma accept_source_matches_cong s a b :
  wg_tcp_accept_source_matches s a = true →
  wg_tcp_accept_source_matches s b = true → wg_sockaddrs_same_host a b = true.
Proof.
  unfold wg_tcp_accept_source_matches. destruct (src_address s), a, b; try done; cbn;
    rewrite ?andb_true_iff, ?orb_true_iff, ?negb_true_iff, ?Z.eqb_eq; [congruence|].
  intros [-> ?] [-> ?]. split; [done|]. destruct (ipv6_link_local _); naive_solver congruence.
Qed.

Lemma slot_empty_no_match s addr :
  slot_empty s = true → wg_tcp_accept_source_matches s addr = false.
Proof. unfold slot_empty, wg_tcp_accept_source_matches. by destruct (src_address s). Qed.

Lemma scan_sources_spec l addr i empty oldest :
  match scan_sources l addr i empty oldest with
  | ScanFound j => ∃ k s, j = (i + k)%nat ∧ l !! k = Some s ∧
                     wg_tcp_accept_source_matches s addr = true
  | ScanMiss e' _ =>
      (∀ k s, l !! k = Some s → wg_tcp_accept_source_matches s addr = false) ∧
      match empty with
      | Some _ => e' = empty
      | None => match e' with
                | Some j => ∃ k s, j = (i + k)%nat ∧ l !! k = Some s ∧ slot_empty s = true
                | None => ∀ k s, l !! k = Some s → slot_empty s = false
                end
      end
  end.
Proof.
  revert i empty oldest. induction l as [|c l IH]; intros i empty oldest; cbn.
  - split; [done|]. by destruct empty.
  - destruct (slot_empty c) eqn:He; [|destruct (wg_tcp_accept_source_matches c addr) eqn:Hm].
    + specialize (IH (S i) (match empty with None => Some i | _ => empty end) oldest).
      destruct (scan_sources _ _ _ _ _) as [j|e' o'].
      * destruct IH as (k&s&->&?&?). exists (S k), s. by split_and!; [lia| |].
      * destruct IH as [Hn IH]. split.
        { intros [|k] s; cbn; [|by apply Hn]. intros [= <-]. by apply slot_empty_no_match. }
        destruct empty; [done|]. rewrite IH. exists O, c. by split_and!; [lia| |].
    + exists O, c. by split_and!; [lia| |].
    + set (o := if _ : bool then _ else _). specialize (IH (S i) empty o).
      destruct (scan_sources _ _ _ _ _) as [j|e' o'].
      * destruct IH as (k&s&->&?&?). exists (S k), s. by split_and!; [lia| |].
      * destruct IH as [Hn IH]. split; [by intros [|k] s; cbn; [intros [= <-]|apply Hn]|].
        destruct empty; [done|]. destruct e' as [j|].
        { destruct IH as (k&s&->&?&?). exists (S k), s. by split_and!; [lia| |]. }
        by intros [|k] s; cbn; [intros [= <-]|apply IH].
Qed.

Section rate_theorems.
Context (WG_TCP_ACCEPT_WINDOW : Z).

(** The number of calls that come from the host of [addr] and are allowed. *)
Fixpoint accepted_from (addr : sockaddr) (table : list wg_tcp_accept_source)
    (calls : list (Z * sockaddr)) : Z :=
  match calls with
  | [] => 0
  | (now, a) :: calls =>
      let '(allowed, table) := wg_tcp_accept_rate_allow WG_TCP_ACCEPT_WINDOW table now a in
      Z.b2z (allowed && wg_sockaddrs_same_host addr a) + accepted_from addr table calls
  end.

Definition from_host (addr : sockaddr) (call : Z * sockaddr) : bool :=
  wg_sockaddrs_same_host addr call.2.

(** Slot [i] is the only one for the host and has seen [n] accepts since [t0]. *)
Definition host_slot (addr : sockaddr) (t0 n : Z) (i : nat)
    (table : list wg_tcp_accept_source) : Prop :=
  (∃ s, table !! i = Some s ∧ wg_tcp_accept_source_matches s addr = true ∧
        window_started s = t0 ∧ accepts s = n) ∧
  (∀ j s, table !! j = Some s → j ≠ i → wg_tcp_accept_source_matches s addr = false).

Definition in_window (addr : sockaddr) (t0 : Z) (call : Z * sockaddr) : Prop :=
  from_host addr call = true → time_after_eq call.1 (u64 (t0 + WG_TCP_ACCEPT_WINDOW)) = false.

Lemma count_insert {A} (f : A → bool) (l : list A) j x y :
  l !! j = Some x → count f (<[j := y]> l) = count f l - Z.b2z (f x) + Z.b2z (f y).
Proof.
  intros H. rewrite <- (take_drop_middle _ _ _ H) at 2.
  rewrite insert_take_drop by (by eapply lookup_lt_Some). autorewrite with counts. lia.
Qed.

Lemma accept_source_matches_host s a b :
  wg_sockaddrs_same_host a b = true →
  wg_tcp_accept_source_matches s a = wg_tcp_accept_source_matches s b.
Proof.
  rewrite sockaddrs_same_host_spec. unfold wg_tcp_accept_source_matches.
  destruct (src_address s), a as [| |ap aa asc], b as [| |bp ba bsc]; try done; [by intros ->|].
  intros [-> Hs]. destruct (ipv6_link_local ba); [by rewrite Hs|done].
Qed.

Lemma count_pos_empty (table : list wg_tcp_accept_source) :
  0 < count slot_empty table → ¬ (∀ k s, table !! k = Some s → slot_empty s = false).
Proof.
  intros Hc Hall. apply Z.lt_nge in Hc. apply Hc. clear Hc.
  induction table as [|s table IH]; [done|]. rewrite count_cons, (Hall O s) by done.
  apply IH. intros k. exact (Hall (S k)).
Qed.

(** A call from a host that has no slot takes an empty one, if there is one. *)
Lemma rate_allow_new table now a :
  a ≠ SaUnspec → 0 < count slot_empty table →
  (∀ k s, table !! k = Some s → wg_tcp_accept_source_matches s a = false) →
  ∃ j s, table !! j = Some s ∧ slot_empty s = true ∧
    wg_tcp_accept_rate_allow WG_TCP_ACCEPT_WINDOW table now a
    = (true, <[j := wg_tcp_accept_source_set a now]> table).
Proof.
  intros Ha Hc Hn. pose proof (scan_sources_spec table a 0 None None) as Hs.
  unfold wg_tcp_accept_rate_allow.
  destruct (scan_sources table a 0 None None) as [j|e o] eqn:Hscan.
  - destruct Hs as (k&s&_&Hk&Hm). by rewrite (Hn _ _ Hk) in Hm.
  - destruct Hs as [_ He]. destruct e as [j|]; [|by apply count_pos_empty in Hc].
    destruct He as (k&s&->&Hk&He). exists k, s. by destruct a.
Qed.

(** A call from a host that has a slot. *)
Lemma rate_allow_found table now a k s :
  table !! k = Some s → wg_tcp_accept_source_matches s a = true →
  (∀ j s', table !! j = Some s' → wg_tcp_accept_source_matches s' a = true → j = k) →
  wg_tcp_accept_rate_allow WG_TCP_ACCEPT_WINDOW table now a =
    if time_after_eq now (u64 (window_started s + WG_TCP_ACCEPT_WINDOW))
    then (true, <[k := wg_tcp_accept_source_set a now]> table)
    else if WG_TCP_ACCEPT_BURST <=? accepts s
    then (false, <[k := s{{ last_seen := now }}]> table)
    else (true, <[k := s{{ accepts := u16 (accepts s + 1); last_seen := now }}]> table).
Proof.
  intros Hk Hm Hu. pose proof (scan_sources_spec table a 0 None None) as Hs.
  unfold wg_tcp_accept_rate_allow.
  destruct (scan_sources table a 0 None None) as [j|e o] eqn:Hscan.
  - destruct Hs as (k'&s'&->&Hk'&Hm'). apply (Hu _ _ Hk') in Hm' as ->. rewrite Nat.add_0_l, Hk.
    unfold wg_tcp_accept_source_matches in Hm. by destruct a, (src_address s).
  - destruct Hs as [Hn _]. by rewrite (Hn _ _ Hk) in Hm.
Qed.

(** Whatever the call, at most one slot changes: the one of the host, or an
    empty one while there is one. *)
Lemma rate_allow_shape table now a :
  0 < count slot_empty table →
  (wg_tcp_accept_rate_allow WG_TCP_ACCEPT_WINDOW table now a).2 = table ∨
  ∃ j s s', table !! j = Some s ∧
    (slot_empty s = true ∨ wg_tcp_accept_source_matches s a = true) ∧
    wg_tcp_accept_source_matches s' a = true ∧
    (wg_tcp_accept_rate_allow WG_TCP_ACCEPT_WINDOW table now a).2 = <[j := s']> table.
Proof.
  intros Hc. destruct (decide (a = SaUnspec)) as [->|Ha]; [by left|]. right.
  pose proof (scan_sources_spec table a 0 None None) as Hs.
  assert (Hset : wg_tcp_accept_source_matches (wg_tcp_accept_source_set a now) a = true)
    by (rewrite accept_source_matches_set; by apply sockaddrs_same_host_refl).
  destruct (scan_sources table a 0 None None) as [j|e o] eqn:Hscan.
  - destruct Hs as (k&s&->&Hk&Hm). exists k, s.
    assert (∃ s', wg_tcp_accept_source_matches s' a = true ∧
      (wg_tcp_accept_rate_allow WG_TCP_ACCEPT_WINDOW table now a).2 = <[k := s']> table)
      as (s'&?&?); [|exists s'; by auto].
    unfold wg_tcp_accept_rate_allow. rewrite Hscan, Nat.add_0_l, Hk. destruct a; [done| |];
      repeat case_if; eexists; (split; [|reflexivity]); done.
  - destruct Hs as [Hn _]. destruct (rate_allow_new table now a Ha Hc Hn) as (j&s&?&?&->).
    exists j, s, (wg_tcp_accept_source_set a now). by auto.
Qed.

Lemma host_slot_own table addr t0 n i now a :
  host_slot addr t0 n i table → 0 ≤ n ≤ WG_TCP_ACCEPT_BURST →
  wg_sockaddrs_same_host addr a = true → in_window addr t0 (now, a) →
  ∃ table', wg_tcp_accept_rate_allow WG_TCP_ACCEPT_WINDOW table now a
              = (n <? WG_TCP_ACCEPT_BURST, table') ∧
    host_slot addr t0 (Z.min (n + 1) WG_TCP_ACCEPT_BURST) i table' ∧
    count slot_empty table' = count slot_empty table.
Proof.
  intros [(s&Hi&Hm&Ht&Hn) Hu] Hr Ha Hw. unfold WG_TCP_ACCEPT_BURST in *.
  assert (Hi' := lookup_lt_Some _ _ _ Hi).
  rewrite (rate_allow_found table now a i s); [|done| |].
  2: by rewrite <- (accept_source_matches_host _ _ _ Ha).
  2: { intros j s' Hj Hm'. destruct (decide (j = i)) as [|Hne]; [done|].
       rewrite <- (accept_source_matches_host _ _ _ Ha), (Hu j s' Hj Hne) in Hm'. done. }
  specialize (Hw Ha). cbn [fst] in Hw. rewrite Ht, Hw, Hn. unfold WG_TCP_ACCEPT_BURST.
  assert (Hslot : ∀ s', src_address s' = src_address s → window_started s' = t0 →
    host_slot addr t0 (accepts s') i (<[i := s']> table) ∧
    count slot_empty (<[i := s']> table) = count slot_empty table).
  { intros s' Hsrc Ht'. split; [split|].
    - exists s'. rewrite list_lookup_insert_eq by done. split_and!; try done.
      unfold wg_tcp_accept_source_matches in *. by rewrite Hsrc.
    - intros j s'' Hj Hne. rewrite list_lookup_insert_ne in Hj by done. by eapply Hu.
    - rewrite (count_insert _ _ _ s) by done. unfold slot_empty. rewrite Hsrc. lia. }
  destruct (Z.leb_spec 32 n); [rewrite (proj2 (Z.ltb_ge n 32)) by lia|
                               rewrite (proj2 (Z.ltb_lt n 32)) by lia];
    (eexists; split; [reflexivity|]).
  - rewrite Z.min_r by lia. replace 32 with (accepts s) by lia.
    pose (s' := s{{ last_seen := now }}). exact (Hslot s' eq_refl Ht).
  - unfold u16. rewrite wrap_small, Z.min_l by lia.
    pose (s' := s{{ accepts := n + 1; last_seen := now }}). exact (Hslot s' eq_refl Ht).
Qed.

Lemma host_slot_other table addr t0 n i now a :
  host_slot addr t0 n i table → wg_sockaddrs_same_host addr a = false →
  0 < count slot_empty table →
  let table' := (wg_tcp_accept_rate_allow WG_TCP_ACCEPT_WINDOW table now a).2 in
  host_slot addr t0 n i table' ∧ count slot_empty table - 1 ≤ count slot_empty table'.
Proof.
  intros [(s&Hi&Hm&Ht&Hn) Hu] Ha Hc. cbn zeta.
  destruct (rate_allow_shape table now a Hc) as [->|(j&sj&s'&Hj&Hor&Hm'&->)].
  - split; [|lia]. split; [by exists s|done].
  - assert (Hs' : wg_tcp_accept_source_matches s' addr = false).
    { apply not_true_iff_false. intros Hb. by rewrite (accept_source_matches_cong _ _ _ Hb Hm') in Ha. }
    assert (Hne : j ≠ i).
    { intros ->. rewrite Hj in Hi. apply (inj Some) in Hi as <-. destruct Hor as [He|Hb].
      - by rewrite (slot_empty_no_match _ _ He) in Hm.
      - by rewrite (accept_source_matches_cong _ _ _ Hm Hb) in Ha. }
    split; [split|].
    + exists s. by rewrite list_lookup_insert_ne.
    + intros k sk Hk Hki. apply list_lookup_insert_Some in Hk as [(->&->&_)|[_ Hk]]; [done|].
      by eapply Hu.
    + rewrite (count_insert _ _ _ sj) by done. destruct (slot_empty sj), (slot_empty s'); cbn; lia.
Qed.

Lemma accepted_from_slot addr t0 n i table calls :
  host_slot addr t0 n i table → 0 ≤ n ≤ WG_TCP_ACCEPT_BURST →
  Forall (in_window addr t0) calls → zlen calls ≤ count slot_empty table →
  accepted_from addr table calls = Z.min (count (from_host addr) calls) (WG_TCP_ACCEPT_BURST - n).
Proof.
  revert n table. unfold WG_TCP_ACCEPT_BURST.
  induction calls as [|[now a] calls IH]; intros n table Hs Hn Hw Hc; [rewrite count_nil; cbn [accepted_from]; lia|].
  rewrite Forall_cons in Hw. destruct Hw as [Hw1 Hw2]. autorewrite with zlen in Hc.
  pose proof (zlen_nonneg calls). rewrite count_cons. unfold from_host at 1. cbn [accepted_from snd].
  pose proof (count_nonneg (from_host addr) calls).
  destruct (wg_sockaddrs_same_host addr a) eqn:Ha.
  - destruct (host_slot_own table addr t0 n i now a Hs Hn Ha Hw1) as (t'&->&Hs'&Hc').
    unfold WG_TCP_ACCEPT_BURST in *. rewrite (IH _ _ Hs') by (try done; lia).
    destruct (Z.ltb_spec n 32); cbn [andb Z.b2z]; lia.
  - destruct (host_slot_other table addr t0 n i now a Hs Ha ltac:(lia)) as [Hs' Hc'].
    destruct (wg_tcp_accept_rate_allow _ _ _ _) as [ok t']. cbn in Hs', Hc'.
    rewrite andb_false_r, (IH _ _ Hs') by (try done; lia). cbn [Z.b2z]. lia.
Qed.

(** C25: While the source table has an empty slot for every call, a host whose
    first connection arrives at time [t0] is allowed exactly 32 connections, or
    all of them if there are fewer, among the calls made before its window of
    one [WG_TCP_ACCEPT_WINDOW] ends, however the calls of other hosts are
    interleaved and whatever ports it connects from. *)
Theorem accept_rate_exact table t0 addr calls :
  addr ≠ SaUnspec →
  Forall (λ s, wg_tcp_accept_source_matches s addr = false) table →
  Forall (in_window addr t0) calls →
  zlen calls < count slot_empty table →
  accepted_from addr table ((t0, addr) :: calls)
  = Z.min (1 + count (from_host addr) calls) WG_TCP_ACCEPT_BURST.
Proof.
  intros Ha Hn Hw Hc. pose proof (zlen_nonneg calls).
  rewrite Forall_lookup in Hn.
  destruct (rate_allow_new table t0 addr Ha ltac:(lia) Hn) as (j&s&Hj&He&Heq).
  cbn [accepted_from]. rewrite Heq, sockaddrs_same_host_refl by done.
  rewrite (accepted_from_slot addr t0 1 j); [unfold WG_TCP_ACCEPT_BURST; cbn [andb Z.b2z]; lia| |done|done|].
  - split.
    + exists (wg_tcp_accept_source_set addr t0).
      rewrite list_lookup_insert_eq by (by eapply lookup_lt_Some).
      rewrite accept_source_matches_set. split_and!; try done. by apply sockaddrs_same_host_refl.
    + intros k sk Hk Hne. rewrite list_lookup_insert_ne in Hk by done. by eapply Hn.
  - rewrite (count_insert _ _ _ s), He by done. cbn [Z.b2z]. destruct (slot_empty (wg_tcp_accept_source_set addr t0)); cbn [Z.b2z]; lia.
Qed.
End rate_theorems.

Definition empty_table : list wg_tcp_accept_source :=
  replicate WG_TCP_ACCEPT_SOURCE_SLOTS (mk_accept_source SrcNone 0 0 0).

(** Forty connections of one host interleaved with another's, at 250 ticks per
    second across the wrap-around of the tick counter. *)
Definition sample_calls : list (Z * sockaddr) :=
  concat (replicate 40 [(3, Sa4 5000 1); (2 ^ 64 - 1, Sa4 5001 2)]).

Lemma accept_rate_exact_witness :
  accepted_from 250 (Sa4 4999 1) empty_table ((2 ^ 64 - 5, Sa4 4999 1) :: sample_calls) = 32.
Proof.
  rewrite (accept_rate_exact 250 empty_table (2 ^ 64 - 5) (Sa4 4999 1) sample_calls);
    [vm_compute; reflexivity|discriminate| | |vm_compute; reflexivity].
  - apply Forall_replicate. reflexivity.
  - unfold sample_calls. apply Forall_concat, Forall_replicate.
    repeat constructor; intros _; vm_compute; reflexivity.
Defined.

(** ** The device mark *)
Definition carries_mark (c : connections) (listen4 listen6 : option Z) (s : Z) : bool :=
  bool_decide (listen4 = Some s) || bool_decide (listen6 = Some s)
  || bool_decide (s ∈ e_tcp_socket <$> tcp_connection_list c).

Definition remark (mark : Z) (b : bool) (k : ksock) : ksock :=
  if b then k{{ ks_mark := mark }} else k.

Lemma lookup_remark mark (b : bool) t s (socks : sockets) :
  remark mark b <$> alter (λ k, k{{ ks_mark := mark }}) t socks !! s
  = remark mark (b || bool_decide (t = s)) <$> socks !! s.
Proof.
  destruct (decide (t = s)) as [->|Hne].
  - rewrite lookup_alter_eq, bool_decide_true, orb_true_r by done.
    destruct (socks !! s); cbn; [|done]. by destruct b.
  - by rewrite lookup_alter_ne, bool_decide_false, orb_false_r by done.
Qed.

Lemma lookup_mark_sockets mark es s (socks : sockets) :
  foldl (λ socks e, alter (λ k, k{{ ks_mark := mark }}) (e_tcp_socket e) socks) socks es !! s
  = remark mark (bool_decide (s ∈ e_tcp_socket <$> es)) <$> socks !! s.
Proof.
  revert socks. induction es as [|e es IH]; intros socks; cbn [foldl].
  - rewrite bool_decide_false by (cbn; by apply not_elem_of_nil). by destruct (socks !! s).
  - rewrite IH, lookup_remark. f_equal. f_equal. rewrite fmap_cons.
    apply eq_true_iff_eq. rewrite orb_true_iff, !bool_decide_eq_true, elem_of_cons. naive_solver.
Qed.

(** Setting the device mark sets the mark of both listening sockets and of
    every tracked connection's socket, and changes no other socket and no other
    field. *)
Theorem set_device_mark_spec c listen4 listen6 mark (socks : sockets) s :
  wg_tcp_set_device_mark c listen4 listen6 mark socks !! s
  = remark mark (carries_mark c listen4 listen6 s) <$> socks !! s.
Proof.
  unfold wg_tcp_set_device_mark, mark_sockets, carries_mark. rewrite lookup_mark_sockets.
  destruct listen4 as [a|], listen6 as [b|]; cbn zeta; rewrite ?lookup_remark;
    f_equal; f_equal; apply eq_true_iff_eq;
    rewrite !orb_true_iff, !bool_decide_eq_true; naive_solver.
Qed.
