(* ===== verification/TcpPeer.v ===== *)
(** * The life of a peer's connection (kernel/wg_tcp.c): model

    The functions that create, publish, hook, hand over and release the sockets
    of a peer.  Two locks structure the code.  [tcp_socket_lock], a mutex, is
    held by every function that changes which socket the peer owns or whether
    the socket calls back into the peer.  [tcp_lock], a spinlock, protects single
    steps; the socket callbacks and the functions that request work take only
    this one, so they run between the locked sections of a function that holds
    the mutex.  Each section under [tcp_lock] is one step here.  The steps other
    code can take in between are the type [event], and a function with several
    sections takes lists of events that happen in its gaps.

    Not modelled: the time stamps, [clean_inbound], [clean_outbound] and the
    outbound tuple, which are written and never read, the module reference
    count, and the state a socket is in after it is shut down, because it is
    released right away. *)
From stdpp Require Import prelude list gmap.
From S2P Require Import Prelude Skb Net Peer TcpFrame TcpReader TcpWriter Admission.

#[local] Open Scope Z_scope.

Record tcp := mk_tcp {
  t_dev : wg_device;
  t_peer : wg_peer;
  t_socks : sockets;
}.

#[export] Instance eta_tcp : Settable tcp := λ w, mk_tcp (t_dev w) (t_peer w) (t_socks w).

Definition is_socket (o : option Z) (s : Z) : bool := bool_decide (o = Some s).

(** The peer may be worked on at all. *)
Definition peer_usable (d : wg_device) (p : wg_peer) : bool :=
  negb (is_dead p) && negb (tcp_stopping p) && dev_tcp_cleanup_scheduled d.

(** ** Callbacks of a socket *)
Definition hooked (k : ksock) : bool :=
  bool_decide (ks_state_change k = CbWg) || bool_decide (ks_write_space k = CbWg)
  || bool_decide (ks_data_ready k = CbWg).

Definition all_hooked (k : ksock) : bool :=
  bool_decide (ks_state_change k = CbWg) && bool_decide (ks_write_space k = CbWg)
  && bool_decide (ks_data_ready k = CbWg).

(** What the kernel answers during [wg_setup_tcp_socket_callbacks]: whether the
    wrapper can be allocated, its address, and whether the module is alive. *)
Record setup_env := mk_setup_env { se_alloc : bool; se_module : bool; se_data : Z }.

Definition install (p : wg_peer) (id : Z) (socket : Z) (inbound : bool) (k : ksock)
    : wg_socket_data :=
  mk_socket_data id (internal_id p) socket inbound (ks_state_change k) (ks_write_space k)
    (ks_data_ready k).

Definition wg_setup_tcp_socket_callbacks (e : setup_env) (socket : Z) (inbound : bool) (w : tcp)
    : Z * tcp :=
  let p := t_peer w in
  match t_socks w !! socket with
  | None => (-EINVAL, w)
  | Some k =>
      if negb (se_alloc e) then (-ENOMEM, w)
      else if negb (se_module e) then (-ENODEV, w)
      else if negb (is_socket (dir_socket inbound p) socket) || negb (peer_usable (t_dev w) p)
              || negb (is_tcp (t_dev w)) || dir_remove inbound p
      then (-ESHUTDOWN, w)
      else if dir_callbacks inbound p then
        match dir_data inbound p with
        | Some sd =>
            if bool_decide (ks_user_data k = Some sd) && (sd_peer sd =? internal_id p)
               && (sd_socket sd =? socket) && eqb (sd_inbound sd) inbound && all_hooked k
            then (0, w) else (-EUCLEAN, w)
        | None => (-EUCLEAN, w)
        end
      else if isSome (dir_data inbound p) then (-EUCLEAN, w)
      else if isSome (ks_user_data k) then (-EBUSY, w)
      else
        let sd := install p (se_data e) socket inbound k in
        (0, w{{ t_peer := set_dir_callbacks inbound true (set_dir_data inbound (Some sd) p);
                t_socks ::= <[socket := k{{ ks_user_data := Some sd; ks_state_change := CbWg;
                                            ks_write_space := CbWg; ks_data_ready := CbWg }}]> }})
  end.

Definition unhook (sd : wg_socket_data) (k : ksock) : ksock :=
  let restore cb original := if bool_decide (cb = CbWg) then original else cb in
  k{{ ks_state_change ::= λ c, restore c (sd_original_state_change sd);
      ks_write_space ::= λ c, restore c (sd_original_write_space sd);
      ks_data_ready ::= λ c, restore c (sd_original_data_ready sd);
      ks_user_data ::= λ u, if bool_decide (u = Some sd) then None else u }}.

Definition wg_reset_tcp_socket_callbacks (socket : Z) (inbound : bool) (w : tcp) : Z * tcp :=
  let p := t_peer w in
  match t_socks w !! socket with
  | None => (-EINVAL, w)
  | Some k =>
      if negb (is_socket (dir_socket inbound p) socket) then (-ESTALE, w)
      else if negb (dir_callbacks inbound p) then
        if isSome (dir_data inbound p) || hooked k then (-EUCLEAN, w) else (0, w)
      else
        match dir_data inbound p with
        | None => (-EUCLEAN, w)
        | Some sd =>
            if negb (sd_peer sd =? internal_id p) || negb (sd_socket sd =? socket)
               || negb (eqb (sd_inbound sd) inbound)
            then (-EUCLEAN, w)
            else (0, w{{ t_peer := set_dir_callbacks inbound false (set_dir_data inbound None p);
                         t_socks ::= <[socket := unhook sd k]> }})
        end
  end.

Definition dir_owned (inbound : bool) (p : wg_peer) (socket : Z) : bool :=
  is_socket (dir_socket inbound p) socket
  && (dir_callbacks inbound p || isSome (dir_data inbound p)).

Definition wg_reset_exact_tcp_socket_callbacks (socket : Z) (w : tcp) : Z * tcp :=
  let p := t_peer w in
  let inbound_alias := is_socket (inbound_socket p) socket in
  let outbound_alias := is_socket (outbound_socket p) socket in
  if negb inbound_alias && negb outbound_alias then (-ESTALE, w)
  else if dir_owned true p socket && dir_owned false p socket then (-EUCLEAN, w)
  else if dir_owned true p socket then wg_reset_tcp_socket_callbacks socket true w
  else if dir_owned false p socket then wg_reset_tcp_socket_callbacks socket false w
  else wg_reset_tcp_socket_callbacks socket (negb outbound_alias) w.

(** ** Releasing a socket *)
Definition sock_release (socket : Z) (w : tcp) : tcp :=
  w{{ t_socks ::= alter (λ k, k{{ ks_releases ::= S }}) socket }}.

Definition wg_release_peer_socket_locked (socket : Z) (w : tcp) : Z * tcp :=
  let p := t_peer w in
  let inbound := is_socket (inbound_socket p) socket in
  let outbound := is_socket (outbound_socket p) socket in
  if negb inbound && negb outbound then (-ESTALE, w)
  else if (inbound && (tcp_inbound_callbacks_set p || isSome (tcp_inbound_socket_data p)))
          || (outbound && (tcp_outbound_callbacks_set p || isSome (tcp_outbound_socket_data p)))
  then (-EBUSY, w)
  else
    let active := is_socket (peer_socket p) socket in
    let p := if active
             then p{{ peer_socket := None; read_state := (None, 0, 0); tcp_pending := false;
                      tcp_retry_scheduled := false }} else p in
    let p := if inbound then p{{ inbound_socket := None; inbound_connected := false }} else p in
    let p := if outbound then p{{ outbound_socket := None; outbound_connected := false }} else p in
    let p := if active || (negb (inbound_connected p) && negb (outbound_connected p))
             then p{{ tcp_established := false }} else p in
    let p := if active then p{{ send_queue := [] }} else p in
    (0, sock_release socket (w{{ t_peer := p }})).

(** The pair of calls by which every owner gives a socket up. *)
Definition detach_and_release (socket : Z) (w : tcp) : Z * tcp :=
  let '(ret, w) := wg_reset_exact_tcp_socket_callbacks socket w in
  if ret =? 0 then wg_release_peer_socket_locked socket w else (ret, w).

(** ** Workers of the stream *)
Definition wg_tcp_cancel_stream_workers (p : wg_peer) : wg_peer :=
  p{{ wk_read := false; wk_write := false; tcp_read_worker_scheduled := false;
      tcp_write_worker_scheduled := false }}.

Definition rx_queued (socks : sockets) (socket : option Z) : bool :=
  match socket ≫= λ s, socks !! s with Some k => ks_rx_pending k | None => false end.

Definition wg_tcp_rearm_surviving_stream_locked (w : tcp) : tcp :=
  let p := t_peer w in
  if negb (stream_live (t_dev w) p) || negb (tcp_established p) || negb (isSome (peer_socket p))
  then w
  else
    let p := if negb (tcp_read_worker_scheduled p) && tcp_read_wq p
                && rx_queued (t_socks w) (peer_socket p)
             then p{{ tcp_read_worker_scheduled := true; wk_read := true }} else p in
    let p := if 0 <? zlen (send_queue p) then wg_tcp_schedule_write_locked (t_dev w) p else p in
    w{{ t_peer := p }}.

(** ** Becoming established *)

(** The first result: this is the first observation of this connection. *)
Definition wg_tcp_publish_outbound_established_locked (socket : Z) (p : wg_peer)
    : bool * wg_peer :=
  if negb (is_socket (peer_socket p) socket) || negb (is_socket (outbound_socket p) socket)
  then (false, p)
  else
    (negb (tcp_established p) || negb (outbound_connected p),
     p{{ tcp_pending := false; tcp_established := true; outbound_connected := true }}).

Definition wg_tcp_queue_carrier_bootstrap (socket : Z) (p : wg_peer) : wg_peer :=
  if negb (is_dead p) && negb (tcp_stopping p) && is_socket (peer_socket p) socket
     && is_socket (outbound_socket p) socket
  then p{{ tcp_bootstrap_socket := Some socket; wk_bootstrap := true }}
  else p.

(** Whether a keepalive is sent. *)
Definition wg_tcp_send_carrier_bootstrap (d : wg_device) (p : wg_peer) (socket : Z) : bool :=
  peer_usable d p && is_tcp d && dev_running d && negb (tcp_outbound_remove_scheduled p)
  && is_socket (peer_socket p) socket && is_socket (outbound_socket p) socket
  && tcp_established p && outbound_connected p.

(** [gap] is what other code does between taking the socket and testing it. *)
Definition wg_tcp_bootstrap_worker (gap : tcp → tcp) (w : tcp) : bool * tcp :=
  let socket := tcp_bootstrap_socket (t_peer w) in
  let w := gap (w{{ t_peer := (t_peer w){{ tcp_bootstrap_socket := None;
                                           wk_bootstrap := false }} }}) in
  (match socket with
   | Some s => wg_tcp_send_carrier_bootstrap (t_dev w) (t_peer w) s
   | None => false
   end, w).

(** ** Requests for a new connection *)
Definition claim_outbound_remove (p : wg_peer) (delay : Z) : wg_peer :=
  p{{ tcp_outbound_remove_scheduled := true; tcp_outbound_remove_socket := outbound_socket p;
      wk_outbound_remove := Some delay }}.

Definition wg_tcp_peer_request_reconnect_after (d : wg_device) (delay : Z) (p : wg_peer)
    : wg_peer :=
  if negb (peer_usable d p) || negb (is_tcp d) || negb (dev_running d)
     || negb (peer_endpoint_set p)
  then p
  else
    let p := p{{ tcp_reconnect_requested := true }} in
    if negb (tcp_connecting p) && negb (tcp_outbound_remove_scheduled p)
    then claim_outbound_remove p delay else p.

Definition wg_tcp_peer_request_reconnect (d : wg_device) (p : wg_peer) : wg_peer :=
  wg_tcp_peer_request_reconnect_after d 0 p.

(** The first section of [wg_tcp_retry_worker]: whether it goes on to connect. *)
Definition retry_claim (d : wg_device) (p : wg_peer) : bool * wg_peer :=
  let p := p{{ tcp_retry_scheduled := false }} in
  if negb (peer_usable d p) || negb (is_tcp d) then (false, p)
  else
    let p := if negb (tcp_established p) && tcp_pending p then
               let p := p{{ tcp_reconnect_requested := true }} in
               if negb (tcp_outbound_remove_scheduled p) then claim_outbound_remove p 0 else p
             else p in
    (negb (tcp_outbound_remove_scheduled p), p).

(** After a failed attempt. *)
Definition schedule_retry (delay : Z) (p : wg_peer) : wg_peer :=
  if negb (tcp_stopping p) && negb (tcp_retry_scheduled p)
  then p{{ tcp_retry_scheduled := true; wk_retry := Some delay }} else p.

(** ** A change of a socket's state *)

(** What the callback still has to do after its locked section. *)
Record change_actions := mk_change_actions {
  ca_bootstrap : option Z;
  ca_inbound_remove : bool;
  ca_outbound_remove : bool;
  ca_cleanup : bool;
}.

Definition no_actions : change_actions := mk_change_actions None false false false.

Definition closing_state (st : tcp_state) : bool :=
  match st with
  | TCP_CLOSE | TCP_CLOSE_WAIT | TCP_CLOSING | TCP_FIN_WAIT1 | TCP_FIN_WAIT2 | TCP_LAST_ACK => true
  | _ => false
  end.

Definition clear_established (p : wg_peer) : wg_peer :=
  if negb (inbound_connected p) && negb (outbound_connected p)
  then p{{ tcp_established := false }} else p.

Definition inbound_closed (p : wg_peer) : wg_peer * change_actions :=
  let p := p{{ inbound_connected := false }} in
  if negb (tcp_inbound_remove_scheduled p)
  then (clear_established (p{{ tcp_inbound_remove_scheduled := true;
                               tcp_inbound_remove_socket := inbound_socket p }}),
        mk_change_actions None true false false)
  else (clear_established p, no_actions).

Definition outbound_closed (p : wg_peer) : wg_peer * change_actions :=
  let p := p{{ outbound_connected := false; tcp_pending := false }} in
  if tcp_connecting p then (p, no_actions)
  else
    let p := p{{ tcp_reconnect_requested := true }} in
    if negb (tcp_outbound_remove_scheduled p)
    then (clear_established (p{{ tcp_outbound_remove_scheduled := true;
                                 tcp_outbound_remove_socket := outbound_socket p }}),
          mk_change_actions None false true false)
    else (clear_established p, no_actions).

Definition outbound_opened (p : wg_peer) (socket : Z) : wg_peer * change_actions :=
  let '(first, p) := wg_tcp_publish_outbound_established_locked socket p in
  let a := mk_change_actions (if first then Some socket else None) false false false in
  if tcp_retry_scheduled p then (p{{ tcp_retry_scheduled := false; wk_retry := None }}, a)
  else (p, a).

(** The part of [wg_tcp_state_change] up to the call of the original callback.
    The callback acts on the peer its socket data names. *)
Definition state_change_locked (w : tcp) (socket : Z) : tcp * change_actions :=
  let p := t_peer w in
  match t_socks w !! socket with
  | None => (w, no_actions)
  | Some k =>
      match ks_user_data k with
      | None => (w, no_actions)
      | Some sd =>
          if negb (sd_peer sd =? internal_id p) || is_dead p
             || dir_remove (sd_inbound sd) p then (w, no_actions)
          else
            let '(p, a) :=
              if bool_decide (ks_state k = TCP_ESTABLISHED) then
                if temp_peer p || sd_inbound sd then (p, no_actions)
                else if is_socket (outbound_socket p) socket then outbound_opened p socket
                else (p, no_actions)
              else if closing_state (ks_state k) then
                if temp_peer p
                then (p{{ is_dead := true }}, mk_change_actions None false false true)
                else if negb (is_socket (dir_socket (sd_inbound sd) p) socket) then (p, no_actions)
                else if sd_inbound sd then inbound_closed p
                else outbound_closed p
              else (p, no_actions) in
            (w{{ t_peer := p }}, a)
      end
  end.

(** The rest of it; the second result: the device's reaper is queued. *)
Definition state_change_finish (w : tcp) (socket : Z) (a : change_actions) : tcp * bool :=
  let p := match ca_bootstrap a with
           | Some s => wg_tcp_queue_carrier_bootstrap s (t_peer w)
           | None => t_peer w
           end in
  let p :=
    if (ca_inbound_remove a || ca_outbound_remove a) && peer_usable (t_dev w) p then
      let p := if ca_inbound_remove a && tcp_inbound_remove_scheduled p
                  && bool_decide (tcp_inbound_remove_socket p = inbound_socket p)
                  && is_socket (inbound_socket p) socket
               then p{{ wk_inbound_remove := Some 0 }} else p in
      if ca_outbound_remove a && tcp_outbound_remove_scheduled p
         && bool_decide (tcp_outbound_remove_socket p = outbound_socket p)
         && is_socket (outbound_socket p) socket
      then p{{ wk_outbound_remove := Some 0 }} else p
    else p in
  (w{{ t_peer := p }}, ca_cleanup a && dev_tcp_cleanup_scheduled (t_dev w)).

Definition wg_tcp_state_change (gap : tcp → tcp) (w : tcp) (socket : Z) : tcp * bool :=
  let '(w, a) := state_change_locked w socket in
  state_change_finish (gap w) socket a.

(** ** Stopping: the first section of [wg_tcp_peer_stop] *)
Definition stop_begin (p : wg_peer) : wg_peer :=
  p{{ tcp_stopping := true; tcp_reconnect_requested := false;
      tcp_outbound_remove_scheduled := true; tcp_outbound_remove_socket := outbound_socket p;
      tcp_inbound_remove_scheduled := true; tcp_inbound_remove_socket := inbound_socket p }}.

(** ** Endpoints: the sections under [endpoint_lock] *)
Definition ep_port (ep : endpoint) : Z :=
  match ep with Ep4 port _ _ _ => port | Ep6 port _ _ _ => port | EpUnspec => 0 end.

(** The locked section of [wg_socket_set_peer_endpoint_internal]: the peer and
    whether the address to connect to changed; [None] for an unknown family. *)
Definition set_endpoint_locked (d : wg_device) (configured : bool) (ep : endpoint) (p : wg_peer)
    : option (wg_peer * bool) :=
  match ep with
  | EpUnspec => None
  | _ =>
      let p := p{{ p_endpoint := ep }} in
      if is_tcp d then
        let p := p{{ tcp_reply_endpoint := ep }} in
        if configured then
          Some (p{{ peer_endpoint := ep; tcp_peer_listen_port := ep_port ep;
                    peer_endpoint_set := true }},
                peer_endpoint_set p && negb (endpoint_eq (peer_endpoint p) ep))
        else Some (p, false)
      else Some (p, false)
  end.

(** The address an authenticated peer is reached at: the remote address with
    the port the peer is configured to listen on. *)
Definition roam_target (p : wg_peer) (ep : endpoint) : endpoint :=
  match ep with
  | Ep4 _ addr _ _ => Ep4 (tcp_peer_listen_port p) addr 0 0
  | Ep6 _ addr scope _ => Ep6 (tcp_peer_listen_port p) addr scope 0
  | EpUnspec => EpUnspec
  end.

(** The locked section of [wg_socket_set_peer_endpoint_authenticated]. *)
Definition roam_locked (ep : endpoint) (id : Z) (p : wg_peer) : wg_peer * bool :=
  if negb (peer_endpoint_set p) || (id =? 0) || (id <? tcp_roaming_connection_id p) then (p, false)
  else
    match ep with
    | EpUnspec => (p, false)
    | _ =>
        let target := roam_target p ep in
        let p := p{{ tcp_roaming_connection_id := id }} in
        if negb (wg_tcp_dial_target_eq (peer_endpoint p) target)
        then (p{{ peer_endpoint := target }}, true) else (p, false)
    end.

(** Its request for a promotion. *)
Definition request_promotion (id : Z) (p : wg_peer) : wg_peer :=
  if negb (is_dead p) && negb (tcp_stopping p) && (tcp_promotion_connection_id p <? id) then
    let p := p{{ tcp_promotion_connection_id := id }} in
    if negb (tcp_promotion_worker_scheduled p)
    then p{{ tcp_promotion_worker_scheduled := true; wk_promotion := true }} else p
  else p.

(** ** Steps that need no mutex *)
Inductive event :=
  | EvDevice (d : wg_device)
  | EvSockState (socket : Z) (st : tcp_state)
  | EvStateChange (socket : Z)
  | EvStateChangeFinish (socket : Z) (a : change_actions)
  | EvDataReady
  | EvWriteSpace
  | EvFailSocket (socket : Z)
  | EvRequestReconnect (delay : Z)
  | EvRetryClaim
  | EvScheduleRetry (delay : Z)
  | EvQueueBootstrap (socket : Z)
  | EvStopBegin
  | EvDead
  | EvSetEndpoint (configured : bool) (ep : endpoint)
  | EvRoam (ep : endpoint) (id : Z)
  | EvRequestPromotion (id : Z).

Definition run_event (w : tcp) (ev : event) : tcp :=
  let d := t_dev w in
  let p := t_peer w in
  match ev with
  | EvDevice d => w{{ t_dev := d }}
  | EvSockState s st => w{{ t_socks ::= alter (λ k, k{{ ks_state := st }}) s }}
  | EvStateChange s => (state_change_locked w s).1
  | EvStateChangeFinish s a => (state_change_finish w s a).1
  | EvDataReady => w{{ t_peer := wg_tcp_data_ready d p }}
  | EvWriteSpace => w{{ t_peer := wg_tcp_write_space d p }}
  | EvFailSocket s => w{{ t_peer := (wg_tcp_fail_exact_socket d p s).1 }}
  | EvRequestReconnect delay => w{{ t_peer := wg_tcp_peer_request_reconnect_after d delay p }}
  | EvRetryClaim => w{{ t_peer := (retry_claim d p).2 }}
  | EvScheduleRetry delay => w{{ t_peer := schedule_retry delay p }}
  | EvQueueBootstrap s => w{{ t_peer := wg_tcp_queue_carrier_bootstrap s p }}
  | EvStopBegin => w{{ t_peer := stop_begin p }}
  | EvDead => w{{ t_peer := p{{ is_dead := true }} }}
  | EvSetEndpoint configured ep =>
      match set_endpoint_locked d configured ep p with
      | Some (p, _) => w{{ t_peer := p }}
      | None => w
      end
  | EvRoam ep id => w{{ t_peer := (roam_locked ep id p).1 }}
  | EvRequestPromotion id => w{{ t_peer := request_promotion id p }}
  end.

Definition run_events (evs : list event) (w : tcp) : tcp := foldl run_event w evs.

(** ** Connecting *)

(** The answers of the kernel to one attempt, and what happens in its gaps. *)
Record connect_env := mk_connect_env {
  ce_net : bool;
  ce_create : result Z;
  ce_sk : sock;
  ce_setup : setup_env;
  ce_connect : Z;
  ce_gap_create : list event;
  ce_gap_setup : list event;
  ce_gap_connect : list event;
  ce_gap_unwind : list event;
  ce_gap_return : list event;
}.

Definition connect_target (p : wg_peer) : endpoint :=
  if peer_endpoint_set p then peer_endpoint p else EpUnspec.

(** Nothing to do, or not allowed now. *)
Definition connect_idle (d : wg_device) (p : wg_peer) : bool :=
  negb (peer_usable d p) || negb (is_tcp d) || negb (dev_running d) || tcp_established p
  || tcp_pending p || inbound_connected p || outbound_connected p
  || tcp_outbound_remove_scheduled p.

Definition connect_claim (p : wg_peer) : wg_peer :=
  p{{ tcp_connecting := true; tcp_pending := true; tcp_established := false;
      outbound_connected := false; tcp_outbound_callbacks_set := false }}.

(** A socket as [sock_create_kern] returns it, with the device's mark. *)
Definition new_ksock (sk : sock) (mark : Z) : ksock :=
  mk_ksock sk TCP_CLOSE None CbKernel CbKernel CbKernel false true false mark 0.

Definition connect_publishable (d : wg_device) (p : wg_peer) : bool :=
  peer_usable d p && is_tcp d && dev_running d && tcp_connecting p && tcp_pending p
  && negb (isSome (peer_socket p)) && negb (isSome (outbound_socket p)).

(** The end of [wg_tcp_connect_unwind]: one disconnected state is published, a
    socket the peer does not own is released, and a requested replacement is
    queued. *)
Definition unwind_publish (unowned : option Z) (w : tcp) : tcp :=
  let p := (t_peer w){{ tcp_connecting := false; tcp_pending := false;
                        tcp_established := false; outbound_connected := false;
                        tcp_outbound_remove_socket := None }} in
  let queue_reconnect := tcp_reconnect_requested p && negb (tcp_stopping p)
                         && dev_tcp_cleanup_scheduled (t_dev w) && is_tcp (t_dev w) in
  let p := if queue_reconnect then p{{ tcp_outbound_remove_scheduled := true }}
           else if negb (tcp_stopping p) then p{{ tcp_outbound_remove_scheduled := false }}
           else p in
  let w := w{{ t_peer := p }} in
  let w := match unowned with Some s => sock_release s w | None => w end in
  if queue_reconnect && negb (tcp_stopping p) && tcp_reconnect_requested p
     && tcp_outbound_remove_scheduled p
  then w{{ t_peer := p{{ wk_outbound_remove := Some 0 }} }} else w.

Definition wg_tcp_connect_unwind (gap : list event) (socket : option Z) (w : tcp) : tcp :=
  let owns := match socket with
              | Some s => is_socket (peer_socket (t_peer w)) s
                          || is_socket (outbound_socket (t_peer w)) s
              | None => false
              end in
  if owns then
    let w := w{{ t_peer := (t_peer w){{ tcp_outbound_remove_scheduled := true;
                                        tcp_outbound_remove_socket := socket }} }} in
    let w := run_events gap w in
    let w := w{{ t_peer ::= wg_tcp_cancel_stream_workers }} in
    let '(ret, w) := match socket with Some s => detach_and_release s w | None => (0, w) end in
    if negb (ret =? 0) then w{{ t_peer := (t_peer w){{ tcp_connecting := false }} }}
    else unwind_publish None w
  else unwind_publish socket (run_events gap w).

Definition connect_usable (d : wg_device) (p : wg_peer) (s : Z) (k : option ksock) : bool :=
  peer_usable d p && is_tcp d && dev_running d && is_socket (peer_socket p) s
  && is_socket (outbound_socket p) s
  && match k with
     | Some k => bool_decide (ks_state k ∈ [TCP_SYN_SENT; TCP_SYN_RECV; TCP_ESTABLISHED])
     | None => false
     end.

(** The decision at the end of an attempt: replace the connection, or watch it. *)
Definition finish_decision (s : Z) (p : wg_peer) : wg_peer :=
  if tcp_reconnect_requested p && negb (tcp_stopping p) && negb (tcp_outbound_remove_scheduled p)
  then p{{ tcp_outbound_remove_scheduled := true; tcp_outbound_remove_socket := Some s;
           wk_outbound_remove := Some 0 }}
  else if tcp_pending p && negb (tcp_retry_scheduled p)
  then p{{ tcp_retry_scheduled := true; wk_retry := Some 10000 }}
  else p.

(** The last section of a successful attempt, and whether this attempt has to
    send the first message. *)
Definition connect_finish (w : tcp) (s : Z) : tcp * bool :=
  let p := (t_peer w){{ tcp_connecting := false }} in
  let established := match t_socks w !! s with
                     | Some k => bool_decide (ks_state k = TCP_ESTABLISHED)
                     | None => false
                     end in
  let '(bootstrap, p) := if established then wg_tcp_publish_outbound_established_locked s p
                         else (false, p) in
  (w{{ t_peer := finish_decision s p }}, bootstrap).

(** The attempt from the created socket on; the last result is whether the
    first message is to be sent.  The timeouts, [TCP_NODELAY] and the cached
    tuple of the new connection are set without failing and are read by no code
    of the module. *)
Definition connect_socket (e : connect_env) (s : Z) (w : tcp) : Z * tcp * bool :=
  let fail ret w := (ret, wg_tcp_connect_unwind (ce_gap_unwind e) (Some s) w, false) in
  let w := w{{ t_socks ::= <[s := new_ksock (ce_sk e) (dev_fwmark (t_dev w))]> }} in
  if negb (connect_publishable (t_dev w) (t_peer w)) then fail (-ESHUTDOWN) w
  else
    let w := w{{ t_peer := (t_peer w){{ peer_socket := Some s; outbound_socket := Some s }} }} in
    let w := run_events (ce_gap_setup e) w in
    let '(ret, w) := wg_setup_tcp_socket_callbacks (ce_setup e) s false w in
    if negb (ret =? 0) then fail ret w
    else
      let w := run_events (ce_gap_connect e) w in
      if negb (ce_connect e =? -EINPROGRESS) && negb (ce_connect e =? 0)
      then fail (ce_connect e) w
      else if negb (connect_usable (t_dev w) (t_peer w) s (t_socks w !! s))
      then fail (-ECONNABORTED) w
      else let '(w, bootstrap) := connect_finish w s in (0, w, bootstrap).

(** The attempt after its claim. *)
Definition connect_attempt (e : connect_env) (w : tcp) : Z * tcp :=
  let w := run_events (ce_gap_create e) (w{{ t_peer := connect_claim (t_peer w) }}) in
  if negb (ce_net e) then (-ENONET, wg_tcp_connect_unwind (ce_gap_unwind e) None w)
  else
    match ce_create e with
    | Err ret => (ret, wg_tcp_connect_unwind (ce_gap_unwind e) None w)
    | Ok s =>
        let '(ret, w, bootstrap) := connect_socket e s w in
        if bootstrap then
          let w := run_events (ce_gap_return e) w in
          (ret, w{{ t_peer ::= wg_tcp_queue_carrier_bootstrap s }})
        else (ret, w)
    end.

Definition wg_tcp_connect (e : connect_env) (w : tcp) : Z * tcp :=
  let p := t_peer w in
  if negb (is_tcp (t_dev w)) then (-EINVAL, w)
  else
    match connect_target p with
    | EpUnspec => (-EAFNOSUPPORT, w)
    | _ =>
        if connect_idle (t_dev w) p then (0, w)
        else if isSome (peer_socket p) || isSome (outbound_socket p) then (-EALREADY, w)
        else connect_attempt e w
    end.

Definition wg_tcp_retry_worker (e : connect_env) (w : tcp) : tcp :=
  let '(go, p) := retry_claim (t_dev w) ((t_peer w){{ wk_retry := None }}) in
  let w := w{{ t_peer := p }} in
  if negb go then w
  else
    let '(ret, w) := wg_tcp_connect e w in
    if ret <? 0 then w{{ t_peer ::= schedule_retry 30000 }} else w.

(** ** Removing a connection *)
Definition wg_tcp_outbound_remove_worker (gap : list event) (e : connect_env) (w : tcp) : tcp :=
  let p := (t_peer w){{ wk_outbound_remove := None }} in
  let retry_needed := tcp_retry_scheduled p || isSome (wk_retry p) in
  let socket := tcp_outbound_remove_socket p in
  let clean_claim := bool_decide (outbound_socket p = socket) in
  let active := clean_claim && isSome socket && bool_decide (peer_socket p = socket) in
  let w := run_events gap (w{{ t_peer := p{{ wk_retry := None; tcp_retry_scheduled := false }} }}) in
  let w := if active then w{{ t_peer ::= wg_tcp_cancel_stream_workers }} else w in
  let '(ret, w) := match socket with
                   | Some s => if clean_claim then detach_and_release s w else (0, w)
                   | None => (0, w)
                   end in
  if negb (ret =? 0) then w
  else
    let p := t_peer w in
    let reconnect := tcp_reconnect_requested p in
    let stopping := tcp_stopping p in
    let w := w{{ t_peer := p{{ tcp_reconnect_requested := false;
                               tcp_outbound_remove_scheduled := false;
                               tcp_outbound_remove_socket := None }} }} in
    let w := wg_tcp_rearm_surviving_stream_locked w in
    if stopping || is_dead (t_peer w) || negb (dev_tcp_cleanup_scheduled (t_dev w))
       || negb (is_tcp (t_dev w)) then w
    else if negb clean_claim then w{{ t_peer ::= wg_tcp_peer_request_reconnect (t_dev w) }}
    else if reconnect then
      let '(ret, w) := wg_tcp_connect e w in
      if ret <? 0 then w{{ t_peer ::= schedule_retry 30000 }} else w
    else if retry_needed then w{{ t_peer ::= schedule_retry 10000 }}
    else w.

(** The second result: the device's reaper is queued. *)
Definition wg_tcp_inbound_remove_worker (gap : list event) (w : tcp) : tcp * bool :=
  let p := (t_peer w){{ wk_inbound_remove := None }} in
  if temp_peer p then
    (w{{ t_peer := p{{ is_dead := true }} }}, dev_tcp_cleanup_scheduled (t_dev w))
  else
    let socket := tcp_inbound_remove_socket p in
    let clean_claim := bool_decide (inbound_socket p = socket) in
    let active := clean_claim && isSome socket && bool_decide (peer_socket p = socket) in
    let w := run_events gap (w{{ t_peer := p }}) in
    let w := if active then w{{ t_peer ::= wg_tcp_cancel_stream_workers }} else w in
    let '(ret, w) := match socket with
                     | Some s => if clean_claim then detach_and_release s w else (0, w)
                     | None => (0, w)
                     end in
    if negb (ret =? 0) then (w, false)
    else
      let w := w{{ t_peer := (t_peer w){{ tcp_inbound_remove_scheduled := false;
                                          tcp_inbound_remove_socket := None }} }} in
      (wg_tcp_rearm_surviving_stream_locked w, false).

(** ** Stopping a peer *)
Definition stop_cancel_requests (p : wg_peer) : wg_peer :=
  p{{ wk_retry := None; wk_outbound_remove := None; wk_inbound_remove := None;
      wk_bootstrap := false; wk_promotion := false }}.

Definition stop_claim (p : wg_peer) : wg_peer :=
  p{{ tcp_outbound_remove_scheduled := true; tcp_outbound_remove_socket := outbound_socket p;
      tcp_inbound_remove_scheduled := true; tcp_inbound_remove_socket := inbound_socket p }}.

Definition stop_release (socket : option Z) (w : tcp) : bool * tcp :=
  match socket with
  | Some s => let '(ret, w) := detach_and_release s w in (negb (ret =? 0), w)
  | None => (false, w)
  end.

(** [gap_drain] happens while the work items are drained, [gap_claim] between
    taking the mutex and cancelling the stream's workers. *)
Definition wg_tcp_peer_stop (gap_drain gap_claim : list event) (w : tcp) : tcp :=
  let w := run_events gap_drain (w{{ t_peer ::= stop_begin }}) in
  let w := w{{ t_peer ::= stop_cancel_requests }} in
  let w := w{{ t_peer ::= stop_claim }} in
  let outbound := outbound_socket (t_peer w) in
  let inbound := inbound_socket (t_peer w) in
  let w := run_events gap_claim w in
  let w := w{{ t_peer := (wg_tcp_cancel_stream_workers (t_peer w)){{
                 tcp_retry_scheduled := false; send_queue := [] }} }} in
  let '(failed_out, w) := stop_release outbound w in
  let '(failed_in, w) := if bool_decide (inbound = outbound) then (false, w)
                         else stop_release inbound w in
  if failed_out || failed_in
  then w{{ t_peer := (t_peer w){{ tcp_teardown_quarantined := true }} }}
  else w{{ t_peer := (t_peer w){{
             tcp_established := false; tcp_pending := false; tcp_connecting := false;
             tcp_reconnect_requested := false; inbound_connected := false;
             outbound_connected := false; tcp_outbound_remove_scheduled := false;
             tcp_outbound_remove_socket := None; tcp_inbound_remove_scheduled := false;
             tcp_inbound_remove_socket := None }} }}.

(** ** Provisional peers *)

(** [has_wq]: the device's queue for unauthenticated connections exists. *)
Definition wg_temp_peer_create (alloc_ok has_wq : bool) (id : Z) : result wg_peer :=
  if negb alloc_ok || negb has_wq then Err (-ENOMEM)
  else Ok ((zero_peer id){{ tcp_read_wq := true; tcp_write_wq := true; temp_peer := true }}).

(** On the provisional peer's own state; the first result tells whether it was
    freed. *)
Definition wg_destroy_temp_peer (gap : list event) (w : tcp) : bool * tcp :=
  let p := t_peer w in
  let w := w{{ t_peer := p{{
    is_dead := true; tcp_stopping := true; tcp_inbound_remove_scheduled := true;
    tcp_inbound_remove_socket := inbound_socket p; tcp_outbound_remove_scheduled := true;
    tcp_outbound_remove_socket := outbound_socket p; wk_retry := None;
    wk_outbound_remove := None; wk_inbound_remove := None }} }} in
  let w := run_events gap w in
  let w := w{{ t_peer ::= wg_tcp_cancel_stream_workers }} in
  let '(ret, w) := match inbound_socket (t_peer w) with
                   | Some s => detach_and_release s w
                   | None => (0, w)
                   end in
  if negb (ret =? 0) then (false, w)
  else (true, w{{ t_peer := (t_peer w){{ tcp_read_wq := false; tcp_write_wq := false }} }}).

(** The claimed entry's resources; [temp] is [None] once the provisional peer
    has given its socket up and was freed. *)
Definition wg_destroy_tcp_connection_entry (gap : list event) (temp : option wg_peer)
    (tcp_socket : option Z) (w : tcp) : tcp :=
  match temp with
  | Some temp => w{{ t_socks := t_socks (wg_destroy_temp_peer gap (w{{ t_peer := temp }})).2 }}
  | None => match tcp_socket with Some s => sock_release s w | None => w end
  end.

(** ** Handing an accepted connection to its authenticated peer *)
Record promote_env := mk_promote_env {
  pe_gap_lock : list event;
  pe_gap_temp : list event;
  pe_gap_old : list event;
  pe_gap_setup : list event;
  pe_setup : setup_env;
}.

(** The provisional peer gives its socket up. *)
Definition promote_detach (gap : list event) (id socket : Z) (w : tcp) : Z * tcp :=
  let temp := t_peer w in
  if negb (is_socket (inbound_socket temp) socket) || negb (is_socket (peer_socket temp) socket)
     || negb (tcp_connection_id temp =? id)
  then (-ESTALE, w)
  else
    let w := w{{ t_peer := temp{{ is_dead := true; tcp_stopping := true;
                                  tcp_inbound_remove_scheduled := true;
                                  tcp_inbound_remove_socket := Some socket }} }} in
    let w := run_events gap w in
    let w := w{{ t_peer ::= wg_tcp_cancel_stream_workers }} in
    let '(ret, w) := wg_reset_exact_tcp_socket_callbacks socket w in
    if negb (ret =? 0) then (ret, w)
    else (0, w{{ t_peer := (t_peer w){{ peer_socket := None; inbound_socket := None;
                   inbound_connected := false; tcp_established := false;
                   tcp_inbound_remove_scheduled := false;
                   tcp_inbound_remove_socket := None }} }}).

(** The configured peer gives up the sockets it had. *)
Definition promote_release_old (gap : list event) (w : tcp) : Z * tcp :=
  let p := t_peer w in
  let old_inbound := inbound_socket p in
  let old_outbound := outbound_socket p in
  let w := w{{ t_peer := p{{ tcp_inbound_remove_scheduled := isSome old_inbound;
                             tcp_inbound_remove_socket := old_inbound;
                             tcp_outbound_remove_scheduled := isSome old_outbound;
                             tcp_outbound_remove_socket := old_outbound }} }} in
  let w := run_events gap w in
  let w := if isSome old_inbound || isSome old_outbound
           then w{{ t_peer ::= wg_tcp_cancel_stream_workers }} else w in
  let '(ret, w) := match old_inbound with
                   | Some s => detach_and_release s w
                   | None => (0, w)
                   end in
  if negb (ret =? 0) then (ret, w)
  else match old_outbound with
       | Some s => if bool_decide (old_outbound = old_inbound) then (0, w)
                   else detach_and_release s w
       | None => (0, w)
       end.

(** The peer with the new socket, before it is hooked. *)
Definition adopting (s : Z) (temp p : wg_peer) : wg_peer :=
  p{{ p_inbound_source := p_inbound_source temp; p_inbound_dest := p_inbound_dest temp;
      peer_socket := Some s; inbound_socket := Some s; tcp_established := true;
      tcp_pending := false; tcp_connecting := false; inbound_connected := true;
      outbound_connected := false; tcp_inbound_remove_scheduled := false;
      tcp_inbound_remove_socket := None; tcp_outbound_remove_scheduled := false;
      tcp_outbound_remove_socket := None; tcp_reconnect_requested := false }}.

(** It takes the socket, and gives it back to the kernel if it cannot hook it. *)
Definition promote_adopt (e : promote_env) (socket : Z) (temp : wg_peer) (w : tcp) : Z * tcp :=
  let w := w{{ t_peer := adopting socket temp (t_peer w) }} in
  let w := run_events (pe_gap_setup e) w in
  let '(ret, w) := wg_setup_tcp_socket_callbacks (pe_setup e) socket true w in
  if negb (ret =? 0) then
    let w := w{{ t_peer := (t_peer w){{ tcp_inbound_callbacks_set := false;
                                        tcp_inbound_socket_data := None }} }} in
    (ret, (wg_release_peer_socket_locked socket w).2)
  else (0, wg_tcp_rearm_surviving_stream_locked w).

(** From the claimed entry on.  [peer] and [temp] are different peers. *)
Definition promote_claimed (e : promote_env) (id socket : Z) (temp : wg_peer) (w : tcp)
    : bool * tcp :=
  let w := run_events (pe_gap_lock e) w in
  let p := t_peer w in
  let fail temp socket w := (false, wg_destroy_tcp_connection_entry (pe_gap_temp e) temp socket w) in
  if id <? tcp_roaming_connection_id p then fail (Some temp) (Some socket) w
  else
    let p := p{{ tcp_roaming_connection_id := id }} in
    let '(ret, wt) := promote_detach (pe_gap_temp e) id socket (w{{ t_peer := temp }}) in
    let temp := t_peer wt in
    let w := wt{{ t_peer := p }} in
    if negb (ret =? 0) then fail (Some temp) (Some socket) w
    else
      let '(ret, w) := promote_release_old (pe_gap_old e) w in
      if negb (ret =? 0) then fail None (Some socket) w
      else
        let '(ret, w) := promote_adopt e socket temp w in
        if negb (ret =? 0) then fail None None w else (true, w).

(** [temps] are the provisional peers. *)
Definition wg_tcp_promote_authenticated_carrier (e : promote_env) (temps : Z → option wg_peer)
    (c : connections) (now id : Z) (w : tcp) : bool * connections * tcp :=
  if (id =? 0) || negb (is_tcp (t_dev w)) then (false, c, w)
  else
    let stale := id <? tcp_roaming_connection_id (t_peer w) in
    let '(entry, c) := claim_for_promotion c now id stale in
    match entry with
    | None => (false, c, w)
    | Some en =>
        match e_temp_peer en ≫= temps with
        | None => (false, c, wg_destroy_tcp_connection_entry (pe_gap_temp e) None
                               (Some (e_tcp_socket en)) w)
        | Some temp =>
            let '(done, w) := promote_claimed e id (e_tcp_socket en) temp w in (done, c, w)
        end
    end.
