(* ===== verification/TcpPeerSpec.v ===== *)
(** * The life of a peer's connection: correctness

    A peer owns at most one socket at a time.  While it owns it, the socket is
    unreleased, and its callbacks and user data are either untouched or all
    three point to the peer through the one wrapper the peer holds; a socket the
    peer no longer owns has been released exactly once, with its original
    callbacks restored.  This invariant is kept by every step that runs without
    the mutex and by every function that holds it, with any such steps in its
    gaps.  On top of it, the theorems say what connecting, removing, stopping and
    promoting achieve. *)
From stdpp Require Import prelude list gmap.
From S2P Require Import Prelude Skb Net Peer TcpFrame TcpReader TcpWriter Admission TcpPeer.

#[local] Open Scope Z_scope.

(** A socket that does not call back. *)
Definition bare (k : ksock) : Prop :=
  ks_user_data k = None ∧ ks_state_change k = CbKernel ∧ ks_write_space k = CbKernel ∧
  ks_data_ready k = CbKernel.

(** The wrapper of socket [s] in direction [b], and the socket that carries it. *)
Definition wraps (id s : Z) (b : bool) (sd : wg_socket_data) (k : ksock) : Prop :=
  sd = mk_socket_data (sd_id sd) id s b CbKernel CbKernel CbKernel ∧
  ks_user_data k = Some sd ∧ ks_state_change k = CbWg ∧ ks_write_space k = CbWg ∧
  ks_data_ready k = CbWg.

Definition wired (p : wg_peer) (s : Z) (b : bool) (k : ksock) : Prop :=
  ks_releases k = 0%nat ∧
  match dir_data b p with
  | Some sd => dir_callbacks b p = true ∧ wraps (internal_id p) s b sd k
  | None => dir_callbacks b p = false ∧ bare k
  end.

Definition dir_connected (b : bool) (p : wg_peer) : bool :=
  if b then inbound_connected p else outbound_connected p.

(** Nothing is recorded for direction [b]. *)
Definition vacant (b : bool) (p : wg_peer) : Prop :=
  dir_socket b p = None ∧ dir_data b p = None ∧ dir_callbacks b p = false ∧
  dir_connected b p = false.

Inductive own (p : wg_peer) (ks : sockets) : Prop :=
  | own_none :
      peer_socket p = None → vacant true p → vacant false p → tcp_established p = false →
      own p ks
  | own_some s b k :
      peer_socket p = Some s → dir_socket b p = Some s → vacant (negb b) p →
      ks !! s = Some k → wired p s b k → own p ks.

(** [F] holds the sockets that belong to others. *)
Record inv (F : gset Z) (w : tcp) : Prop := {
  inv_own : own (t_peer w) (t_socks w);
  inv_foreign : ∀ s, peer_socket (t_peer w) = Some s → s ∉ F;
  inv_rest : ∀ s k, t_socks w !! s = Some k → s ∉ F → peer_socket (t_peer w) ≠ Some s →
    ks_releases k = 1%nat ∧ bare k;
}.

(** ** Steps without the mutex *)

(** The fields such a step may not change. *)
Definition ownership (p : wg_peer) :=
  (internal_id p, peer_socket p, (inbound_socket p, tcp_inbound_socket_data p,
   tcp_inbound_callbacks_set p), (outbound_socket p, tcp_outbound_socket_data p,
   tcp_outbound_callbacks_set p)).

(** How it may change the others: a connection is marked as established only
    if its socket is the peer's. *)
Definition flags_grow (p p' : wg_peer) : Prop :=
  (tcp_established p' = true → tcp_established p = true ∨ peer_socket p ≠ None) ∧
  (inbound_connected p' = true → inbound_connected p = true) ∧
  (outbound_connected p' = true → outbound_connected p = true ∨ outbound_socket p ≠ None).

Definition step_ok (p p' : wg_peer) : Prop := ownership p' = ownership p ∧ flags_grow p p'.

Lemma step_ok_refl p : step_ok p p.
Proof. split; [done|]. split_and!; auto. Qed.

Lemma step_ok_trans p1 p2 p3 : step_ok p1 p2 → step_ok p2 p3 → step_ok p1 p3.
Proof.
  intros [Ho1 Hf1] [Ho2 Hf2]. split; [by rewrite Ho2|].
  unfold ownership in Ho1. injection Ho1 as H1 H2 H3 H4 H5 H6 H7 H8.
  unfold flags_grow in *. rewrite H2, H6 in Hf2. naive_solver.
Qed.

Create HintDb steps.
#[export] Hint Resolve step_ok_refl : steps.

(** A step whose branches only assign fields. *)
Ltac step_cases :=
  repeat match goal with
  | |- step_ok _ (match ?x with _ => _ end) => destruct x eqn:?
  | |- context [if ?b then _ else _] => destruct b eqn:?
  end.
Ltac step_fields := split; [reflexivity|split_and!; cbn; auto; try discriminate].

Lemma data_ready_step d p : step_ok p (wg_tcp_data_ready d p).
Proof. unfold wg_tcp_data_ready. step_cases; step_fields. Qed.

Lemma schedule_write_step d p : step_ok p (wg_tcp_schedule_write_locked d p).
Proof. unfold wg_tcp_schedule_write_locked. step_cases; step_fields. Qed.

Lemma write_space_step d p : step_ok p (wg_tcp_write_space d p).
Proof. unfold wg_tcp_write_space. case_if; [apply step_ok_refl|apply schedule_write_step]. Qed.

Lemma fail_exact_step d p s : step_ok p (wg_tcp_fail_exact_socket d p s).1.
Proof. unfold wg_tcp_fail_exact_socket. step_cases; step_fields. Qed.

Lemma request_reconnect_step d delay p : step_ok p (wg_tcp_peer_request_reconnect_after d delay p).
Proof. unfold wg_tcp_peer_request_reconnect_after. step_cases; step_fields. Qed.

Lemma retry_claim_step d p : step_ok p (retry_claim d p).2.
Proof. unfold retry_claim. step_cases; step_fields. Qed.

Lemma schedule_retry_step delay p : step_ok p (schedule_retry delay p).
Proof. unfold schedule_retry. step_cases; step_fields. Qed.

Lemma queue_bootstrap_step s p : step_ok p (wg_tcp_queue_carrier_bootstrap s p).
Proof. unfold wg_tcp_queue_carrier_bootstrap. step_cases; step_fields. Qed.

Lemma cancel_workers_step p : step_ok p (wg_tcp_cancel_stream_workers p).
Proof. step_fields. Qed.

Lemma roam_step ep id p : step_ok p (roam_locked ep id p).1.
Proof.
  unfold roam_locked. case_if; [apply step_ok_refl|].
  destruct ep; [apply step_ok_refl| |]; case_if; step_fields.
Qed.

Lemma request_promotion_step id p : step_ok p (request_promotion id p).
Proof. unfold request_promotion. step_cases; step_fields. Qed.

Lemma set_endpoint_step d configured ep p p' changed :
  set_endpoint_locked d configured ep p = Some (p', changed) → step_ok p p'.
Proof.
  unfold set_endpoint_locked. destruct ep; [done| |];
    repeat case_if; intros H; apply (inj Some) in H; apply (f_equal fst) in H; cbn [fst] in H;
    subst p'; step_fields.
Qed.

Lemma is_socket_true o s : is_socket o s = true ↔ o = Some s.
Proof. unfold is_socket. by rewrite bool_decide_eq_true. Qed.

Lemma publish_step s p : step_ok p (wg_tcp_publish_outbound_established_locked s p).2.
Proof.
  unfold wg_tcp_publish_outbound_established_locked. case_if; [apply step_ok_refl|].
  simpl_guards. rewrite !is_socket_true in *. destruct_and!. split; [reflexivity|].
  unfold flags_grow. cbn. split_and!; [right; congruence|done|right; congruence].
Qed.
#[export] Hint Resolve data_ready_step schedule_write_step write_space_step fail_exact_step
  request_reconnect_step retry_claim_step schedule_retry_step queue_bootstrap_step
  cancel_workers_step publish_step roam_step request_promotion_step : steps.

(** The parts of the sockets the invariant is about. *)
Definition wiring (k : ksock) :=
  (ks_releases k, ks_user_data k, ks_state_change k, ks_write_space k, ks_data_ready k).

Definition same_wiring (ks ks' : sockets) : Prop :=
  ∀ s, wiring <$> ks' !! s = wiring <$> ks !! s.

Lemma same_wiring_refl ks : same_wiring ks ks.
Proof. done. Qed.
#[export] Hint Resolve same_wiring_refl : steps.

Lemma wiring_eq k k' :
  wiring k' = wiring k →
  ks_releases k' = ks_releases k ∧ ks_user_data k' = ks_user_data k ∧
  ks_state_change k' = ks_state_change k ∧ ks_write_space k' = ks_write_space k ∧
  ks_data_ready k' = ks_data_ready k.
Proof. unfold wiring. by intros [= -> -> -> -> ->]. Qed.

Lemma bare_wiring k k' : wiring k' = wiring k → bare k → bare k'.
Proof. intros (_&?&?&?&?)%wiring_eq. unfold bare. by intros (?&?&?&?); split_and!; congruence. Qed.

Lemma wired_step p p' s b k k' :
  ownership p' = ownership p → wiring k' = wiring k → wired p s b k → wired p' s b k'.
Proof.
  unfold ownership. intros [= Hid _ _ Hid1 Hcb1 _ Hod Hocb] Hw.
  pose proof (bare_wiring _ _ Hw) as Hbare. apply wiring_eq in Hw as (Hr&Hu&H1&H2&H3).
  unfold wired, dir_data, dir_callbacks, wraps. rewrite Hr, Hid. intros [-> H]. split; [done|].
  destruct b; [rewrite Hid1, Hcb1|rewrite Hod, Hocb]; rewrite Hu, H1, H2, H3;
    [destruct (tcp_inbound_socket_data p)|destruct (tcp_outbound_socket_data p)];
    destruct H; auto.
Qed.

Lemma vacant_step p p' b : step_ok p p' → vacant b p → vacant b p'.
Proof.
  intros [Ho (_&Hi&Hou)]. unfold ownership in Ho. injection Ho as _ _ H1 H2 H3 H4 H5 H6.
  unfold vacant, dir_socket, dir_data, dir_callbacks, dir_connected.
  destruct b; [rewrite H1, H2, H3|rewrite H4, H5, H6]; intros (?&?&?&?); split_and!; try done;
    apply not_true_is_false; naive_solver congruence.
Qed.

Lemma own_step p p' ks ks' : step_ok p p' → same_wiring ks ks' → own p ks → own p' ks'.
Proof.
  intros Hs Hw Hown. pose proof Hs as [Ho (He&_&_)].
  assert (peer_socket p' = peer_socket p ∧ ∀ b, dir_socket b p' = dir_socket b p) as [Hps Hds].
  { unfold ownership in Ho. injection Ho as _ ? ? _ _ ? _ _. split; [done|]. by intros []. }
  destruct Hown as [Hn Hv1 Hv2 Hest|s b k Hps' Hd Hv Hk Hwd].
  - apply own_none; [by rewrite Hps|by eapply vacant_step|by eapply vacant_step|].
    apply not_true_is_false. intros [?|?]%He; congruence.
  - specialize (Hw s). rewrite Hk in Hw. cbn in Hw.
    destruct (ks' !! s) as [k'|] eqn:Hk'; [|done]. apply (inj Some) in Hw.
    eapply (own_some _ _ s b k'); [by rewrite Hps|by rewrite Hds|by eapply vacant_step|done|].
    by eapply wired_step.
Qed.

Lemma inv_step F w w' :
  step_ok (t_peer w) (t_peer w') → same_wiring (t_socks w) (t_socks w') → inv F w → inv F w'.
Proof.
  intros Hs Hw [Hown Hf Hr].
  assert (peer_socket (t_peer w') = peer_socket (t_peer w)) as Hps.
  { destruct Hs as [Ho _]. unfold ownership in Ho. by injection Ho. }
  split; [by eapply own_step|by rewrite Hps|]. rewrite Hps. intros s k Hk HF Hne.
  specialize (Hw s). rewrite Hk in Hw. cbn in Hw. destruct (t_socks w !! s) as [k0|] eqn:Hk0; [|done].
  apply (inj Some) in Hw. destruct (Hr s k0 Hk0 HF Hne) as [Hr0 Hb].
  split; [|by eapply bare_wiring]. by apply wiring_eq in Hw as [-> _].
Qed.

Lemma inbound_closed_step p : step_ok p (inbound_closed p).1.
Proof. unfold inbound_closed, clear_established. step_cases; step_fields. Qed.

Lemma outbound_closed_step p : step_ok p (outbound_closed p).1.
Proof. unfold outbound_closed, clear_established. step_cases; step_fields. Qed.

Lemma outbound_opened_step p s : step_ok p (outbound_opened p s).1.
Proof.
  unfold outbound_opened. pose proof (publish_step s p) as Hp.
  destruct (wg_tcp_publish_outbound_established_locked s p) as [first p1]. cbn in Hp.
  case_if; cbn; [|done]. eapply step_ok_trans; [exact Hp|step_fields].
Qed.
#[export] Hint Resolve inbound_closed_step outbound_closed_step outbound_opened_step : steps.

Lemma state_change_locked_step w s :
  step_ok (t_peer w) (t_peer (state_change_locked w s).1) ∧
  t_socks (state_change_locked w s).1 = t_socks w ∧ t_dev (state_change_locked w s).1 = t_dev w.
Proof.
  unfold state_change_locked. destruct (t_socks w !! s) as [k|]; [|by auto with steps].
  destruct (ks_user_data k) as [sd|]; [|by auto with steps].
  case_if; [by auto with steps|].
  match goal with |- context [let '(_, _) := ?x in _] => assert (step_ok (t_peer w) x.1) as H end.
  { repeat case_if; cbn; auto with steps. step_fields. }
  destruct (_ : wg_peer * change_actions) as [p' a]. by split_and!.
Qed.

Lemma state_change_finish_step w s a :
  step_ok (t_peer w) (t_peer (state_change_finish w s a).1).
Proof.
  unfold state_change_finish. cbn.
  eapply step_ok_trans with (match ca_bootstrap a with
    Some s => wg_tcp_queue_carrier_bootstrap s (t_peer w) | None => t_peer w end).
  { destruct (ca_bootstrap a); auto with steps. }
  repeat case_if; step_fields.
Qed.

Lemma run_event_step w ev :
  step_ok (t_peer w) (t_peer (run_event w ev)) ∧ same_wiring (t_socks w) (t_socks (run_event w ev)).
Proof.
  destruct ev; cbn [run_event]; try (split; [by cbn; auto with steps|done]).
  - split; [by cbn; auto with steps|]. intros s. cbn. destruct (decide (socket = s)) as [->|Hne].
    + rewrite lookup_alter_eq. by destruct (t_socks w !! s).
    + by rewrite lookup_alter_ne.
  - destruct (state_change_locked_step w socket) as (?&->&_). auto with steps.
  - split; [apply state_change_finish_step|done].
  - split; [step_fields|done].
  - split; [step_fields|done].
  - destruct (set_endpoint_locked _ _ _ _) as [[p' c]|] eqn:He; [|by auto with steps].
    split; [by eapply set_endpoint_step|done].
Qed.

Lemma same_wiring_trans ks1 ks2 ks3 :
  same_wiring ks1 ks2 → same_wiring ks2 ks3 → same_wiring ks1 ks3.
Proof. intros H1 H2 s. by rewrite H2. Qed.

Lemma run_events_step evs w :
  step_ok (t_peer w) (t_peer (run_events evs w)) ∧
  same_wiring (t_socks w) (t_socks (run_events evs w)).
Proof.
  revert w. induction evs as [|ev evs IH]; intros w; [by auto with steps|].
  destruct (run_event_step w ev) as [H1 H2], (IH (run_event w ev)) as [H3 H4].
  split; [by eapply step_ok_trans|by eapply same_wiring_trans].
Qed.

Lemma run_events_inv F evs w : inv F w → inv F (run_events evs w).
Proof. destruct (run_events_step evs w). by apply inv_step. Qed.

(** ** Giving a socket up *)

Definition unhooked_peer (b : bool) (p : wg_peer) : wg_peer :=
  set_dir_callbacks b false (set_dir_data b None p).

(** The peer after it gave up the one socket it had. *)
Definition given_up (b : bool) (p : wg_peer) : wg_peer :=
  let p := (unhooked_peer b p){{ peer_socket := None; read_state := (None, 0, 0);
             tcp_pending := false; tcp_retry_scheduled := false }} in
  let p := if b then p{{ inbound_socket := None; inbound_connected := false }}
           else p{{ outbound_socket := None; outbound_connected := false }} in
  p{{ tcp_established := false; send_queue := [] }}.

Lemma is_socket_refl s : is_socket (Some s) s = true.
Proof. by apply is_socket_true. Qed.

Lemma is_socket_None s : is_socket None s = false.
Proof. done. Qed.

Lemma unhooked_peer_id b p :
  dir_data b p = None → dir_callbacks b p = false → unhooked_peer b p = p.
Proof. destruct p, b; cbn; by intros -> ->. Qed.

Lemma reset_callbacks_spec w s b k :
  dir_socket b (t_peer w) = Some s → t_socks w !! s = Some k → wired (t_peer w) s b k →
  ∃ k', wg_reset_tcp_socket_callbacks s b w
        = (0, mk_tcp (t_dev w) (unhooked_peer b (t_peer w)) (<[s := k']> (t_socks w))) ∧
    bare k' ∧ ks_releases k' = 0%nat.
Proof.
  intros Hd Hk [Hr Hw]. unfold wg_reset_tcp_socket_callbacks.
  rewrite Hk, Hd, is_socket_refl. cbn [negb].
  destruct (dir_data b (t_peer w)) as [sd|] eqn:Hsd.
  - destruct Hw as [-> (Hsd'&Hu&H1&H2&H3)]. destruct sd as [i sp ss si c1 c2 c3]. cbn in Hsd'.
    injection Hsd' as -> -> -> -> -> ->. cbn [sd_peer sd_socket sd_inbound negb].
    rewrite !Z.eqb_refl, eqb_reflx. cbn [negb orb].
    eexists. split; [by destruct w|].
    unfold bare, unhook. cbn. by rewrite H1, H2, H3, Hu, !bool_decide_true by done.
  - destruct Hw as [Hcb Hb]. rewrite Hcb. exists k. split; [|done].
    assert (hooked k = false) as ->.
    { destruct Hb as (_&H1&H2&H3). unfold hooked. by rewrite H1, H2, H3. }
    cbn. rewrite unhooked_peer_id, insert_id by done. by destruct w.
Qed.

Lemma reset_exact_spec w s b k :
  dir_socket b (t_peer w) = Some s → vacant (negb b) (t_peer w) →
  t_socks w !! s = Some k → wired (t_peer w) s b k →
  ∃ k', wg_reset_exact_tcp_socket_callbacks s w
        = (0, mk_tcp (t_dev w) (unhooked_peer b (t_peer w)) (<[s := k']> (t_socks w))) ∧
    bare k' ∧ ks_releases k' = 0%nat.
Proof.
  intros Hd (Hv&_) Hk Hw.
  destruct (reset_callbacks_spec w s b k Hd Hk Hw) as (k'&Hr&Hb). exists k'. split; [|done].
  unfold wg_reset_exact_tcp_socket_callbacks, dir_owned. rewrite <- Hr.
  destruct b; cbn in Hd, Hv; cbn [dir_socket]; rewrite Hd, Hv, is_socket_refl, is_socket_None;
    cbn [negb andb]; rewrite ?andb_false_r; by case_if.
Qed.

Lemma sock_release_insert d p ks s k :
  sock_release s (mk_tcp d p (<[s := k]> ks)) = mk_tcp d p (<[s := k{{ ks_releases ::= S }}]> ks).
Proof.
  transitivity (mk_tcp d p (alter (λ k, k{{ ks_releases ::= S }}) s (<[s := k]> ks))); [done|].
  by rewrite alter_insert_eq.
Qed.

Lemma release_spec w s b :
  peer_socket (t_peer w) = Some s → dir_socket b (t_peer w) = Some s →
  dir_data b (t_peer w) = None → dir_callbacks b (t_peer w) = false →
  vacant (negb b) (t_peer w) →
  wg_release_peer_socket_locked s w = (0, sock_release s (w{{ t_peer := given_up b (t_peer w) }})).
Proof.
  intros Hp Hd Hda Hcb (Hv1&Hv2&Hv3&Hv4).
  unfold given_up. cbn zeta. rewrite unhooked_peer_id by done.
  unfold wg_release_peer_socket_locked. cbn zeta. rewrite Hp, is_socket_refl.
  destruct b; cbn in Hd, Hda, Hcb, Hv1; rewrite Hd, Hv1, is_socket_refl, is_socket_None, Hda, Hcb;
    cbn [negb andb orb isSome]; done.
Qed.

(** Giving up the owned socket succeeds, restores the socket's callbacks and
    releases it once. *)
Lemma detach_release_spec w s b k :
  peer_socket (t_peer w) = Some s → dir_socket b (t_peer w) = Some s →
  vacant (negb b) (t_peer w) → t_socks w !! s = Some k → wired (t_peer w) s b k →
  ∃ k', detach_and_release s w
        = (0, mk_tcp (t_dev w) (given_up b (t_peer w)) (<[s := k']> (t_socks w))) ∧
    bare k' ∧ ks_releases k' = 1%nat.
Proof.
  intros Hp Hd Hv Hk Hw. unfold detach_and_release.
  destruct (reset_exact_spec w s b k Hd Hv Hk Hw) as (k1&->&Hb&Hr). rewrite Z.eqb_refl.
  rewrite (release_spec _ s b); cbn [t_peer]; try (by destruct b).
  exists (k1{{ ks_releases ::= S }}). split; [|split; [exact Hb|cbn; by rewrite Hr]].
  assert (given_up b (unhooked_peer b (t_peer w)) = given_up b (t_peer w)) as -> by (by destruct b).
  exact (f_equal (pair 0) (sock_release_insert _ _ _ s k1)).
Qed.

Lemma own_given_up b p ks : vacant (negb b) p → own (given_up b p) ks.
Proof. intros Hv. destruct b; by apply own_none. Qed.

Lemma inv_given_up F w s b k' :
  inv F w → peer_socket (t_peer w) = Some s → vacant (negb b) (t_peer w) →
  bare k' → ks_releases k' = 1%nat →
  inv F (mk_tcp (t_dev w) (given_up b (t_peer w)) (<[s := k']> (t_socks w))).
Proof.
  intros [Hown Hf Hr] Hp Hv Hb Hk'. split; cbn.
  - by apply own_given_up.
  - by destruct b.
  - intros s' k Hk HF _. apply lookup_insert_Some in Hk as [[<- <-]|[Hne Hk]]; [done|].
    apply (Hr s'); [done|done|congruence].
Qed.

(** Giving up any socket keeps the invariant, and if it is the peer's, the peer
    has none afterwards. *)
Lemma detach_release_inv F w s :
  inv F w → peer_socket (t_peer w) = Some s →
  let '(ret, w') := detach_and_release s w in
  ret = 0 ∧ inv F w' ∧ t_dev w' = t_dev w ∧ (∃ b, t_peer w' = given_up b (t_peer w)) ∧
  (∃ k, t_socks w' !! s = Some k ∧ ks_releases k = 1%nat ∧ bare k) ∧
  (∀ s', s' ≠ s → t_socks w' !! s' = t_socks w !! s').
Proof.
  intros Hinv Hp. destruct (inv_own _ _ Hinv) as [Hn|s' b k Hp' Hd Hv Hk Hw]; [congruence|].
  assert (s' = s) as -> by congruence.
  destruct (detach_release_spec w s b k Hp Hd Hv Hk Hw) as (k'&->&Hb&Hr).
  split_and!; [done|by apply inv_given_up|done|by exists b| |].
  - exists k'. cbn. by rewrite lookup_insert_eq.
  - intros s' Hne. cbn. by rewrite lookup_insert_ne.
Qed.

(** ** Hooking a socket *)
Lemma setup_spec F w e s b :
  inv F w → peer_socket (t_peer w) = Some s → dir_socket b (t_peer w) = Some s →
  let '(ret, w') := wg_setup_tcp_socket_callbacks e s b w in
  (ret ≠ 0 ∧ w' = w) ∨
  (ret = 0 ∧ inv F w' ∧ t_dev w' = t_dev w ∧ dir_callbacks b (t_peer w') = true ∧
   (w' = w ∨ ∃ sd, t_peer w' = set_dir_callbacks b true (set_dir_data b (Some sd) (t_peer w)))).
Proof.
  intros Hinv Hp Hd. pose proof Hinv as [Hown Hf Hr].
  destruct Hown as [Hn|s' b' k Hp' Hd' Hv Hk [Hrel Hw]]; [congruence|].
  assert (s' = s) as -> by congruence.
  assert (b' = b) as ->.
  { destruct Hv as [Hv _]. destruct b, b'; cbn in *; congruence. }
  unfold wg_setup_tcp_socket_callbacks. rewrite Hk.
  do 3 (case_if; [left; by split|]).
  destruct (dir_callbacks b (t_peer w)) eqn:Hcb.
  { destruct (dir_data b (t_peer w)); [case_if|]; [right; by split_and!; auto|left; by split..]. }
  destruct (dir_data b (t_peer w)) as [sd|] eqn:Hsd; [by destruct Hw|]. cbn [isSome].
  destruct Hw as [_ (Hu&H1&H2&H3)]. rewrite Hu. cbn [isSome]. right.
  unfold install. rewrite H1, H2, H3. set (sd := mk_socket_data _ _ _ _ _ _ _).
  split_and!; [done| |done|by destruct b|right; by exists sd].
  split; cbn.
  - eapply (own_some _ _ s b); [by destruct b|by destruct b| |by rewrite lookup_insert_eq|].
    + destruct Hv as (?&?&?&?). by destruct b.
    + unfold wired. cbn. split; [done|]. destruct b; by cbn.
  - destruct b; exact Hf.
  - intros s' k' Hk' HF Hne. apply lookup_insert_Some in Hk' as [[<- <-]|[Hn' Hk']].
    + destruct b; by destruct Hne.
    + apply (Hr s'); [done|done|]. destruct b; exact Hne.
Qed.

(** ** Unwinding a failed attempt *)
Lemma unwind_publish_peer unowned w :
  step_ok (t_peer w) (t_peer (unwind_publish unowned w)) ∧
  tcp_connecting (t_peer (unwind_publish unowned w)) = false ∧
  tcp_pending (t_peer (unwind_publish unowned w)) = false ∧
  t_socks (unwind_publish unowned w)
  = match unowned with
    | Some s => alter (λ k, k{{ ks_releases ::= S }}) s (t_socks w)
    | None => t_socks w
    end.
Proof.
  unfold unwind_publish. cbn zeta. destruct unowned; repeat case_if;
    (split; [step_fields|by split_and!]).
Qed.

(** A socket that belongs to nobody yet. *)
Definition unclaimed (F : gset Z) (s : Z) (w : tcp) : Prop :=
  inv ({[ s ]} ∪ F) w ∧ (s ∉ F) ∧ ∃ k, t_socks w !! s = Some k ∧ bare k ∧ ks_releases k = 0%nat.

Lemma release_unclaimed F s w w' :
  unclaimed F s w → step_ok (t_peer w) (t_peer w') →
  t_socks w' = alter (λ k, k{{ ks_releases ::= S }}) s (t_socks w) → inv F w'.
Proof.
  intros ([Hown Hf Hr]&HF&k&Hk&Hb&Hrel) Hstep Hs.
  assert (Hps : peer_socket (t_peer w') = peer_socket (t_peer w)).
  { destruct Hstep as [Ho _]. unfold ownership in Ho. by injection Ho. }
  assert (Hne : peer_socket (t_peer w) ≠ Some s) by (intros ?%Hf; set_solver).
  assert (Hlk : ∀ s', s' ≠ s → t_socks w' !! s' = t_socks w !! s').
  { intros. by rewrite Hs, lookup_alter_ne. }
  split.
  - destruct Hown as [Hn Hv1 Hv2 He|s' b k' Hp Hd Hv Hk' Hw].
    + eapply own_step; [exact Hstep|apply same_wiring_refl|by apply own_none].
    + eapply own_step; [exact Hstep|apply same_wiring_refl|].
      eapply (own_some _ _ s' b k'); try done. rewrite Hlk; congruence.
  - rewrite Hps. intros s' ?%Hf. set_solver.
  - rewrite Hps. intros s' k' Hk' HF' Hne'. destruct (decide (s' = s)) as [->|Hne2].
    + rewrite Hs, lookup_alter_eq, Hk in Hk'. cbn in Hk'. apply (inj Some) in Hk' as <-.
      cbn. by rewrite Hrel.
    + rewrite Hlk in Hk' by done. apply (Hr s'); [done|set_solver|done].
Qed.

Lemma unclaimed_events F s w evs : unclaimed F s w → unclaimed F s (run_events evs w).
Proof.
  intros (Hi&HF&k&Hk&Hb&Hr). split; [by apply run_events_inv|]. split; [done|].
  destruct (run_events_step evs w) as [_ Hw]. specialize (Hw s). rewrite Hk in Hw.
  destruct (t_socks (run_events evs w) !! s) as [k'|]; [|done]. cbn in Hw.
  apply (inj Some) in Hw. exists k'. split; [done|]. split; [by eapply bare_wiring|].
  by apply wiring_eq in Hw as [-> _].
Qed.

Lemma step_peer_socket p p' : step_ok p p' → peer_socket p' = peer_socket p.
Proof. intros [Ho _]. unfold ownership in Ho. by injection Ho. Qed.

Lemma inv_peer F w p : step_ok (t_peer w) p → inv F w → inv F (w{{ t_peer := p }}).
Proof. intros Hs. by apply inv_step. Qed.

Lemma inv_upd F w f : step_ok (t_peer w) (f (t_peer w)) → inv F w → inv F (w{{ t_peer ::= f }}).
Proof. intros Hs. by apply inv_step. Qed.

(** The fields of an attempt in progress. *)
Definition attempt_step (p p' : wg_peer) : Prop :=
  tcp_connecting p' = tcp_connecting p ∧ (tcp_pending p' = true → tcp_pending p = true).

Lemma attempt_step_refl p : attempt_step p p.
Proof. by split. Qed.
#[export] Hint Resolve attempt_step_refl : steps.

Ltac attempt_fields := repeat case_if; cbn; (split; [reflexivity|cbn; auto; try discriminate]).

Lemma state_change_locked_attempt w s :
  attempt_step (t_peer w) (t_peer (state_change_locked w s).1).
Proof.
  unfold state_change_locked. destruct (t_socks w !! s) as [k|]; [|by auto with steps].
  destruct (ks_user_data k) as [sd|]; [|by auto with steps].
  unfold outbound_opened, inbound_closed, outbound_closed, clear_established,
    wg_tcp_publish_outbound_established_locked.
  attempt_fields.
Qed.

Lemma run_event_attempt w ev : attempt_step (t_peer w) (t_peer (run_event w ev)).
Proof.
  destruct ev; cbn [run_event]; try apply state_change_locked_attempt;
    unfold state_change_finish, wg_tcp_data_ready, wg_tcp_write_space,
      wg_tcp_schedule_write_locked, wg_tcp_fail_exact_socket, wg_tcp_peer_request_reconnect_after,
      retry_claim, schedule_retry, wg_tcp_queue_carrier_bootstrap, set_endpoint_locked, roam_locked,
      request_promotion;
    try destruct (ca_bootstrap a); try destruct ep; attempt_fields.
Qed.

Lemma run_events_attempt evs w : attempt_step (t_peer w) (t_peer (run_events evs w)).
Proof.
  revert w. induction evs as [|ev evs IH]; intros w; [by auto with steps|].
  destruct (run_event_attempt w ev) as [H1 H2], (IH (run_event w ev)) as [H3 H4].
  split; [by rewrite <- H1|by auto].
Qed.

(** A socket that was given back. *)
Definition released_once (s : Z) (w : tcp) : Prop :=
  ∃ k, t_socks w !! s = Some k ∧ ks_releases k = 1%nat ∧ bare k.

(** The end of an attempt that failed. *)
Definition attempt_over (F : gset Z) (w : tcp) : Prop :=
  inv F w ∧ peer_socket (t_peer w) = None ∧ tcp_connecting (t_peer w) = false ∧
  tcp_pending (t_peer w) = false.

Lemma unwind_unowned F w gap :
  inv F w → peer_socket (t_peer w) = None → attempt_over F (wg_tcp_connect_unwind gap None w).
Proof.
  intros Hinv Hp. unfold wg_tcp_connect_unwind.
  destruct (unwind_publish_peer None (run_events gap w)) as (Hs&Hc&Hpe&Hk).
  destruct (run_events_step gap w) as [Hs1 Hw1].
  split; [|split_and!; [|done|done]].
  - eapply inv_step; [exact Hs|rewrite Hk; apply same_wiring_refl|by apply run_events_inv].
  - by rewrite (step_peer_socket _ _ Hs), (step_peer_socket _ _ Hs1).
Qed.

Lemma vacant_outbound F w : inv F w → peer_socket (t_peer w) = None → outbound_socket (t_peer w) = None.
Proof. intros [[_ _ [Hv _] _|] _ _] Hp; [done|congruence]. Qed.

Lemma unwind_unclaimed F w s gap :
  unclaimed F s w → peer_socket (t_peer w) = None →
  attempt_over F (wg_tcp_connect_unwind gap (Some s) w) ∧
  released_once s (wg_tcp_connect_unwind gap (Some s) w).
Proof.
  intros Hu Hp. pose proof (unclaimed_events F s w gap Hu) as Hu'.
  unfold wg_tcp_connect_unwind. rewrite Hp, (vacant_outbound _ _ (proj1 Hu) Hp). rewrite is_socket_None. cbn [orb].
  destruct (unwind_publish_peer (Some s) (run_events gap w)) as (Hs&Hc&Hpe&Hk).
  destruct (run_events_step gap w) as [Hs1 Hw1].
  split; [split; [by eapply release_unclaimed|split_and!; [|done|done]]|].
  - by rewrite (step_peer_socket _ _ Hs), (step_peer_socket _ _ Hs1).
  - destruct Hu' as (_&_&k&Hlk&Hb&Hr). exists (k{{ ks_releases ::= S }}).
    rewrite Hk, lookup_alter_eq, Hlk. cbn. by rewrite Hr.
Qed.

(** The claim and the drained workers in front of a release. *)
Lemma claimed_events F w s gap p :
  inv F w → peer_socket (t_peer w) = Some s → step_ok (t_peer w) p →
  let w' := (run_events gap (w{{ t_peer := p }})){{ t_peer ::= wg_tcp_cancel_stream_workers }} in
  inv F w' ∧ peer_socket (t_peer w') = Some s.
Proof.
  intros Hinv Hp Hs. cbn zeta. pose proof (inv_peer F w p Hs Hinv) as Hi1.
  destruct (run_events_step gap (w{{ t_peer := p }})) as [Hs1 _].
  pose proof (run_events_inv F gap _ Hi1) as Hi2.
  pose proof (eq_trans (step_peer_socket _ _ Hs1) (step_peer_socket _ _ Hs)) as Hp1.
  rewrite Hp in Hp1. clear Hi1 Hs1.
  set (w2 := run_events gap _) in *. clearbody w2. split.
  - apply (inv_step F w2); [apply cancel_workers_step|done|done].
  - exact (eq_trans (step_peer_socket _ _ (cancel_workers_step (t_peer w2))) Hp1).
Qed.

Lemma unwind_owned F w s gap :
  inv F w → peer_socket (t_peer w) = Some s →
  attempt_over F (wg_tcp_connect_unwind gap (Some s) w) ∧
  released_once s (wg_tcp_connect_unwind gap (Some s) w).
Proof.
  intros Hinv Hp. unfold wg_tcp_connect_unwind. rewrite Hp, is_socket_refl. cbn [orb].
  destruct (claimed_events F w s gap ((t_peer w){{ tcp_outbound_remove_scheduled := true;
    tcp_outbound_remove_socket := Some s }}) Hinv Hp ltac:(step_fields)) as [Hi3 Hp3].
  cbn zeta. set (w2 := set t_peer _ (run_events gap _)) in *. clearbody w2.
  pose proof (detach_release_inv F _ s Hi3 Hp3) as Hd.
  destruct (detach_and_release s w2) as [ret w3].
  destruct Hd as (->&Hi&_&[b Hb]&(k&Hk&Hr&Hba)&_). rewrite Z.eqb_refl. cbn [negb].
  destruct (unwind_publish_peer None w3) as (Hs&Hc&Hpe&Hks).
  split; [split; [|split_and!; [|done|done]]|exists k; by rewrite Hks].
  - eapply inv_step; [exact Hs|rewrite Hks; apply same_wiring_refl|done].
  - rewrite (step_peer_socket _ _ Hs), Hb. by destruct b.
Qed.

(** ** Connecting *)
Lemma adopt_inv F s b w p :
  unclaimed F s w → peer_socket (t_peer w) = None →
  peer_socket p = Some s → dir_socket b p = Some s → vacant (negb b) p →
  dir_data b p = None → dir_callbacks b p = false → inv F (w{{ t_peer := p }}).
Proof.
  intros ([_ Hf Hr]&HF&k&Hk&Hb&Hrel) Hn Hp Hd Hv Hda Hcb. split; cbn.
  - eapply (own_some _ _ s b k); try done. unfold wired. by rewrite Hda.
  - rewrite Hp. by intros ? [= <-].
  - rewrite Hp, Hn in *. intros s' k' Hk' HF' Hne. apply (Hr s'); [done|set_solver|done].
Qed.

Lemma create_unclaimed F s w k :
  inv F w → peer_socket (t_peer w) = None → t_socks w !! s = None → s ∉ F →
  bare k → ks_releases k = 0%nat → unclaimed F s (w{{ t_socks ::= <[s := k]> }}).
Proof.
  intros [Hown Hf Hr] Hn Hs HF Hb Hk. split; [split|split; [done|]]; cbn.
  - destruct Hown; [by apply own_none|congruence].
  - rewrite Hn. done.
  - intros s' k' Hk' HF' Hne. rewrite lookup_insert_ne in Hk' by set_solver.
    apply (Hr s'); [done|set_solver|done].
  - exists k. by rewrite lookup_insert_eq.
Qed.

Lemma vacant_of_none F w b : inv F w → peer_socket (t_peer w) = None → vacant b (t_peer w).
Proof. intros [[_ H1 H2 _|] _ _] Hp; [by destruct b|congruence]. Qed.

Definition watched (p : wg_peer) : Prop :=
  tcp_pending p = true → tcp_retry_scheduled p = true ∨ tcp_outbound_remove_scheduled p = true.

Lemma finish_decision_spec s p :
  step_ok p (finish_decision s p) ∧ tcp_connecting (finish_decision s p) = tcp_connecting p ∧
  tcp_pending (finish_decision s p) = tcp_pending p ∧ watched (finish_decision s p).
Proof.
  unfold finish_decision, watched.
  destruct (tcp_pending p) eqn:Hpe, (tcp_retry_scheduled p) eqn:Hrs;
    repeat case_if; (split; [step_fields|]); cbn; rewrite ?Hpe, ?Hrs; split_and!; by auto.
Qed.

Lemma publish_spec s p :
  let '(first, p') := wg_tcp_publish_outbound_established_locked s p in
  tcp_connecting p' = tcp_connecting p ∧ (first = true → tcp_pending p' = false).
Proof. unfold wg_tcp_publish_outbound_established_locked. by case_if. Qed.

Lemma connect_finish_spec w s :
  let '(w', bootstrap) := connect_finish w s in
  step_ok (t_peer w) (t_peer w') ∧ t_socks w' = t_socks w ∧ t_dev w' = t_dev w ∧
  tcp_connecting (t_peer w') = false ∧ watched (t_peer w') ∧
  (bootstrap = true → tcp_pending (t_peer w') = false).
Proof.
  unfold connect_finish.
  set (p0 := (t_peer w){{ tcp_connecting := false }}).
  assert (H0 : step_ok (t_peer w) p0) by step_fields.
  assert (Hc0 : tcp_connecting p0 = false) by done. clearbody p0. cbn zeta.
  set (est := match t_socks w !! s with Some _ => _ | None => _ end). clearbody est.
  set (q := if est then _ else _).
  assert (step_ok p0 q.2 ∧ tcp_connecting q.2 = false ∧ (q.1 = true → tcp_pending q.2 = false))
    as (H1&Hc1&Hb1).
  { unfold q. destruct est; [|by cbn; split; [auto with steps|split]]. pose proof (publish_step s p0) as Hs.
    pose proof (publish_spec s p0) as Hp.
    destruct (wg_tcp_publish_outbound_established_locked s p0) as [first p1].
    destruct Hp. split_and!; [exact Hs|cbn; congruence|done]. }
  destruct q as [bootstrap p1]. cbn [fst snd] in *.
  destruct (finish_decision_spec s p1) as (H2&Hc2&Hp2&Hw).
  split_and!; [|done|done| |exact Hw|].
  - exact (step_ok_trans _ _ _ H0 (step_ok_trans _ _ _ H1 H2)).
  - exact (eq_trans Hc2 Hc1).
  - intros Hb. exact (eq_trans Hp2 (Hb1 Hb)).
Qed.

(** What an attempt with the created socket [s] leads to. *)
Definition attempt_result (F : gset Z) (s ret : Z) (w : tcp) : Prop :=
  (ret ≠ 0 ∧ attempt_over F w ∧ released_once s w) ∨
  (ret = 0 ∧ inv F w ∧ peer_socket (t_peer w) = Some s ∧ outbound_socket (t_peer w) = Some s ∧
   tcp_outbound_callbacks_set (t_peer w) = true ∧ tcp_connecting (t_peer w) = false).

Lemma step_ownership p p' :
  step_ok p p' →
  outbound_socket p' = outbound_socket p ∧
  tcp_outbound_callbacks_set p' = tcp_outbound_callbacks_set p ∧
  inbound_socket p' = inbound_socket p ∧
  tcp_inbound_callbacks_set p' = tcp_inbound_callbacks_set p ∧ internal_id p' = internal_id p.
Proof. intros [Ho _]. unfold ownership in Ho. injection Ho as ? ? ? ? ? ? ? ?. by split_and!. Qed.

Lemma connect_socket_spec F w e s :
  inv F w → peer_socket (t_peer w) = None → t_socks w !! s = None → s ∉ F →
  let '(ret, w', bootstrap) := connect_socket e s w in
  attempt_result F s ret w' ∧ watched (t_peer w') ∧
  (bootstrap = true → ret = 0 ∧ tcp_pending (t_peer w') = false).
Proof.
  intros Hinv Hp Hs HF. unfold connect_socket. cbn zeta.
  set (w1 := w{{ t_socks ::= _ }}).
  assert (Hu : unclaimed F s w1) by (apply create_unclaimed; done).
  assert (Hfail : ∀ ret w', ret ≠ 0 →
    attempt_over F w' ∧ released_once s w' →
    attempt_result F s ret w' ∧ watched (t_peer w') ∧
    (false = true → ret = 0 ∧ tcp_pending (t_peer w') = false)).
  { intros ret w' Hret [Ho Hr]. split; [left; by split_and!|].
    split; [|done]. intros Hpe. destruct Ho as (_&_&_&Hf). by rewrite Hf in Hpe. }
  case_if; [apply Hfail; [done|by apply unwind_unclaimed]|].
  set (w2 := w1{{ t_peer := _ }}).
  assert (Hi2 : inv F w2).
  { destruct (vacant_of_none _ _ false Hinv Hp) as (_&?&?&_).
    by apply (adopt_inv F s false w1); [| | | |apply (vacant_of_none _ _ true Hinv Hp)| |]. }
  pose proof (run_events_inv F (ce_gap_setup e) w2 Hi2) as Hi3.
  destruct (run_events_step (ce_gap_setup e) w2) as [Hs3 _].
  set (w3 := run_events (ce_gap_setup e) w2) in *.
  assert (Hp3 : peer_socket (t_peer w3) = Some s) by (by rewrite (step_peer_socket _ _ Hs3)).
  assert (Ho3 : dir_socket false (t_peer w3) = Some s)
    by (cbn; by destruct (step_ownership _ _ Hs3) as [-> _]).
  pose proof (setup_spec F w3 (ce_setup e) s false Hi3 Hp3 Ho3) as Hset.
  destruct (wg_setup_tcp_socket_callbacks (ce_setup e) s false w3) as [ret w4].
  destruct Hset as [[Hret ->]|(->&Hi4&_&Hcb4&Hw4)].
  { rewrite (proj2 (Z.eqb_neq ret 0) Hret). apply Hfail; [done|by apply unwind_owned]. }
  rewrite Z.eqb_refl. cbn [negb].
  assert (Hp4 : peer_socket (t_peer w4) = Some s) by (destruct Hw4 as [->|[sd ->]]; done).
  pose proof (run_events_inv F (ce_gap_connect e) w4 Hi4) as Hi5.
  destruct (run_events_step (ce_gap_connect e) w4) as [Hs5 _].
  set (w5 := run_events (ce_gap_connect e) w4) in *.
  assert (Hp5 : peer_socket (t_peer w5) = Some s) by (by rewrite (step_peer_socket _ _ Hs5)).
  destruct (negb (ce_connect e =? -EINPROGRESS) && negb (ce_connect e =? 0)) eqn:Hc.
  { apply Hfail; [|by apply unwind_owned]. simpl_guards. by destruct Hc. }
  destruct (connect_usable (t_dev w5) (t_peer w5) s (t_socks w5 !! s)) eqn:Hus; cbn [negb].
  2: { apply Hfail; [done|by apply unwind_owned]. }
  assert (Ho5 : outbound_socket (t_peer w5) = Some s).
  { unfold connect_usable in Hus. rewrite !andb_true_iff in Hus. destruct Hus as [[_ H] _].
    by apply is_socket_true. }
  pose proof (connect_finish_spec w5 s) as Hfin.
  destruct (connect_finish w5 s) as [w6 bootstrap].
  destruct Hfin as (Hs6&Hk6&_&Hc6&Hwatch&Hboot).
  destruct (step_ownership _ _ Hs6) as (Ho6&Hcb6&_), (step_ownership _ _ Hs5) as (_&Hcb5&_).
  split; [|split; [exact Hwatch|by auto]]. right. split_and!; [done| | | | |done].
  - eapply inv_step; [exact Hs6|rewrite Hk6; apply same_wiring_refl|done].
  - by rewrite (step_peer_socket _ _ Hs6).
  - by rewrite Ho6.
  - by rewrite Hcb6, Hcb5.
Qed.

(** The socket numbers the kernel hands out are new. *)
Definition fresh_socket (F : gset Z) (e : connect_env) (w : tcp) : Prop :=
  ∀ s, ce_create e = Ok s → t_socks w !! s = None ∧ s ∉ F.

(** No socket was created. *)
Definition no_socket (e : connect_env) (w' : tcp) : Prop :=
  ∀ s, ce_create e = Ok s → t_socks w' !! s = None.

Lemma same_wiring_None ks ks' s : same_wiring ks ks' → ks !! s = None → ks' !! s = None.
Proof. intros Hw Hs. specialize (Hw s). rewrite Hs in Hw. by destruct (ks' !! s). Qed.

(** What a call of [wg_tcp_connect] achieves. *)
Definition connect_post (F : gset Z) (e : connect_env) (w : tcp) (ret : Z) (w' : tcp) : Prop :=
  inv F w' ∧ (tcp_connecting (t_peer w) = false → tcp_connecting (t_peer w') = false) ∧
  (no_socket e w' ∧ peer_socket (t_peer w') = peer_socket (t_peer w) ∨
   ∃ s, ce_create e = Ok s ∧ attempt_result F s ret w' ∧ watched (t_peer w')).

Lemma connect_attempt_spec F e w :
  inv F w → fresh_socket F e w → peer_socket (t_peer w) = None →
  connect_post F e w (connect_attempt e w).1 (connect_attempt e w).2.
Proof.
  intros Hinv Hfr Hp. unfold connect_attempt.
  set (w0 := w{{ t_peer := _ }}).
  assert (Hi0 : inv F w0).
  { apply inv_peer; [|done]. destruct (vacant_of_none _ _ false Hinv Hp) as (_&_&Hcb&_).
    cbn in Hcb. split; [unfold ownership; cbn; by rewrite Hcb|].
    split_and!; cbn; auto; discriminate. }
  pose proof (run_events_inv F (ce_gap_create e) w0 Hi0) as Hi1.
  destruct (run_events_step (ce_gap_create e) w0) as [Hs1 Hw1].
  set (w1 := run_events (ce_gap_create e) w0) in *.
  assert (Hp1 : peer_socket (t_peer w1) = None) by (by rewrite (step_peer_socket _ _ Hs1)).
  assert (Hcreate : ∀ s, ce_create e = Ok s → t_socks w1 !! s = None ∧ s ∉ F).
  { intros s [Hs HF]%Hfr. split; [by eapply same_wiring_None|done]. }
  assert (Hnone : ∀ ret, connect_post F e w ret (wg_tcp_connect_unwind (ce_gap_unwind e) None w1)).
  { intros ret. destruct (unwind_unowned F w1 (ce_gap_unwind e) Hi1 Hp1) as (?&?&?&?).
    split_and!; [done|done|]. left. split; [|congruence]. intros s [Hs _]%Hcreate.
    unfold wg_tcp_connect_unwind. destruct (unwind_publish_peer None (run_events (ce_gap_unwind e) w1))
      as (_&_&_&->). eapply same_wiring_None; [apply run_events_step|done]. }
  case_if; [apply Hnone|]. destruct (ce_create e) as [s|r] eqn:Hc; [|apply Hnone].
  destruct (Hcreate s eq_refl) as [Hs HF].
  pose proof (connect_socket_spec F w1 e s Hi1 Hp1 Hs HF) as H.
  destruct (connect_socket e s w1) as [[ret w2] bootstrap]. destruct H as (Hres&Hwatch&Hboot).
  destruct bootstrap; cbn [fst snd].
  2: { split_and!; [by destruct Hres as [(_&[]&_)|(_&?&_)]| |right; exists s; by split_and!].
       intros _. by destruct Hres as [(_&(_&_&?&_)&_)|(_&_&_&_&_&?)]. }
  destruct (Hboot eq_refl) as [-> Hpe]. destruct Hres as [(?&_)|(_&Hi2&Hp2&Ho2&Hcb2&Hc2)]; [done|].
  destruct (run_events_step (ce_gap_return e) w2) as [Hs3 _].
  destruct (run_events_attempt (ce_gap_return e) w2) as [Hc3 Hpe3].
  pose proof (run_events_inv F (ce_gap_return e) w2 Hi2) as Hi3.
  set (w3 := run_events (ce_gap_return e) w2) in *.
  pose proof (queue_bootstrap_step s (t_peer w3)) as Hs4.
  pose proof (step_ok_trans _ _ _ Hs3 Hs4) as H34. destruct (step_ownership _ _ H34) as (Ho&Hcb&_).
  assert (tcp_connecting (wg_tcp_queue_carrier_bootstrap s (t_peer w3)) = false ∧
          tcp_pending (wg_tcp_queue_carrier_bootstrap s (t_peer w3)) = false) as [Hc4 Hpe4].
  { unfold wg_tcp_queue_carrier_bootstrap.
    assert (tcp_pending (t_peer w3) = false) by (apply not_true_is_false; intros ?%Hpe3; congruence).
    case_if; cbn; split; congruence. }
  assert (Hi4 : inv F (w3{{ t_peer ::= wg_tcp_queue_carrier_bootstrap s }}))
    by (by apply inv_upd).
  split_and!; [done|done|]. right. exists s. split; [done|]. split.
  - right. split_and!; [done|done| | | |done]; cbn.
    + by rewrite (step_peer_socket _ _ H34).
    + by rewrite Ho.
    + by rewrite Hcb.
  - intros Hx. cbn in Hx. by rewrite Hpe4 in Hx.
Qed.

Lemma connect_spec F e w :
  inv F w → fresh_socket F e w →
  connect_post F e w (wg_tcp_connect e w).1 (wg_tcp_connect e w).2.
Proof.
  intros Hinv Hfr.
  assert (Hsame : ∀ ret, connect_post F e w ret w).
  { intros ret. split_and!; [done|done|]. left. split; [|done]. intros s Hs. by apply Hfr. }
  unfold wg_tcp_connect. case_if; [apply Hsame|].
  destruct (connect_target (t_peer w)); [apply Hsame| |];
    (case_if; [apply Hsame|]); (case_if; [apply Hsame|]); apply connect_attempt_spec; try done;
    simpl_guards; by destruct (peer_socket (t_peer w)); naive_solver.
Qed.

(** ** Sockets do not disappear *)
Definition keeps_sockets (w w' : tcp) : Prop :=
  ∀ s, is_Some (t_socks w !! s) → is_Some (t_socks w' !! s).

Lemma keeps_refl w w' : t_socks w' = t_socks w → keeps_sockets w w'.
Proof. intros Hs s. by rewrite Hs. Qed.

Lemma keeps_trans w1 w2 w3 : keeps_sockets w1 w2 → keeps_sockets w2 w3 → keeps_sockets w1 w3.
Proof. unfold keeps_sockets. auto. Qed.

Lemma keeps_same w w' : same_wiring (t_socks w) (t_socks w') → keeps_sockets w w'.
Proof.
  intros Hw s [k Hk]. specialize (Hw s). rewrite Hk in Hw. by destruct (t_socks w' !! s).
Qed.

Lemma keeps_events evs w : keeps_sockets w (run_events evs w).
Proof. apply keeps_same, run_events_step. Qed.

Lemma keeps_insert (w w' : tcp) s k : t_socks w' = <[s := k]> (t_socks w) → keeps_sockets w w'.
Proof. intros Hs s' Hk. rewrite Hs. apply lookup_insert_is_Some. destruct (decide (s = s')); auto. Qed.

Lemma keeps_alter (w w' : tcp) f s : t_socks w' = alter f s (t_socks w) → keeps_sockets w w'.
Proof. intros Hs s' Hk. rewrite Hs. by rewrite lookup_alter_is_Some. Qed.

Lemma keeps_setup e s b w : keeps_sockets w (wg_setup_tcp_socket_callbacks e s b w).2.
Proof.
  unfold wg_setup_tcp_socket_callbacks. destruct (t_socks w !! s) as [k|]; [|by apply keeps_refl].
  repeat case_if; try by apply keeps_refl.
  - destruct (dir_data b (t_peer w)); repeat case_if; by apply keeps_refl.
  - by eapply keeps_insert.
Qed.

Lemma keeps_reset s b w : keeps_sockets w (wg_reset_tcp_socket_callbacks s b w).2.
Proof.
  unfold wg_reset_tcp_socket_callbacks. destruct (t_socks w !! s) as [k|]; [|by apply keeps_refl].
  repeat case_if; try by apply keeps_refl.
  destruct (dir_data b (t_peer w)); repeat case_if; [by apply keeps_refl| |by apply keeps_refl].
  by eapply keeps_insert.
Qed.

Lemma keeps_detach s w : keeps_sockets w (detach_and_release s w).2.
Proof.
  unfold detach_and_release.
  assert (keeps_sockets w (wg_reset_exact_tcp_socket_callbacks s w).2) as H.
  { unfold wg_reset_exact_tcp_socket_callbacks. repeat case_if; auto using keeps_reset;
      by apply keeps_refl. }
  destruct (wg_reset_exact_tcp_socket_callbacks s w) as [ret w1]. case_if; [|exact H].
  eapply keeps_trans; [exact H|]. unfold wg_release_peer_socket_locked.
  repeat case_if; try by apply keeps_refl. all: by eapply keeps_alter.
Qed.

Lemma keeps_unwind gap socket w : keeps_sockets w (wg_tcp_connect_unwind gap socket w).
Proof.
  assert (Hpub : ∀ u w, keeps_sockets w (unwind_publish u w)).
  { intros u w0. destruct (unwind_publish_peer u w0) as (_&_&_&H).
    destruct u; [by eapply keeps_alter|by apply keeps_refl]. }
  unfold wg_tcp_connect_unwind. case_if.
  - eapply keeps_trans; [apply (keeps_trans _ (w{{ t_peer := (t_peer w){{
      tcp_outbound_remove_scheduled := true; tcp_outbound_remove_socket := socket }} }}));
      [by apply keeps_refl|apply (keeps_events gap)]|].
    cbn zeta. set (w1 := run_events gap _). set (w2 := w1{{ t_peer ::= _ }}).
    assert (keeps_sockets w1 w2) as H12 by by apply keeps_refl.
    eapply keeps_trans; [exact H12|]. destruct socket as [s|]; [|apply Hpub].
    pose proof (keeps_detach s w2) as Hd. destruct (detach_and_release s w2) as [ret w3].
    eapply keeps_trans; [exact Hd|]. case_if; [by apply keeps_refl|apply Hpub].
  - eapply keeps_trans; [apply (keeps_events gap)|apply Hpub].
Qed.

Lemma keeps_connect_socket e s w : keeps_sockets w (connect_socket e s w).1.2.
Proof.
  unfold connect_socket. cbn zeta. set (w1 := w{{ t_socks ::= _ }}).
  assert (keeps_sockets w w1) as H1 by by eapply keeps_insert.
  eapply keeps_trans; [exact H1|]. case_if; [apply keeps_unwind|].
  set (w2 := run_events _ _).
  assert (keeps_sockets w1 w2) as H2 by
    (eapply keeps_trans; [by apply (keeps_refl w1 (w1{{ t_peer := (t_peer w1){{
       peer_socket := Some s; outbound_socket := Some s }} }}))|apply keeps_events]).
  eapply keeps_trans; [exact H2|].
  pose proof (keeps_setup (ce_setup e) s false w2) as H3.
  destruct (wg_setup_tcp_socket_callbacks (ce_setup e) s false w2) as [ret w3].
  eapply keeps_trans; [exact H3|]. case_if; [apply keeps_unwind|].
  eapply keeps_trans; [apply (keeps_events (ce_gap_connect e))|].
  repeat case_if; try apply keeps_unwind.
  unfold connect_finish. destruct (_ : bool * wg_peer) as [bo p1]. by apply keeps_refl.
Qed.

Lemma keeps_connect e w : keeps_sockets w (wg_tcp_connect e w).2.
Proof.
  unfold wg_tcp_connect. case_if; [by apply keeps_refl|].
  assert (keeps_sockets w (connect_attempt e w).2) as H.
  { unfold connect_attempt. set (w1 := run_events _ _).
    assert (keeps_sockets w w1) as H1 by
      (eapply keeps_trans; [by apply (keeps_refl w (w{{ t_peer := connect_claim (t_peer w) }}))
                           |apply keeps_events]).
    eapply keeps_trans; [exact H1|]. case_if; [apply keeps_unwind|].
    destruct (ce_create e) as [s|]; [|apply keeps_unwind].
    pose proof (keeps_connect_socket e s w1) as H2.
    destruct (connect_socket e s w1) as [[ret w2] bo]. eapply keeps_trans; [exact H2|].
    case_if; [|by apply keeps_refl].
    eapply keeps_trans; [apply (keeps_events (ce_gap_return e))|by apply keeps_refl]. }
  destruct (connect_target (t_peer w)); [by apply keeps_refl| |];
    repeat case_if; try done; by apply keeps_refl.
Qed.

(** ** Removing a connection *)

(** A released socket stays as it is while it belongs to nobody. *)
Lemma released_keeps F s w w' :
  inv F w' → s ∉ F → released_once s w → keeps_sockets w w' →
  peer_socket (t_peer w') ≠ Some s → released_once s w'.
Proof.
  intros Hinv HF (k&Hk&_) Hkeep Hne. destruct (Hkeep s (mk_is_Some _ _ Hk)) as [k' Hk'].
  exists k'. split; [done|]. by apply (inv_rest _ _ Hinv s).
Qed.

Lemma rearm_step w :
  step_ok (t_peer w) (t_peer (wg_tcp_rearm_surviving_stream_locked w)) ∧
  t_socks (wg_tcp_rearm_surviving_stream_locked w) = t_socks w ∧
  t_dev (wg_tcp_rearm_surviving_stream_locked w) = t_dev w.
Proof.
  unfold wg_tcp_rearm_surviving_stream_locked. case_if; [by auto with steps|].
  split; [|done]. cbn.
  destruct (negb (tcp_read_worker_scheduled (t_peer w)) && _ && _);
    (case_if; [|step_fields]); (eapply step_ok_trans; [|apply schedule_write_step]); step_fields.
Qed.

Lemma dir_socket_step p p' b : step_ok p p' → dir_socket b p' = dir_socket b p.
Proof. intros (Ho&_&Hi&_)%step_ownership. by destruct b. Qed.

(** The removal of the connection claimed as [claim] in direction [b]. *)
Definition release_claimed (b : bool) (claim : option Z) (w : tcp) : Z * tcp :=
  match claim with
  | Some s => if bool_decide (dir_socket b (t_peer w) = claim) then detach_and_release s w
              else (0, w)
  | None => (0, w)
  end.

(** What it leaves behind, before a decision about a new connection: the
    claimed socket is gone if it was still the peer's, and any other socket of
    the peer stays. *)
Definition remove_post (F : gset Z) (w : tcp) (b : bool) (claim : option Z) (w' : tcp) : Prop :=
  inv F w' ∧ keeps_sockets w w' ∧ (∀ s, t_socks w !! s = None → t_socks w' !! s = None) ∧
  match claim with
  | Some s => if bool_decide (dir_socket b (t_peer w) = claim)
              then released_once s w' ∧ peer_socket (t_peer w') = None ∧ s ∉ F
              else peer_socket (t_peer w') = peer_socket (t_peer w)
  | None => peer_socket (t_peer w') = peer_socket (t_peer w)
  end.

Lemma release_claimed_spec F w b claim :
  inv F w →
  let '(ret, w') := release_claimed b claim w in ret = 0 ∧ remove_post F w b claim w'.
Proof.
  intros Hinv. unfold release_claimed, remove_post.
  destruct claim as [s|]; [|by split_and!; try apply keeps_refl].
  case_bool_decide as Hd; [|by split_and!; try apply keeps_refl].
  assert (Hp : peer_socket (t_peer w) = Some s).
  { destruct (inv_own _ _ Hinv) as [_ [Hv1 _] [Hv2 _]|s' b' k Hp Hd' [Hv _]]; [by destruct b; congruence|].
    destruct b, b'; cbn in *; congruence. }
  pose proof (keeps_detach s w) as Hkeep. pose proof (detach_release_inv F w s Hinv Hp) as H.
  destruct (detach_and_release s w) as [ret w'].
  destruct H as (->&?&_&[b' Hb]&Hrel&Hother). split_and!; try done.
  - intros s' Hs'. destruct (decide (s' = s)) as [->|Hne]; [|by rewrite Hother].
    destruct (inv_own _ _ Hinv) as [|s' b'' k Hp' _ _ Hk _]; [congruence|]. congruence.
  - rewrite Hb. by destruct b'.
  - by apply (inv_foreign _ _ Hinv).
Qed.

(** Steps before and after the removal change nothing of this. *)
Lemma remove_post_after F w b claim w1 w2 :
  remove_post F w b claim w1 → step_ok (t_peer w1) (t_peer w2) → t_socks w2 = t_socks w1 →
  remove_post F w b claim w2.
Proof.
  intros (Hi&Hk&Hn&Hc) Hs Hso. split_and!.
  - eapply inv_step; [exact Hs|rewrite Hso; apply same_wiring_refl|done].
  - eapply keeps_trans; [exact Hk|by apply keeps_refl].
  - by rewrite Hso.
  - unfold released_once in *. by rewrite Hso, (step_peer_socket _ _ Hs).
Qed.

Lemma remove_post_before F w0 w b claim w1 :
  step_ok (t_peer w0) (t_peer w) → same_wiring (t_socks w0) (t_socks w) →
  remove_post F w b claim w1 → remove_post F w0 b claim w1.
Proof.
  intros Hs Hw (Hi&Hk&Hn&Hc). split_and!; [done| | |].
  - eapply keeps_trans; [by apply keeps_same|done].
  - intros s Hs0. apply Hn. by eapply same_wiring_None.
  - by rewrite <- (dir_socket_step _ _ b Hs), <- (step_peer_socket _ _ Hs).
Qed.

(** A new connection does not bring the old socket back. *)
Lemma remove_post_connect F w b s w1 e :
  remove_post F w b (Some s) w1 → fresh_socket F e w → dir_socket b (t_peer w) = Some s →
  released_once s (wg_tcp_connect e w1).2.
Proof.
  intros (Hi&Hk&Hn&Hc) Hfr Hd. rewrite bool_decide_true in Hc by done. destruct Hc as (Hrel&Hp&HF).
  assert (Hfr1 : fresh_socket F e w1) by (intros s' [Hs' ?]%Hfr; by auto).
  destruct (connect_spec F e w1 Hi Hfr1) as (Hi2&_&Hres).
  eapply (released_keeps F s w1); [done|done|done|apply keeps_connect|].
  destruct Hres as [[_ Hp2]|(s'&Hs'&Hres&_)]; [congruence|].
  destruct Hres as [(_&(_&Hp2&_)&_)|(_&_&Hp2&_)]; [congruence|].
  rewrite Hp2. intros [= ->]. destruct Hrel as (k&Hk'&_).
  destruct (Hfr1 s Hs') as [Hnone _]. congruence.
Qed.

Lemma remove_post_fresh F w b claim w1 e :
  remove_post F w b claim w1 → fresh_socket F e w → fresh_socket F e w1.
Proof. intros (_&_&Hn&_) Hfr s [Hs ?]%Hfr. by auto. Qed.

(** The start of both removal workers, up to the restored scheduling. *)
Lemma remove_worker_spec F gap b claim w w0 (f : wg_peer → wg_peer) (active : bool) :
  inv F w → step_ok (t_peer w) (t_peer w0) → t_socks w0 = t_socks w →
  (∀ p, step_ok p (f p)) →
  let w1 := run_events gap w0 in
  let w2 := if active then w1{{ t_peer ::= wg_tcp_cancel_stream_workers }} else w1 in
  let '(ret, w3) := match claim with
                    | Some s => if bool_decide (dir_socket b (t_peer w0) = claim)
                                then detach_and_release s w2 else (0, w2)
                    | None => (0, w2)
                    end in
  ret = 0 ∧
  remove_post F w b claim
    (wg_tcp_rearm_surviving_stream_locked (w3{{ t_peer := f (t_peer w3) }})).
Proof.
  intros Hinv Hs0 Hso Hf. cbn zeta. destruct (run_events_step gap w0) as [Hs1 Hw1].
  set (w1 := run_events gap w0) in *.
  set (w2 := if active then w1{{ t_peer ::= _ }} else w1).
  assert (Hs2 : step_ok (t_peer w0) (t_peer w2) ∧ same_wiring (t_socks w0) (t_socks w2)).
  { unfold w2. destruct active; [|by split]. split; [|done].
    eapply step_ok_trans; [exact Hs1|apply cancel_workers_step]. }
  destruct Hs2 as [Hs2 Hw2]. pose proof (step_ok_trans _ _ _ Hs0 Hs2) as Hs02.
  assert (Hi2 : inv F w2) by (eapply inv_step; [exact Hs02|by rewrite <- Hso|done]).
  pose proof (release_claimed_spec F w2 b claim Hi2) as Hr. unfold release_claimed in Hr.
  rewrite (dir_socket_step _ _ b Hs2) in Hr.
  destruct (match claim with Some _ => _ | None => _ end) as [ret w3]. destruct Hr as [-> Hr].
  split; [done|]. destruct (rearm_step (w3{{ t_peer := f (t_peer w3) }})) as (Hs4&Hk4&_).
  eapply remove_post_before; [exact Hs02|by rewrite <- Hso|].
  eapply remove_post_after; [|exact Hs4|exact Hk4]. by eapply remove_post_after.
Qed.

Lemma schedule_retry_inv F delay w : inv F w → inv F (w{{ t_peer ::= schedule_retry delay }}).
Proof. intros H. apply inv_upd; [apply schedule_retry_step|done]. Qed.

(** Connecting after a removal, with a retry if it fails. *)
Definition reconnect_or_retry (e : connect_env) (w : tcp) : tcp :=
  let '(ret, w) := wg_tcp_connect e w in
  if ret <? 0 then w{{ t_peer ::= schedule_retry 30000 }} else w.

Lemma reconnect_or_retry_spec F e w :
  inv F w → fresh_socket F e w →
  inv F (reconnect_or_retry e w) ∧
  t_socks (reconnect_or_retry e w) = t_socks (wg_tcp_connect e w).2.
Proof.
  intros Hi Hf. destruct (connect_spec F e w Hi Hf) as [Hi' _]. unfold reconnect_or_retry.
  destruct (wg_tcp_connect e w) as [ret w']. case_if; [|done].
  split; [by apply schedule_retry_inv|done].
Qed.

(** What the outbound removal worker promises. *)
Definition outbound_removed (F : gset Z) (w w' : tcp) : Prop :=
  inv F w' ∧
  match tcp_outbound_remove_socket (t_peer w) with
  | Some s => if bool_decide (outbound_socket (t_peer w) = Some s) then released_once s w'
              else peer_socket (t_peer w') = peer_socket (t_peer w)
  | None => True
  end.

Lemma remove_post_removed F w w' :
  remove_post F w false (tcp_outbound_remove_socket (t_peer w)) w' → outbound_removed F w w'.
Proof.
  intros (Hi&_&_&Hc). split; [done|]. destruct (tcp_outbound_remove_socket (t_peer w)); [|done].
  cbn in Hc. case_bool_decide; [by destruct Hc|done].
Qed.

Lemma outbound_remove_spec F gap e w :
  inv F w → fresh_socket F e w → outbound_removed F w (wg_tcp_outbound_remove_worker gap e w).
Proof.
  intros Hinv Hfr. unfold wg_tcp_outbound_remove_worker. cbn zeta.
  set (p := (t_peer w){{ wk_outbound_remove := None }}).
  set (w0 := w{{ t_peer := p{{ wk_retry := None; tcp_retry_scheduled := false }} }}).
  set (active := _ && _ && _).
  pose proof (remove_worker_spec F gap false (tcp_outbound_remove_socket (t_peer w)) w w0
    (λ p, p{{ tcp_reconnect_requested := false; tcp_outbound_remove_scheduled := false;
              tcp_outbound_remove_socket := None }}) active Hinv
    ltac:(step_fields) eq_refl ltac:(intros ?; step_fields)) as H.
  cbn zeta in H. change (dir_socket false (t_peer w0)) with (outbound_socket p) in H.
  change (tcp_outbound_remove_socket p) with (tcp_outbound_remove_socket (t_peer w)).
  set (w2 := if active then _ else _) in *.
  destruct (match tcp_outbound_remove_socket (t_peer w) with Some _ => _ | None => _ end)
    as [ret w3]. destruct H as [-> Hpost]. rewrite Z.eqb_refl. cbn [negb].
  set (w4 := wg_tcp_rearm_surviving_stream_locked _) in *.
  assert (Hdone : ∀ w5, step_ok (t_peer w4) (t_peer w5) → t_socks w5 = t_socks w4 →
    outbound_removed F w w5) by (intros; apply remove_post_removed; by eapply remove_post_after).
  case_if; [apply Hdone; auto with steps|].
  case_if; [by apply Hdone; [apply request_reconnect_step|]|].
  case_if; [|case_if; [by apply Hdone; [apply schedule_retry_step|]|by apply Hdone; auto with steps]].
  clearbody w4. change (outbound_removed F w (reconnect_or_retry e w4)).
  destruct (reconnect_or_retry_spec F e w4 (proj1 Hpost) (remove_post_fresh _ _ _ _ _ _ Hpost Hfr))
    as [Hi5 Hk5]. split; [done|].
  destruct (tcp_outbound_remove_socket (t_peer w)) as [s|] eqn:Hcl; [|done].
  simpl_guards. rewrite bool_decide_eq_true in *.
  rewrite bool_decide_true by done.
  unfold released_once. rewrite Hk5. by eapply remove_post_connect.
Qed.

Lemma inbound_remove_spec F gap w :
  inv F w →
  let w' := (wg_tcp_inbound_remove_worker gap w).1 in
  inv F w' ∧
  (temp_peer (t_peer w) = false →
   match tcp_inbound_remove_socket (t_peer w) with
   | Some s => if bool_decide (inbound_socket (t_peer w) = Some s) then released_once s w'
               else peer_socket (t_peer w') = peer_socket (t_peer w)
   | None => True
   end).
Proof.
  intros Hinv. unfold wg_tcp_inbound_remove_worker. cbn zeta.
  set (p := (t_peer w){{ wk_inbound_remove := None }}).
  change (temp_peer p) with (temp_peer (t_peer w)).
  destruct (temp_peer (t_peer w)) eqn:Ht.
  { split; [|done]. apply inv_peer; [step_fields|done]. }
  set (active := _ && _ && _).
  pose proof (remove_worker_spec F gap true (tcp_inbound_remove_socket (t_peer w)) w
    (w{{ t_peer := p }})
    (λ p, p{{ tcp_inbound_remove_scheduled := false; tcp_inbound_remove_socket := None }}) active Hinv
    ltac:(step_fields) eq_refl ltac:(intros ?; step_fields)) as H.
  cbn zeta in H. change (dir_socket true (t_peer w{{ t_peer := p }})) with (inbound_socket p) in H.
  change (tcp_inbound_remove_socket p) with (tcp_inbound_remove_socket (t_peer w)).
  set (w2 := if active then _ else _) in *.
  destruct (match tcp_inbound_remove_socket (t_peer w) with Some _ => _ | None => _ end)
    as [ret w3]. destruct H as [-> (Hi&_&_&Hc)]. rewrite Z.eqb_refl. cbn [negb fst].
  split; [exact Hi|]. intros _. destruct (tcp_inbound_remove_socket (t_peer w)); [|done].
  cbn in Hc. case_bool_decide; [by destruct Hc|done].
Qed.

(** ** Stopping *)

(** No work item of the peer is queued. *)
Definition no_work (p : wg_peer) : Prop :=
  wk_read p = false ∧ wk_write p = false ∧ wk_bootstrap p = false ∧ wk_promotion p = false ∧
  wk_retry p = None ∧ wk_outbound_remove p = None ∧ wk_inbound_remove p = None.

(** Behind the barrier: the peer is being stopped and of its requests none is
    queued; what is left may only be taken away. *)
Definition barrier (p p' : wg_peer) : Prop :=
  tcp_stopping p = true →
  tcp_stopping p' = true ∧
  (wk_read p' = true → wk_read p = true) ∧ (wk_write p' = true → wk_write p = true) ∧
  (wk_bootstrap p' = true → wk_bootstrap p = true) ∧
  (wk_promotion p' = true → wk_promotion p = true) ∧
  (wk_retry p = None → wk_retry p' = None) ∧
  (wk_outbound_remove p = None → wk_outbound_remove p' = None) ∧
  (wk_inbound_remove p = None → wk_inbound_remove p' = None) ∧
  tcp_teardown_quarantined p' = tcp_teardown_quarantined p ∧
  (send_queue p = [] → send_queue p' = []).

(** A stopping peer is neither usable nor live. *)
Lemma stopping_unusable d p :
  tcp_stopping p = true → peer_usable d p = false ∧ stream_live d p = false ∧ can_write d p = false.
Proof.
  intros Hs. unfold can_write, stream_live, peer_usable. rewrite Hs. cbn [negb].
  by rewrite !andb_false_r.
Qed.

Lemma state_change_barrier w s : barrier (t_peer w) (t_peer (state_change_locked w s).1).
Proof.
  unfold state_change_locked. intros Hs.
  destruct (t_socks w !! s) as [k|]; [|by split_and!].
  destruct (ks_user_data k) as [sd|]; [|by split_and!].
  unfold outbound_opened, inbound_closed, outbound_closed, clear_established,
    wg_tcp_publish_outbound_established_locked.
  repeat case_if; cbn in *; split_and!; auto.
Qed.

Lemma state_change_finish_barrier w s a :
  barrier (t_peer w) (t_peer (state_change_finish w s a).1).
Proof.
  unfold state_change_finish. intros Hs. cbn.
  set (p := match ca_bootstrap a with Some _ => _ | None => _ end).
  assert (p = t_peer w) as ->.
  { unfold p. destruct (ca_bootstrap a); [|done]. unfold wg_tcp_queue_carrier_bootstrap.
    rewrite Hs. cbn [negb]. by rewrite andb_false_r. }
  destruct (stopping_unusable (t_dev w) _ Hs) as [-> _]. rewrite andb_false_r. by split_and!.
Qed.

Lemma run_event_barrier w ev : barrier (t_peer w) (t_peer (run_event w ev)).
Proof.
  destruct ev; cbn [run_event]; try apply state_change_barrier;
    try apply state_change_finish_barrier; intros Hs; try (by split_and!);
    destruct (stopping_unusable (t_dev w) _ Hs) as (Hu&Hl&Hc); cbn [t_peer set]; cbn.
  - unfold wg_tcp_data_ready. rewrite Hl. by case_if; split_and!.
  - unfold wg_tcp_write_space, wg_tcp_schedule_write_locked. rewrite Hc. by case_if; split_and!.
  - unfold wg_tcp_fail_exact_socket. rewrite Hs, orb_true_r. cbn [orb].
    repeat case_if; cbn; by split_and!.
  - unfold wg_tcp_peer_request_reconnect_after. rewrite Hu. by split_and!.
  - unfold retry_claim. cbn zeta.
    change (peer_usable (t_dev w) _) with (peer_usable (t_dev w) (t_peer w)). rewrite Hu.
    by split_and!.
  - unfold schedule_retry. rewrite Hs. by split_and!.
  - unfold wg_tcp_queue_carrier_bootstrap. rewrite Hs. cbn [negb]. rewrite andb_false_r. by split_and!.
  - unfold set_endpoint_locked. destruct ep; [by split_and!| |]; repeat case_if; by split_and!.
  - unfold roam_locked. destruct ep; repeat case_if; by split_and!.
  - unfold request_promotion. rewrite Hs. cbn [negb]. rewrite andb_false_r. by split_and!.
Qed.

Lemma barrier_trans p1 p2 p3 : barrier p1 p2 → barrier p2 p3 → barrier p1 p3.
Proof.
  intros H1 H2 Hs. destruct (H1 Hs) as (Hs2&?&?&?&?&?&?&?&?&?).
  destruct (H2 Hs2) as (?&?&?&?&?&?&?&?&?&?). split_and!; auto. congruence.
Qed.

Lemma run_events_barrier evs w : barrier (t_peer w) (t_peer (run_events evs w)).
Proof.
  revert w. induction evs as [|ev evs IH]; intros w; [intros Hs; by split_and!|].
  eapply barrier_trans; [apply (run_event_barrier w ev)|apply IH].
Qed.

(** What stopping a peer achieves. *)
Definition stopped (F : gset Z) (w w' : tcp) : Prop :=
  inv F w' ∧ peer_socket (t_peer w') = None ∧ inbound_socket (t_peer w') = None ∧
  outbound_socket (t_peer w') = None ∧ no_work (t_peer w') ∧ send_queue (t_peer w') = [] ∧
  tcp_stopping (t_peer w') = true ∧ tcp_established (t_peer w') = false ∧
  tcp_connecting (t_peer w') = false ∧ tcp_pending (t_peer w') = false ∧
  (∀ s, peer_socket (t_peer w) = Some s → released_once s w').

(** Giving up leaves the work items and the barrier alone. *)
Lemma given_up_barrier b p : barrier p (given_up b p).
Proof. intros Hs. destruct b; by split_and!. Qed.

Lemma barrier_no_work p p' :
  barrier p p' → tcp_stopping p = true → no_work p → no_work p'.
Proof.
  intros Hb Hs (H1&H2&H3&H4&H5&H6&H7). destruct (Hb Hs) as (_&B1&B2&B3&B4&B5&B6&B7&_).
  unfold no_work. split_and!; auto; apply not_true_is_false; intros Hx;
    [apply B1 in Hx|apply B2 in Hx|apply B3 in Hx|apply B4 in Hx]; congruence.
Qed.

(** The two releases of [wg_tcp_peer_stop]. *)
Lemma stop_release_spec F w :
  inv F w → tcp_stopping (t_peer w) = true →
  let '(failed_out, w1) := stop_release (outbound_socket (t_peer w)) w in
  let '(failed_in, w2) := if bool_decide (inbound_socket (t_peer w) = outbound_socket (t_peer w))
                          then (false, w1) else stop_release (inbound_socket (t_peer w)) w1 in
  failed_out = false ∧ failed_in = false ∧ inv F w2 ∧ peer_socket (t_peer w2) = None ∧
  barrier (t_peer w) (t_peer w2) ∧
  (∀ s, peer_socket (t_peer w) = Some s → released_once s w2).
Proof.
  intros Hinv Hs. destruct (inv_own _ _ Hinv) as [Hp [Hi _] [Ho _] _|s b k Hp Hd [Hv _] _ _].
  - cbn in Hi, Ho. rewrite Hi, Ho. cbn.
    split_and!; try done; try congruence.
  - pose proof (detach_release_inv F w s Hinv Hp) as H.
    destruct (detach_and_release s w) as [ret w'] eqn:Hdet.
    destruct H as (->&Hi'&_&[b' Hb]&Hrel&_).
    assert (peer_socket (t_peer w') = None ∧ barrier (t_peer w) (t_peer w')) as [Hp' Hbar].
    { rewrite Hb. split; [by destruct b'|apply given_up_barrier]. }
    assert (∀ s', peer_socket (t_peer w) = Some s' → released_once s' w') as Hrel'
      by (rewrite Hp; by intros s' [= <-]).
    destruct b; cbn in Hd, Hv; rewrite Hd, Hv, bool_decide_false by done;
      cbn [stop_release]; rewrite Hdet; by split_and!.
Qed.

(** The requests of the peer that are not stream work. *)
Definition no_requests (p : wg_peer) : Prop :=
  wk_bootstrap p = false ∧ wk_promotion p = false ∧ wk_retry p = None ∧
  wk_outbound_remove p = None ∧ wk_inbound_remove p = None.

Lemma stop_begin_stage F g w :
  inv F w →
  let w' := run_events g (w{{ t_peer ::= stop_begin }}) in
  inv F w' ∧ peer_socket (t_peer w') = peer_socket (t_peer w) ∧ tcp_stopping (t_peer w') = true.
Proof.
  intros Hinv. cbn zeta. set (w0 := w{{ t_peer ::= stop_begin }}).
  assert (Hs0 : step_ok (t_peer w) (t_peer w0)) by step_fields.
  assert (Hi0 : inv F w0) by (by apply (inv_step F w)).
  assert (Hst : tcp_stopping (t_peer w0) = true) by done. clearbody w0.
  destruct (run_events_step g w0) as [Hs1 _]. destruct (run_events_barrier g w0 Hst) as (Hst1&_).
  split_and!; [by apply run_events_inv| |done].
  exact (eq_trans (step_peer_socket _ _ Hs1) (step_peer_socket _ _ Hs0)).
Qed.

Lemma stop_claim_stage F g w :
  inv F w → tcp_stopping (t_peer w) = true →
  let w0 := w{{ t_peer ::= stop_cancel_requests; t_peer ::= stop_claim }} in
  let w' := run_events g w0 in
  inv F w' ∧ tcp_stopping (t_peer w') = true ∧ no_requests (t_peer w') ∧
  peer_socket (t_peer w') = peer_socket (t_peer w) ∧
  outbound_socket (t_peer w0) = outbound_socket (t_peer w') ∧
  inbound_socket (t_peer w0) = inbound_socket (t_peer w').
Proof.
  intros Hinv Hst. cbn zeta.
  set (w0 := set t_peer stop_claim _).
  assert (Hs0 : step_ok (t_peer w) (t_peer w0)) by step_fields.
  assert (Hi0 : inv F w0) by (by apply (inv_step F w)).
  assert (Hst0 : tcp_stopping (t_peer w0) = true) by exact Hst.
  assert (Hn0 : no_requests (t_peer w0)) by done. clearbody w0.
  destruct (run_events_step g w0) as [Hs1 _].
  destruct (run_events_barrier g w0 Hst0) as (Hst1&_&_&B3&B4&B5&B6&B7&_).
  destruct Hn0 as (N1&N2&N3&N4&N5). destruct (step_ownership _ _ Hs1) as (Ho&_&Hi&_).
  split_and!; [by apply run_events_inv|done| | |done|done].
  - split_and!; auto; apply not_true_is_false; intros Hx; [apply B3 in Hx|apply B4 in Hx]; congruence.
  - exact (eq_trans (step_peer_socket _ _ Hs1) (step_peer_socket _ _ Hs0)).
Qed.

Lemma stop_drain_stage F w :
  inv F w → tcp_stopping (t_peer w) = true → no_requests (t_peer w) →
  let w' := w{{ t_peer := (wg_tcp_cancel_stream_workers (t_peer w)){{
                  tcp_retry_scheduled := false; send_queue := [] }} }} in
  inv F w' ∧ tcp_stopping (t_peer w') = true ∧ no_work (t_peer w') ∧ send_queue (t_peer w') = [] ∧
  step_ok (t_peer w) (t_peer w').
Proof.
  intros Hinv Hst (N1&N2&N3&N4&N5). cbn zeta. set (w0 := set t_peer _ _).
  assert (Hs0 : step_ok (t_peer w) (t_peer w0)) by step_fields.
  split_and!; [by apply (inv_step F w)|exact Hst|by split_and!|done|exact Hs0].
Qed.

(** The state published at the end. *)
Definition stop_done (p : wg_peer) : wg_peer :=
  p{{ tcp_established := false; tcp_pending := false; tcp_connecting := false;
      tcp_reconnect_requested := false; inbound_connected := false;
      outbound_connected := false; tcp_outbound_remove_scheduled := false;
      tcp_outbound_remove_socket := None; tcp_inbound_remove_scheduled := false;
      tcp_inbound_remove_socket := None }}.

Lemma stop_done_spec F w0 w :
  inv F w → peer_socket (t_peer w) = None → no_work (t_peer w) → send_queue (t_peer w) = [] →
  tcp_stopping (t_peer w) = true →
  (∀ s, peer_socket (t_peer w0) = Some s → released_once s w) →
  stopped F w0 (w{{ t_peer := stop_done (t_peer w) }}).
Proof.
  intros Hinv Hp Hn Hq Hst Hrel.
  destruct (vacant_of_none _ _ true Hinv Hp) as [Hvi _].
  destruct (vacant_of_none _ _ false Hinv Hp) as [Hvo _].
  assert (Hs : step_ok (t_peer w) (stop_done (t_peer w))) by step_fields.
  split; [by apply inv_peer|]. by split_and!.
Qed.

Lemma peer_stop_spec F g1 g2 w : inv F w → stopped F w (wg_tcp_peer_stop g1 g2 w).
Proof.
  intros Hinv. unfold wg_tcp_peer_stop. cbn zeta.
  destruct (stop_begin_stage F g1 w Hinv) as (Hi1&Hp1&Hst1).
  set (w1 := run_events g1 _) in *. clearbody w1.
  destruct (stop_claim_stage F g2 w1 Hi1 Hst1) as (Hi2&Hst2&Hn2&Hp2&Ho2&Hin2).
  set (w0 := set t_peer stop_claim _) in *.
  set (w2 := run_events g2 w0) in *. rewrite Ho2, Hin2. clearbody w2.
  destruct (stop_drain_stage F w2 Hi2 Hst2 Hn2) as (Hi3&Hst3&Hn3&Hq3&Hs3).
  destruct (step_ownership _ _ Hs3) as (Ho3&_&Hin3&_). rewrite <- Ho3, <- Hin3.
  pose proof (step_peer_socket _ _ Hs3) as Hp3.
  set (w3 := set t_peer _ w2) in *. clearbody w3.
  pose proof (stop_release_spec F w3 Hi3 Hst3) as H.
  destruct (stop_release (outbound_socket (t_peer w3)) w3) as [f1 w5].
  destruct (if bool_decide _ then _ else _) as [f2 w6].
  destruct H as (->&->&Hi6&Hp6&Hb6&Hrel). cbn [orb].
  destruct (Hb6 Hst3) as (Hst6&_&_&_&_&_&_&_&_&Hq6).
  apply (stop_done_spec F w w6); [done|done|by eapply barrier_no_work|by auto|done|].
  intros s Hs. apply Hrel. congruence.
Qed.

(** ** Handing over an accepted connection *)

(** Only socket [s] differs. *)
Definition differs_at (s : Z) (ks ks' : sockets) : Prop :=
  ∀ s', s' ≠ s → wiring <$> ks' !! s' = wiring <$> ks !! s'.

Lemma except_trans s ks1 ks2 ks3 : differs_at s ks1 ks2 → differs_at s ks2 ks3 → differs_at s ks1 ks3.
Proof. intros H1 H2 s' Hs. by rewrite H2, H1. Qed.

Lemma inv_except F s w w' :
  inv ({[ s ]} ∪ F) w → differs_at s (t_socks w) (t_socks w') → step_ok (t_peer w) (t_peer w') →
  inv ({[ s ]} ∪ F) w'.
Proof.
  intros [Hown Hf Hr] Hex Hs. pose proof (step_peer_socket _ _ Hs) as Hps.
  split; [|by rewrite Hps|].
  - eapply own_step; [exact Hs|apply same_wiring_refl|].
    destruct Hown as [|s' b k Hp Hd Hv Hk Hw]; [by apply own_none|].
    assert (s' ≠ s) as Hne by (apply Hf in Hp; set_solver).
    specialize (Hex s' Hne). rewrite Hk in Hex.
    destruct (t_socks w' !! s') as [k'|] eqn:Hk'; [|done]. apply (inj Some) in Hex.
    eapply (own_some _ _ s' b k'); try done. by eapply wired_step.
  - rewrite Hps. intros s' k Hk HF Hne. specialize (Hex s' ltac:(set_solver)). rewrite Hk in Hex.
    destruct (t_socks w !! s') as [k0|] eqn:Hk0; [|done]. apply (inj Some) in Hex.
    destruct (Hr s' k0 Hk0 HF Hne) as [Hr0 Hb]. split; [|by eapply bare_wiring].
    by apply wiring_eq in Hex as [-> _].
Qed.

(** The provisional peer [temp] owns socket [s]. *)
Definition temp_owns (temp : wg_peer) (s : Z) (ks : sockets) : Prop :=
  peer_socket temp = Some s ∧ inbound_socket temp = Some s ∧ vacant false temp ∧
  ∃ k, ks !! s = Some k ∧ wired temp s true k.

(** Its own view: every other socket is foreign. *)
Lemma temp_inv d temp s ks :
  temp_owns temp s ks → inv (dom ks ∖ {[ s ]}) (mk_tcp d temp ks).
Proof.
  intros (Hp&Hi&Hv&k&Hk&Hw). split; cbn.
  - by eapply (own_some _ _ s true k).
  - rewrite Hp. intros ? [= <-]. set_solver.
  - rewrite Hp. intros s' k' Hk' HF Hne. destruct HF. apply elem_of_difference.
    split; [by eapply elem_of_dom_2|]. set_solver.
Qed.

Lemma temp_owns_at temp temp' s ks ks' :
  step_ok temp temp' → wiring <$> ks' !! s = wiring <$> ks !! s →
  temp_owns temp s ks → temp_owns temp' s ks'.
Proof.
  intros Hs Hw (Hp&Hi&Hv&k&Hk&Hwd). rewrite Hk in Hw.
  destruct (ks' !! s) as [k'|] eqn:Hk'; [|done]. apply (inj Some) in Hw.
  split; [by rewrite (step_peer_socket _ _ Hs)|].
  split; [by destruct (step_ownership _ _ Hs) as (_&_&->&_)|].
  split; [by eapply vacant_step|]. exists k'. split; [done|]. eapply wired_step; [apply Hs|done|done].
Qed.

Lemma temp_owns_step temp temp' s ks ks' :
  step_ok temp temp' → same_wiring ks ks' → temp_owns temp s ks → temp_owns temp' s ks'.
Proof. intros Hs Hw. by apply temp_owns_at. Qed.

Lemma same_except s ks ks' : same_wiring ks ks' → differs_at s ks ks'.
Proof. by intros H s' _. Qed.

(** Destroying the provisional peer releases its socket once and touches no
    other. *)
Lemma destroy_temp_spec gap w s :
  temp_owns (t_peer w) s (t_socks w) →
  let '(freed, w') := wg_destroy_temp_peer gap w in
  freed = true ∧ released_once s w' ∧ differs_at s (t_socks w) (t_socks w').
Proof.
  intros Ht. unfold wg_destroy_temp_peer. cbn zeta. set (w0 := w{{ t_peer := _ }}).
  assert (Hs0 : step_ok (t_peer w) (t_peer w0)) by step_fields.
  assert (Hk0 : t_socks w0 = t_socks w) by done. clearbody w0.
  destruct (run_events_step gap w0) as [Hs1 Hw1]. rewrite Hk0 in Hw1.
  set (w1 := run_events gap w0) in *. clearbody w1. set (w2 := w1{{ t_peer ::= _ }}).
  assert (Hs2 : step_ok (t_peer w) (t_peer w2))
    by exact (step_ok_trans _ _ _ Hs0 (step_ok_trans _ _ _ Hs1 (cancel_workers_step _))).
  assert (Hw2 : same_wiring (t_socks w) (t_socks w2)) by exact Hw1. clearbody w2.
  pose proof (temp_owns_step _ _ _ _ _ Hs2 Hw2 Ht) as Ht2.
  pose proof (temp_inv (t_dev w2) _ _ _ Ht2) as Hi2. destruct Ht2 as (Hp2&Hin2&_).
  rewrite Hin2. destruct w2 as [d2 p2 ks2].
  pose proof (detach_release_inv _ _ s Hi2 Hp2) as H.
  destruct (detach_and_release s _) as [ret w3]. destruct H as (->&_&_&_&Hrel&Hother).
  rewrite Z.eqb_refl. split_and!; [done|exact Hrel|].
  intros s' Hne. change (t_socks (set t_peer _ w3)) with (t_socks w3).
  rewrite Hother by done. exact (Hw2 s').
Qed.

Lemma destroy_entry_spec gap temp s socket w :
  temp_owns temp s (t_socks w) →
  let w' := wg_destroy_tcp_connection_entry gap (Some temp) socket w in
  released_once s w' ∧ differs_at s (t_socks w) (t_socks w') ∧ t_peer w' = t_peer w ∧
  t_dev w' = t_dev w.
Proof.
  intros Ht. cbn [wg_destroy_tcp_connection_entry].
  pose proof (destroy_temp_spec gap (w{{ t_peer := temp }}) s Ht) as H.
  destruct (wg_destroy_temp_peer gap (w{{ t_peer := temp }})) as [freed wt].
  destruct H as (_&Hrel&Hex). by split_and!.
Qed.
