(* ===== verification/TcpHandover.v ===== *)
(** * Handing over connections, and whole lives

    The correctness of [wg_tcp_promote_authenticated_carrier]: an accepted
    connection moves from its provisional owner to the authenticated peer, or is
    released.  Then the theorems about everything that can happen to a peer, and
    about each of the functions that change which socket it owns. *)
From stdpp Require Import prelude list gmap.
From S2P Require Import Prelude Skb Net Peer TcpFrame TcpReader TcpWriter Admission.
From S2P Require Import TcpPeer TcpPeerSpec.

#[local] Open Scope Z_scope.

(** ** The parts of a promotion *)

Lemma released_except (F : gset Z) (s : Z) w w' :
  inv ({[ s ]} ∪ F) w → s ∉ F → step_ok (t_peer w) (t_peer w') →
  differs_at s (t_socks w) (t_socks w') → released_once s w' → inv F w'.
Proof.
  intros Hinv HF Hs Hex (k&Hk&Hr&Hb).
  pose proof (inv_except F s w w' Hinv Hex Hs) as [Hown Hf Hrest]. split; [done| |].
  - intros s' ?%Hf. set_solver.
  - intros s' k' Hk' HF' Hne. destruct (decide (s' = s)) as [->|Hne'].
    + rewrite Hk in Hk'. by apply (inj Some) in Hk' as <-.
    + apply (Hrest s'); [done|set_solver|done].
Qed.

(** The entry is destroyed while the provisional peer still owns the socket. *)
Lemma destroy_owned (F : gset Z) (s : Z) gap temp w :
  inv ({[ s ]} ∪ F) w → s ∉ F → temp_owns temp s (t_socks w) →
  let w' := wg_destroy_tcp_connection_entry gap (Some temp) (Some s) w in
  inv F w' ∧ released_once s w' ∧ t_peer w' = t_peer w.
Proof.
  intros Hinv HF Ht w'. destruct (destroy_entry_spec gap temp s (Some s) w Ht) as (Hrel&Hex&Hp&_).
  fold w' in Hrel, Hex, Hp. split_and!; [|done..].
  eapply released_except; [exact Hinv|done| |exact Hex|exact Hrel]. rewrite Hp. apply step_ok_refl.
Qed.

Lemma promote_detach_spec (F : gset Z) gap id (s : Z) temp w :
  inv ({[ s ]} ∪ F) w → s ∉ F → temp_owns temp s (t_socks w) →
  let '(ret, wt) := promote_detach gap id s (w{{ t_peer := temp }}) in
  (ret ≠ 0 ∧ wt = w{{ t_peer := temp }} ∧ tcp_connection_id temp ≠ id) ∨
  (ret = 0 ∧ tcp_connection_id temp = id ∧
   ∀ p, step_ok (t_peer w) p → unclaimed F s (wt{{ t_peer := p }})).
Proof.
  intros Hinv HF Ht. pose proof Ht as (Hp&Hi&_). unfold promote_detach. cbn zeta.
  change (t_peer w{{ t_peer := temp }}) with temp. rewrite Hp, Hi, is_socket_refl. cbn [negb orb].
  destruct (Z.eqb_spec (tcp_connection_id temp) id) as [Hid|Hid]; [|left; by split_and!].
  cbn [negb]. set (w0 := w{{ t_peer := _ }}{{ t_peer := _ }}).
  destruct (run_events_step gap w0) as [Hs1 Hw1].
  set (w1 := run_events gap w0) in *. set (w2 := w1{{ t_peer ::= _ }}).
  assert (Hs2 : step_ok temp (t_peer w2)).
  { eapply step_ok_trans; [|eapply step_ok_trans; [exact Hs1|apply cancel_workers_step]]. step_fields. }
  destruct (temp_owns_step _ _ _ _ _ Hs2 Hw1 Ht) as (Hp2&Hi2&Hv2&k&Hk&Hw).
  destruct (reset_exact_spec w2 s true k Hi2 Hv2 Hk Hw) as (k'&->&Hb&Hr).
  rewrite Z.eqb_refl. cbn [negb]. right. split_and!; [done|done|]. intros p Hstep.
  split; [|split; [done|exists k'; cbn; by rewrite lookup_insert_eq]].
  eapply inv_except; [exact Hinv| |exact Hstep]. intros s' Hne. cbn.
  rewrite lookup_insert_ne by done. apply Hw1.
Qed.

Lemma unclaimed_peer (F : gset Z) (s : Z) w p :
  unclaimed F s w → step_ok (t_peer w) p → unclaimed F s (w{{ t_peer := p }}).
Proof. intros (Hi&HF&Hk) Hs. split_and!; [by apply inv_peer|done|done]. Qed.

Lemma unclaimed_upd (F : gset Z) (s : Z) w f :
  unclaimed F s w → step_ok (t_peer w) (f (t_peer w)) → unclaimed F s (w{{ t_peer ::= f }}).
Proof. intros (Hi&HF&Hk) Hs. split_and!; [by apply inv_upd|done|done]. Qed.

Lemma unclaimed_detach (F : gset Z) (s : Z) s0 w :
  unclaimed F s w → peer_socket (t_peer w) = Some s0 →
  let '(ret, w') := detach_and_release s0 w in
  ret = 0 ∧ unclaimed F s w' ∧ peer_socket (t_peer w') = None ∧ released_once s0 w'.
Proof.
  intros (Hi&HF&k&Hk&Hb&Hr) Hp.
  assert (s ≠ s0) as Hne by (apply (inv_foreign _ _ Hi) in Hp; set_solver).
  pose proof (detach_release_inv _ w s0 Hi Hp) as H.
  destruct (detach_and_release s0 w) as [ret w']. destruct H as (->&Hi'&_&[b Hb']&Hrel&Hother).
  split_and!; [done|split; [done|split; [done|]]| |done].
  - exists k. by rewrite Hother.
  - rewrite Hb'. by destruct b.
Qed.

Lemma promote_release_old_spec (F : gset Z) (s : Z) gap w :
  unclaimed F s w →
  let '(ret, w') := promote_release_old gap w in
  ret = 0 ∧ unclaimed F s w' ∧ peer_socket (t_peer w') = None ∧
  (∀ s0, peer_socket (t_peer w) = Some s0 → released_once s0 w' ∧ (s0 ∉ F) ∧ s0 ≠ s).
Proof.
  intros Hu. unfold promote_release_old. cbn zeta. set (w0 := w{{ t_peer := _ }}).
  assert (Hs0 : step_ok (t_peer w) (t_peer w0)) by step_fields.
  assert (Hu0 : unclaimed F s w0) by (by apply unclaimed_peer). clearbody w0.
  destruct (run_events_step gap w0) as [Hs1 _].
  pose proof (unclaimed_events F s w0 gap Hu0) as Hu1.
  pose proof (eq_trans (step_peer_socket _ _ Hs1) (step_peer_socket _ _ Hs0)) as Hp1.
  set (w1 := run_events gap w0) in *. clearbody w1. set (cond := isSome _ || isSome _).
  set (w2 := if cond then _ else w1).
  assert (Hu2 : unclaimed F s w2 ∧ peer_socket (t_peer w2) = peer_socket (t_peer w)).
  { unfold w2. destruct cond; [|done]. split.
    - apply unclaimed_upd; [done|apply cancel_workers_step].
    - exact (eq_trans (step_peer_socket _ _ (cancel_workers_step (t_peer w1))) Hp1). }
  destruct Hu2 as [Hu2 Hp2]. clearbody w2. clear cond.
  assert (Hfor : ∀ s0, peer_socket (t_peer w) = Some s0 → (s0 ∉ F) ∧ s0 ≠ s).
  { intros s0 Hp. apply (inv_foreign _ _ (proj1 Hu)) in Hp. set_solver. }
  destruct (inv_own _ _ (proj1 Hu)) as [Hp [Hi _] [Ho _] _|s0 b k Hp Hd [Hv _] _ _].
  - cbn in Hi, Ho. rewrite Hi, Ho, Z.eqb_refl. cbn [negb]. split_and!; [done|done|congruence|].
    rewrite Hp. done.
  - rewrite Hp in Hp2. pose proof (unclaimed_detach F s s0 w2 Hu2 Hp2) as H.
    assert (Hgo : ∀ w', unclaimed F s w' ∧ peer_socket (t_peer w') = None ∧ released_once s0 w' →
      0 = 0 ∧ unclaimed F s w' ∧ peer_socket (t_peer w') = None ∧
      (∀ s1, peer_socket (t_peer w) = Some s1 → released_once s1 w' ∧ (s1 ∉ F) ∧ s1 ≠ s)).
    { intros w' (?&?&?). split_and!; try done. intros s1 Hs1'. split; [|by apply Hfor]. congruence. }
    destruct b; cbn in Hd, Hv; rewrite Hd, Hv; [|rewrite bool_decide_false by done];
      destruct (detach_and_release s0 w2) as [ret w3]; destruct H as (->&H);
      rewrite ?Z.eqb_refl; cbn [negb]; by apply Hgo.
Qed.

(** The peer owns the accepted socket and the socket calls it. *)
Definition adopted (F : gset Z) (s : Z) (w : tcp) : Prop :=
  inv F w ∧ peer_socket (t_peer w) = Some s ∧ inbound_socket (t_peer w) = Some s ∧
  tcp_inbound_callbacks_set (t_peer w) = true.

Lemma adopting_inv (F : gset Z) (s : Z) temp w :
  unclaimed F s w → peer_socket (t_peer w) = None →
  inv F (w{{ t_peer := adopting s temp (t_peer w) }}).
Proof.
  intros Hu Hp.
  destruct (vacant_of_none _ _ true (proj1 Hu) Hp) as (_&H1&H2&_).
  destruct (vacant_of_none _ _ false (proj1 Hu) Hp) as (H3&H4&H5&_).
  by apply (adopt_inv F s true w).
Qed.

(** A socket the peer owns and has not hooked is released like any other. *)
Lemma release_unhooked (F : gset Z) (s : Z) w :
  inv F w → peer_socket (t_peer w) = Some s → inbound_socket (t_peer w) = Some s →
  tcp_inbound_socket_data (t_peer w) = None → tcp_inbound_callbacks_set (t_peer w) = false →
  let w' := (wg_release_peer_socket_locked s w).2 in
  inv F w' ∧ released_once s w' ∧ peer_socket (t_peer w') = None ∧ keeps_sockets w w'.
Proof.
  intros Hinv Hp Hi Hd Hc.
  destruct (inv_own _ _ Hinv) as [Hn|s' b k Hp' Hdir Hv Hk Hw]; [congruence|].
  assert (s' = s) as -> by congruence.
  assert (b = true) as -> by (destruct Hv as [Hv _]; destruct b; cbn in *; congruence).
  rewrite (release_spec w s true Hp Hi Hd Hc Hv).
  cbn zeta. destruct Hw as [Hrel Hw]. cbn [dir_data] in Hw. rewrite Hd in Hw. destruct Hw as [_ Hb].
  destruct w as [d p ks]. cbn [t_socks t_peer] in *.
  assert (Heq : (0, sock_release s (mk_tcp d (given_up true p) ks)).2
    = mk_tcp d (given_up true p) (<[s := k{{ ks_releases ::= S }}]> ks)).
  { cbn [snd]. rewrite <- (insert_id ks s k Hk) at 1. by rewrite sock_release_insert. }
  change (set t_peer _ (mk_tcp d p ks)) with (mk_tcp d (given_up true p) ks). rewrite Heq.
  assert (Hb' : bare (k{{ ks_releases ::= S }})) by exact Hb.
  assert (Hr' : ks_releases (k{{ ks_releases ::= S }}) = 1%nat) by (cbn; by rewrite Hrel).
  split_and!; [by apply (inv_given_up F (mk_tcp d p ks) s true)| |done|by eapply keeps_insert].
  exists (k{{ ks_releases ::= S }}). split; [apply lookup_insert_eq|done].
Qed.

Lemma promote_adopt_spec (F : gset Z) (s : Z) e temp w :
  unclaimed F s w → peer_socket (t_peer w) = None →
  let '(ret, w') := promote_adopt e s temp w in
  keeps_sockets w w' ∧
  ((ret = 0 ∧ adopted F s w') ∨
   (ret ≠ 0 ∧ inv F w' ∧ released_once s w' ∧ peer_socket (t_peer w') = None)).
Proof.
  intros Hu Hp. unfold promote_adopt.
  pose proof (adopting_inv F s temp w Hu Hp) as Hi0.
  destruct (vacant_of_none _ _ true (proj1 Hu) Hp) as (_&Hd0&Hc0&_).
  set (w0 := w{{ t_peer := _ }}) in *.
  assert (Hp0 : peer_socket (t_peer w0) = Some s ∧ inbound_socket (t_peer w0) = Some s ∧
    tcp_inbound_socket_data (t_peer w0) = None ∧ tcp_inbound_callbacks_set (t_peer w0) = false)
    by (by split_and!).
  assert (Hk0 : keeps_sockets w w0) by (by apply keeps_refl). clearbody w0.
  destruct Hp0 as (Hp0&Hi0'&Hd0'&Hc0').
  destruct (run_events_step (pe_gap_setup e) w0) as [Hs1 _].
  pose proof (run_events_inv F (pe_gap_setup e) w0 Hi0) as Hi1.
  pose proof (keeps_events (pe_gap_setup e) w0) as Hk1.
  set (w1 := run_events _ w0) in *. clearbody w1.
  assert (Hp1 : peer_socket (t_peer w1) = Some s ∧ inbound_socket (t_peer w1) = Some s ∧
    tcp_inbound_socket_data (t_peer w1) = None ∧ tcp_inbound_callbacks_set (t_peer w1) = false).
  { destruct Hs1 as [Ho _]. unfold ownership in Ho. injection Ho as _ ? ? ? ? _ _ _.
    split_and!; congruence. }
  destruct Hp1 as (Hp1&Hi1'&Hd1&Hc1).
  pose proof (keeps_setup (pe_setup e) s true w1) as Hk2.
  pose proof (setup_spec F w1 (pe_setup e) s true Hi1 Hp1 Hi1') as Hset.
  destruct (wg_setup_tcp_socket_callbacks (pe_setup e) s true w1) as [ret w2]. cbn [snd] in Hk2.
  pose proof (keeps_trans _ _ _ Hk0 (keeps_trans _ _ _ Hk1 Hk2)) as Hk02.
  destruct Hset as [[Hret ->]|(->&Hi2&_&Hc2&Hw2)].
  - rewrite (proj2 (Z.eqb_neq ret 0) Hret). cbn [negb].
    assert (Heq : (t_peer w1){{ tcp_inbound_callbacks_set := false;
      tcp_inbound_socket_data := None }} = t_peer w1)
      by (destruct (t_peer w1); cbn in *; by subst).
    rewrite Heq. replace (w1{{ t_peer := t_peer w1 }}) with w1 by (by destruct w1).
    destruct (release_unhooked F s w1 Hi1 Hp1 Hi1' Hd1 Hc1) as (Hi3&Hr3&Hp3&Hk3).
    split; [by eapply keeps_trans|right; by split_and!].
  - rewrite Z.eqb_refl. cbn [negb]. destruct (rearm_step w2) as (Hs3&Hk3&_).
    assert (Hp2 : peer_socket (t_peer w2) = Some s ∧ inbound_socket (t_peer w2) = Some s)
      by (destruct Hw2 as [->|[sd ->]]; done).
    destruct Hp2 as [Hp2 Hi2']. destruct (step_ownership _ _ Hs3) as (_&_&Hin3&Hcb3&_).
    split; [eapply keeps_trans; [exact Hk02|by apply keeps_refl]|]. left. split; [done|].
    split_and!.
    + eapply inv_step; [exact Hs3|rewrite Hk3; apply same_wiring_refl|done].
    + by rewrite (step_peer_socket _ _ Hs3).
    + by rewrite Hin3.
    + by rewrite Hcb3.
Qed.

(** A candidate older than one already seen is refused; the generation only
    grows. *)
Lemma run_event_roaming w ev :
  tcp_roaming_connection_id (t_peer w) ≤ tcp_roaming_connection_id (t_peer (run_event w ev)).
Proof.
  destruct ev; cbn [run_event]; try done.
  - unfold state_change_locked. destruct (t_socks w !! socket) as [k|]; [|done].
    destruct (ks_user_data k) as [sd|]; [|done].
    unfold outbound_opened, inbound_closed, outbound_closed, clear_established,
      wg_tcp_publish_outbound_established_locked. repeat case_if; done.
  - unfold state_change_finish, wg_tcp_queue_carrier_bootstrap.
    destruct (ca_bootstrap a); repeat case_if; done.
  - unfold wg_tcp_data_ready. repeat case_if; done.
  - unfold wg_tcp_write_space, wg_tcp_schedule_write_locked. repeat case_if; done.
  - unfold wg_tcp_fail_exact_socket. repeat case_if; done.
  - unfold wg_tcp_peer_request_reconnect_after. repeat case_if; done.
  - unfold retry_claim. repeat case_if; done.
  - unfold schedule_retry. repeat case_if; done.
  - unfold wg_tcp_queue_carrier_bootstrap. repeat case_if; done.
  - unfold set_endpoint_locked. destruct ep; repeat case_if; done.
  - unfold roam_locked. case_if; [done|]. simpl_guards. destruct ep; [done| |]; case_if; cbn; lia.
  - unfold request_promotion. repeat case_if; done.
Qed.

Lemma run_events_roaming evs w :
  tcp_roaming_connection_id (t_peer w) ≤ tcp_roaming_connection_id (t_peer (run_events evs w)).
Proof.
  revert w. induction evs as [|ev evs IH]; intros w; [done|].
  transitivity (tcp_roaming_connection_id (t_peer (run_event w ev))); [apply run_event_roaming|].
  apply IH.
Qed.

(** What a promotion achieves. *)
Definition promote_post (F : gset Z) (s : Z) (w : tcp) (promoted : bool) (w' : tcp) : Prop :=
  inv F w' ∧
  if promoted
  then adopted F s w' ∧ ∀ s0, peer_socket (t_peer w) = Some s0 → released_once s0 w'
  else released_once s w'.

Lemma promote_claimed_spec (F : gset Z) (s : Z) e id temp w :
  inv ({[ s ]} ∪ F) w → s ∉ F → temp_owns temp s (t_socks w) →
  promote_post F s w (promote_claimed e id s temp w).1 (promote_claimed e id s temp w).2 ∧
  (id < tcp_roaming_connection_id (t_peer w) → (promote_claimed e id s temp w).1 = false) ∧
  (tcp_connection_id temp ≠ id → (promote_claimed e id s temp w).1 = false).
Proof.
  intros Hinv HF Ht. unfold promote_claimed.
  destruct (run_events_step (pe_gap_lock e) w) as [Hs1 Hw1].
  pose proof (run_events_inv _ (pe_gap_lock e) w Hinv) as Hi1.
  pose proof (run_events_roaming (pe_gap_lock e) w) as Hroam.
  pose proof (temp_owns_step _ _ _ _ _ (step_ok_refl temp) Hw1 Ht) as Ht1.
  pose proof (step_peer_socket _ _ Hs1) as Hps1.
  set (w1 := run_events _ w) in *. clearbody w1. cbn zeta.
  destruct (destroy_owned F s (pe_gap_temp e) temp w1 Hi1 HF Ht1) as (Hdi&Hdr&_).
  destruct (Z.ltb_spec id (tcp_roaming_connection_id (t_peer w1))) as [Hlt|Hge]; [by split_and!|].
  set (p1 := (t_peer w1){{ tcp_roaming_connection_id := id }}).
  assert (Hsp : step_ok (t_peer w1) p1) by step_fields.
  assert (Hpp : peer_socket p1 = peer_socket (t_peer w1)) by done. clearbody p1.
  pose proof (promote_detach_spec F (pe_gap_temp e) id s temp w1 Hi1 HF Ht1) as Hd.
  destruct (promote_detach (pe_gap_temp e) id s (w1{{ t_peer := temp }})) as [ret wt].
  destruct Hd as [(Hret&->&Hid)|(->&Hid&Hu)].
  { rewrite (proj2 (Z.eqb_neq ret 0) Hret). cbn [negb].
    pose proof (destroy_owned F s (pe_gap_temp e) temp (w1{{ t_peer := p1 }})
      (inv_peer _ _ _ Hsp Hi1) HF Ht1) as (Hdi2&Hdr2&_).
    split_and!; [by split|done|done]. }
  rewrite Z.eqb_refl. cbn [negb]. specialize (Hu p1 Hsp).
  set (w2 := wt{{ t_peer := p1 }}) in *.
  assert (Hp2 : peer_socket (t_peer w2) = peer_socket (t_peer w)) by (change (t_peer w2) with p1; congruence).
  set (temp' := t_peer wt). clearbody w2 temp'.
  pose proof (promote_release_old_spec F s (pe_gap_old e) w2 Hu) as Hr.
  destruct (promote_release_old (pe_gap_old e) w2) as [ret w3]. destruct Hr as (->&Hu3&Hp3&Hold).
  rewrite Z.eqb_refl. cbn [negb].
  pose proof (promote_adopt_spec F s e temp' w3 Hu3 Hp3) as Ha.
  destruct (promote_adopt e s temp' w3) as [ret w4]. destruct Ha as [Hk4 [[-> Ha]|(Hret&Hi4&Hr4&Hp4)]].
  - rewrite Z.eqb_refl. cbn [negb]. split; [|split; [lia|done]].
    split; [by apply Ha|]. split; [done|]. intros s0 Hs0. rewrite <- Hp2 in Hs0.
    destruct (Hold s0 Hs0) as (Hrel&HF0&Hne).
    eapply (released_keeps F s0 w3); [by apply Ha|done|done|done|].
    destruct Ha as (_&Hpa&_). cbn [snd]. congruence.
  - rewrite (proj2 (Z.eqb_neq ret 0) Hret). cbn [negb]. by split_and!.
Qed.

(** ** Whole lives *)

(** The TCP fields of a peer as [wg_peer_create] leaves them. *)
Definition new_peer (d : wg_device) (id : Z) : wg_peer :=
  (zero_peer id){{ tcp_read_wq := is_tcp d; tcp_write_wq := is_tcp d }}.

(** Everything that happens to a peer, in any order: steps without the mutex,
    and the functions that hold it.  An accepted connection enters with its
    promotion. *)
Inductive life : tcp → tcp → Prop :=
  | life_event w ev : life w (run_event w ev)
  | life_connect w e : fresh_socket ∅ e w → life w (wg_tcp_connect e w).2
  | life_retry w e : fresh_socket ∅ e w → life w (wg_tcp_retry_worker e w)
  | life_bootstrap w gap : life w (wg_tcp_bootstrap_worker (run_events gap) w).2
  | life_outbound_remove w gap e :
      fresh_socket ∅ e w → life w (wg_tcp_outbound_remove_worker gap e w)
  | life_inbound_remove w gap : life w (wg_tcp_inbound_remove_worker gap w).1
  | life_stop w gap1 gap2 : life w (wg_tcp_peer_stop gap1 gap2 w)
  | life_promote w e id s temp k :
      t_socks w !! s = None → temp_owns temp s (<[s := k]> (t_socks w)) →
      life w (promote_claimed e id s temp (w{{ t_socks ::= <[s := k]> }})).2.

Lemma new_peer_inv d id : inv ∅ (mk_tcp d (new_peer d id) ∅).
Proof. split; [by apply own_none|done|]. intros s k Hk. by destruct (lookup_empty_Some (M := gmap Z) s k). Qed.

Lemma retry_inv F e w : inv F w → fresh_socket F e w → inv F (wg_tcp_retry_worker e w).
Proof.
  intros Hinv Hfr. unfold wg_tcp_retry_worker.
  set (p0 := (t_peer w){{ wk_retry := None }}).
  assert (Hs0 : step_ok (t_peer w) p0) by step_fields. clearbody p0.
  pose proof (retry_claim_step (t_dev w) p0) as Hs1.
  destruct (retry_claim (t_dev w) p0) as [go p]. cbn [snd] in Hs1.
  pose proof (inv_peer F w p (step_ok_trans _ _ _ Hs0 Hs1) Hinv) as Hi1. cbn zeta.
  assert (Hf1 : fresh_socket F e (w{{ t_peer := p }})) by exact Hfr.
  set (w1 := w{{ t_peer := p }}) in *. clearbody w1. case_if; [done|].
  exact (proj1 (reconnect_or_retry_spec F e w1 Hi1 Hf1)).
Qed.

Lemma accepted_foreign s k w :
  inv ∅ w → t_socks w !! s = None → inv ({[ s ]} ∪ ∅) (w{{ t_socks ::= <[s := k]> }}).
Proof.
  intros [Hown Hf Hr] Hs.
  assert (peer_socket (t_peer w) ≠ Some s) as Hne.
  { intros Hp. destruct Hown as [|s' b k' Hp' _ _ Hk']; congruence. }
  assert (Hlk : ∀ s', s' ≠ s → t_socks (w{{ t_socks ::= <[s := k]> }}) !! s' = t_socks w !! s')
    by (intros; by apply lookup_insert_ne).
  split.
  - destruct Hown as [|s' b k' Hp' Hd Hv Hk' Hw]; [by apply own_none|].
    eapply (own_some _ _ s' b k'); try done. rewrite Hlk; congruence.
  - intros s' Hp. set_solver.
  - intros s' k' Hk' HF Hp. rewrite Hlk in Hk' by set_solver. by apply (Hr s').
Qed.

Lemma life_inv w w' : life w w' → inv ∅ w → inv ∅ w'.
Proof.
  destruct 1; intros Hinv.
  - destruct (run_event_step w ev). by apply (inv_step ∅ w).
  - by apply connect_spec.
  - by apply retry_inv.
  - unfold wg_tcp_bootstrap_worker. cbn [snd]. apply run_events_inv, inv_peer; [step_fields|done].
  - by apply outbound_remove_spec.
  - by apply inbound_remove_spec.
  - by apply peer_stop_spec.
  - destruct (promote_claimed_spec ∅ s e id temp (w{{ t_socks ::= <[s := k]> }})) as [[? _] _];
      [by apply accepted_foreign|set_solver|done|done].
Qed.

(** Everything a peer's life keeps true, spelled out. *)
Definition one_connection (w : tcp) : Prop :=
  let p := t_peer w in
  (∀ b s, dir_socket b p = Some s → peer_socket p = Some s ∧ dir_socket (negb b) p = None) ∧
  (tcp_established p = true → isSome (peer_socket p) = true) ∧
  ∀ s k, t_socks w !! s = Some k →
    if bool_decide (peer_socket p = Some s)
    then ks_releases k = 0%nat ∧
         ∀ sd, ks_user_data k = Some sd → sd_peer sd = internal_id p ∧ sd_socket sd = s ∧
           dir_data (sd_inbound sd) p = Some sd
    else ks_releases k = 1%nat ∧ bare k.

Lemma life_rtc_inv w w' : inv ∅ w → rtc life w w' → inv ∅ w'.
Proof. intros Hi Hr. revert Hi. induction Hr; eauto using life_inv. Qed.

Lemma inv_one_connection w : inv ∅ w → one_connection w.
Proof.
  intros [Hown _ Hr]. split_and!.
  - intros b s Hd. destruct Hown as [_ [H1 _] [H2 _] _|s' b' k Hp Hd' [Hv _] _ _].
    + by destruct b; cbn in *; congruence.
    + destruct b, b'; cbn in *; split; congruence.
  - destruct Hown as [_ _ _ He|s b k Hp]; [congruence|]. by rewrite Hp.
  - intros s k Hk. case_bool_decide as Hp; [|by apply (Hr s); [|set_solver|]].
    destruct Hown as [Hn|s' b k' Hp' _ _ Hk' [Hrel Hw]]; [congruence|].
    assert (s' = s) as -> by congruence. assert (k' = k) as -> by congruence. split; [done|].
    intros sd Hsd. destruct (dir_data b (t_peer w)) as [sd'|] eqn:Hd.
    + destruct Hw as [_ (Hw&Hu&_)]. assert (sd' = sd) as -> by congruence.
      rewrite Hw. cbn. by rewrite Hd, Hw.
    + destruct Hw as [_ [Hu _]]. congruence.
Qed.

(** C3: Whatever happens to a peer after its creation, in any order and with any
    interleaving of callbacks in the gaps of the functions that hold the mutex,
    the peer owns at most one socket, which is its active one and is recorded
    in exactly one direction; it is marked established only while it has one;
    that socket is unreleased, and if it calls back then with the one wrapper
    the peer holds for it; every other socket ever made for the peer has been
    released exactly once, with the kernel's callbacks and no user data. *)
Theorem peer_owns_one_connection d id w :
  rtc life (mk_tcp d (new_peer d id) ∅) w → one_connection w.
Proof.
  intros Hr. apply inv_one_connection. eapply life_rtc_inv; [apply new_peer_inv|exact Hr].
Qed.

(** C26: A connection attempt keeps the one-connection invariant and gives up the
    claim on the attempt when it returns.  If it created a socket, either it
    failed, the socket has been released exactly once without callbacks and the
    peer has none, or it succeeded and the peer owns the socket, hooked; a
    connection still pending then has its retry timer or its replacement
    scheduled. *)
Theorem connect_outcome (F : gset Z) e w :
  inv F w → fresh_socket F e w →
  let '(ret, w') := wg_tcp_connect e w in connect_post F e w ret w'.
Proof.
  intros Hi Hf. pose proof (connect_spec F e w Hi Hf) as H. by destruct (wg_tcp_connect e w).
Qed.

(** The outbound removal worker releases exactly the socket it was asked to
    remove, once, if that is still the peer's; a work item left over from an
    older connection never touches the connection that replaced it. *)
Theorem outbound_remove_exact (F : gset Z) gap e w :
  inv F w → fresh_socket F e w →
  let w' := wg_tcp_outbound_remove_worker gap e w in
  inv F w' ∧
  ∀ s, tcp_outbound_remove_socket (t_peer w) = Some s →
    (outbound_socket (t_peer w) = Some s → released_once s w') ∧
    (outbound_socket (t_peer w) ≠ Some s → peer_socket (t_peer w') = peer_socket (t_peer w)).
Proof.
  intros Hi Hf. destruct (outbound_remove_spec F gap e w Hi Hf) as [Hi' H]. split; [done|].
  intros s Hs. rewrite Hs in H. case_bool_decide; split; done.
Qed.

(** C27: Stopping a peer succeeds: afterwards it owns no socket, the one it had
    has been released exactly once, no work item of it is queued, whatever ran
    while it was being stopped, its send queue is empty, and the stop flag is
    set. *)
Theorem peer_stop_quiesces (F : gset Z) gap1 gap2 w :
  inv F w → stopped F w (wg_tcp_peer_stop gap1 gap2 w).
Proof. apply peer_stop_spec. Qed.

(** C28: The hand-over of an accepted connection: if it succeeds, the peer owns
    the accepted socket, hooked, and the socket it had before has been released
    once; if it fails, the accepted socket has been released once.  In no case
    is a socket left without an owner.  A candidate older than one the peer has
    already seen, or whose id changed meanwhile, is refused. *)
Theorem promotion_transfers (F : gset Z) (s : Z) e id temp w :
  inv ({[ s ]} ∪ F) w → s ∉ F → temp_owns temp s (t_socks w) →
  let '(promoted, w') := promote_claimed e id s temp w in
  inv F w' ∧
  (promoted = true → adopted F s w' ∧
     ∀ s0, peer_socket (t_peer w) = Some s0 → released_once s0 w') ∧
  (promoted = false → released_once s w') ∧
  (id < tcp_roaming_connection_id (t_peer w) ∨ tcp_connection_id temp ≠ id → promoted = false).
Proof.
  intros Hi HF Ht. destruct (promote_claimed_spec F s e id temp w Hi HF Ht) as ([Hi' Hp]&H1&H2).
  destruct (promote_claimed e id s temp w) as [promoted w']. cbn in *.
  split_and!; [done|by intros ->|by intros ->|by intros [?|?]; auto].
Qed.

(** ** Examples *)
Definition sample_sk : sock := mk_sock AF_INET 1 2 3 4 0 0 0 0.

(** The kernel creates socket 1 and starts to connect. *)
Definition sample_connect : connect_env :=
  mk_connect_env true (Ok 1) sample_sk (mk_setup_env true true 100) (-EINPROGRESS) [] []
    [EvSockState 1 TCP_SYN_SENT] [] [].

Definition sample_new : tcp := mk_tcp sample_device (new_peer sample_device 7) ∅.
Definition sample_configured : tcp := run_event sample_new (EvSetEndpoint true (Ep4 51820 9 0 0)).
Definition sample_connecting : tcp := (wg_tcp_connect sample_connect sample_configured).2.

(** A provisional peer with the accepted socket 2, hooked. *)
Definition sample_temp : wg_peer :=
  (zero_peer 8){{ temp_peer := true; peer_socket := Some 2; inbound_socket := Some 2;
    tcp_established := true; inbound_connected := true; tcp_connection_id := 5;
    tcp_inbound_callbacks_set := true;
    tcp_inbound_socket_data := Some (mk_socket_data 101 8 2 true CbKernel CbKernel CbKernel) }}.
Definition sample_accepted : ksock :=
  (new_ksock sample_sk 0){{ ks_state := TCP_ESTABLISHED; ks_state_change := CbWg;
    ks_write_space := CbWg; ks_data_ready := CbWg;
    ks_user_data := Some (mk_socket_data 101 8 2 true CbKernel CbKernel CbKernel) }}.
Definition sample_promote : promote_env := mk_promote_env [] [] [] [] (mk_setup_env true true 102).

Lemma sample_fresh : fresh_socket ∅ sample_connect sample_configured.
Proof. intros s Hs. apply (inj Ok) in Hs as <-. by split. Qed.

Lemma sample_configured_inv : inv ∅ sample_configured.
Proof. eapply life_inv; [apply life_event|apply new_peer_inv]. Qed.

Lemma sample_connecting_inv : inv ∅ sample_connecting.
Proof. eapply life_inv; [apply life_connect, sample_fresh|apply sample_configured_inv]. Qed.

Lemma sample_temp_owns (w : tcp) : temp_owns sample_temp 2 (<[2 := sample_accepted]> (t_socks w)).
Proof.
  split_and!; [done|done|done|]. exists sample_accepted. rewrite lookup_insert_eq. by split.
Qed.

Lemma sample_connecting_2 : t_socks sample_connecting !! 2 = None.
Proof. vm_compute. reflexivity. Qed.

Lemma peer_owns_one_connection_witness :
  one_connection
    (promote_claimed sample_promote 5 2 sample_temp
       (sample_connecting{{ t_socks ::= <[2 := sample_accepted]> }})).2.
Proof.
  apply (peer_owns_one_connection sample_device 7).
  apply (rtc_l life sample_new sample_configured); [exact (life_event _ _)|].
  apply (rtc_l life sample_configured sample_connecting);
    [exact (life_connect _ sample_connect sample_fresh)|].
  apply rtc_once, (life_promote _ sample_promote 5 2 sample_temp sample_accepted);
    [exact sample_connecting_2|apply sample_temp_owns].
Defined.

Lemma connect_outcome_witness :
  (wg_tcp_connect sample_connect sample_configured).1 = 0 ∧
  connect_post ∅ sample_connect sample_configured 0 sample_connecting.
Proof.
  split; [vm_compute; reflexivity|].
  assert (H : (wg_tcp_connect sample_connect sample_configured).1 = 0) by (vm_compute; reflexivity).
  rewrite <- H. unfold sample_connecting.
  pose proof (connect_outcome ∅ sample_connect sample_configured sample_configured_inv sample_fresh)
    as Hpost. by destruct (wg_tcp_connect sample_connect sample_configured).
Defined.

(** The timer of a pending attempt claims its removal, and the worker takes a
    second socket. *)
Definition sample_timeout : tcp := run_event sample_connecting EvRetryClaim.
Definition sample_reconnect : connect_env :=
  mk_connect_env true (Ok 3) sample_sk (mk_setup_env true true 103) (-EINPROGRESS) [] []
    [EvSockState 3 TCP_SYN_SENT] [] [].

Lemma outbound_remove_exact_witness :
  released_once 1 (wg_tcp_outbound_remove_worker [] sample_reconnect sample_timeout) ∧
  peer_socket (t_peer (wg_tcp_outbound_remove_worker [] sample_reconnect sample_timeout)) = Some 3.
Proof.
  split; [|vm_compute; reflexivity].
  refine (proj1 (proj2 (outbound_remove_exact ∅ [] sample_reconnect sample_timeout _ _) 1 _) _);
    [| |vm_compute; reflexivity|vm_compute; reflexivity].
  - eapply life_inv; [apply life_event|apply sample_connecting_inv].
  - intros s Hs. apply (inj Ok) in Hs as <-. split; [vm_compute; reflexivity|set_solver].
Defined.

Lemma peer_stop_quiesces_witness :
  stopped ∅ sample_connecting (wg_tcp_peer_stop [EvDataReady] [EvRequestReconnect 0] sample_connecting).
Proof.
  exact (peer_stop_quiesces ∅ [EvDataReady] [EvRequestReconnect 0] sample_connecting
           sample_connecting_inv).
Defined.

Lemma promotion_transfers_witness :
  let '(promoted, w') := promote_claimed sample_promote 5 2 sample_temp
    (sample_connecting{{ t_socks ::= <[2 := sample_accepted]> }}) in
  promoted = true ∧ adopted ∅ 2 w' ∧ released_once 1 w'.
Proof.
  pose proof (promotion_transfers ∅ 2 sample_promote 5 sample_temp
    (sample_connecting{{ t_socks ::= <[2 := sample_accepted]> }})
    (accepted_foreign 2 sample_accepted sample_connecting sample_connecting_inv sample_connecting_2)
    ltac:(set_solver) (sample_temp_owns sample_connecting)) as H.
  assert (Hp : (promote_claimed sample_promote 5 2 sample_temp
    (sample_connecting{{ t_socks ::= <[2 := sample_accepted]> }})).1 = true) by (vm_compute; reflexivity).
  destruct (promote_claimed _ _ _ _ _) as [promoted w']. cbn [fst] in Hp.
  destruct H as (_&H&_). destruct (H Hp) as [H1 H2].
  split; [exact Hp|]. split; [exact H1|]. apply H2. vm_compute. reflexivity.
Defined.
