(* ===== verification/Endpoint.v ===== *)
(** * Endpoints, roaming and promotion requests (kernel/wg_tcp.c:
    wg_socket_set_peer_endpoint_*, wg_tcp_promotion_worker)

    A configured endpoint is the address a peer is dialed at and fixes the port
    it listens on.  An authenticated packet from an accepted connection moves the
    dial address, but never the port, to where the packet came from, unless a
    newer connection has already been seen, and asks a worker to hand the
    connection over to the peer.

    The theorems show that these functions are made of steps that keep the
    ownership invariant of TcpHandover.v, which observation decides the dial
    address, and that no request for a promotion is lost. *)
From stdpp Require Import prelude list gmap.
From S2P Require Import Prelude Skb Net Peer TcpWriter FakeHeaders Admission TcpPeer TcpPeerSpec.
From S2P Require Import TcpHandover.

#[local] Open Scope Z_scope.

(** ** Setting an endpoint *)

(** [gap] happens between the locked section and what follows it. *)
Definition wg_socket_set_peer_endpoint_internal (e : connect_env) (gap : list event)
    (configured : bool) (ep : endpoint) (w : tcp) : tcp :=
  let d := t_dev w in
  let p := t_peer w in
  if endpoint_eq ep (p_endpoint p)
     && (negb configured || negb (is_tcp d)
         || (peer_endpoint_set p && endpoint_eq ep (peer_endpoint p)))
  then w
  else
    match set_endpoint_locked d configured ep p with
    | None => w
    | Some (p, tcp_target_changed) =>
        let w := run_events gap (w{{ t_peer := p }}) in
        if negb (is_tcp (t_dev w)) || negb configured then w
        else if tcp_target_changed then w{{ t_peer := wg_tcp_peer_request_reconnect (t_dev w) (t_peer w) }}
        else if dev_running (t_dev w) && negb (tcp_established (t_peer w)) then (wg_tcp_connect e w).2
        else w
    end.

Definition wg_socket_set_peer_endpoint (e : connect_env) (gap : list event) (ep : endpoint)
    (w : tcp) : tcp := wg_socket_set_peer_endpoint_internal e gap false ep w.

Definition wg_socket_set_peer_endpoint_configured (e : connect_env) (gap : list event)
    (ep : endpoint) (w : tcp) : tcp := wg_socket_set_peer_endpoint_internal e gap true ep w.

(** The device's connections take part: the connection is marked
    authenticated. *)
Definition wg_socket_set_peer_endpoint_authenticated (e : connect_env) (gap gap' : list event)
    (now : Z) (ep : endpoint) (connection_id : Z) (c : connections) (w : tcp) : connections * tcp :=
  let w := wg_socket_set_peer_endpoint e gap ep w in
  if negb (is_tcp (t_dev w)) then (c, w)
  else
    let '(c, w) :=
      if connection_id =? 0 then (c, w)
      else (wg_tcp_mark_connection_authenticated c now connection_id,
            w{{ t_peer ::= request_promotion connection_id }}) in
    let w := run_events gap' w in
    let '(p, target_changed) := roam_locked ep connection_id (t_peer w) in
    let w := w{{ t_peer := p }} in
    if target_changed && negb (temp_peer p)
    then (c, w{{ t_peer := wg_tcp_peer_request_reconnect_after (t_dev w) 100 (t_peer w) }})
    else (c, w).

Definition wg_socket_set_peer_endpoint_authenticated_from_skb (e : connect_env)
    (gap gap' : list event) (now : Z) (skb : sk_buff) (c : connections) (w : tcp)
    : connections * tcp :=
  match wg_socket_endpoint_from_skb skb with
  | Ok ep => wg_socket_set_peer_endpoint_authenticated e gap gap' now ep
               (cb_tcp_connection_id (PACKET_CB skb)) c w
  | Err _ => (c, w)
  end.

(** [src4] and [src_if4] lie in the bytes of [src6]. *)
Definition wg_socket_clear_peer_endpoint_src (p : wg_peer) : wg_peer :=
  p{{ p_endpoint := match p_endpoint p with
                    | EpUnspec => EpUnspec
                    | Ep4 port addr _ _ => Ep4 port addr 0 0
                    | Ep6 port addr scope _ => Ep6 port addr scope 0
                    end }}.

(** ** The promotion worker *)

(** Its locked section: the id to promote, or the end of the loop. *)
Definition promotion_take (p : wg_peer) : option Z * wg_peer :=
  let connection_id := tcp_promotion_connection_id p in
  let p := p{{ tcp_promotion_connection_id := 0 }} in
  if connection_id =? 0 then (None, p{{ tcp_promotion_worker_scheduled := false }})
  else (Some connection_id, p).

(** The peer, whether the work item is running, and what happened: requests
    that were accepted and ids handed to the promotion, the newest first. *)
Inductive promotion_note := Requested (id : Z) | Served (id : Z).

Record promotion := mk_promotion {
  pr_peer : wg_peer;
  pr_running : bool;
  pr_log : list promotion_note;
}.

#[export] Instance eta_promotion : Settable promotion := λ q,
  mk_promotion (pr_peer q) (pr_running q) (pr_log q).

Definition do_request (id : Z) (q : promotion) : promotion :=
  let p := pr_peer q in
  let accepted := negb (is_dead p) && negb (tcp_stopping p)
                  && (tcp_promotion_connection_id p <? id) in
  q{{ pr_peer := request_promotion id p;
      pr_log := if accepted then Requested id :: pr_log q else pr_log q }}.

Definition do_take (q : promotion) : promotion :=
  match promotion_take (pr_peer q) with
  | (None, p) => q{{ pr_peer := p; pr_running := false }}
  | (Some id, p) => q{{ pr_peer := p; pr_log := Served id :: pr_log q }}
  end.

(** The steps of the worker; [wg_tcp_promotion_worker] is a start followed by
    sections up to the one that ends it. *)
Inductive worker_step : promotion → promotion → Prop :=
  | ps_start q :
      pr_running q = false → wk_promotion (pr_peer q) = true →
      worker_step q (q{{ pr_peer ::= (λ p, p{{ wk_promotion := false }}); pr_running := true }})
  | ps_take q : pr_running q = true → worker_step q (do_take q).

Inductive promotion_step : promotion → promotion → Prop :=
  | ps_worker q q' : worker_step q q' → promotion_step q q'
  | ps_request q id : 0 < id → promotion_step q (do_request id q).

(** The worker is neither queued nor running. *)
Definition at_rest (q : promotion) : Prop :=
  wk_promotion (pr_peer q) = false ∧ pr_running q = false.

(** Every accepted request is followed by the promotion of its id or of a
    newer one. *)
Definition all_served (log : list promotion_note) : Prop :=
  ∀ log1 id log2, log = log1 ++ Requested id :: log2 → ∃ id', Served id' ∈ log1 ∧ id <= id'.

(** ** The functions are made of the steps of a peer's life *)
Lemma life_events evs w : rtc life w (run_events evs w).
Proof.
  revert w. induction evs as [|ev evs IH]; intros w; [done|].
  eapply rtc_l; [apply life_event|apply IH].
Qed.

Lemma life_peer ev w p : run_event w ev = w{{ t_peer := p }} → rtc life w (w{{ t_peer := p }}).
Proof. intros <-. apply rtc_once, life_event. Qed.

Lemma fresh_after (F : gset Z) e w w' :
  same_wiring (t_socks w) (t_socks w') → fresh_socket F e w → fresh_socket F e w'.
Proof.
  intros Hw Hf s Hs. destruct (Hf s Hs) as [Hn HF]. split; [|done].
  specialize (Hw s). rewrite Hn in Hw. by destruct (t_socks w' !! s).
Qed.

Lemma set_endpoint_internal_life e gap configured ep w :
  fresh_socket ∅ e w → rtc life w (wg_socket_set_peer_endpoint_internal e gap configured ep w).
Proof.
  intros Hf. unfold wg_socket_set_peer_endpoint_internal. case_if; [done|].
  destruct (set_endpoint_locked _ _ _ _) as [[p changed]|] eqn:Hset; [|done].
  set (w1 := w{{ t_peer := p }}).
  assert (H1 : rtc life w w1).
  { apply (life_peer (EvSetEndpoint configured ep)). cbn [run_event]. by rewrite Hset. }
  assert (H2 : rtc life w (run_events gap w1)) by (etrans; [exact H1|apply life_events]).
  assert (Hf2 : fresh_socket ∅ e (run_events gap w1)).
  { eapply fresh_after; [|exact Hf]. exact (proj2 (run_events_step gap w1)). }
  set (w2 := run_events gap w1) in *. clearbody w2. clear w1 H1.
  repeat case_if; [done| | |done]; (etrans; [exact H2|]).
  - by apply (life_peer (EvRequestReconnect 0)).
  - by apply rtc_once, life_connect.
Qed.

Lemma authenticated_life e gap gap' now ep id c w :
  fresh_socket ∅ e w →
  rtc life w (wg_socket_set_peer_endpoint_authenticated e gap gap' now ep id c w).2.
Proof.
  intros Hf. unfold wg_socket_set_peer_endpoint_authenticated, wg_socket_set_peer_endpoint.
  pose proof (set_endpoint_internal_life e gap false ep w Hf) as H1.
  set (w1 := wg_socket_set_peer_endpoint_internal _ _ _ _ _) in *. clearbody w1.
  case_if; [done|].
  assert (H2 : rtc life w (if id =? 0 then w1 else w1{{ t_peer ::= request_promotion id }})).
  { case_if; [done|]. etrans; [exact H1|]. by apply rtc_once, (life_event w1 (EvRequestPromotion id)). }
  assert (Heq : (if id =? 0 then (c, w1) else (wg_tcp_mark_connection_authenticated c now id,
                   w1{{ t_peer ::= request_promotion id }})) =
                (if id =? 0 then c else wg_tcp_mark_connection_authenticated c now id,
                 if id =? 0 then w1 else w1{{ t_peer ::= request_promotion id }})) by (by case_if).
  rewrite Heq. set (w2 := if id =? 0 then _ else _) in *. clearbody w2.
  assert (H3 : rtc life w (run_events gap' w2)) by (etrans; [exact H2|apply life_events]).
  set (w3 := run_events gap' w2) in *. clearbody w3.
  destruct (roam_locked ep id (t_peer w3)) as [p changed] eqn:Hroam.
  assert (H4 : rtc life w (w3{{ t_peer := p }})).
  { etrans; [exact H3|]. apply (life_peer (EvRoam ep id)). cbn [run_event]. by rewrite Hroam. }
  case_if; cbn [snd]; [|done]. etrans; [exact H4|].
  by apply rtc_once, (life_event _ (EvRequestReconnect 100)).
Qed.

(** ** Roaming *)
Definition observe (p : wg_peer) (o : endpoint * Z) : wg_peer := (roam_locked o.1 o.2 p).1.

(** An observation over an accepted connection, from a known address family. *)
Definition counts (o : endpoint * Z) : Prop := o.2 ≠ 0 ∧ o.1 ≠ EpUnspec.

Lemma dial_target_refl p ep :
  ep ≠ EpUnspec → wg_tcp_dial_target_eq (roam_target p ep) (roam_target p ep) = true.
Proof. destruct ep; [done|..]; intros _; cbn; by rewrite !Z.eqb_refl. Qed.

Lemma observe_spec p ep id :
  peer_endpoint_set p = true →
  let p' := observe p (ep, id) in
  peer_endpoint_set p' = true ∧ tcp_peer_listen_port p' = tcp_peer_listen_port p ∧
  ((counts (ep, id) ∧ tcp_roaming_connection_id p <= id ∧ tcp_roaming_connection_id p' = id ∧
    wg_tcp_dial_target_eq (peer_endpoint p') (roam_target p ep) = true) ∨
   ((counts (ep, id) → id < tcp_roaming_connection_id p) ∧ p' = p)).
Proof.
  intros Hset. unfold observe, roam_locked, counts. cbn [fst snd]. rewrite Hset. cbn [negb orb].
  case_if; simpl_guards; [split_and!; [done..|]; right; split; [lia|done]|].
  assert (id ≠ 0 ∧ tcp_roaming_connection_id p <= id) as [? ?] by lia.
  destruct (decide (ep = EpUnspec)) as [->|Hne];
    [split_and!; [done..|]; right; split; [by intros [_ []]|done]|].
  assert (Hgo : let p1 := p{{ tcp_roaming_connection_id := id }} in
    let p' := (if negb (wg_tcp_dial_target_eq (peer_endpoint p1) (roam_target p ep))
               then (p1{{ peer_endpoint := roam_target p ep }}, true) else (p1, false)).1 in
    peer_endpoint_set p' = true ∧ tcp_peer_listen_port p' = tcp_peer_listen_port p ∧
    tcp_roaming_connection_id p' = id ∧
    wg_tcp_dial_target_eq (peer_endpoint p') (roam_target p ep) = true).
  { cbn zeta. destruct (wg_tcp_dial_target_eq _ _) eqn:Heq; cbn; split_and!; try done.
    by apply dial_target_refl. }
  cbn zeta in Hgo. destruct Hgo as (?&?&?&?).
  destruct ep; [done|..]; (split; [done|]; split; [done|left; by split_and!]).
Qed.

(** The peer after the observations: unchanged because none was newer, or
    dialed where the last observation of the newest connection was made. *)
Definition dialed_after (p : wg_peer) (obs : list (endpoint * Z)) (p' : wg_peer) : Prop :=
  (p' = p ∧ ∀ o, o ∈ obs → counts o → o.2 < tcp_roaming_connection_id p) ∨
  ∃ obs1 ep id obs2, obs = obs1 ++ (ep, id) :: obs2 ∧ counts (ep, id) ∧
    tcp_roaming_connection_id p <= id ∧ tcp_roaming_connection_id p' = id ∧
    (∀ o, o ∈ obs1 → counts o → o.2 <= id) ∧ (∀ o, o ∈ obs2 → counts o → o.2 < id) ∧
    wg_tcp_dial_target_eq (peer_endpoint p') (roam_target p ep) = true.

Lemma observe_all p obs :
  peer_endpoint_set p = true →
  let p' := foldl observe p obs in
  peer_endpoint_set p' = true ∧ tcp_peer_listen_port p' = tcp_peer_listen_port p ∧
  dialed_after p obs p'.
Proof.
  intros Hset. cbn zeta. unfold dialed_after.
  induction obs as [|[ep id] obs IH] using rev_ind.
  { split; [done|]. split; [done|]. left. set_solver. }
  rewrite foldl_snoc. destruct IH as (Hset1&Hport&IH).
  set (p1 := foldl observe p obs) in *. clearbody p1.
  destruct (observe_spec p1 ep id Hset1) as (Hset2&Hport2&H).
  split; [done|]. cbn zeta. split; [congruence|].
  assert (Htg : roam_target p1 ep = roam_target p ep) by (destruct ep; cbn; congruence).
  destruct H as [(Hc&Hle&Hid&Htarget)|[Hlow ->]].
  - right. exists obs, ep, id, []. rewrite Htg in Htarget.
    destruct IH as [[-> Hold]|(obs1&ep1&id1&obs2&->&Hc1&Hle1&Hid1&H1&H2&_)].
    + split_and!; [done..| |set_solver|done]. intros o Ho Hco. specialize (Hold o Ho Hco). lia.
    + split_and!; [done|done|lia|done| |set_solver|done].
      intros o [Ho|[->|Ho]%elem_of_cons]%elem_of_app Hco; [specialize (H1 o Ho Hco); lia|cbn; lia|].
      specialize (H2 o Ho Hco). lia.
  - destruct IH as [[-> Hold]|(obs1&ep1&id1&obs2&->&Hc1&Hle1&Hid1&H1&H2&Ht1)].
    + left. split; [done|]. intros o [Ho|Ho%list_elem_of_singleton]%elem_of_app Hco; [by auto|].
      subst o. by apply Hlow.
    + right. exists obs1, ep1, id1, (obs2 ++ [(ep, id)]). rewrite <- app_assoc.
      split_and!; try done. intros o [Ho|Ho%list_elem_of_singleton]%elem_of_app Hco; [by auto|].
      subst o. rewrite <- Hid1. by apply Hlow.
Qed.


(** ** Requests for a promotion *)
Definition promotable (p : wg_peer) : Prop := is_dead p = false ∧ tcp_stopping p = false.

(** A request is pending, or has been answered. *)
Definition answered (pending : Z) (log : list promotion_note) : Prop :=
  ∀ log1 id log2, log = log1 ++ Requested id :: log2 →
    id <= pending ∨ ∃ id', Served id' ∈ log1 ∧ id <= id'.

Record promotion_ok (q : promotion) : Prop := {
  pq_live : promotable (pr_peer q);
  pq_pending : 0 <= tcp_promotion_connection_id (pr_peer q);
  pq_claimed : tcp_promotion_connection_id (pr_peer q) ≠ 0 →
               tcp_promotion_worker_scheduled (pr_peer q) = true;
  pq_scheduled : tcp_promotion_worker_scheduled (pr_peer q) =
                 wk_promotion (pr_peer q) || pr_running q;
  pq_once : wk_promotion (pr_peer q) = true → pr_running q = false;
  pq_answered : answered (tcp_promotion_connection_id (pr_peer q)) (pr_log q);
  pq_positive : ∀ id, Requested id ∈ pr_log q → 0 < id;
}.

Lemma answered_request pending id log :
  pending < id → answered pending log → answered id (Requested id :: log).
Proof.
  intros Hlt H [|n log1] id1 log2 Heq; simplify_eq/=; [left; lia|].
  destruct (H log1 id1 log2 eq_refl) as [?|(id'&?&?)]; [left; lia|].
  right. exists id'. split; [set_solver|done].
Qed.

Lemma answered_serve pending log : answered pending log → answered 0 (Served pending :: log).
Proof.
  intros H [|n log1] id1 log2 Heq; simplify_eq/=.
  right. destruct (H log1 id1 log2 eq_refl) as [?|(id'&?&?)];
    [exists pending|exists id']; (split; [set_solver|done]).
Qed.

Lemma request_ok q id : 0 < id → promotion_ok q → promotion_ok (do_request id q).
Proof.
  intros Hid [[Hd Hs] Hp Hc Hsch Ho Ha Hpos]. unfold do_request, request_promotion.
  destruct q as [p run log]. cbn [pr_peer pr_running pr_log] in *. rewrite Hd, Hs. cbn [negb andb].
  destruct (tcp_promotion_connection_id p <? id) eqn:Hlt; [apply Z.ltb_lt in Hlt|by split].
  change (tcp_promotion_worker_scheduled (p{{ tcp_promotion_connection_id := id }}))
    with (tcp_promotion_worker_scheduled p).
  assert (Hlog : ∀ id', Requested id' ∈ Requested id :: log → 0 < id')
    by (intros id' [[= ->]|?]%elem_of_cons; auto).
  pose proof (answered_request _ id log Hlt Ha).
  destruct (tcp_promotion_worker_scheduled p) eqn:Hw; cbn [negb].
  - split; try done; [cbn; lia|by etransitivity; [exact Hw|]].
  - symmetry in Hsch. apply orb_false_iff in Hsch as [Hwk Hrun]. split; try done; cbn; lia.
Qed.

Lemma worker_ok q q' : worker_step q q' → promotion_ok q → promotion_ok q'.
Proof.
  destruct 1 as [q Hrun Hwk|q Hrun]; intros [[Hd Hs] Hp Hc Hsch Ho Ha Hpos].
  - split; try done. cbn. by rewrite Hsch, Hwk.
  - unfold do_take, promotion_take. destruct q as [p run log]. cbn [pr_peer pr_running pr_log] in *.
    subst run. rewrite orb_true_r in Hsch.
    assert (Hwk : wk_promotion p = false) by (destruct (wk_promotion p); [by discriminate Ho|done]).
    destruct (tcp_promotion_connection_id p =? 0) eqn:H0; simpl_guards.
    + split; try done; cbn; [by rewrite Hwk|]. by rewrite H0 in Ha.
    + split; try done; cbn; [by rewrite Hwk|by apply answered_serve|].
      intros id [?|?]%elem_of_cons; auto; done.
Qed.

Lemma promotion_reachable_ok q q' : rtc promotion_step q q' → promotion_ok q → promotion_ok q'.
Proof.
  induction 1 as [|q1 q2 q3 [? ? Hw|? id Hid] _ IH]; [done| |]; intros Hq; apply IH;
    [by eapply worker_ok|by apply request_ok].
Qed.

(** From any state the worker comes to rest by itself, after at most one more
    promotion. *)
Lemma running_rests q :
  pr_running q = true → promotion_ok q → ∃ q', rtc worker_step q q' ∧ at_rest q' ∧ promotion_ok q'.
Proof.
  intros Hrun Hq.
  assert (Hlast : ∀ q, pr_running q = true → promotion_ok q →
    tcp_promotion_connection_id (pr_peer q) = 0 →
    worker_step q (do_take q) ∧ at_rest (do_take q) ∧ promotion_ok (do_take q)).
  { intros q0 Hr Hq0 H0. split; [by apply ps_take|]. split; [|by eapply worker_ok; [apply ps_take|]].
    unfold do_take, promotion_take. rewrite H0. split; [|done]. cbn.
    destruct (wk_promotion (pr_peer q0)) eqn:Hwk; [|done]. by rewrite (pq_once q0 Hq0 Hwk) in Hr. }
  destruct (decide (tcp_promotion_connection_id (pr_peer q) = 0)) as [H0|H0].
  - destruct (Hlast q Hrun Hq H0) as (?&?&?). exists (do_take q). split; [by apply rtc_once|done].
  - assert (Hq1 : promotion_ok (do_take q)) by (by eapply worker_ok; [apply ps_take|]).
    assert (pr_running (do_take q) = true ∧ tcp_promotion_connection_id (pr_peer (do_take q)) = 0)
      as [Hr1 H1].
    { unfold do_take, promotion_take. by rewrite (proj2 (Z.eqb_neq _ _) H0). }
    destruct (Hlast _ Hr1 Hq1 H1) as (?&?&?). exists (do_take (do_take q)). split; [|done].
    eapply rtc_l; [by apply ps_take|by apply rtc_once].
Qed.

Lemma worker_rests q : promotion_ok q → ∃ q', rtc worker_step q q' ∧ at_rest q' ∧ promotion_ok q'.
Proof.
  intros Hq. destruct (pr_running q) eqn:Hrun; [by apply running_rests|].
  destruct (wk_promotion (pr_peer q)) eqn:Hwk; [|by exists q].
  assert (Hst : worker_step q _) by (by apply ps_start).
  pose proof (worker_ok _ _ Hst Hq) as Hok.
  eapply running_rests in Hok as (q'&Hq'&?); [|done]. exists q'.
  split; [by eapply rtc_l|done].
Qed.

Lemma at_rest_served q : promotion_ok q → at_rest q → all_served (pr_log q).
Proof.
  intros [_ Hp Hc Hsch _ Ha Hpos] [Hwk Hrun]. rewrite Hwk, Hrun in Hsch.
  assert (tcp_promotion_connection_id (pr_peer q) = 0) as H0.
  { destruct (decide (tcp_promotion_connection_id (pr_peer q) = 0)) as [|Hne]; [done|].
    by rewrite (Hc Hne) in Hsch. }
  rewrite H0 in Ha. intros log1 id log2 Heq. destruct (Ha log1 id log2 Heq) as [Hle|]; [|done].
  specialize (Hpos id). rewrite Heq in Hpos. specialize (Hpos ltac:(set_solver)). lia.
Qed.

(** A live peer nothing was requested of. *)
Definition promotion_idle (p : wg_peer) : Prop :=
  promotable p ∧ tcp_promotion_connection_id p = 0 ∧ tcp_promotion_worker_scheduled p = false ∧
  wk_promotion p = false.

Lemma promotion_idle_ok p : promotion_idle p → promotion_ok (mk_promotion p false []).
Proof.
  intros (?&H0&Hs&Hw). split; cbn; rewrite ?H0, ?Hs, ?Hw; try done; [|set_solver].
  by intros [|] ? ?.
Qed.


(** Setting an endpoint, from the configuration or from an authenticated
    packet, keeps the one-connection invariant of a peer at every point of its
    life: both functions are sequences of the peer's steps, whatever runs in
    their gaps. *)
Theorem endpoint_keeps_one_connection d id w e gap gap' now configured ep cid c :
  rtc life (mk_tcp d (new_peer d id) ∅) w → fresh_socket ∅ e w →
  one_connection (wg_socket_set_peer_endpoint_internal e gap configured ep w) ∧
  one_connection (wg_socket_set_peer_endpoint_authenticated e gap gap' now ep cid c w).2.
Proof.
  intros Hr Hf. split; apply inv_one_connection, (life_rtc_inv _ _ (new_peer_inv d id)); (etrans; [exact Hr|]);
    [by apply set_endpoint_internal_life|by apply authenticated_life].
Qed.

(** ** Examples *)
Definition sample_roaming : wg_peer :=
  (zero_peer 7){{ peer_endpoint := Ep4 51820 1 0 0; peer_endpoint_set := true;
                  tcp_peer_listen_port := 51820 }}.


Definition sample_promotion : promotion :=
  do_request 9 (do_request 4 (mk_promotion sample_roaming false [])).


Lemma endpoint_keeps_one_connection_witness :
  one_connection (wg_socket_set_peer_endpoint_internal sample_connect [] true (Ep4 51821 9 0 0)
                    sample_configured).
Proof.
  apply (endpoint_keeps_one_connection sample_device 7 sample_configured sample_connect [] [] 0 true
           (Ep4 51821 9 0 0) 0 no_connections); [|exact sample_fresh].
  apply rtc_once. exact (life_event _ _).
Defined.
