(* ===== verification/Listener.v ===== *)
(** * Accepting connections (kernel/wg_tcp.c: wg_tcp_listener_worker)

    A listener thread accepts connections, throttles them by source, gives each
    one a provisional peer, hooks its callbacks and puts it on the device's
    list.  From there it is promoted to the peer that authenticates over it, or
    destroyed by the reaper, by a newer connection from the same address and
    port, or when the device goes down.

    The first part models these operations on the state of a device; the second
    proves that no accepted socket is ever lost: each is owned by exactly one
    tracked provisional peer, has been claimed for a promotion, or has been
    released exactly once. *)
From stdpp Require Import prelude list gmap.
From S2P Require Import Prelude Skb Net Peer TcpReader Admission TcpPeer TcpPeerSpec.

#[local] Open Scope Z_scope.

(** ** State

    [l_temps] are the provisional peers; the key of a peer stands for its
    address.  [l_cleanup_work] is the delay with which the reaper is queued. *)
Record listener := mk_listener {
  l_dev : wg_device;
  l_conns : connections;
  l_sources : list wg_tcp_accept_source;
  l_temps : gmap Z wg_peer;
  l_socks : sockets;
  l_cleanup_work : option Z;
}.

#[export] Instance eta_listener : Settable listener := λ l,
  mk_listener (l_dev l) (l_conns l) (l_sources l) (l_temps l) (l_socks l) (l_cleanup_work l).

Definition temp_dead (l : listener) (id : Z) : bool :=
  match l_temps l !! id with Some temp => is_dead temp | None => false end.

(** A provisional peer with the device and the sockets. *)
Definition temp_world (l : listener) (temp : wg_peer) : tcp := mk_tcp (l_dev l) temp (l_socks l).

Definition put_world (id : Z) (w : tcp) (l : listener) : listener :=
  l{{ l_dev := t_dev w; l_socks := t_socks w; l_temps ::= <[id := t_peer w]> }}.

(** ** Destroying tracked connections *)

(** The temporary peer and the entry are freed. *)
Definition destroy_entry (gap : list event) (en : wg_tcp_socket_list_entry) (l : listener)
    : listener :=
  let temp := e_temp_peer en ≫= (l_temps l !!.) in
  let w := wg_destroy_tcp_connection_entry gap temp (Some (e_tcp_socket en))
             (temp_world l (zero_peer 0)) in
  l{{ l_socks := t_socks w;
      l_temps := match e_temp_peer en with Some id => delete id (l_temps l) | None => l_temps l end }}.

Definition wg_remove_from_tcp_connection_list (gap : list event) (now socket : Z) (l : listener)
    : listener :=
  let '(en, c) := wg_claim_tcp_connection (temp_dead l) (l_conns l) (Some socket) false now in
  let l := l{{ l_conns := c }} in
  match en with Some en => destroy_entry gap en l | None => l end.

(** The loops of the reaper and of the device's teardown, with the destruction
    of every claimed entry; [gaps] is what happens while each is destroyed. *)
Fixpoint destroy_claimed (fuel : nat) (cleanup_only : bool) (now : Z) (gaps : nat → list event)
    (l : listener) : listener :=
  match fuel with
  | O => l
  | S fuel =>
      let '(en, c) := wg_claim_tcp_connection (temp_dead l) (l_conns l) None cleanup_only now in
      let l := l{{ l_conns := c }} in
      match en with
      | None => l
      | Some en => destroy_claimed fuel cleanup_only now gaps (destroy_entry (gaps fuel) en l)
      end
  end.

Definition entries (l : listener) : list wg_tcp_socket_list_entry :=
  tcp_connection_list (l_conns l).

Definition cleanup_pass (now : Z) (gaps : nat → list event) (l : listener) : listener :=
  let l := destroy_claimed (S (length (entries l))) true now gaps (l{{ l_cleanup_work := None }}) in
  if isSome (head (entries l)) && dev_tcp_cleanup_scheduled (l_dev l)
  then l{{ l_cleanup_work := Some WG_TCP_CLEANUP_INTERVAL_MS }} else l.

Definition teardown (now : Z) (gaps : nat → list event) (l : listener) : listener :=
  destroy_claimed (S (length (entries l))) false now gaps l.

(** ** One accepted connection *)

(** The answers of the kernel: the accepted socket, its addresses as
    [getname] reports them at the three places that ask, the outcome of the
    allocations, the two reads of the device's flag, and what happens in the
    gaps. *)
Record accept_env := mk_accept_env {
  ae_socket : Z;
  ae_sk : sock;
  ae_state : tcp_state;
  ae_name : result (Z * sockaddr);
  ae_jiffies : Z;
  ae_now : Z;
  ae_temp : Z;
  ae_temp_alloc : bool;
  ae_auth_wq : bool;
  ae_local : result (Z * sockaddr);
  ae_remote : result (Z * sockaddr);
  ae_setup : setup_env;
  ae_entry_alloc : bool;
  ae_entry_name : result (Z * sockaddr);
  ae_cleanup1 : bool;
  ae_cleanup2 : bool;
  ae_rx_pending : bool;
  ae_gap_replace : list event;
  ae_gap_hooked : list event;
  ae_gap_tracked : list event;
  ae_gap_destroy : list event;
}.

Section accept.
Context (WG_TCP_ACCEPT_WINDOW : Z).

(** [kernel_accept]'s socket, with the device's mark. *)
Definition accepted_ksock (e : accept_env) (mark : Z) : ksock :=
  (new_ksock (ae_sk e) mark){{ ks_state := ae_state e }}.

(** The provisional peer of the connection, before its callbacks are set. *)
Definition provisional (e : accept_env) (temp : wg_peer) : wg_peer :=
  let ep := wg_get_endpoint_from_socket (ae_sk e) (tcp_reply_endpoint temp) in
  let '(_, src, dst) := copy_sock_addresses (ae_local e) (ae_remote e) in
  temp{{ peer_socket := Some (ae_socket e); inbound_socket := Some (ae_socket e);
         tcp_reply_endpoint := ep; p_endpoint := ep; tcp_established := true;
         inbound_connected := true; tcp_inbound_callbacks_set := false;
         p_inbound_source := src; p_inbound_dest := dst; peer_endpoint_set := false }}.

(** The first tracked connection from the same address and port. *)
Definition pending_match (addr : sockaddr) (l : listener) : option Z :=
  e_tcp_socket <$>
    head (filter (λ en, Is_true (wg_sockaddrs_match addr (e_src_addr en))) (entries l)).

(** The socket carries inbound data of this provisional peer. *)
Definition owned_by (id socket : Z) (ks : sockets) : bool :=
  match ks !! socket ≫= ks_user_data with
  | Some sd => (sd_peer sd =? id) && sd_inbound sd
  | None => false
  end.

Definition release_accepted (socket : Z) (l : listener) : listener :=
  l{{ l_socks ::= alter (λ k, k{{ ks_releases ::= S }}) socket }}.

(** [wg_destroy_temp_peer] on the provisional peer of [w]. *)
Definition abandon (e : accept_env) (w : tcp) (l : listener) : listener :=
  let w := (wg_destroy_temp_peer (ae_gap_destroy e) w).2 in
  l{{ l_dev := t_dev w; l_socks := t_socks w }}.

Definition mark_dead (dead : option Z) (l : listener) : listener :=
  match dead with
  | Some id => l{{ l_temps ::= alter (λ temp, temp{{ is_dead := true }}) id }}
  | None => l
  end.

(** [wg_finish_tcp_connection_init] on the state. *)
Definition finish_init (socket : Z) (l : listener) : listener :=
  let established := match l_socks l !! socket with
                     | Some k => bool_decide (ks_state k = TCP_ESTABLISHED)
                     | None => false
                     end in
  let '(c, dead, reap) := wg_finish_tcp_connection_init (temp_dead l) (l_conns l) socket
                            established (dev_tcp_cleanup_scheduled (l_dev l)) in
  let l := mark_dead dead (l{{ l_conns := c }}) in
  if reap then l{{ l_cleanup_work := Some 0 }} else l.

(** The provisional peer exists and has its callbacks: track it, or destroy
    it. *)
Definition track_accepted (e : accept_env) (w : tcp) (l : listener) : listener :=
  let a := wg_add_tcp_socket_to_list (l_conns l) (dev_fwmark (t_dev w)) (ae_entry_alloc e)
             (owned_by (ae_temp e) (ae_socket e) (t_socks w)) (ae_socket e) (ae_temp e) (ae_now e)
             (ae_entry_name e) (ae_cleanup1 e) (ae_cleanup2 e) in
  let l := l{{ l_conns := add_connections a }} in
  let w := match add_peer_id a with
           | Some id => w{{ t_peer := (t_peer w){{ tcp_connection_id := id }} }}
           | None => w
           end in
  let w := match add_mark a with
           | Some mark => w{{ t_socks ::= alter (λ k, k{{ ks_mark := mark }}) (ae_socket e) }}
           | None => w
           end in
  let l := if add_reap a then l{{ l_cleanup_work := Some 0 }} else l in
  if negb (add_ret a =? 0) then abandon e w l
  else
    let w := run_events (ae_gap_tracked e) w in
    let w := if ae_rx_pending e then w{{ t_peer := wg_tcp_data_ready (t_dev w) (t_peer w) }} else w in
    finish_init (ae_socket e) (put_world (ae_temp e) w l).

Definition accept_temp (e : accept_env) (l : listener) : listener :=
  match wg_temp_peer_create (ae_temp_alloc e) (ae_auth_wq e) (ae_temp e) with
  | Err _ => release_accepted (ae_socket e) l
  | Ok temp =>
      let w := temp_world l (provisional e temp) in
      let '(ret, w) := wg_setup_tcp_socket_callbacks (ae_setup e) (ae_socket e) true w in
      if negb (ret =? 0) then abandon e w l
      else track_accepted e (run_events (ae_gap_hooked e) w) l
  end.

(** The body of the loop for an accepted socket. *)
Definition accept_connection (e : accept_env) (l : listener) : listener :=
  let l := l{{ l_socks ::= <[ae_socket e := accepted_ksock e (dev_fwmark (l_dev l))]> }} in
  match ae_name e with
  | Err _ => release_accepted (ae_socket e) l
  | Ok (len, addr) =>
      if negb (wg_sockaddr_length_valid addr len) then release_accepted (ae_socket e) l
      else
        let '(allowed, sources) :=
          wg_tcp_accept_rate_allow WG_TCP_ACCEPT_WINDOW (l_sources l) (ae_jiffies e) addr in
        let l := l{{ l_sources := sources }} in
        if negb allowed || wg_tcp_source_at_capacity (l_conns l) addr
        then release_accepted (ae_socket e) l
        else
          let l := match pending_match addr l with
                   | Some old => wg_remove_from_tcp_connection_list (ae_gap_replace e) (ae_now e) old l
                   | None => l
                   end in
          accept_temp e l
  end.

(** What [kernel_accept] returns in each round; [stop] is the read of
    [kthread_should_stop] after an error. *)
Inductive accept_result :=
  | AcErr (err : Z) (stop : bool)
  | AcNone
  | AcConn (e : accept_env).

(** The rounds of the loop; it ends when the thread is told to stop, when the
    listening socket is gone, or waits in [kernel_accept] at the end of the
    script. *)
Fixpoint listener_loop (rounds : list accept_result) (l : listener) : listener :=
  match rounds with
  | [] => l
  | AcErr err stop :: rounds =>
      if stop || (err =? -EINVAL) || (err =? -EBADF) || (err =? -ENOTCONN) then l
      else listener_loop rounds l
  | AcNone :: rounds => listener_loop rounds l
  | AcConn e :: rounds => listener_loop rounds (accept_connection e l)
  end.

Definition wg_tcp_listener_worker (tcp_socket : option Z) (rounds : list accept_result)
    (l : listener) : Z * listener :=
  match tcp_socket with
  | None => (-EINVAL, l)
  | Some _ => (0, listener_loop rounds l)
  end.

(** ** Runs of the device

    One step is an operation on the list, a callback of a provisional peer, an
    accepted connection, or the claim of a connection for a promotion, after
    which the claimed socket belongs to the promoting peer ([P] collects those
    sockets).  The kernel hands out sockets and memory not in use. *)
Definition on_temp (id : Z) (ev : event) (l : listener) : listener :=
  match l_temps l !! id with
  | Some temp => put_world id (run_event (temp_world l temp) ev) l
  | None => l
  end.

Inductive lstep : gset Z * listener → gset Z * listener → Prop :=
  | ls_accept P l e :
      l_socks l !! ae_socket e = None → ae_socket e ∉ P → l_temps l !! ae_temp e = None →
      (∀ err, ae_entry_name e = Err err → err < 0) →
      lstep (P, l) (P, accept_connection e l)
  | ls_callback P l id ev : lstep (P, l) (P, on_temp id ev l)
  | ls_authenticated P l now id :
      lstep (P, l) (P, l{{ l_conns := wg_tcp_mark_connection_authenticated (l_conns l) now id }})
  | ls_touch P l id is_temp now :
      lstep (P, l) (P, l{{ l_conns := wg_touch_tcp_connection (l_conns l) id is_temp now }})
  | ls_remove P l gap now s :
      lstep (P, l) (P, wg_remove_from_tcp_connection_list gap now s l)
  | ls_reap P l now gaps : lstep (P, l) (P, cleanup_pass now gaps l)
  | ls_teardown P l now gaps : lstep (P, l) (P, teardown now gaps l)
  | ls_promote P l now id stale en c :
      claim_for_promotion (l_conns l) now id stale = (Some en, c) →
      lstep (P, l) ({[ e_tcp_socket en ]} ∪ P,
                    l{{ l_conns := c;
                        l_temps := match e_temp_peer en with
                                   | Some id => delete id (l_temps l)
                                   | None => l_temps l
                                   end }})
  | ls_promote_none P l now id stale c :
      claim_for_promotion (l_conns l) now id stale = (None, c) →
      lstep (P, l) (P, l{{ l_conns := c }}).
End accept.

(** A device that has not accepted anything. *)
Definition l_init (d : wg_device) (sources : list wg_tcp_accept_source) : listener :=
  mk_listener d no_connections sources ∅ ∅ None.

(** ** The invariant *)
Definition owners (l : listener) : list (Z * option Z) :=
  (λ en, (e_tcp_socket en, e_temp_peer en)) <$> entries l.

Definition released (s : Z) (ks : sockets) : Prop :=
  ∃ k, ks !! s = Some k ∧ ks_releases k = 1%nat ∧ bare k.

Record tracked (P : gset Z) (l : listener) : Prop := {
  tr_owned : ∀ s o, (s, o) ∈ owners l →
    (s ∉ P) ∧ ∃ id temp, o = Some id ∧ l_temps l !! id = Some temp ∧ temp_owns temp s (l_socks l);
  tr_sockets : NoDup (owners l).*1;
  tr_peers : NoDup (owners l).*2;
  tr_temps : ∀ id, is_Some (l_temps l !! id) → Some id ∈ (owners l).*2;
  tr_rest : ∀ s, is_Some (l_socks l !! s) → (s ∉ P) → s ∉ (owners l).*1 → released s (l_socks l);
}.

Lemma released_at s ks ks' :
  wiring <$> ks' !! s = wiring <$> ks !! s → released s ks → released s ks'.
Proof.
  intros Hw (k&Hk&Hr&Hb). rewrite Hk in Hw.
  destruct (ks' !! s) as [k'|] eqn:Hk'; [|done]. apply (inj Some) in Hw. exists k'.
  split_and!; [done| |by eapply bare_wiring]. by destruct (wiring_eq _ _ Hw) as [-> _].
Qed.

Lemma some_at s (ks ks' : sockets) :
  wiring <$> ks' !! s = wiring <$> ks !! s → is_Some (ks' !! s) → is_Some (ks !! s).
Proof. intros Hw [k Hk]. rewrite Hk in Hw. destruct (ks !! s); [by eexists|done]. Qed.

(** Only the sockets outside [P] and the owners matter. *)
Lemma tracked_frame P l l' :
  owners l' = owners l → same_wiring (l_socks l) (l_socks l') →
  (∀ id, (∀ temp, l_temps l !! id = Some temp →
                  ∃ temp', l_temps l' !! id = Some temp' ∧ step_ok temp temp') ∧
         (is_Some (l_temps l' !! id) → is_Some (l_temps l !! id))) →
  tracked P l → tracked P l'.
Proof.
  intros Ho Hw Ht [H1 H2 H3 H4 H5]. split; rewrite ?Ho; try done.
  - intros s o Hin. destruct (H1 s o Hin) as (HP&id&temp&->&Hid&Hown). split; [done|].
    destruct (proj1 (Ht id) temp Hid) as (temp'&Hid'&Hs). exists id, temp'. split_and!; [done..|].
    by eapply temp_owns_step.
  - intros id Hid. apply H4. by apply (Ht id).
  - intros s Hs HP Hn. eapply released_at; [apply Hw|]. apply H5; [|done..].
    by eapply some_at; [apply Hw|].
Qed.

(** A connection leaves the list, its socket goes to [P'] or has been released. *)
Lemma tracked_remove P P' l l' o1 s id o2 :
  owners l = o1 ++ (s, Some id) :: o2 → owners l' = o1 ++ o2 →
  l_temps l' = delete id (l_temps l) → differs_at s (l_socks l) (l_socks l') →
  P' = {[ s ]} ∪ P ∨ P' = P ∧ released s (l_socks l') →
  tracked P l → tracked P' l'.
Proof.
  intros Ho Ho' Ht Hd HP' [H1 H2 H3 H4 H5]. rewrite Ho in H1, H2, H3, H4, H5.
  rewrite fmap_app, fmap_cons in H2. rewrite fmap_app, fmap_cons in H3.
  setoid_rewrite fmap_app in H4. setoid_rewrite fmap_app in H5. cbn in H2, H3, H4, H5.
  apply NoDup_middle in H2 as [Hs2 H2]. apply NoDup_middle in H3 as [Hs3 H3].
  assert (HPin : ∀ x, x ∉ P' → x ∉ P) by (destruct HP' as [->|[-> _]]; set_solver).
  split; rewrite Ho', ?fmap_app, ?Ht; [|done|done| |].
  - intros s' o Hin. destruct (H1 s' o) as (HP&id'&temp&->&Hid&Hown); [set_solver|].
    assert (s' ≠ s ∧ id' ≠ id) as [Hne Hid'].
    { split; intros ->; [apply Hs2|apply Hs3]; rewrite <- fmap_app; apply list_elem_of_fmap;
        by eexists (_, _). }
    split; [destruct HP' as [->|[-> _]]; set_solver|].
    exists id', temp. split_and!; [done|by rewrite lookup_delete_ne|].
    eapply temp_owns_at; [apply step_ok_refl| |done]. by apply Hd.
  - intros id' Hid. assert (id' ≠ id) by (intros ->; rewrite lookup_delete_eq in Hid; by destruct Hid).
    rewrite lookup_delete_ne in Hid by done. specialize (H4 id' Hid). set_solver.
  - intros s' Hs' HP Hn. destruct (decide (s' = s)) as [->|Hne].
    + destruct HP' as [->|[_ Hrel]]; [set_solver|done].
    + eapply released_at; [by apply Hd|]. apply H5; [|by auto|set_solver].
      by eapply some_at; [apply Hd|].
Qed.

(** A socket of [P] becomes tracked. *)
Lemma tracked_add P l l' s id temp :
  tracked ({[ s ]} ∪ P) l → s ∉ P → l_temps l !! id = None →
  owners l' = owners l ++ [(s, Some id)] → l_temps l' = <[id := temp]> (l_temps l) →
  differs_at s (l_socks l) (l_socks l') → temp_owns temp s (l_socks l') →
  tracked P l'.
Proof.
  intros [H1 H2 H3 H4 H5] HP Hid Ho Ht Hd Hown.
  assert (Hs : s ∉ (owners l).*1).
  { intros [[s' o] [-> Hin]]%list_elem_of_fmap. apply (H1 s' o) in Hin as [? _]. set_solver. }
  assert (Hi : Some id ∉ (owners l).*2).
  { intros [[s' o] [Heq Hin]]%list_elem_of_fmap. apply (H1 s' o) in Hin as (_&id'&temp'&->&?&_).
    cbn in Heq. congruence. }
  split; rewrite Ho, ?fmap_app, ?Ht; cbn.
  - intros s' o [Hin|[= -> ->]%list_elem_of_singleton]%elem_of_app.
    + destruct (H1 s' o Hin) as (HP'&id'&temp'&->&Hid'&Hown'). split; [set_solver|].
      exists id', temp'. split_and!; [done|rewrite lookup_insert_ne by congruence; done|].
      eapply temp_owns_at; [apply step_ok_refl| |done]. apply Hd. set_solver.
    + split; [done|]. exists id, temp. by rewrite lookup_insert_eq.
  - apply NoDup_app. split_and!; [done|set_solver|apply NoDup_singleton].
  - apply NoDup_app. split_and!; [done|set_solver|apply NoDup_singleton].
  - intros id' Hid'. destruct (decide (id' = id)) as [->|Hne]; [set_solver|].
    rewrite lookup_insert_ne in Hid' by done. specialize (H4 id' Hid'). set_solver.
  - intros s' Hs' HP' Hn. assert (s' ≠ s) by set_solver.
    eapply released_at; [by apply Hd|]. apply H5; [|set_solver..]. by eapply some_at; [apply Hd|].
Qed.

(** A socket of [P] has been released. *)
Lemma tracked_drop P l l' s :
  tracked ({[ s ]} ∪ P) l → owners l' = owners l → l_temps l' = l_temps l →
  differs_at s (l_socks l) (l_socks l') → released s (l_socks l') → tracked P l'.
Proof.
  intros [H1 H2 H3 H4 H5] Ho Ht Hd Hrel. split; rewrite ?Ho, ?Ht; [|done..|].
  - intros s' o Hin. destruct (H1 s' o Hin) as (HP'&id'&temp'&->&Hid'&Hown').
    split; [set_solver|]. exists id', temp'. split_and!; [done..|].
    eapply temp_owns_at; [apply step_ok_refl| |done]. apply Hd. set_solver.
  - intros s' Hs' HP' Hn. destruct (decide (s' = s)) as [->|Hne]; [done|].
    eapply released_at; [by apply Hd|]. apply H5; [|set_solver..]. by eapply some_at; [apply Hd|].
Qed.

(** ** Destroying *)
Lemma claim_split dead c pending cleanup_only now en c' :
  wg_claim_tcp_connection dead c pending cleanup_only now = (Some en, c') →
  ∃ l1 e l2, tcp_connection_list c = l1 ++ e :: l2 ∧ tcp_connection_list c' = l1 ++ l2 ∧
    en = uncounted e ∧ claimable dead pending cleanup_only now e = true.
Proof.
  unfold wg_claim_tcp_connection.
  destruct (first_split (claimable dead pending cleanup_only now) (tcp_connection_list c))
    as [(l1&e&l2&Hl&He&_&->&_)|(_&->&_)]; [|done].
  intros [= <- <-]. exists l1, e, l2. by rewrite Hl.
Qed.

Lemma claim_none dead c pending cleanup_only now c' :
  wg_claim_tcp_connection dead c pending cleanup_only now = (None, c') →
  c' = c ∧ Forall (λ e, claimable dead pending cleanup_only now e = false) (tcp_connection_list c).
Proof.
  unfold wg_claim_tcp_connection.
  destruct (first_split (claimable dead pending cleanup_only now) (tcp_connection_list c))
    as [(l1&e&l2&Hl&He&_&->&_)|(?&->&_)]; [done|]. by intros [= <-].
Qed.

Abbreviation owner en := (e_tcp_socket en, e_temp_peer en).

(** The destruction of a claimed entry: its socket is released, nobody else's
    is touched. *)
Lemma destroy_entry_tracked P l c gap l1 e l2 :
  tracked P l → entries l = l1 ++ e :: l2 → tcp_connection_list c = l1 ++ l2 →
  let l' := destroy_entry gap (uncounted e) (l{{ l_conns := c }}) in
  tracked P l' ∧ entries l' = l1 ++ l2 ∧ released (e_tcp_socket e) (l_socks l') ∧
  differs_at (e_tcp_socket e) (l_socks l) (l_socks l').
Proof.
  intros Htr Hl Hc l'.
  assert (Ho : owners l = ((λ en, owner en) <$> l1) ++ owner e :: ((λ en, owner en) <$> l2)).
  { unfold owners. by rewrite Hl, fmap_app. }
  destruct (tr_owned P l Htr (e_tcp_socket e) (e_temp_peer e)) as (HP&id&temp&Hid&Ht&Hown).
  { rewrite Ho. set_solver. }
  pose proof (destroy_entry_spec gap temp _ (Some (e_tcp_socket e)) (temp_world l (zero_peer 0)) Hown)
    as (Hrel&Hd&_).
  assert (Heq : l' = l{{ l_conns := c;
    l_socks := t_socks (wg_destroy_tcp_connection_entry gap (Some temp) (Some (e_tcp_socket e))
                          (temp_world l (zero_peer 0)));
    l_temps := delete id (l_temps l) }}).
  { subst l'. unfold destroy_entry. change (e_temp_peer (uncounted e)) with (e_temp_peer e).
    rewrite Hid. cbn [mbind option_bind]. change (l_temps (l{{ l_conns := c }})) with (l_temps l).
    rewrite Ht. reflexivity. }
  clearbody l'. revert Hrel Hd Heq.
  generalize (wg_destroy_tcp_connection_entry gap (Some temp) (Some (e_tcp_socket e))
                (temp_world l (zero_peer 0))). intros w' Hrel Hd ->.
  rewrite Hid in Ho. split_and!; [|exact Hc|exact Hrel|exact Hd].
  eapply tracked_remove; [exact Ho| |reflexivity|exact Hd|by right|done].
  unfold owners. change (entries _) with (tcp_connection_list c). by rewrite Hc, fmap_app.
Qed.

Lemma remove_frame P l gap now s :
  tracked P l → let l' := wg_remove_from_tcp_connection_list gap now s l in
  tracked P l' ∧ (∀ s', s' ∈ P → wiring <$> l_socks l' !! s' = wiring <$> l_socks l !! s') ∧
  ∀ id, l_temps l !! id = None → l_temps l' !! id = None.
Proof.
  intros Htr. unfold wg_remove_from_tcp_connection_list.
  destruct (wg_claim_tcp_connection _ _ _ _ _) as [[en|] c] eqn:Hc.
  - apply claim_split in Hc as (l1&e&l2&Hl&Hl'&->&_).
    pose proof (destroy_entry_tracked P l c gap l1 e l2 Htr Hl Hl') as (?&_&_&Hd).
    split_and!; [done| |].
    + intros s' Hs'. apply Hd. intros ->.
      destruct (tr_owned P l Htr (e_tcp_socket e) (e_temp_peer e)) as [? _]; [|done].
      unfold owners, entries. rewrite Hl. set_solver.
    + intros id Hid. unfold destroy_entry. cbn. destruct (e_temp_peer e); cbn; [|done].
      by apply lookup_delete_None; auto.
  - apply claim_none in Hc as [-> _]. by destruct l.
Qed.

Lemma destroy_claimed_tracked P cleanup_only now gaps fuel l :
  tracked P l → tracked P (destroy_claimed fuel cleanup_only now gaps l).
Proof.
  revert l. induction fuel as [|fuel IH]; intros l Htr; [done|]. cbn [destroy_claimed].
  destruct (wg_claim_tcp_connection _ _ _ _ _) as [[en|] c] eqn:Hc.
  - apply claim_split in Hc as (l1&e&l2&Hl&Hl'&->&_). apply IH.
    by apply (destroy_entry_tracked P l c (gaps fuel) l1 e l2).
  - apply claim_none in Hc as [-> _]. by destruct l.
Qed.

(** ** Accepting *)
Lemma tracked_fresh P l l' s :
  tracked P l → l_socks l !! s = None → owners l' = owners l → l_temps l' = l_temps l →
  differs_at s (l_socks l) (l_socks l') → tracked ({[ s ]} ∪ P) l'.
Proof.
  intros [H1 H2 H3 H4 H5] Hs Ho Ht Hd. split; rewrite ?Ho, ?Ht; [|done..|].
  - intros s' o Hin. destruct (H1 s' o Hin) as (HP&id&temp&->&Hid&Hown).
    assert (s' ≠ s) by (intros ->; destruct Hown as (_&_&_&k&Hk&_); by rewrite Hs in Hk).
    split; [set_solver|]. exists id, temp. split_and!; [done..|].
    eapply temp_owns_at; [apply step_ok_refl|by apply Hd|done].
  - intros s' Hs' HP Hn. assert (s' ≠ s) by set_solver.
    eapply released_at; [by apply Hd|]. apply H5; [|set_solver|done]. by eapply some_at; [apply Hd|].
Qed.

Lemma inv_temp_owns F w s :
  inv F w → peer_socket (t_peer w) = Some s → inbound_socket (t_peer w) = Some s →
  temp_owns (t_peer w) s (t_socks w).
Proof.
  intros [Hown _ _] Hp Hi. destruct Hown as [?|s' b k Hp' Hs' Hv Hk Hw]; [congruence|].
  assert (s' = s) as -> by congruence. destruct b; [by split_and!; [..|exists k]|].
  destruct Hv as [Hv _]. cbn in Hv. congruence.
Qed.

Lemma setup_differs e s b w :
  differs_at s (t_socks w) (t_socks (wg_setup_tcp_socket_callbacks e s b w).2).
Proof.
  unfold wg_setup_tcp_socket_callbacks. destruct (t_socks w !! s) as [k|]; [|done].
  repeat case_if; try done.
  - by destruct (dir_data b (t_peer w)); repeat case_if.
  - intros s' Hs'. cbn. by rewrite lookup_insert_ne.
Qed.

Lemma setup_temp e w s :
  temp_owns (t_peer w) s (t_socks w) →
  let '(ret, w') := wg_setup_tcp_socket_callbacks e s true w in
  temp_owns (t_peer w') s (t_socks w') ∧ differs_at s (t_socks w) (t_socks w').
Proof.
  intros Hown. pose proof (setup_differs e s true w) as Hd.
  destruct w as [d p ks]. cbn [t_dev t_peer t_socks] in *.
  pose proof (setup_spec _ _ e s true (temp_inv d _ _ _ Hown)) as H.
  specialize (H ltac:(apply Hown) ltac:(apply Hown)).
  destruct (wg_setup_tcp_socket_callbacks e s true (mk_tcp d p ks)) as [ret w'].
  cbn [snd] in Hd. split; [|done].
  destruct H as [[_ ->]|(_&Hi&_&_&[->|[sd Hp]])]; [done..|].
  apply (inv_temp_owns _ _ _ Hi); rewrite Hp; apply Hown.
Qed.

Lemma release_accepted_tracked P l s :
  tracked ({[ s ]} ∪ P) l →
  (∃ k, l_socks l !! s = Some k ∧ ks_releases k = 0%nat ∧ bare k) →
  tracked P (release_accepted s l).
Proof.
  intros Htr (k&Hk&Hr&Hb). eapply (tracked_drop P l _ s); [done..| |].
  - intros s' Hs'. cbn. by rewrite lookup_alter_ne.
  - exists (k{{ ks_releases ::= S }}). cbn. rewrite lookup_alter_eq, Hk. split_and!; [done| |exact Hb].
    by rewrite Hr.
Qed.

Lemma abandon_tracked P l w e s :
  tracked ({[ s ]} ∪ P) l → temp_owns (t_peer w) s (t_socks w) →
  differs_at s (l_socks l) (t_socks w) → tracked P (abandon e w l).
Proof.
  intros Htr Hown Hd. unfold abandon.
  pose proof (destroy_temp_spec (ae_gap_destroy e) w s Hown) as H.
  destruct (wg_destroy_temp_peer (ae_gap_destroy e) w) as [freed w']. destruct H as (_&Hrel&Hd').
  eapply (tracked_drop P l _ s); [exact Htr|done|done| |exact Hrel].
  eapply except_trans; [exact Hd|exact Hd'].
Qed.

Lemma update_first_owners f g l :
  (∀ e : wg_tcp_socket_list_entry, owner (g e) = owner e) →
  (λ en, owner en) <$> update_first f g l = (λ en, owner en) <$> l.
Proof.
  intros Hg. destruct (first_split f l) as [(l1&x&l2&->&_&_&_&Hu)|(_&_&Hu)]; rewrite Hu; [|done].
  rewrite !fmap_app, !fmap_cons. do 2 f_equal. apply Hg.
Qed.

Lemma tracked_conns P l c :
  (λ en, owner en) <$> tcp_connection_list c = owners l → tracked P l → tracked P (l{{ l_conns := c }}).
Proof.
  intros Hc. apply tracked_frame; [exact Hc|apply same_wiring_refl|].
  intros id. split; [|done]. intros temp Ht. exists temp. split; [exact Ht|apply step_ok_refl].
Qed.

Lemma tracked_work P l (b : bool) x :
  tracked P l → tracked P (if b then l{{ l_cleanup_work := x }} else l).
Proof. destruct b; [|done]. intros [? ? ? ? ?]. by split. Qed.

Lemma mark_dead_tracked P l dead : tracked P l → tracked P (mark_dead dead l).
Proof.
  destruct dead as [id|]; [|done]. apply tracked_frame; [done|apply same_wiring_refl|].
  intros id'. cbn. destruct (decide (id' = id)) as [->|Hne].
  - rewrite lookup_alter_eq. split; [|by destruct (l_temps l !! id)].
    intros temp ->. eexists. split; [done|]. step_fields.
  - rewrite lookup_alter_ne by done. split; [|done]. intros temp Ht. exists temp.
    split; [exact Ht|apply step_ok_refl].
Qed.

Lemma finish_init_tracked P l s : tracked P l → tracked P (finish_init s l).
Proof.
  intros Htr. unfold finish_init, wg_finish_tcp_connection_init.
  destruct (remove_first _ _) as [[en rest]|]; [|by destruct l].
  apply tracked_work, mark_dead_tracked, tracked_conns; [|done]. by apply update_first_owners.
Qed.

(** What the list makes of a new connection. *)
Lemma add_owners c mark alloc owned s id now name cl1 cl2 :
  (∀ err, name = Err err → err < 0) →
  let a := wg_add_tcp_socket_to_list c mark alloc owned s id now name cl1 cl2 in
  (λ en, owner en) <$> tcp_connection_list (add_connections a) =
    ((λ en, owner en) <$> tcp_connection_list c) ++ (if add_ret a =? 0 then [(s, Some id)] else []).
Proof.
  intros Herr. unfold wg_add_tcp_socket_to_list.
  destruct alloc; cbn [negb]; [|cbn; by rewrite app_nil_r].
  destruct owned; cbn [negb]; [|cbn; by rewrite app_nil_r].
  destruct name as [[len addr]|err].
  - repeat case_if; cbn; rewrite ?app_nil_r, ?fmap_app; done.
  - specialize (Herr err eq_refl). cbn [add_ret add_connections].
    rewrite (proj2 (Z.eqb_neq err 0)) by lia. cbn. by rewrite app_nil_r.
Qed.

(** The id and the mark that tracking writes change no ownership. *)
Definition noted (oid omark : option Z) (s : Z) (w : tcp) : tcp :=
  let w := match oid with
           | Some id => w{{ t_peer := (t_peer w){{ tcp_connection_id := id }} }}
           | None => w
           end in
  match omark with
  | Some mark => w{{ t_socks ::= alter (λ k, k{{ ks_mark := mark }}) s }}
  | None => w
  end.

Lemma noted_step oid omark s w :
  step_ok (t_peer w) (t_peer (noted oid omark s w)) ∧
  same_wiring (t_socks w) (t_socks (noted oid omark s w)).
Proof.
  split.
  - destruct oid, omark; step_fields.
  - intros s'. destruct oid, omark; try done; cbn;
      (destruct (decide (s' = s)) as [->|]; [|by rewrite lookup_alter_ne]);
      rewrite lookup_alter_eq; by destruct (t_socks w !! s).
Qed.

Section accept_spec.
Context (P : gset Z) (e : accept_env).
Hypothesis (Hfresh : ae_socket e ∉ P).
Hypothesis (Herr : ∀ err, ae_entry_name e = Err err → err < 0).

Abbreviation s := (ae_socket e).
Abbreviation tracked_with := (tracked ({[ s ]} ∪ P)).

Lemma track_accepted_tracked w l :
  tracked_with l → l_temps l !! ae_temp e = None → temp_owns (t_peer w) s (t_socks w) →
  differs_at s (l_socks l) (t_socks w) → tracked P (track_accepted e w l).
Proof.
  intros Htr Hid Hown Hd. unfold track_accepted.
  pose proof (add_owners (l_conns l) (dev_fwmark (t_dev w)) (ae_entry_alloc e)
    (owned_by (ae_temp e) s (t_socks w)) s (ae_temp e) (ae_now e) (ae_entry_name e)
    (ae_cleanup1 e) (ae_cleanup2 e) Herr) as Ho.
  revert Ho. generalize (wg_add_tcp_socket_to_list (l_conns l) (dev_fwmark (t_dev w)) (ae_entry_alloc e)
    (owned_by (ae_temp e) s (t_socks w)) s (ae_temp e) (ae_now e) (ae_entry_name e)
    (ae_cleanup1 e) (ae_cleanup2 e)). intros a Ho. cbn zeta in Ho |- *.
  destruct (noted_step (add_peer_id a) (add_mark a) s w) as [Hs1 Hw1].
  unfold noted in Hs1, Hw1. set (w1 := match add_mark a with Some _ => _ | None => _ end) in *.
  clearbody w1. pose proof (temp_owns_step _ _ _ _ _ Hs1 Hw1 Hown) as Hown1.
  assert (Hd1 : differs_at s (l_socks l) (t_socks w1))
    by (eapply except_trans; [exact Hd|by apply same_except]).
  destruct (add_ret a =? 0); cbn [negb].
  - destruct (run_events_step (ae_gap_tracked e) w1) as [Hs2 Hw2].
    set (w2 := run_events _ w1) in *. clearbody w2. set (w3 := if ae_rx_pending e then _ else _).
    assert (step_ok (t_peer w1) (t_peer w3) ∧ same_wiring (t_socks w1) (t_socks w3)) as [Hs3 Hw3].
    { subst w3. destruct (ae_rx_pending e); [|done]. split; [|done].
      eapply step_ok_trans; [exact Hs2|apply data_ready_step]. }
    clearbody w3. apply finish_init_tracked.
    eapply (tracked_add P l _ s (ae_temp e) (t_peer w3)); [done|done|done| | | |].
    + by destruct (add_reap a).
    + by destruct (add_reap a).
    + destruct (add_reap a); (eapply except_trans; [exact Hd1|by apply same_except]).
    + destruct (add_reap a); by eapply temp_owns_step.
  - eapply (abandon_tracked P _ w1 e s); [|done|by destruct (add_reap a)].
    apply tracked_work, tracked_conns; [|done]. by rewrite Ho, app_nil_r.
Qed.

Lemma provisional_owns id ks k :
  ks !! s = Some k → ks_releases k = 0%nat → bare k →
  temp_owns (provisional e ((zero_peer id){{ tcp_read_wq := true; tcp_write_wq := true;
                                             temp_peer := true }})) s ks.
Proof.
  intros Hk Hr Hb. unfold provisional. destruct (copy_sock_addresses _ _) as [[ret src] dst].
  split_and!; [done..|]. exists k. split; [done|]. by split_and!.
Qed.

Lemma accept_temp_tracked l :
  tracked_with l → l_temps l !! ae_temp e = None →
  (∃ k, l_socks l !! s = Some k ∧ ks_releases k = 0%nat ∧ bare k) →
  tracked P (accept_temp e l).
Proof.
  intros Htr Hid Hk. unfold accept_temp, wg_temp_peer_create.
  case_if; [by apply release_accepted_tracked|]. destruct Hk as (k&Hk&Hr&Hb).
  pose proof (provisional_owns (ae_temp e) _ k Hk Hr Hb) as Hown.
  set (temp := provisional e _) in *. clearbody temp.
  pose proof (setup_temp (ae_setup e) (temp_world l temp) s Hown) as H.
  destruct (wg_setup_tcp_socket_callbacks _ _ _ _) as [ret w1]. destruct H as [Hown1 Hd1].
  case_if; [by eapply abandon_tracked|].
  destruct (run_events_step (ae_gap_hooked e) w1) as [Hs2 Hw2].
  apply track_accepted_tracked; [done..|by eapply temp_owns_step|].
  eapply except_trans; [exact Hd1|by apply same_except].
Qed.

Lemma accept_tracked window l :
  tracked P l → l_socks l !! s = None → l_temps l !! ae_temp e = None →
  tracked P (accept_connection window e l).
Proof.
  intros Htr Hs Hid. unfold accept_connection.
  set (l1 := l{{ l_socks ::= _ }}).
  assert (Htr1 : tracked_with l1).
  { eapply (tracked_fresh P l); [done..|]. intros s' Hs'. cbn. by rewrite lookup_insert_ne. }
  assert (Hk1 : ∃ k, l_socks l1 !! s = Some k ∧ ks_releases k = 0%nat ∧ bare k).
  { exists (accepted_ksock e (dev_fwmark (l_dev l))). cbn. by rewrite lookup_insert_eq. }
  assert (Hid1 : l_temps l1 !! ae_temp e = None) by exact Hid. clearbody l1.
  destruct (ae_name e) as [[len addr]|]; [|by apply release_accepted_tracked].
  case_if; [by apply release_accepted_tracked|].
  destruct (wg_tcp_accept_rate_allow _ _ _ _) as [allowed sources].
  set (l2 := l1{{ l_sources := sources }}).
  assert (tracked_with l2 ∧ l_socks l2 = l_socks l1 ∧ l_temps l2 = l_temps l1) as (Htr2&Hk2&Ht2).
  { split_and!; [|done..]. destruct Htr1. by split. }
  rewrite <- Hk2 in Hk1. rewrite <- Ht2 in Hid1. clearbody l2.
  case_if; [by apply release_accepted_tracked|].
  destruct (pending_match addr l2) as [old|]; [|by apply accept_temp_tracked].
  destruct (remove_frame _ _ (ae_gap_replace e) (ae_now e) old Htr2) as (Htr3&Hw3&Ht3).
  set (l3 := wg_remove_from_tcp_connection_list _ _ _ _) in *. clearbody l3.
  apply accept_temp_tracked; [done|by apply Ht3|].
  destruct Hk1 as (k&Hk&Hr&Hb). specialize (Hw3 s ltac:(set_solver)). rewrite Hk in Hw3.
  destruct (l_socks l3 !! s) as [k'|] eqn:Hk'; [|done]. apply (inj Some) in Hw3.
  exists k'. split_and!; [done| |by eapply bare_wiring]. by destruct (wiring_eq _ _ Hw3) as [-> _].
Qed.
End accept_spec.

(** ** Every step keeps the invariant *)
Lemma on_temp_tracked P l id ev : tracked P l → tracked P (on_temp id ev l).
Proof.
  intros Htr. unfold on_temp. destruct (l_temps l !! id) as [temp|] eqn:Ht; [|done].
  destruct (run_events_step [ev] (temp_world l temp)) as [Hs Hw]. cbn [run_events foldl] in Hs, Hw.
  set (w := run_event (temp_world l temp) ev) in *. clearbody w.
  revert Htr. apply tracked_frame; [done|exact Hw|]. intros id'. cbn.
  destruct (decide (id' = id)) as [->|Hne].
  - rewrite lookup_insert_eq, Ht. split; [|done]. intros ? [= <-]. by eexists.
  - rewrite lookup_insert_ne by done. split; [|done]. intros temp' ->. eexists.
    split; [done|apply step_ok_refl].
Qed.

Lemma release_admission_list c en :
  tcp_connection_list (wg_tcp_release_admission_locked c en) = tcp_connection_list c.
Proof. unfold wg_tcp_release_admission_locked. by repeat case_if. Qed.

Lemma authenticated_owners c now id :
  (λ en, owner en) <$> tcp_connection_list (wg_tcp_mark_connection_authenticated c now id) =
  (λ en, owner en) <$> tcp_connection_list c.
Proof.
  unfold wg_tcp_mark_connection_authenticated. case_if; [done|].
  destruct (remove_first _ _) as [[en rest]|]; [|done]. by apply update_first_owners.
Qed.

Lemma touch_owners c id is_temp now :
  (λ en, owner en) <$> tcp_connection_list (wg_touch_tcp_connection c id is_temp now) =
  (λ en, owner en) <$> tcp_connection_list c.
Proof. unfold wg_touch_tcp_connection. case_if; [done|]. by apply update_first_owners. Qed.

(** A claim for a promotion takes one entry off the list, or none. *)
Lemma promote_claim_split c now id stale en c' :
  claim_for_promotion c now id stale = (Some en, c') →
  ∃ l1 e l2, tcp_connection_list c = l1 ++ e :: l2 ∧ tcp_connection_list c' = l1 ++ l2 ∧
    owner en = owner e.
Proof.
  unfold claim_for_promotion.
  destruct (first_split (has_id id) (tcp_connection_list c)) as [(l1&e&l2&Hl&_&_&->&_)|(_&->&_)];
    [|done].
  case_if; [|done]. intros [= <- <-]. by exists l1, e, l2.
Qed.

Lemma promote_none_owners c now id stale c' :
  claim_for_promotion c now id stale = (None, c') →
  (λ en, owner en) <$> tcp_connection_list c' = (λ en, owner en) <$> tcp_connection_list c.
Proof.
  unfold claim_for_promotion.
  destruct (first_split (has_id id) (tcp_connection_list c)) as [(l1&e&l2&Hl&_&_&->&Hu)|(_&->&_)];
    [|by intros [= <-]].
  case_if; [done|]. intros [= <-]. cbn. rewrite release_admission_list, Hu, Hl.
  by rewrite !fmap_app, !fmap_cons.
Qed.

Lemma lstep_tracked window st st' :
  lstep window st st' → tracked st.1 st.2 → tracked st'.1 st'.2.
Proof.
  intros Hst Htr. destruct Hst; cbn [fst snd] in *.
  - by apply accept_tracked.
  - by apply on_temp_tracked.
  - apply tracked_conns; [apply authenticated_owners|done].
  - apply tracked_conns; [apply touch_owners|done].
  - by apply remove_frame.
  - apply tracked_work, destroy_claimed_tracked. exact (tracked_work P l true None Htr).
  - by apply destroy_claimed_tracked.
  - apply promote_claim_split in H as (l1&e&l2&Hl&Hl'&[= -> ->]).
    assert (Ho : owners l = ((λ en, owner en) <$> l1) ++ owner e :: ((λ en, owner en) <$> l2))
      by (unfold owners, entries; by rewrite Hl, fmap_app).
    destruct (tr_owned P l Htr (e_tcp_socket e) (e_temp_peer e)) as (_&id'&temp&Hid&_&_).
    { rewrite Ho. set_solver. }
    rewrite Hid in Ho |- *. eapply tracked_remove; [exact Ho| |done..|by left|done].
    unfold owners. change (entries _) with (tcp_connection_list c). by rewrite Hl', fmap_app.
  - apply tracked_conns; [by eapply promote_none_owners|done].
Qed.

Lemma init_tracked d sources : tracked ∅ (l_init d sources).
Proof.
  split; cbn; [set_solver|apply NoDup_nil_2|apply NoDup_nil_2|by intros ? []|by intros ? []].
Qed.

Lemma reachable_tracked window d sources st :
  rtc (lstep window) ((∅ : gset Z), l_init d sources) st → tracked st.1 st.2.
Proof.
  assert (H0 : tracked ((∅ : gset Z), l_init d sources).1 ((∅ : gset Z), l_init d sources).2)
    by apply init_tracked.
  intros H. revert H0. induction H; [done|]. eauto using lstep_tracked.
Qed.

(** Teardown claims everything: the length of the list is enough fuel. *)
Lemma destroy_claimed_all P now gaps fuel l :
  tracked P l → (length (entries l) < fuel)%nat →
  entries (destroy_claimed fuel false now gaps l) = [].
Proof.
  revert l. induction fuel as [|fuel IH]; intros l Htr Hf; [lia|]. cbn [destroy_claimed].
  destruct (wg_claim_tcp_connection _ _ _ _ _) as [[en|] c] eqn:Hc.
  - apply claim_split in Hc as (l1&e&l2&Hl&Hl'&->&_).
    destruct (destroy_entry_tracked P l c (gaps fuel) l1 e l2 Htr Hl Hl') as (Htr'&Hl''&_).
    apply IH; [done|]. rewrite Hl''. unfold entries in Hf. rewrite Hl, length_app in Hf.
    rewrite length_app. cbn in Hf. lia.
  - apply claim_none in Hc as [-> Hnone]. unfold entries.
    change (l_conns (l{{ l_conns := l_conns l }})) with (l_conns l).
    destruct (tcp_connection_list (l_conns l)) as [|e rest]; [done|].
    by apply Forall_cons in Hnone as [? _].
Qed.

(** ** Claims *)

(** C29: No accepted connection is ever lost.  In every state that accepting,
    callbacks, authentication, reaping, replacing, promoting and tearing down
    can reach, in any order, every socket the listener was ever given is either
    owned by the provisional peer of exactly one tracked entry, whose callbacks
    and wrapper are consistent, or was claimed for a promotion, or has been
    released exactly once with the kernel's callbacks restored; and every
    provisional peer belongs to exactly one tracked entry. *)
Theorem accepted_sockets_accounted window d sources P l :
  rtc (lstep window) ((∅ : gset Z), l_init d sources) (P, l) →
  (∀ s, is_Some (l_socks l !! s) → s ∉ P →
     (∃ en id temp, en ∈ entries l ∧ e_tcp_socket en = s ∧ e_temp_peer en = Some id ∧
        l_temps l !! id = Some temp ∧ temp_owns temp s (l_socks l))
     ∨ released s (l_socks l)) ∧
  NoDup (e_tcp_socket <$> entries l) ∧ NoDup (e_temp_peer <$> entries l) ∧
  ∀ id, is_Some (l_temps l !! id) → Some id ∈ e_temp_peer <$> entries l.
Proof.
  intros [H1 H2 H3 H4 H5]%reachable_tracked. cbn [fst snd] in *.
  assert ((owners l).*1 = e_tcp_socket <$> entries l) as E1
    by (unfold owners; by rewrite <- list_fmap_compose).
  assert ((owners l).*2 = e_temp_peer <$> entries l) as E2
    by (unfold owners; by rewrite <- list_fmap_compose).
  rewrite <- E1, <- E2. split_and!; [|done..]. intros s Hs HP.
  destruct (decide (s ∈ (owners l).*1)) as [Hin|Hn]; [left|right; by apply H5].
  rewrite E1 in Hin. apply list_elem_of_fmap in Hin as (en&->&Hen).
  destruct (H1 (e_tcp_socket en) (e_temp_peer en)) as (_&id&temp&?&?&?); [|by exists en, id, temp].
  apply list_elem_of_fmap. by exists en.
Qed.

(** C30: Taking the device down terminates with no tracked connection and no
    provisional peer left, and every socket ever accepted and not handed to a
    promoting peer has then been released exactly once. *)
Theorem teardown_releases_all window d sources P l now gaps :
  rtc (lstep window) ((∅ : gset Z), l_init d sources) (P, l) →
  let l' := teardown now gaps l in
  entries l' = [] ∧ l_temps l' = ∅ ∧
  ∀ s, is_Some (l_socks l' !! s) → s ∉ P → released s (l_socks l').
Proof.
  intros Htr%reachable_tracked l'. cbn [fst snd] in Htr.
  assert (He : entries l' = []) by (by eapply destroy_claimed_all; [|lia]).
  assert (Ho : owners l' = []) by (unfold owners; by rewrite He).
  destruct (destroy_claimed_tracked P false now gaps (S (length (entries l))) l Htr) as [_ _ _ H4 H5].
  fold (teardown now gaps l) in H4, H5. fold l' in H4, H5. rewrite Ho in H4, H5.
  split_and!; [done| |].
  - apply map_empty. intros id. destruct (l_temps l' !! id) eqn:Hid; [|done].
    specialize (H4 id). rewrite Hid in H4. specialize (H4 ltac:(by eexists)). set_solver.
  - intros s Hs HP. apply H5; [done..|]. set_solver.
Qed.

(** ** An admitted connection *)

(** Everything the path of an accepted connection asks for, with nothing
    happening to the connection in between. *)
Definition admissible (window : Z) (e : accept_env) (l : listener) (addr : sockaddr) : bool :=
  (wg_tcp_accept_rate_allow window (l_sources l) (ae_jiffies e) addr).1
  && negb (wg_tcp_source_at_capacity (l_conns l) addr)
  && (tcp_tracked_connections (l_conns l) <? WG_TCP_MAX_TRACKED_CONNECTIONS)
  && (tcp_pending_connections (l_conns l) <? WG_TCP_MAX_PENDING_CONNECTIONS)
  && negb (isSome (pending_match addr l))
  && ae_temp_alloc e && ae_auth_wq e && ae_entry_alloc e && se_alloc (ae_setup e)
  && se_module (ae_setup e) && ae_cleanup1 e && ae_cleanup2 e
  && dev_tcp_cleanup_scheduled (l_dev l) && is_tcp (l_dev l)
  && bool_decide (ae_state e = TCP_ESTABLISHED).

Definition calm (e : accept_env) : Prop := ae_gap_hooked e = [] ∧ ae_gap_tracked e = [].

(** The entry and the provisional peer of an admitted connection. *)
Definition admitted_entry (e : accept_env) (l : listener) (addr : sockaddr)
    : wg_tcp_socket_list_entry :=
  mk_entry (ae_socket e) addr (Some (ae_temp e)) (ae_now e) (ae_now e)
    (u64 (tcp_connection_sequence (l_conns l) + 1)) false true false.

Lemma update_first_snoc {A} (f : A → bool) g l x :
  Forall (λ y, f y = false) l → f x = true → update_first f g (l ++ [x]) = l ++ [g x].
Proof. intros Hl Hx. induction Hl as [|y l Hy _ IH]; cbn; [by rewrite Hx|]. by rewrite Hy, IH. Qed.

Lemma remove_first_snoc {A} (f : A → bool) l x :
  Forall (λ y, f y = false) l → f x = true → remove_first f (l ++ [x]) = Some (x, l).
Proof. intros Hl Hx. induction Hl as [|y l Hy _ IH]; cbn; [by rewrite Hx|]. by rewrite Hy, IH. Qed.

(** A provisional peer before and after its callbacks are set. *)
Definition provisional_fields (e : accept_env) (p : wg_peer) : Prop :=
  internal_id p = ae_temp e ∧ is_dead p = false ∧ tcp_stopping p = false ∧
  tcp_inbound_remove_scheduled p = false ∧ tcp_outbound_remove_scheduled p = false ∧
  peer_socket p = Some (ae_socket e) ∧ inbound_socket p = Some (ae_socket e) ∧
  peer_endpoint_set p = false ∧ tcp_read_wq p = true ∧ tcp_read_worker_scheduled p = false ∧
  wk_read p = false.

Lemma provisional_ok e :
  let p := provisional e ((zero_peer (ae_temp e)){{ tcp_read_wq := true; tcp_write_wq := true;
                                                    temp_peer := true }}) in
  provisional_fields e p ∧ tcp_inbound_callbacks_set p = false ∧ tcp_inbound_socket_data p = None.
Proof.
  cbn zeta. unfold provisional. destruct (copy_sock_addresses _ _) as [[ret src] dst].
  by repeat split.
Qed.

Lemma setup_provisional e l k p :
  provisional_fields e p → tcp_inbound_callbacks_set p = false → tcp_inbound_socket_data p = None →
  l_socks l !! ae_socket e = Some k → ks_user_data k = None →
  se_alloc (ae_setup e) = true → se_module (ae_setup e) = true →
  dev_tcp_cleanup_scheduled (l_dev l) = true → is_tcp (l_dev l) = true →
  ∃ sd p', sd_peer sd = ae_temp e ∧ sd_inbound sd = true ∧ provisional_fields e p' ∧
    tcp_inbound_callbacks_set p' = true ∧ tcp_inbound_socket_data p' = Some sd ∧
    wg_setup_tcp_socket_callbacks (ae_setup e) (ae_socket e) true (temp_world l p) =
    (0, mk_tcp (l_dev l) p'
          (<[ae_socket e := k{{ ks_user_data := Some sd; ks_state_change := CbWg;
                                ks_write_space := CbWg; ks_data_ready := CbWg }}]> (l_socks l))).
Proof.
  intros Hf Hcb Hd Hk Hu Ha Hm Hc Ht. destruct Hf as (Hid&Hdead&Hstop&Hir&Hor&Hp&Hi&Hrest).
  unfold wg_setup_tcp_socket_callbacks, peer_usable, dir_remove, dir_callbacks, dir_data, dir_socket.
  cbn [t_socks t_dev t_peer temp_world].
  rewrite Hk, Ha, Hm, Hi, is_socket_refl, Hdead, Hstop, Hc, Ht, Hir, Hcb, Hd, Hu.
  cbn [negb andb orb isSome].
  set (sd := install p (se_data (ae_setup e)) (ae_socket e) true k).
  exists sd, (set_dir_callbacks true true (set_dir_data true (Some sd) p)).
  split; [exact Hid|]. split; [done|]. split; [|by split_and!]. repeat split; try done; apply Hrest.
Qed.

(** Tracking, with every answer favourable. *)
Lemma add_admits c mark s id now len addr :
  wg_sockaddr_length_valid addr len = true → wg_tcp_source_at_capacity c addr = false →
  tcp_tracked_connections c < WG_TCP_MAX_TRACKED_CONNECTIONS →
  tcp_pending_connections c < WG_TCP_MAX_PENDING_CONNECTIONS →
  let cid := u64 (tcp_connection_sequence c + 1) in
  let a := wg_add_tcp_socket_to_list c mark true true s id now (Ok (len, addr)) true true in
  add_ret a = 0 ∧ add_peer_id a = Some cid ∧ add_mark a = Some mark ∧ add_reap a = true ∧
  tcp_connection_list (add_connections a) =
    tcp_connection_list c ++ [mk_entry s addr (Some id) now now cid false true true].
Proof.
  intros Hlen Hcap Ht Hp. unfold wg_add_tcp_socket_to_list, wg_tcp_source_at_capacity in *.
  cbn [negb]. rewrite Hlen. cbn [negb].
  change (tcp_tracked_connections (c{{ tcp_connection_sequence := _ }})) with (tcp_tracked_connections c).
  change (tcp_pending_connections (c{{ tcp_connection_sequence := _ }})) with (tcp_pending_connections c).
  change (wg_tcp_pending_from_source_locked (c{{ tcp_connection_sequence := _ }}) addr)
    with (wg_tcp_pending_from_source_locked c addr).
  rewrite Hcap, (proj2 (Z.leb_gt _ _) Ht), (proj2 (Z.leb_gt _ _) Hp). by cbn.
Qed.

(** The end of the setup of a live connection. *)
Lemma finish_init_live s id l es en temp k :
  entries l = es ++ [en] → Forall (λ en, has_socket s en = false) es → e_tcp_socket en = s →
  e_temp_peer en = Some id → l_temps l !! id = Some temp → is_dead temp = false →
  l_socks l !! s = Some k → ks_state k = TCP_ESTABLISHED →
  let l' := finish_init s l in
  entries l' = es ++ [en{{ e_initializing := false }}] ∧ l_temps l' = l_temps l ∧
  l_socks l' = l_socks l ∧ l_cleanup_work l' = l_cleanup_work l.
Proof.
  intros He Hes Hs Hid Ht Hd Hk Hst. unfold finish_init, wg_finish_tcp_connection_init, entries in *.
  assert (Hen : has_socket s en = true) by (apply Z.eqb_eq, Hs).
  rewrite He, (remove_first_snoc _ _ _ Hes Hen), (update_first_snoc _ _ _ _ Hes Hen), Hid, Hk, Hst.
  unfold temp_dead. rewrite Ht, Hd. by cbn.
Qed.

Definition admitted (e : accept_env) (l : listener) (addr : sockaddr) (l' : listener) : Prop :=
  entries l' = entries l ++ [admitted_entry e l addr] ∧ l_cleanup_work l' = Some 0 ∧
  ∃ temp k sd, l_temps l' = <[ae_temp e := temp]> (l_temps l) ∧ l_socks l' !! ae_socket e = Some k ∧
    is_dead temp = false ∧ peer_socket temp = Some (ae_socket e) ∧ peer_endpoint_set temp = false ∧
    tcp_inbound_socket_data temp = Some sd ∧ tcp_inbound_callbacks_set temp = true ∧
    ks_user_data k = Some sd ∧ all_hooked k = true ∧ sd_peer sd = ae_temp e ∧
    tcp_connection_id temp = e_connection_id (admitted_entry e l addr) ∧
    wk_read temp = ae_rx_pending e.

(** What the reader's claim makes of the provisional peer. *)
Lemma data_ready_provisional e d p (b : bool) :
  provisional_fields e p → dev_tcp_cleanup_scheduled d = true →
  let p' := if b then wg_tcp_data_ready d p else p in
  is_dead p' = false ∧ peer_socket p' = Some (ae_socket e) ∧ peer_endpoint_set p' = false ∧
  tcp_inbound_socket_data p' = tcp_inbound_socket_data p ∧
  tcp_inbound_callbacks_set p' = tcp_inbound_callbacks_set p ∧
  tcp_connection_id p' = tcp_connection_id p ∧ wk_read p' = b.
Proof.
  intros (Hid&Hdead&Hstop&Hir&Hor&Hp&Hi&He&Hq&Hr&Hw) Hc. destruct b; [|by split_and!].
  unfold wg_tcp_data_ready, stream_live. rewrite Hdead, Hstop, Hc, Hir, Hor, Hr, Hq. by cbn.
Qed.

(** A connection with its entry written is admitted when its setup ends. *)
Lemma finish_admits e l addr w c k sd p :
  Forall (λ en, has_socket (ae_socket e) en = false) (entries l) →
  dev_tcp_cleanup_scheduled (l_dev l) = true →
  provisional_fields e p → tcp_inbound_socket_data p = Some sd → tcp_inbound_callbacks_set p = true →
  tcp_connection_id p = e_connection_id (admitted_entry e l addr) → sd_peer sd = ae_temp e →
  t_peer w = (if ae_rx_pending e then wg_tcp_data_ready (l_dev l) p else p) →
  t_socks w !! ae_socket e = Some k → ks_state k = TCP_ESTABLISHED → ks_user_data k = Some sd →
  all_hooked k = true →
  tcp_connection_list c =
    entries l ++ [(admitted_entry e l addr){{ e_initializing := true }}] →
  admitted e l addr
    (finish_init (ae_socket e)
       (put_world (ae_temp e) w (l{{ l_conns := c; l_cleanup_work := Some 0 }}))).
Proof.
  intros Hfresh Hc Hf Hd Hcb Hcid Hsd Hp Hk Hst Hu Hh Hl.
  destruct (data_ready_provisional e (l_dev l) p (ae_rx_pending e) Hf Hc) as (F1&F2&F3&F4&F5&F6&F7).
  rewrite <- Hp in F1, F2, F3, F4, F5, F6, F7. set (l3 := put_world _ _ _).
  destruct (finish_init_live (ae_socket e) (ae_temp e) l3 (entries l)
    ((admitted_entry e l addr){{ e_initializing := true }}) (t_peer w) k) as (G1&G2&G3&G4);
    [exact Hl|done|done|done| |exact F1|exact Hk|done|].
  { cbn. by rewrite lookup_insert_eq. }
  split; [exact G1|]. split; [by rewrite G4|]. exists (t_peer w), k, sd. rewrite G2, G3.
  split; [done|]. split; [exact Hk|]. split_and!; congruence.
Qed.

Lemma accept_temp_admits e l k addr len :
  Forall (λ en, has_socket (ae_socket e) en = false) (entries l) →
  l_socks l !! ae_socket e = Some k → ks_user_data k = None → ks_state k = TCP_ESTABLISHED →
  ae_entry_name e = Ok (len, addr) → wg_sockaddr_length_valid addr len = true →
  wg_tcp_source_at_capacity (l_conns l) addr = false →
  tcp_tracked_connections (l_conns l) < WG_TCP_MAX_TRACKED_CONNECTIONS →
  tcp_pending_connections (l_conns l) < WG_TCP_MAX_PENDING_CONNECTIONS →
  ae_temp_alloc e && ae_auth_wq e && ae_entry_alloc e && se_alloc (ae_setup e)
    && se_module (ae_setup e) && ae_cleanup1 e && ae_cleanup2 e
    && dev_tcp_cleanup_scheduled (l_dev l) && is_tcp (l_dev l) = true →
  calm e → admitted e l addr (accept_temp e l).
Proof.
  intros Hfresh Hk Hu Hst Hen Hlen Hcap Htr Hpe Henv [Hg1 Hg2].
  repeat match goal with H : _ && _ = true |- _ => apply andb_true_iff in H as [H ?] end.
  unfold accept_temp, wg_temp_peer_create. rewrite Henv, H6. cbn [negb orb].
  destruct (provisional_ok e) as (Hf&Hcb&Hd). set (p := provisional e _) in *. clearbody p.
  destruct (setup_provisional e l k p Hf Hcb Hd Hk Hu) as (sd&p1&Hsd&Hsi&Hf1&Hcb1&Hd1&->); [done..|].
  rewrite Hg1. change (run_events [] ?w) with w. cbn [Z.eqb negb].
  unfold track_accepted. set (k1 := k{{ ks_user_data := _; ks_state_change := _;
    ks_write_space := _; ks_data_ready := _ }}).
  cbn [t_dev t_peer t_socks].
  assert (owned_by (ae_temp e) (ae_socket e) (<[ae_socket e := k1]> (l_socks l)) = true) as ->.
  { unfold owned_by. rewrite lookup_insert_eq. cbn. by rewrite Hsd, Z.eqb_refl, Hsi. }
  rewrite Hen. destruct (add_admits (l_conns l) (dev_fwmark (l_dev l)) (ae_socket e) (ae_temp e)
    (ae_now e) len addr Hlen Hcap Htr Hpe) as (Hr&Hid&Hm&Hrp&Hl).
  replace (ae_entry_alloc e) with true by done. replace (ae_cleanup1 e) with true by done.
  replace (ae_cleanup2 e) with true by done.
  set (a := wg_add_tcp_socket_to_list _ _ _ _ _ _ _ _ _ _) in *. clearbody a.
  rewrite Hr, Hid, Hm, Hrp, Hg2. cbn [negb Z.eqb].
  change (run_events [] ?w) with w.
  eapply (finish_admits e l addr _ _ (k1{{ ks_mark := dev_fwmark (l_dev l) }}) sd
    (p1{{ tcp_connection_id := u64 (tcp_connection_sequence (l_conns l) + 1) }}));
    try done; [by destruct (ae_rx_pending e)|].
  assert (∀ b w, t_socks (if b : bool then w{{ t_peer := wg_tcp_data_ready (t_dev w) (t_peer w) }} else w)
                 = t_socks w) as -> by (by intros []).
  change (alter (λ k, k{{ ks_mark := dev_fwmark (l_dev l) }}) (ae_socket e)
    (<[ae_socket e := k1]> (l_socks l)) !! ae_socket e = Some (k1{{ ks_mark := dev_fwmark (l_dev l) }})).
  by rewrite lookup_alter_eq, lookup_insert_eq.
Qed.

(** A connection that arrives while there is room, from a source that is not
    throttled, and to which nothing happens while it is set up, is admitted: it
    is tracked at the end of the list with the next connection id, waiting for
    authentication and with its setup finished; its provisional peer is live,
    hooked to the socket, knows no address to dial, and has its reader queued if
    bytes have already arrived; and the reaper is queued. *)
Theorem accept_admits window P e l addr len :
  tracked P l → l_socks l !! ae_socket e = None →
  ae_name e = Ok (len, addr) → ae_entry_name e = Ok (len, addr) →
  wg_sockaddr_length_valid addr len = true →
  admissible window e l addr = true → calm e →
  admitted e l addr (accept_connection window e l).
Proof.
  intros Htr Hs Hn Hen Hlen Hadm Hcalm. unfold admissible in Hadm.
  repeat match goal with H : _ && _ = true |- _ => apply andb_true_iff in H as [? ?] end.
  assert (Hfresh : Forall (λ en, has_socket (ae_socket e) en = false) (entries l)).
  { apply Forall_forall. intros en Hin. apply Z.eqb_neq. intros Heq.
    destruct (tr_owned P l Htr (e_tcp_socket en) (e_temp_peer en)) as (_&_&temp&_&_&_&_&_&k&Hk&_).
    - unfold owners. apply list_elem_of_fmap. by exists en.
    - rewrite Heq in Hk. congruence. }
  unfold accept_connection. rewrite Hn, Hlen. cbn [negb].
  set (k := accepted_ksock e (dev_fwmark (l_dev l))).
  change (l_sources (l{{ l_socks ::= <[ae_socket e := k]> }})) with (l_sources l).
  destruct (wg_tcp_accept_rate_allow _ _ _ _) as [allowed sources].
  set (l2 := l{{ l_socks ::= _ }}{{ l_sources := sources }}).
  change (l_conns l2) with (l_conns l). change (pending_match addr l2) with (pending_match addr l).
  rewrite !negb_true_iff in *. cbn [fst] in *. subst allowed.
  destruct (pending_match addr l); [done|].
  replace (wg_tcp_source_at_capacity (l_conns l) addr) with false by done. cbn [negb orb].
  apply (accept_temp_admits e l2 k addr len); try done.
  - cbn. by rewrite lookup_insert_eq.
  - match goal with H : bool_decide _ = true |- _ => by apply bool_decide_eq_true in H end.
  - by apply Z.ltb_lt.
  - by apply Z.ltb_lt.
  - by rewrite !andb_true_iff.
Qed.

(** ** Examples: a connection from 10.0.0.2:40000, accepted by a fresh device. *)
Definition sample_source_addr : sockaddr := Sa4 40000 0x0a000002.
Definition sample_accept (s temp : Z) : accept_env :=
  mk_accept_env s (mk_sock AF_INET 0x0a000001 51820 0x0a000002 40000 0 0 0 0) TCP_ESTABLISHED
    (Ok (16, sample_source_addr)) 0 0 temp true true (Ok (16, Sa4 51820 0x0a000001))
    (Ok (16, sample_source_addr)) (mk_setup_env true true 77) true (Ok (16, sample_source_addr))
    true true true [] [] [] [].
Definition sample_idle : listener := l_init sample_device [].
Definition sample_listener : listener := accept_connection 1000 (sample_accept 5 50) sample_idle.

Lemma sample_listener_reachable :
  rtc (lstep 1000) ((∅ : gset Z), l_init sample_device []) (∅, sample_listener).
Proof. apply rtc_once, (ls_accept 1000 ∅ sample_idle (sample_accept 5 50)); [done..|set_solver|done|done]. Qed.

Lemma accepted_sockets_accounted_witness :
  e_tcp_socket <$> entries sample_listener = [5] ∧ NoDup (e_tcp_socket <$> entries sample_listener).
Proof.
  split; [vm_compute; reflexivity|].
  apply (accepted_sockets_accounted 1000 sample_device [] ∅ sample_listener).
  exact sample_listener_reachable.
Defined.

Lemma teardown_releases_all_witness :
  is_Some (l_socks (teardown 1 (λ _, []) sample_listener) !! 5) ∧
  released 5 (l_socks (teardown 1 (λ _, []) sample_listener)).
Proof.
  assert (H : is_Some (l_socks (teardown 1 (λ _, []) sample_listener) !! 5))
    by (vm_compute; eexists; reflexivity).
  split; [exact H|].
  exact (proj2 (proj2 (teardown_releases_all 1000 sample_device [] ∅ sample_listener 1 (λ _, [])
    sample_listener_reachable)) 5 H (not_elem_of_empty 5)).
Defined.

Lemma accept_admits_witness :
  admissible 1000 (sample_accept 5 50) sample_idle sample_source_addr = true ∧
  admitted (sample_accept 5 50) sample_idle sample_source_addr sample_listener.
Proof.
  split; [vm_compute; reflexivity|].
  apply (accept_admits 1000 ∅ (sample_accept 5 50) sample_idle sample_source_addr 16);
    [apply init_tracked|vm_compute; reflexivity..|split; reflexivity].
Defined.
