(* ===== verification/ListenSocket.v ===== *)
(** * Listening sockets (kernel/wg_tcp.c: wg_tcp_listener_socket_init,
    wg_tcp_listener_socket_release, wg_setup_tcp_listen4/6)

    A device listens with one socket and one thread per address family, IPv4
    always and IPv6 when the kernel has it.  The theorem shows that starting
    them is all or nothing and that every socket made is released exactly
    once. *)
From stdpp Require Import prelude list gmap.
From S2P Require Import Prelude Net Peer TcpPeer.

#[local] Open Scope Z_scope.

(** ** State and operations *)
Record listen_sockets := mk_listen {
  tcp_listen_socket4 : option Z;
  tcp_listen_socket6 : option Z;
  tcp_socket4_ready : bool;
  tcp_socket6_ready : bool;
  tcp_listener4_running : bool;
  tcp_listener6_running : bool;
  ls_socks : sockets;
}.

#[export] Instance eta_listen : Settable listen_sockets := λ d,
  mk_listen (tcp_listen_socket4 d) (tcp_listen_socket6 d) (tcp_socket4_ready d)
    (tcp_socket6_ready d) (tcp_listener4_running d) (tcp_listener6_running d) (ls_socks d).

(** The kernel's answers for one family; [le_v6only] is asked for IPv6 only.
    Failures are negative. *)
Record listen_env := mk_listen_env {
  le_create : result Z;
  le_sk : sock;
  le_v6only : Z;
  le_bind : Z;
  le_listen : Z;
}.

Definition release_socket (s : Z) (ks : sockets) : sockets :=
  alter (λ k, k{{ ks_releases ::= S }}) s ks.

Definition release_opt (o : option Z) (ks : sockets) : sockets :=
  match o with Some s => release_socket s ks | None => ks end.

Definition wg_setup_tcp_listen (ipv6 : bool) (fwmark port : Z) (e : listen_env) (ks : sockets)
    : result Z * sockets :=
  if port =? 0 then (Err (-EINVAL), ks)
  else
    match le_create e with
    | Err ret => (Err ret, ks)
    | Ok s =>
        let ks := <[s := new_ksock (le_sk e) fwmark]> ks in
        if ipv6 && (le_v6only e <? 0) then (Err (le_v6only e), release_socket s ks)
        else if le_bind e <? 0 then (Err (le_bind e), release_socket s ks)
        else if le_listen e <? 0 then (Err (le_listen e), release_socket s ks)
        else (Ok s, ks)
    end.

Definition wg_setup_tcp_listen4 := wg_setup_tcp_listen false.
Definition wg_setup_tcp_listen6 := wg_setup_tcp_listen true.

Definition wg_tcp_listener_socket_release (d : listen_sockets) : listen_sockets :=
  d{{ ls_socks := release_opt (tcp_listen_socket6 d) (release_opt (tcp_listen_socket4 d) (ls_socks d));
      tcp_listen_socket4 := None; tcp_listen_socket6 := None; tcp_socket4_ready := false;
      tcp_socket6_ready := false; tcp_listener4_running := false; tcp_listener6_running := false }}.

(** [thread4], [thread6]: the result of starting each thread, negative on
    failure. *)
Definition start_listeners (s4 : Z) (s6 : option Z) (thread4 thread6 : Z) (d : listen_sockets)
    : Z * listen_sockets :=
  let d := d{{ tcp_listen_socket4 := Some s4; tcp_listen_socket6 := s6; tcp_socket4_ready := true;
               tcp_socket6_ready := isSome s6 }} in
  if thread4 <? 0 then (thread4, wg_tcp_listener_socket_release d)
  else
    let d := d{{ tcp_listener4_running := true }} in
    match s6 with
    | None => (0, d)
    | Some _ =>
        if thread6 <? 0 then (thread6, wg_tcp_listener_socket_release d)
        else (0, d{{ tcp_listener6_running := true }})
    end.

(** [ipv6]: the IPv6 module is enabled; [net]: the device's creating namespace
    is still alive. *)
Definition wg_tcp_listener_socket_init (net ipv6 : bool) (fwmark port : Z) (e4 e6 : listen_env)
    (thread4 thread6 : Z) (d : listen_sockets) : Z * listen_sockets :=
  if port =? 0 then (-EINVAL, d)
  else if tcp_socket4_ready d || tcp_socket6_ready d then (0, d)
  else if negb net then (-ENONET, d)
  else
    match wg_setup_tcp_listen4 fwmark port e4 (ls_socks d) with
    | (Err ret, ks) => (ret, d{{ ls_socks := ks }})
    | (Ok s4, ks) =>
        if negb ipv6 then start_listeners s4 None thread4 thread6 (d{{ ls_socks := ks }})
        else
          match wg_setup_tcp_listen6 fwmark port e6 ks with
          | (Err ret, ks) => (ret, d{{ ls_socks := release_socket s4 ks }})
          | (Ok s6, ks) => start_listeners s4 (Some s6) thread4 thread6 (d{{ ls_socks := ks }})
          end
    end.

(** No listener is published. *)
Definition not_listening (d : listen_sockets) : Prop :=
  tcp_listen_socket4 d = None ∧ tcp_listen_socket6 d = None ∧ tcp_socket4_ready d = false ∧
  tcp_socket6_ready d = false ∧ tcp_listener4_running d = false ∧ tcp_listener6_running d = false.

(** Every socket of [ks'] that [ks] lacks has been released exactly once, and no
    other was touched. *)
Definition rest_released (ks ks' : sockets) : Prop :=
  ∀ s, ks' !! s = ks !! s ∨ ks !! s = None ∧ ∃ k, ks' !! s = Some k ∧ ks_releases k = 1%nat.

Definition new_released (d d' : listen_sockets) : Prop := rest_released (ls_socks d) (ls_socks d').

Definition open_at (s : Z) (ks : sockets) : Prop := ∃ k, ks !! s = Some k ∧ ks_releases k = 0%nat.

(** One family: a listening socket, or an error with nothing left open. *)
Lemma setup_listen_spec ipv6 fwmark port e ks :
  (∀ ret, le_create e = Err ret → ret < 0) → (∀ s, le_create e = Ok s → ks !! s = None) →
  let '(r, ks') := wg_setup_tcp_listen ipv6 fwmark port e ks in
  match r with
  | Ok s => le_create e = Ok s ∧ ks !! s = None ∧ ∃ k, ks' = <[s := k]> ks ∧ ks_releases k = 0%nat
  | Err ret => ret < 0 ∧
      (ks' = ks ∨ ∃ s k, le_create e = Ok s ∧ ks !! s = None ∧ ks' = <[s := k]> ks ∧ ks_releases k = 1%nat)
  end.
Proof.
  intros Herr Hfr. unfold wg_setup_tcp_listen. case_if; [split; [done|by left]|].
  destruct (le_create e) as [s|ret] eqn:Hc; [|split; [by apply Herr|by left]].
  set (k := new_ksock (le_sk e) fwmark).
  assert (Hrel : ∀ ret, ret < 0 → ret < 0 ∧ (release_socket s (<[s := k]> ks) = ks ∨
    ∃ s' k', Ok s = Ok s' ∧ ks !! s' = None ∧ release_socket s (<[s := k]> ks) = <[s' := k']> ks ∧
             ks_releases k' = 1%nat)).
  { intros ret Hret. split; [done|]. right. exists s, (k{{ ks_releases ::= S }}).
    split_and!; [done|by apply Hfr| |done]. unfold release_socket. by rewrite alter_insert_eq. }
  repeat case_if; simpl_guards; destruct_and?; auto. split_and!; [done|by apply Hfr|]. by exists k.
Qed.

(** What starting the threads makes of the listening sockets of [d0]. *)
Definition listening (ipv6 : bool) (d0 : listen_sockets) (ret : Z) (d' : listen_sockets) : Prop :=
  (ret < 0 ∧ not_listening d' ∧ new_released d0 d') ∨
  (ret = 0 ∧ (∃ s4, tcp_listen_socket4 d' = Some s4 ∧ open_at s4 (ls_socks d')) ∧
   tcp_socket4_ready d' = true ∧ tcp_listener4_running d' = true ∧
   (if ipv6 then ∃ s6, tcp_listen_socket6 d' = Some s6 ∧ open_at s6 (ls_socks d')
    else tcp_listen_socket6 d' = None) ∧
   tcp_socket6_ready d' = ipv6 ∧ tcp_listener6_running d' = ipv6 ∧
   not_listening (wg_tcp_listener_socket_release d') ∧
   new_released d0 (wg_tcp_listener_socket_release d')).

Lemma release_both_spec ks s4 k4 (o6 : option (Z * ksock)) :
  ks !! s4 = None → ks_releases k4 = 0%nat →
  (∀ s6 k6, o6 = Some (s6, k6) → s6 ≠ s4 ∧ ks !! s6 = None ∧ ks_releases k6 = 0%nat) →
  let ks' := match o6 with Some (s6, k6) => <[s6 := k6]> | None => id end (<[s4 := k4]> ks) in
  rest_released ks (release_opt (fst <$> o6) (release_opt (Some s4) ks')).
Proof.
  intros H4 Hr4 H6 ks' s. subst ks'.
  destruct o6 as [[s6 k6]|]; cbn [fmap option_fmap option_map fst release_opt id]; unfold release_socket.
  - destruct (H6 s6 k6 eq_refl) as (Hne&Hn6&Hr6).
    destruct (decide (s = s6)) as [->|Hs6].
    { right. split; [done|]. rewrite lookup_alter_eq, lookup_alter_ne, lookup_insert_eq by done.
      eexists. split; [done|]. cbn. by rewrite Hr6. }
    rewrite lookup_alter_ne by done. destruct (decide (s = s4)) as [->|Hs4].
    { right. split; [done|]. rewrite lookup_alter_eq, lookup_insert_ne, lookup_insert_eq by done.
      eexists. split; [done|]. cbn. by rewrite Hr4. }
    left. by rewrite lookup_alter_ne, !lookup_insert_ne.
  - destruct (decide (s = s4)) as [->|Hs4]; [right|left].
    + split; [done|]. rewrite lookup_alter_eq, lookup_insert_eq. eexists. split; [done|]. cbn. by rewrite Hr4.
    + by rewrite lookup_alter_ne, lookup_insert_ne.
Qed.

Lemma start_listeners_spec d s4 k4 (o6 : option (Z * ksock)) thread4 thread6 :
  not_listening d → ls_socks d !! s4 = None → ks_releases k4 = 0%nat →
  (∀ s6 k6, o6 = Some (s6, k6) → s6 ≠ s4 ∧ ls_socks d !! s6 = None ∧ ks_releases k6 = 0%nat) →
  let ks' := match o6 with Some (s6, k6) => <[s6 := k6]> | None => id end (<[s4 := k4]> (ls_socks d)) in
  let '(ret, d') := start_listeners s4 (fst <$> o6) thread4 thread6 (d{{ ls_socks := ks' }}) in
  listening (isSome o6) d ret d'.
Proof.
  intros Hn H4 Hr4 H6 ks'.
  pose proof (release_both_spec (ls_socks d) s4 k4 o6 H4 Hr4 H6) as Hrel. fold ks' in Hrel.
  unfold start_listeners. case_if; simpl_guards; [by left|].
  assert (Ho4 : open_at s4 ks').
  { exists k4. split; [|done]. subst ks'. destruct o6 as [[s6 k6]|]; [|by cbn; rewrite lookup_insert_eq].
    destruct (H6 s6 k6 eq_refl) as (?&_). by rewrite lookup_insert_ne, lookup_insert_eq. }
  destruct o6 as [[s6 k6]|]; cbn [fmap option_fmap option_map fst] in *.
  - case_if; simpl_guards; [by left|]. right. split_and!; try done; [by exists s4|].
    exists s6. split; [done|]. exists k6. subst ks'. cbn. rewrite lookup_insert_eq.
    by destruct (H6 s6 k6 eq_refl) as (_&_&?).
  - destruct Hn as (?&?&?&?&?&?). right. split_and!; try done. by exists s4.
Qed.

Lemma rest_released_insert (ks ks' : sockets) s k :
  rest_released ks ks' → ks !! s = None → ks_releases k = 1%nat → rest_released ks (<[s := k]> ks').
Proof.
  intros H Hs Hk s'. destruct (decide (s' = s)) as [->|Hne]; [right|by rewrite lookup_insert_ne].
  rewrite lookup_insert_eq. by eauto.
Qed.

(** C31: Starting the listeners is all or nothing.  If it succeeds, the IPv4
    listener, and the IPv6 one if that family is enabled, are published, marked
    ready, served by their threads and open, and releasing them later closes
    each exactly once.  If it fails it reports a negative error, publishes
    nothing, and has released every socket it made exactly once.  In both cases
    no other socket is touched. *)
Theorem listener_init_all_or_nothing net ipv6 fwmark port e4 e6 thread4 thread6 d :
  not_listening d →
  (∀ ret, le_create e4 = Err ret → ret < 0) → (∀ ret, le_create e6 = Err ret → ret < 0) →
  (∀ s, le_create e4 = Ok s → ls_socks d !! s = None ∧ le_create e6 ≠ Ok s) →
  (∀ s, le_create e6 = Ok s → ls_socks d !! s = None) →
  let '(ret, d') := wg_tcp_listener_socket_init net ipv6 fwmark port e4 e6 thread4 thread6 d in
  listening ipv6 d ret d'.
Proof.
  intros Hn Herr4 Herr6 Hfr4 Hfr6. unfold wg_tcp_listener_socket_init.
  assert (Hsame : ∀ ret, ret < 0 → listening ipv6 d ret d) by (intros; left; split_and!; auto; by left).
  case_if; [by apply Hsame|]. destruct Hn as (N1&N2&N3&N4&N5&N6). rewrite N3, N4. cbn [orb].
  case_if; [by apply Hsame|].
  pose proof (setup_listen_spec false fwmark port e4 (ls_socks d) Herr4 (λ s H, proj1 (Hfr4 s H))) as H4.
  unfold wg_setup_tcp_listen4. destruct (wg_setup_tcp_listen false _ _ _ _) as [[s4|ret] ks4].
  2: { destruct H4 as [Hret H4]. left. split_and!; [done|by repeat split|].
       destruct H4 as [->|(s&k&Hc&Hf&->&Hr)]; [by left|].
       apply (rest_released_insert (ls_socks d) (ls_socks d) s k); [by left|done..]. }
  destruct H4 as (Hc4&Hs4&k4&->&Hr4).
  destruct ipv6; cbn [negb].
  2: { by apply (start_listeners_spec d s4 k4 None). }
  pose proof (setup_listen_spec true fwmark port e6 (<[s4 := k4]> (ls_socks d)) Herr6) as H6.
  assert (Hne : ∀ s, le_create e6 = Ok s → s ≠ s4) by (intros s Hs ->; by apply (Hfr4 s4)).
  unfold wg_setup_tcp_listen6. destruct (wg_setup_tcp_listen true _ _ _ _) as [[s6|ret] ks6];
    (destruct H6 as [H6a H6]; [intros s Hs; rewrite lookup_insert_ne by (by apply not_eq_sym, Hne); by apply Hfr6|]).
  - destruct H6 as (Hs6&k6&->&Hr6). apply (start_listeners_spec d s4 k4 (Some (s6, k6))); try done.
    intros ? ? [= <- <-]. split_and!; [by apply Hne|by apply Hfr6|done].
  - left. split_and!; [done|by repeat split|]. unfold new_released. cbn. unfold release_socket.
    assert (Hrel : rest_released (ls_socks d) (<[s4 := k4{{ ks_releases ::= S }}]> (ls_socks d)))
      by (apply rest_released_insert; [by left|done|]; cbn; by rewrite Hr4).
    destruct H6 as [->|(s6&k6&Hc6&Hs6&->&Hr6)]; [by rewrite alter_insert_eq|].
    rewrite alter_insert_ne, alter_insert_eq by (by apply not_eq_sym, Hne).
    apply rest_released_insert; [done|by apply Hfr6|done].
Qed.

(** ** Example *)
Definition sample_listen_env (s bind : Z) : listen_env :=
  mk_listen_env (Ok s) (mk_sock AF_INET 0 51820 0 0 0 0 0 0) 0 bind 0.
Definition sample_not_listening : listen_sockets := mk_listen None None false false false false ∅.

(** The IPv6 socket cannot be bound: the IPv4 one is released again. *)
Lemma listener_init_all_or_nothing_witness :
  not_listening sample_not_listening ∧
  let '(ret, d') := wg_tcp_listener_socket_init true true 0 51820 (sample_listen_env 1 0)
                      (sample_listen_env 2 (-EINVAL)) 0 0 sample_not_listening in
  listening true sample_not_listening ret d'.
Proof.
  split; [by repeat split|]. apply listener_init_all_or_nothing; try done.
  by intros s [= <-].
Defined.
