(* ===== verification/Replay.v ===== *)
(** * The replay window of a session

    Model of [counter_validate] of src/kernel/receive.c with the structure
    [noise_replay_counter] of src/kernel/noise.h: a bitmap of 64-bit words used
    as a ring.  It is shown to implement a set of the counters accepted so far,
    of which only those within a window of the highest can still be decided. *)
From stdpp Require Import prelude list gmap sets.
From S2P Require Import Prelude.

#[local] Open Scope Z_scope.

Definition BITS_PER_LONG := 64.
Definition COUNTER_BITS_TOTAL := 8192.
Definition COUNTER_WINDOW_SIZE := COUNTER_BITS_TOTAL - BITS_PER_LONG.
Definition REJECT_AFTER_MESSAGES := (2 ^ 64 - 1) - COUNTER_WINDOW_SIZE - 1.

(** The number of words of the bitmap. *)
Definition COUNTER_WORDS := COUNTER_BITS_TOTAL / BITS_PER_LONG.

Record noise_replay_counter := mk_replay {
  rc_counter : Z;
  rc_backtrack : list Z;
}.

#[export] Instance eta_replay : Settable noise_replay_counter := λ c,
  mk_replay (rc_counter c) (rc_backtrack c).

Definition replay_init : noise_replay_counter := mk_replay 0 (replicate (Z.to_nat COUNTER_WORDS) 0).

Definition slot (index : Z) : nat := Z.to_nat (Z.land index (COUNTER_WORDS - 1)).

Definition word (bt : list Z) (index : Z) : Z := nth (slot index) bt 0.

(** The words the window moves over. *)
Definition clear_words (index_current top : Z) (bt : list Z) : list Z :=
  foldl (λ bt i, <[slot (i + index_current) := 0]> bt) bt (seqZ 1 top).

Definition counter_validate (c : noise_replay_counter) (their_counter : Z) : bool * noise_replay_counter :=
  if (REJECT_AFTER_MESSAGES + 1 <=? rc_counter c) || (REJECT_AFTER_MESSAGES <=? their_counter) then (false, c)
  else
    let their_counter := u64 (their_counter + 1) in
    if u64 (COUNTER_WINDOW_SIZE + their_counter) <? rc_counter c then (false, c)
    else
      let index := Z.shiftr their_counter 6 in
      let c :=
        if rc_counter c <? their_counter then
          let index_current := Z.shiftr (rc_counter c) 6 in
          let top := Z.min (u64 (index - index_current)) COUNTER_WORDS in
          mk_replay their_counter (clear_words index_current top (rc_backtrack c))
        else c in
      let w := word (rc_backtrack c) index in
      let bit := Z.land their_counter (BITS_PER_LONG - 1) in
      (negb (Z.testbit w bit), c{{ rc_backtrack ::= <[slot index := Z.setbit w bit]> }}).

(** ** Specification: the set of counters accepted *)
Definition highest (seen : gset Z) : Z := set_fold (λ n m, Z.max (n + 1) m) 0 seen.

Definition spec_validate (seen : gset Z) (n : Z) : bool * gset Z :=
  if bool_decide (n < REJECT_AFTER_MESSAGES) && bool_decide (highest seen <= n + 1 + COUNTER_WINDOW_SIZE) &&
     bool_decide (n ∉ seen)
  then (true, {[ n ]} ∪ seen) else (false, seen).

(** ** The bitmap holds the set *)
Record represents (seen : gset Z) (c : noise_replay_counter) : Prop := {
  rep_counter : rc_counter c = highest seen;
  rep_range : rc_counter c <= REJECT_AFTER_MESSAGES;
  rep_nonneg : ∀ n, n ∈ seen → 0 <= n;
  rep_length : length (rc_backtrack c) = Z.to_nat COUNTER_WORDS;
  rep_bits : ∀ k b, rc_counter c / 64 - 127 <= k <= rc_counter c / 64 → 0 <= k → 0 <= b < 64 →
    Z.testbit (word (rc_backtrack c) k) b = bool_decide (64 * k + b - 1 ∈ seen);
}.

Lemma highest_spec seen :
  (∀ n, n ∈ seen → n + 1 <= highest seen) ∧ 0 <= highest seen ∧
  (highest seen = 0 ∨ ∃ n, n ∈ seen ∧ highest seen = n + 1).
Proof.
  unfold highest.
  apply (set_fold_ind_L (λ m X, (∀ n, n ∈ X → n + 1 <= m) ∧ 0 <= m ∧ (m = 0 ∨ ∃ n, n ∈ X ∧ m = n + 1))).
  - split; [set_solver|]. split; [lia|by left].
  - intros x X m Hx (H1&H2&H3). split_and!; [|lia|].
    + intros n [->%elem_of_singleton|Hn]%elem_of_union; [lia|]. specialize (H1 n Hn). lia.
    + destruct (decide (x + 1 <= m)); [rewrite Z.max_r by lia|rewrite Z.max_l by lia; right; set_solver].
      destruct H3 as [H3|(n&Hn&H3)]; [by left|right; exists n; set_solver].
Qed.

Lemma highest_add seen n : highest ({[ n ]} ∪ seen) = Z.max (n + 1) (highest seen).
Proof.
  destruct (highest_spec seen) as (H1&H2&H3). destruct (highest_spec ({[ n ]} ∪ seen)) as (H4&H5&H6).
  specialize (H4 n ltac:(set_solver)) as Hn. apply Z.le_antisymm.
  - destruct H6 as [|(m&[->%elem_of_singleton|Hm]%elem_of_union&->)]; [lia..|]. specialize (H1 m Hm). lia.
  - destruct H3 as [|(m&Hm&->)]; [lia|]. specialize (H4 m ltac:(set_solver)). lia.
Qed.

Lemma slot_mod k : slot k = Z.to_nat (k mod 128).
Proof. unfold slot. change (COUNTER_WORDS - 1) with (Z.ones 7). by rewrite Z.land_ones. Qed.

Lemma slot_lt k : (slot k < Z.to_nat COUNTER_WORDS)%nat.
Proof. rewrite slot_mod. change (Z.to_nat COUNTER_WORDS) with (Z.to_nat 128). pose proof (Z.mod_pos_bound k 128). lia. Qed.

Lemma slot_inj k k' : slot k = slot k' → - 128 < k - k' < 128 → k = k'.
Proof.
  rewrite !slot_mod. intros Heq Hk. pose proof (Z.mod_pos_bound k 128). pose proof (Z.mod_pos_bound k' 128).
  assert (k mod 128 = k' mod 128) by lia. div_mod_lia.
Qed.

Lemma length_clear cur top bt : length (clear_words cur top bt) = length bt.
Proof.
  unfold clear_words. generalize (seqZ 1 top) as l. intros l. revert bt.
  induction l as [|i l IH]; intros bt; cbn [foldl]; [done|]. by rewrite IH, length_insert.
Qed.

Lemma word_insert bt k w k' :
  length bt = Z.to_nat COUNTER_WORDS →
  word (<[slot k := w]> bt) k' = if decide (slot k = slot k') then w else word bt k'.
Proof.
  intros Hl. unfold word. rewrite !nth_lookup. destruct (decide (slot k = slot k')) as [Heq|Hne].
  - rewrite Heq, list_lookup_insert_eq; [done|]. rewrite Hl. apply slot_lt.
  - by rewrite list_lookup_insert_ne.
Qed.

Lemma word_clear cur top bt k :
  length bt = Z.to_nat COUNTER_WORDS →
  ((∃ i, 1 <= i <= top ∧ slot (i + cur) = slot k) → word (clear_words cur top bt) k = 0) ∧
  ((∀ i, 1 <= i <= top → slot (i + cur) ≠ slot k) → word (clear_words cur top bt) k = word bt k).
Proof.
  intros Hl. assert (Hin : ∀ i, 1 <= i <= top ↔ i ∈ seqZ 1 top) by (intros i; rewrite elem_of_seqZ; lia).
  setoid_rewrite Hin. unfold clear_words. generalize (seqZ 1 top) as l. intros l. clear Hin. revert bt Hl.
  induction l as [|i l IH]; intros bt Hl; cbn [foldl].
  { split; [intros (i&?%elem_of_nil&_); done|done]. }
  destruct (IH (<[slot (i + cur) := 0]> bt)) as [IH1 IH2]; [by rewrite length_insert|]. rewrite word_insert in IH2 by done. split.
  - intros (j&[->|Hj]%elem_of_cons&Heq); [|apply IH1; eauto].
    destruct (decide (Exists (λ i0, slot (i0 + cur) = slot k) l)) as [(i0&?&?)%Exists_exists|Hno]; [apply IH1; eauto|].
    rewrite IH2, decide_True by (done || intros i0 Hi0 Hs; apply Hno, Exists_exists; eauto). done.
  - intros Hne. rewrite IH2, decide_False; [done|apply Hne; by left|]. intros i0 Hi0. apply Hne. by right.
Qed.

(** The bits of the window that ends at [x]. *)
Definition bits_ok (seen : gset Z) (x : Z) (bt : list Z) : Prop :=
  ∀ k b, x / 64 - 127 <= k <= x / 64 → 0 <= k → 0 <= b < 64 →
    Z.testbit (word bt k) b = bool_decide (64 * k + b - 1 ∈ seen).

(** Moving the window forward clears what enters it. *)
Lemma clear_bits seen c x :
  represents seen c → rc_counter c < x →
  bits_ok seen x (clear_words (rc_counter c / 64) (Z.min (x / 64 - rc_counter c / 64) COUNTER_WORDS) (rc_backtrack c)).
Proof.
  intros [Hc Hr Hn Hl Hb] Hx k b Hk Hk0 Hb0. set (cur := rc_counter c / 64) in *.
  change COUNTER_WORDS with 128 in *. assert (cur <= x / 64) by (apply Z.div_le_mono; lia).
  destruct (word_clear cur (Z.min (x / 64 - cur) 128) (rc_backtrack c) k Hl) as [Hzero Hkeep].
  destruct (decide (k <= cur)) as [Hle|Hgt].
  - rewrite Hkeep; [apply Hb; [lia|done|done]|]. intros i Hi Heq%slot_inj; lia.
  - rewrite Hzero.
    + rewrite Z.testbit_0_l. symmetry. apply bool_decide_eq_false. intros Hin.
      pose proof (proj1 (highest_spec seen) _ Hin). rewrite <- Hc in *. subst cur. div_mod_lia.
    + destruct (decide (k - cur <= 128)); [exists (k - cur); split; [lia|f_equal; lia]|].
      exists ((k - cur - 1) mod 128 + 1). split; [div_mod_lia|]. rewrite !slot_mod. f_equal. div_mod_lia.
Qed.

(** Looking at and setting the bit of [n]. *)
Lemma set_bits seen x bt n :
  bits_ok seen x bt → length bt = Z.to_nat COUNTER_WORDS → 0 <= n → n + 1 <= x →
  x / 64 - 127 <= (n + 1) / 64 →
  let w := word bt ((n + 1) / 64) in
  Z.testbit w ((n + 1) mod 64) = bool_decide (n ∈ seen) ∧
  bits_ok ({[ n ]} ∪ seen) x (<[slot ((n + 1) / 64) := Z.setbit w ((n + 1) mod 64)]> bt).
Proof.
  intros Hb Hl Hn Hx Hw w. split.
  - subst w. rewrite Hb by div_mod_lia. apply bool_decide_ext. replace (64 * _ + _ - 1) with n by div_mod_lia. done.
  - intros k b Hk Hk0 Hb0. rewrite word_insert by done.
    destruct (decide _) as [Heq|Hne].
    + apply slot_inj in Heq; [|div_mod_lia]. subst k w. destruct (decide (b = (n + 1) mod 64)) as [->|Hne].
      * rewrite Z.setbit_eq by div_mod_lia. symmetry. apply bool_decide_eq_true.
        replace (64 * _ + _ - 1) with n by div_mod_lia. set_solver.
      * rewrite Z.setbit_neq by (done || div_mod_lia). rewrite Hb by div_mod_lia. apply bool_decide_ext.
        assert (64 * ((n + 1) / 64) + b - 1 ≠ n) by div_mod_lia. set_solver.
    + rewrite Hb by done. apply bool_decide_ext. assert (64 * k + b - 1 ≠ n); [|set_solver].
      intros Hk'. apply Hne. f_equal. div_mod_lia.
Qed.

Lemma counter_validate_ok seen c n :
  represents seen c → 0 <= n < 2 ^ 64 →
  (counter_validate c n).1 = (spec_validate seen n).1 ∧
  represents (spec_validate seen n).2 (counter_validate c n).2.
Proof.
  intros Hrep Hn. pose proof Hrep as [Hc Hr Hpos Hl Hb]. unfold counter_validate, spec_validate.
  rewrite <- Hc. assert (HR : REJECT_AFTER_MESSAGES = 2 ^ 64 - 8130) by done.
  assert (HW : COUNTER_WINDOW_SIZE = 8128) by done.
  destruct (highest_spec seen) as (Hmax&H0&_). rewrite <- Hc in Hmax, H0.
  rewrite (proj2 (Z.leb_gt _ (rc_counter c))) by lia. cbn [orb].
  destruct (REJECT_AFTER_MESSAGES <=? n) eqn:Hrej; simpl_guards.
  { by rewrite bool_decide_eq_false_2 by lia. }
  rewrite (bool_decide_eq_true_2 (n < _)) by lia. cbn [andb].
  unfold u64. rewrite (wrap_small 64 (n + 1)), (wrap_small 64 (_ + (n + 1))) by lia.
  destruct (_ <? rc_counter c) eqn:Hold; simpl_guards.
  { by rewrite bool_decide_eq_false_2 by lia. }
  rewrite (bool_decide_eq_true_2 (rc_counter c <= _)) by lia. cbn [andb].
  rewrite !Z.shiftr_div_pow2 by done. change (2 ^ 6) with 64.
  change (BITS_PER_LONG - 1) with (Z.ones 6). rewrite Z.land_ones by done. change (2 ^ 6) with 64.
  set (x := Z.max (n + 1) (rc_counter c)).
  set (c' := if rc_counter c <? n + 1 then _ else c).
  assert (Hc' : rc_counter c' = x ∧ length (rc_backtrack c') = Z.to_nat COUNTER_WORDS ∧ bits_ok seen x (rc_backtrack c')).
  { subst c' x. destruct (_ <? n + 1) eqn:Hlt; simpl_guards.
    - rewrite Z.max_l by lia. cbn [rc_counter rc_backtrack]. rewrite length_clear.
      rewrite wrap_small by div_mod_lia. split_and!; [done..|]. by apply clear_bits; [|lia].
    - rewrite Z.max_r by lia. by split_and!. }
  clearbody c'. destruct Hc' as (Hx&Hl'&Hb').
  destruct (set_bits seen x (rc_backtrack c') n) as [Ht Hs]; [done|done|lia|lia|subst x; div_mod_lia|].
  rewrite Ht. destruct (decide (n ∈ seen)) as [Hin|Hin].
  - rewrite bool_decide_eq_true_2, (bool_decide_eq_false_2 (n ∉ seen)) by (done || tauto). split; [done|].
    rewrite (subseteq_union_1_L {[ n ]} seen) in Hs by set_solver. specialize (Hmax n Hin).
    split; cbn; rewrite ?length_insert, ?Hx; [lia|lia|done|done|done].
  - rewrite bool_decide_eq_false_2, (bool_decide_eq_true_2 (n ∉ seen)) by done. split; [done|].
    split; cbn; rewrite ?length_insert, ?Hx; [by rewrite highest_add, <- Hc|lia| |done|done].
    intros m [->%elem_of_singleton|Hm]%elem_of_union; [lia|by apply Hpos].
Qed.

(** ** Sequences of packets *)
Fixpoint validate_all (c : noise_replay_counter) (ns : list Z) : list bool * noise_replay_counter :=
  match ns with
  | [] => ([], c)
  | n :: ns => let '(r, c) := counter_validate c n in
               let '(rs, c) := validate_all c ns in (r :: rs, c)
  end.

Fixpoint spec_all (seen : gset Z) (ns : list Z) : list bool * gset Z :=
  match ns with
  | [] => ([], seen)
  | n :: ns => let '(r, seen) := spec_validate seen n in
               let '(rs, seen) := spec_all seen ns in (r :: rs, seen)
  end.

Lemma represents_init : represents ∅ replay_init.
Proof.
  split; [done|by vm_compute|set_solver|done|]. intros k b _ _ _.
  replace (word (rc_backtrack replay_init) k) with 0; [by rewrite Z.testbit_0_l|].
  unfold word, replay_init. cbn [rc_backtrack]. rewrite nth_lookup. 
  by rewrite lookup_replicate_2 by apply slot_lt.
Qed.

Lemma validate_all_ok seen c ns :
  represents seen c → Forall (λ n, 0 <= n < 2 ^ 64) ns →
  (validate_all c ns).1 = (spec_all seen ns).1 ∧ represents (spec_all seen ns).2 (validate_all c ns).2.
Proof.
  intros Hrep Hns. revert seen c Hrep. induction Hns as [|n ns Hn _ IH]; intros seen c Hrep; [done|].
  cbn [validate_all spec_all]. destruct (counter_validate_ok seen c n Hrep Hn) as [Hr Hrep'].
  destruct (counter_validate c n) as [r c'], (spec_validate seen n) as [r' seen']. cbn [fst snd] in *.
  destruct (IH seen' c' Hrep') as [Hrs Hrep'']. destruct (validate_all c' ns), (spec_all seen' ns).
  cbn [fst snd] in *. by subst.
Qed.

(** The counters of the packets that were let through. *)
Definition accepted (c : noise_replay_counter) (ns : list Z) : list Z :=
  (filter (λ p, Is_true p.2) (zip ns (validate_all c ns).1)).*1.

Lemma accepted_seen c seen ns :
  represents seen c → Forall (λ n, 0 <= n < 2 ^ 64) ns →
  ∀ n, n ∈ (spec_all seen ns).2 ↔ n ∈ seen ∨ n ∈ accepted c ns.
Proof.
  intros Hrep Hns. revert seen c Hrep. induction Hns as [|m ns Hm _ IH]; intros seen c Hrep n.
  { unfold accepted. cbn. rewrite elem_of_nil. tauto. }
  unfold accepted. cbn [validate_all spec_all].
  destruct (counter_validate_ok seen c m Hrep Hm) as [Hr Hrep'].
  destruct (counter_validate c m) as [r c'], (spec_validate seen m) as [r' seen'] eqn:Hs. cbn [fst snd] in Hr, Hrep'.
  subst r'. specialize (IH seen' c' Hrep' n). unfold accepted in IH.
  destruct (validate_all c' ns) as [rs c''], (spec_all seen' ns) as [rs' seen'']. cbn [fst snd zip_with] in *.
  rewrite IH. unfold spec_validate in Hs. destruct (_ && _) in Hs; injection Hs as <- <-.
  - rewrite filter_cons_True by done. cbn [fmap list_fmap fst]. rewrite elem_of_cons. set_solver.
  - rewrite filter_cons_False by (by intros []). done.
Qed.

Lemma highest_le seen x : 0 <= x → highest seen <= x + 1 ↔ ∀ m, m ∈ seen → m <= x.
Proof.
  intros Hx. destruct (highest_spec seen) as (H1&H2&H3). split.
  - intros Hle m Hm. specialize (H1 m Hm). lia.
  - intros Hall. destruct H3 as [->|(m&Hm&->)]; [lia|]. specialize (Hall m Hm). lia.
Qed.

(** C35: whatever packets a session has received, the next one passes the replay
    check exactly if its counter is below the limit of the session, is not one
    that passed before, and lies at most the window size below every counter
    that did; the arithmetic on the 64-bit counters does not overflow. *)
Theorem replay_window_exact (ns : list Z) (n : Z) :
  Forall (λ n, 0 <= n < 2 ^ 64) ns → 0 <= n < 2 ^ 64 →
  (counter_validate (validate_all replay_init ns).2 n).1 = true ↔
  n < REJECT_AFTER_MESSAGES ∧ (n ∉ accepted replay_init ns) ∧
  ∀ m, m ∈ accepted replay_init ns → m <= n + COUNTER_WINDOW_SIZE.
Proof.
  intros Hns Hn. destruct (validate_all_ok ∅ replay_init ns represents_init Hns) as [_ Hrep].
  rewrite (proj1 (counter_validate_ok _ _ n Hrep Hn)).
  pose proof (accepted_seen replay_init ∅ ns represents_init Hns) as Hacc.
  assert (Hset : ∀ m, m ∈ (spec_all ∅ ns).2 ↔ m ∈ accepted replay_init ns) by (intros m; rewrite Hacc; set_solver).
  unfold spec_validate. assert (0 <= COUNTER_WINDOW_SIZE) by (by vm_compute).
  replace (n + 1 + COUNTER_WINDOW_SIZE) with (n + COUNTER_WINDOW_SIZE + 1) by lia.
  assert (Hcond : ∀ b : bool, (if b then (true, {[ n ]} ∪ (spec_all ∅ ns).2) else (false, (spec_all ∅ ns).2)).1 = b)
    by (by intros []). rewrite Hcond. rewrite !andb_true_iff, !bool_decide_eq_true, highest_le by lia.
  rewrite Hset. setoid_rewrite Hset. tauto.
Qed.

Lemma replay_window_exact_witness :
  (counter_validate (validate_all replay_init [5; 9000]).2 5).1 = false ∧
  (counter_validate (validate_all replay_init [5; 9000]).2 871).1 = false ∧
  (counter_validate (validate_all replay_init [5; 9000]).2 872).1 = true.
Proof.
  assert (Hns : Forall (λ n, 0 <= n < 2 ^ 64) [5; 9000]) by (repeat constructor; lia).
  assert (Hacc : accepted replay_init [5; 9000] = [5; 9000]) by (vm_compute; reflexivity).
  split_and!.
  - apply not_true_iff_false. intros (_&Hn&_)%(replay_window_exact _ 5 Hns ltac:(lia)). apply Hn. rewrite Hacc. left.
  - apply not_true_iff_false. intros (_&_&Hn)%(replay_window_exact _ 871 Hns ltac:(lia)).
    specialize (Hn 9000). rewrite Hacc in Hn. specialize (Hn ltac:(right; left)). vm_compute in Hn. by apply Hn.
  - apply (replay_window_exact _ 872 Hns ltac:(lia)). rewrite Hacc. split; [by vm_compute|]. split; [set_solver|].
    intros m Hm. change COUNTER_WINDOW_SIZE with 8128.
    apply elem_of_cons in Hm as [->|Hm]; [lia|]. apply list_elem_of_singleton in Hm as ->. lia.
Defined.
