(* ===== verification/AllowedIps.v ===== *)
(** * The table of allowed addresses (kernel/allowedips.c)

    A compressed binary trie per address family maps address prefixes to peers:
    the source of the cryptokey routing decisions.  A node keeps its prefix as
    bytes in the layout that lets the code compare whole words and pick the
    branching bit with one load, which the first lemmas relate to the bits of
    the address.

    The linked nodes are an inductive tree.  A pointer to a node, and the
    pointer back to the place that holds it ([parent_bit_packed]), is a position
    in the tree, so the loop of [node_placement] is the recursion that walks to
    the position it stops at.  The refinement proofs are in AllowedIpsSpec.v. *)
From stdpp Require Import prelude list gmap.
From S2P Require Import Prelude Skb Net.

#[local] Open Scope Z_scope.

Definition MAX_ALLOWEDIPS_DEPTH := 129.

(** ** Nodes and keys *)
Record allowedips_node := mk_node {
  n_peer : option Z;
  n_cidr : Z;
  n_bit_at_a : Z;
  n_bit_at_b : Z;
  n_bitlen : Z;
  n_bits : list Z;
}.

#[export] Instance eta_node : Settable allowedips_node := λ n,
  mk_node (n_peer n) (n_cidr n) (n_bit_at_a n) (n_bit_at_b n) (n_bitlen n) (n_bits n).

#[export] Instance allowedips_node_eq_dec : EqDecision allowedips_node.
Proof. solve_decision. Defined.

Inductive trie :=
  | Null
  | Node (n : allowedips_node) (bit0 bit1 : trie).

Definition is_null (t : trie) : bool := match t with Null => true | Node _ _ _ => false end.

(** From network order to the bytes of one 32-bit or two 64-bit words of a
    little-endian host. *)
Definition swap_endian (src : list Z) (bits : Z) : list Z :=
  if bits =? 32 then rev (ztake 4 src)
  else if bits =? 128 then rev (ztake 8 src) ++ rev (ztake 8 (zdrop 8 src))
  else [].

(** A node with this prefix; [peer] is what the caller stores in it. *)
Definition copy_and_assign_cidr (peer : option Z) (src : list Z) (cidr bits : Z) : allowedips_node :=
  mk_node peer cidr (u8 (Z.lxor (cidr / 8) ((bits / 8 - 1) mod 8))) (7 - cidr mod 8) bits
    (ztake (bits / 8) src).

Definition byte_at (bs : list Z) (i : Z) : Z := nth (Z.to_nat i) bs 0.

Definition choose (n : allowedips_node) (key : list Z) : Z :=
  Z.land (Z.shiftr (byte_at key (n_bit_at_a n)) (n_bit_at_b n)) 1.

(** Position of the highest bit set, counted from one. *)
Definition fls (z : Z) : Z := if z =? 0 then 0 else Z.log2 z + 1.

Definition fls128 (a b : Z) : Z := if negb (a =? 0) then fls a + 64 else fls b.

Definition common_bits (n : allowedips_node) (key : list Z) (bits : Z) : Z :=
  if bits =? 32 then u8 (32 - fls (Z.lxor (le_val (ztake 4 (n_bits n))) (le_val (ztake 4 key))))
  else if bits =? 128 then
    u8 (128 - fls128 (Z.lxor (le_val (ztake 8 (n_bits n))) (le_val (ztake 8 key)))
                     (Z.lxor (le_val (ztake 8 (zdrop 8 (n_bits n)))) (le_val (ztake 8 (zdrop 8 key)))))
  else 0.

Definition prefix_matches (n : allowedips_node) (key : list Z) (bits : Z) : bool :=
  n_cidr n <=? common_bits n key bits.

(** ** Looking up *)
Fixpoint find_node_from (t : trie) (bits : Z) (key : list Z) (found : option allowedips_node)
    : option allowedips_node :=
  match t with
  | Null => found
  | Node n t0 t1 =>
      if negb (prefix_matches n key bits) then found
      else
        let found := match n_peer n with Some _ => Some n | None => found end in
        if n_cidr n =? bits then found
        else find_node_from (if choose n key =? 0 then t0 else t1) bits key found
  end.

Definition find_node (t : trie) (bits : Z) (key : list Z) : option allowedips_node :=
  find_node_from t bits key None.

(** The peer of the node found.  The code repeats the search while that peer's
    last reference is being dropped; this is the search that ends the loop. *)
Definition lookup (root : trie) (bits : Z) (be_ip : list Z) : option Z :=
  find_node root bits (swap_endian be_ip bits) ≫= n_peer.

(** ** Adding

    [newnode] is connected where the walk ended: in an empty place, above the
    node found there, or next to it below a new node that holds their common
    prefix.  [alloc2] is the outcome of allocating that node. *)
Definition connect_above (n : allowedips_node) (down : trie) (down_bits : list Z) : trie :=
  if choose n down_bits =? 0 then Node n down Null else Node n Null down.

Definition place (alloc2 : bool) (newnode : allowedips_node) (bits : Z) (down : trie) : result trie :=
  match down with
  | Null => Ok (Node newnode Null Null)
  | Node dn _ _ =>
      let cidr := Z.min (n_cidr newnode) (common_bits dn (n_bits newnode) bits) in
      if n_cidr newnode =? cidr then Ok (connect_above newnode down (n_bits dn))
      else if negb alloc2 then Err (-ENOMEM)
      else
        let node := copy_and_assign_cidr None (n_bits newnode) cidr bits in
        Ok (if choose node (n_bits newnode) =? 0
            then match connect_above node down (n_bits dn) with
                 | Node n _ t1 => Node n (Node newnode Null Null) t1
                 | Null => Null
                 end
            else match connect_above node down (n_bits dn) with
                 | Node n t0 _ => Node n t0 (Node newnode Null Null)
                 | Null => Null
                 end)
  end.

(** The walk of [node_placement] and what [add] does at its end: the tree, the
    node that holds the prefix now and, if it existed before, the peer it had.
    [alloc1] is the outcome of allocating the new node. *)
Fixpoint add_at (alloc1 alloc2 : bool) (t : trie) (bits : Z) (key : list Z) (cidr : Z) (peer : Z)
    : result (trie * allowedips_node * option Z) :=
  let newnode := copy_and_assign_cidr (Some peer) key cidr bits in
  let stop :=
    if negb alloc1 then Err (-ENOMEM)
    else match place alloc2 newnode bits t with
         | Ok t => Ok (t, newnode, None)
         | Err e => Err e
         end in
  match t with
  | Null => stop
  | Node n t0 t1 =>
      if (n_cidr n <=? cidr) && prefix_matches n key bits then
        if n_cidr n =? cidr then Ok (Node (n{{ n_peer := Some peer }}) t0 t1, n, n_peer n)
        else if choose n key =? 0 then
          match add_at alloc1 alloc2 t0 bits key cidr peer with
          | Ok (t0, x, old) => Ok (Node n t0 t1, x, old)
          | Err e => Err e
          end
        else
          match add_at alloc1 alloc2 t1 bits key cidr peer with
          | Ok (t1, x, old) => Ok (Node n t0 t1, x, old)
          | Err e => Err e
          end
      else stop
  end.

(** ** Removing *)

(** What is left at the place of the node, and whether the node was a leaf. *)
Definition remove_node (n : allowedips_node) (t0 t1 : trie) : trie * bool :=
  if negb (is_null t0) && negb (is_null t1) then (Node (n{{ n_peer := None }}) t0 t1, false)
  else
    let child := if is_null t0 then t1 else t0 in
    (child, is_null t0 && is_null t1).

(** A place below [n] changed; [n] goes if it has no peer and a leaf was removed
    there, its other child taking its place. *)
Definition after_removal (n : allowedips_node) (leaf : bool) (t0 t1 other : trie) : trie :=
  match n_peer n with
  | None => if leaf then other else Node n t0 t1
  | Some _ => Node n t0 t1
  end.

(** [remove_at sel] walks to the node with the prefix and removes it if [sel]
    accepts its peer; the last result is the node removed. *)
Fixpoint remove_at (sel : option Z → bool) (t : trie) (bits : Z) (key : list Z) (cidr : Z)
    : trie * bool * option allowedips_node :=
  match t with
  | Null => (Null, false, None)
  | Node n t0 t1 =>
      if (n_cidr n <=? cidr) && prefix_matches n key bits then
        if n_cidr n =? cidr then
          if sel (n_peer n) then (remove_node n t0 t1, Some n) else (t, false, None)
        else if choose n key =? 0 then
          let '(t0, leaf, x) := remove_at sel t0 bits key cidr in
          (after_removal n leaf t0 t1 t1, false, x)
        else
          let '(t1, leaf, x) := remove_at sel t1 bits key cidr in
          (after_removal n leaf t0 t1 t0, false, x)
      else (t, false, None)
  end.

(** ** The table

    The list of a peer's nodes holds, for each, what identifies it in the
    table: its length, bytes and prefix length. *)
Abbreviation entry := (Z * list Z * Z)%type.

Definition entry_of (n : allowedips_node) : entry := (n_bitlen n, n_bits n, n_cidr n).

Record allowedips := mk_allowedips {
  root4 : trie;
  root6 : trie;
  seq : Z;
  allowedips_list : gmap Z (list entry);
}.

#[export] Instance eta_allowedips : Settable allowedips := λ a,
  mk_allowedips (root4 a) (root6 a) (seq a) (allowedips_list a).

Definition list_of (peer : Z) (ls : gmap Z (list entry)) : list entry := default [] (ls !! peer).

Definition list_add_tail (x : entry) (peer : Z) (ls : gmap Z (list entry)) : gmap Z (list entry) :=
  <[peer := list_of peer ls ++ [x]]> ls.

Definition list_del (x : entry) (peer : option Z) (ls : gmap Z (list entry)) : gmap Z (list entry) :=
  match peer with
  | Some p => <[p := filter (λ y, y ≠ x) (list_of p ls)]> ls
  | None => ls
  end.

Definition root (bits : Z) (a : allowedips) : trie := if bits =? 32 then root4 a else root6 a.
Definition set_root (bits : Z) (t : trie) (a : allowedips) : allowedips :=
  if bits =? 32 then a{{ root4 := t }} else a{{ root6 := t }}.

Definition bump (a : allowedips) : allowedips := a{{ seq := u64 (seq a + 1) }}.

Definition wg_allowedips_init : allowedips := mk_allowedips Null Null 1 ∅.

Definition add (alloc1 alloc2 : bool) (bits : Z) (key : list Z) (cidr peer : Z) (a : allowedips)
    : Z * allowedips :=
  if bits <? cidr then (-EINVAL, a)
  else
    match add_at alloc1 alloc2 (root bits a) bits key cidr peer with
    | Err e => (e, a)
    | Ok (t, x, old) =>
        (0, (set_root bits t a){{
              allowedips_list := list_add_tail (entry_of x) peer
                                   (list_del (entry_of x) old (allowedips_list a)) }})
    end.

(** [wg_allowedips_insert_v4] and [_v6]. *)
Definition wg_allowedips_insert (alloc1 alloc2 : bool) (bits : Z) (ip : list Z) (cidr peer : Z)
    (a : allowedips) : Z * allowedips :=
  add alloc1 alloc2 bits (swap_endian ip bits) cidr peer (bump a).

Definition remove (bits : Z) (key : list Z) (cidr peer : Z) (a : allowedips) : Z * allowedips :=
  if bits <? cidr then (-EINVAL, a)
  else
    let '(t, _, x) := remove_at (λ o, bool_decide (o = Some peer)) (root bits a) bits key cidr in
    match x with
    | None => (0, a)
    | Some x => (0, (set_root bits t a){{
                       allowedips_list ::= list_del (entry_of x) (n_peer x) }})
    end.

(** [wg_allowedips_remove_v4] and [_v6]. *)
Definition wg_allowedips_remove (bits : Z) (ip : list Z) (cidr peer : Z) (a : allowedips)
    : Z * allowedips :=
  remove bits (swap_endian ip bits) cidr peer (bump a).

(** Every node of the peer's list is removed, whatever its place has become. *)
Definition remove_entry (peer : Z) (a : allowedips) (x : entry) : allowedips :=
  let '(bits, key, cidr) := x in
  let '(t, _, _) := remove_at (λ _, true) (root bits a) bits key cidr in
  (set_root bits t a){{ allowedips_list ::= list_del x (Some peer) }}.

Definition wg_allowedips_remove_by_peer (peer : Z) (a : allowedips) : allowedips :=
  match list_of peer (allowedips_list a) with
  | [] => a
  | l => foldl (remove_entry peer) (bump a) l
  end.

(** ** Freeing: the walk with an explicit stack

    [stack] is the array of pending nodes with the next one first, of
    [MAX_ALLOWEDIPS_DEPTH] slots; [None] is a write past its end.  [debug] tells
    whether the build defines DEBUG, which makes a full array drop the node. *)
Definition push_rcu (debug : bool) (p : trie) (stack : list trie) : option (list trie) :=
  if is_null p then Some stack
  else if debug && (MAX_ALLOWEDIPS_DEPTH <=? zlen stack) then Some stack
  else if MAX_ALLOWEDIPS_DEPTH <=? zlen stack then None
  else Some (p :: stack).

Fixpoint stack_walk (debug : bool) (fuel : nat) (stack : list trie) (visited : list allowedips_node)
    : option (list allowedips_node) :=
  match fuel with
  | O => None
  | S fuel =>
      match stack with
      | Node n t0 t1 :: stack =>
          stack ← push_rcu debug t0 stack;
          stack ← push_rcu debug t1 stack;
          stack_walk debug fuel stack (visited ++ [n])
      | Null :: _ | [] => Some visited
      end
  end.

Fixpoint trie_size (t : trie) : nat :=
  match t with Null => 0 | Node _ t0 t1 => S (trie_size t0 + trie_size t1) end.

(** The nodes [root_remove_peer_lists] and [root_free_rcu] visit, in order. *)
Definition root_walk (debug : bool) (t : trie) : option (list allowedips_node) :=
  stack_walk debug (S (trie_size t)) [t] [].

Definition root_remove_peer_lists (debug : bool) (t : trie) (ls : gmap Z (list entry))
    : option (gmap Z (list entry)) :=
  foldl (λ ls n, list_del (entry_of n) (n_peer n) ls) ls <$> root_walk debug t.

(** The nodes whose memory [root_free_rcu] returns. *)
Definition root_free_rcu (debug : bool) (t : trie) : option (list allowedips_node) := root_walk debug t.

(** The table that is left and the nodes that are freed. *)
Definition wg_allowedips_free (debug : bool) (a : allowedips) : option (allowedips * list allowedips_node) :=
  let old4 := root4 a in
  let old6 := root6 a in
  let a := (bump a){{ root4 := Null; root6 := Null }} in
  let drop old '(ls, freed) :=
    if is_null old then Some (ls, freed)
    else
      ls ← root_remove_peer_lists debug old ls;
      ns ← root_free_rcu debug old;
      Some (ls, freed ++ ns) in
  '(ls, freed) ← drop old4 (allowedips_list a, []);
  '(ls, freed) ← drop old6 (ls, freed);
  Some (a{{ allowedips_list := ls }}, freed).

(** ** Reading a node: the address with the bits after the prefix cleared. *)
Definition wg_allowedips_read_node (n : allowedips_node) : Z * list Z * Z :=
  let cidr_bytes := (n_cidr n + 7) / 8 in
  let ip := swap_endian (n_bits n) (n_bitlen n) in
  let ip := ztake cidr_bytes ip ++ replicate (Z.to_nat (n_bitlen n / 8 - cidr_bytes)) 0 in
  let ip := if n_cidr n =? 0 then ip
            else <[Z.to_nat (cidr_bytes - 1) :=
                   Z.land (byte_at ip (cidr_bytes - 1)) (u8 (Z.shiftl (2 ^ 32 - 1) ((- n_cidr n) mod 8)))]> ip in
  (if n_bitlen n =? 32 then AF_INET else AF_INET6, ip, n_cidr n).

(** The addresses of a packet, as the network header holds them. *)
Definition wg_allowedips_lookup_dst (a : allowedips) (skb : sk_buff) : option Z :=
  if skb_protocol skb =? ETH_P_IP then
    lookup (root4 a) 32 (ztake 4 (skb_at skb (skb_network_header skb + 16)))
  else if skb_protocol skb =? ETH_P_IPV6 then
    lookup (root6 a) 128 (ztake 16 (skb_at skb (skb_network_header skb + 24)))
  else None.

Definition wg_allowedips_lookup_src (a : allowedips) (skb : sk_buff) : option Z :=
  if skb_protocol skb =? ETH_P_IP then
    lookup (root4 a) 32 (ztake 4 (skb_at skb (skb_network_header skb + 12)))
  else if skb_protocol skb =? ETH_P_IPV6 then
    lookup (root6 a) 128 (ztake 16 (skb_at skb (skb_network_header skb + 8)))
  else None.

(** ** Keys as integers

    The value of a key is the address as an unsigned integer of its width. *)
Definition kval (bits : Z) (key : list Z) : Z :=
  if bits =? 32 then le_val key else le_val (ztake 8 key) * 2 ^ 64 + le_val (zdrop 8 key).

Definition is_width (bits : Z) : Prop := bits = 32 ∨ bits = 128.

Definition is_key (bits : Z) (key : list Z) : Prop :=
  is_width bits ∧ zlen key = bits / 8 ∧ Forall is_byte key.

Lemma byte_at_testbit bs i j :
  Forall is_byte bs → 0 <= i → 0 <= j < 8 →
  Z.testbit (byte_at bs i) j = Z.testbit (le_val bs) (8 * i + j).
Proof.
  intros Hbs Hi Hj. unfold byte_at. rewrite <- le_val_testbit by done. f_equal. lia.
Qed.

Lemma byte_at_ztake bs i n : 0 <= i < n → byte_at (ztake n bs) i = byte_at bs i.
Proof. intros H. unfold byte_at, ztake. rewrite !nth_lookup, lookup_take_lt by lia. done. Qed.

Lemma byte_at_zdrop bs i n : 0 <= i → 0 <= n → byte_at (zdrop n bs) i = byte_at bs (n + i).
Proof.
  intros Hi Hn. unfold byte_at, zdrop. rewrite !nth_lookup, lookup_drop. do 2 f_equal. lia.
Qed.

(** Words of two halves. *)
Lemma halves_lor h l : 0 <= l < 2 ^ 64 → h * 2 ^ 64 + l = Z.lor (Z.shiftl h 64) l.
Proof. intros Hl. rewrite (lor_shiftl_add h l 64) by lia. lia. Qed.

Lemma halves_testbit h l i :
  0 <= l < 2 ^ 64 → 0 <= i →
  Z.testbit (h * 2 ^ 64 + l) i = if i <? 64 then Z.testbit l i else Z.testbit h (i - 64).
Proof.
  intros Hl Hi. rewrite halves_lor, Z.lor_spec, Z.shiftl_spec by done. case_if; simpl_guards.
  - by rewrite Z.testbit_neg_r by lia.
  - rewrite (testbit_above 64 l i) by lia. apply orb_false_r.
Qed.

Lemma halves_lxor h1 l1 h2 l2 :
  0 <= l1 < 2 ^ 64 → 0 <= l2 < 2 ^ 64 →
  Z.lxor (h1 * 2 ^ 64 + l1) (h2 * 2 ^ 64 + l2) = Z.lxor h1 h2 * 2 ^ 64 + Z.lxor l1 l2.
Proof.
  intros H1 H2. apply Z.bits_inj'. intros i Hi. assert (0 <= Z.lxor l1 l2 < 2 ^ 64) by (by apply lxor_range).
  rewrite Z.lxor_spec, !halves_testbit by done. case_if; by rewrite Z.lxor_spec.
Qed.

Lemma key_halves key :
  is_key 128 key →
  0 <= le_val (ztake 8 key) < 2 ^ 64 ∧ 0 <= le_val (zdrop 8 key) < 2 ^ 64 ∧
  ztake 8 (zdrop 8 key) = zdrop 8 key.
Proof.
  intros (_&Hlen&Hb). change (128 / 8) with 16 in Hlen.
  assert (Hlen1 : zlen (ztake 8 key) = 8) by zlia. assert (Hlen2 : zlen (zdrop 8 key) = 8) by zlia.
  pose proof (le_val_range (ztake 8 key) (Forall_ztake _ _ _ Hb)) as H1.
  pose proof (le_val_range (zdrop 8 key) (Forall_zdrop _ _ _ Hb)) as H2.
  rewrite Hlen1 in H1. rewrite Hlen2 in H2. split; [exact H1|split; [exact H2|]]. apply ztake_all. lia.
Qed.

Lemma kval_range bits key : is_key bits key → 0 <= kval bits key < 2 ^ bits.
Proof.
  intros Hk. destruct (Hk) as ([->| ->]&Hlen&Hb); unfold kval; cbn [Z.eqb Pos.eqb].
  - pose proof (le_val_range key Hb) as H. rewrite Hlen in H. exact H.
  - destruct (key_halves key Hk) as (H1&H2&_). change (2 ^ 128) with (2 ^ 64 * 2 ^ 64). lia.
Qed.

Lemma kval_ztake bits key : is_key bits key → ztake (bits / 8) key = key.
Proof. intros (_&Hlen&_). apply ztake_all. lia. Qed.

Ltac eval_u8 :=
  cbn zeta;
  repeat match goal with
  | |- context [u8 ?x] => let v := eval vm_compute in (u8 x) in change (u8 x) with v
  end.

(** The byte and bit that [copy_and_assign_cidr] selects. *)
Lemma bit_at_spec cidr bits :
  is_width bits → 0 <= cidr < bits →
  let a := u8 (Z.lxor (cidr / 8) ((bits / 8 - 1) mod 8)) in
  0 <= a < bits / 8 ∧ bits - 1 - cidr = 8 * (if bits =? 32 then a else if a <? 8 then a + 8 else a - 8)
                                         + (7 - cidr mod 8).
Proof.
  intros Hw Hc. assert (Hq : 0 <= cidr / 8 < 16) by (destruct Hw as [->| ->]; div_mod_lia).
  pose proof (Z.div_mod cidr 8 ltac:(lia)) as Hdm. pose proof (Z.mod_pos_bound cidr 8).
  set (q := cidr / 8) in *. set (r := cidr mod 8) in *.
  destruct Hw as [->| ->].
  - assert (q = 0 ∨ q = 1 ∨ q = 2 ∨ q = 3) as Hcase by (subst q; div_mod_lia).
    change ((32 / 8 - 1) mod 8) with 3. change (32 / 8) with 4. clearbody q r.
    destruct_or? Hcase; subst q; eval_u8; cbn [Z.eqb Pos.eqb]; lia.
  - change ((128 / 8 - 1) mod 8) with 7. change (128 / 8) with 16. clearbody q r.
    assert (q = 0 ∨ q = 1 ∨ q = 2 ∨ q = 3 ∨ q = 4 ∨ q = 5 ∨ q = 6 ∨ q = 7 ∨ q = 8 ∨ q = 9 ∨
            q = 10 ∨ q = 11 ∨ q = 12 ∨ q = 13 ∨ q = 14 ∨ q = 15) as Hcase by lia.
    destruct_or? Hcase; subst q; eval_u8; cbn [Z.eqb Pos.eqb Z.ltb Z.compare Pos.compare Pos.compare_cont]; lia.
Qed.

Lemma land_1_testbit z i : 0 <= i → Z.land (Z.shiftr z i) 1 = Z.b2z (Z.testbit z i).
Proof.
  intros Hi. change 1 with (Z.ones 1). rewrite Z.land_ones, <- Z.bit0_mod, Z.shiftr_spec by lia.
  by rewrite Z.add_0_l.
Qed.

(** A node as the code builds it, except that its peer may have changed. *)
Definition node_ok (bits : Z) (n : allowedips_node) : Prop :=
  is_key bits (n_bits n) ∧ 0 <= n_cidr n <= bits ∧
  n = copy_and_assign_cidr (n_peer n) (n_bits n) (n_cidr n) bits.

Definition nval (bits : Z) (n : allowedips_node) : Z := kval bits (n_bits n).

(** The branching bit is the first one after the prefix. *)
Lemma choose_spec bits n key :
  node_ok bits n → is_key bits key → n_cidr n < bits →
  choose n key = Z.b2z (Z.testbit (kval bits key) (bits - 1 - n_cidr n)).
Proof.
  intros (Hnk&Hc&Hn) Hk Hlt. unfold choose. rewrite Hn. cbn [n_bit_at_a n_bit_at_b copy_and_assign_cidr n_cidr].
  destruct (bit_at_spec (n_cidr n) bits) as [Ha Hbit]; [apply Hk|lia|]. set (a := u8 _) in *. clearbody a.
  pose proof (Z.mod_pos_bound (n_cidr n) 8 ltac:(lia)) as Hr.
  rewrite land_1_testbit by lia. f_equal. rewrite Hbit. destruct (Hk) as ([->| ->]&Hlen&Hb).
  - unfold kval. cbn [Z.eqb Pos.eqb]. apply byte_at_testbit; [done|lia..].
  - unfold kval. cbn [Z.eqb Pos.eqb]. destruct (key_halves key Hk) as (H1&H2&_).
    change (128 / 8) with 16 in Ha. rewrite halves_testbit; [|done|case_if; simpl_guards; lia].
    destruct (a <? 8) eqn:Hlt8; simpl_guards.
    + rewrite (proj2 (Z.ltb_ge _ 64)) by lia.
      replace (8 * (a + 8) + _ - 64) with (8 * a + (7 - n_cidr n mod 8)) by lia.
      rewrite <- byte_at_testbit, byte_at_ztake by (done || lia || by apply Forall_ztake). done.
    + rewrite (proj2 (Z.ltb_lt _ 64)) by lia.
      rewrite <- byte_at_testbit, byte_at_zdrop by (done || lia || by apply Forall_zdrop).
      do 2 f_equal. lia.
Qed.

Lemma fls_le z k : 0 <= z → 0 <= k → fls z <= k ↔ z < 2 ^ k.
Proof.
  intros Hz Hk. unfold fls. case_if; simpl_guards; [subst; split; [intros _; apply Z.pow_pos_nonneg; lia|lia]|].
  rewrite Z.log2_lt_pow2 by lia. lia.
Qed.

Lemma fls_range z k : 0 <= z < 2 ^ k → 0 <= k → 0 <= fls z <= k.
Proof.
  intros Hz Hk. split; [|apply fls_le; lia]. unfold fls. case_if; [done|].
  pose proof (Z.log2_nonneg z). lia.
Qed.

Lemma fls128_halves a b : 0 <= a → 0 <= b < 2 ^ 64 → fls128 a b = fls (a * 2 ^ 64 + b).
Proof.
  intros Ha Hb. unfold fls128, fls. destruct (a =? 0) eqn:Ha0; simpl_guards; [by subst|]. cbn [negb].
  rewrite (proj2 (Z.eqb_neq _ _)) by lia. rewrite halves_lor, Z.log2_lor, Z.log2_shiftl by (lia || (apply Z.shiftl_nonneg; lia)).
  assert (Z.log2 b < 64) by (destruct (decide (b = 0)) as [->|]; [done|apply Z.log2_lt_pow2; lia]).
  pose proof (Z.log2_nonneg a). lia.
Qed.

Lemma common_bits_spec bits n key :
  is_key bits (n_bits n) → is_key bits key →
  common_bits n key bits = bits - fls (Z.lxor (nval bits n) (kval bits key)).
Proof.
  intros Hn Hk. pose proof (kval_range _ _ Hn) as Hrn. pose proof (kval_range _ _ Hk) as Hrk.
  pose proof (fls_range _ bits (lxor_range bits _ _ ltac:(destruct Hk as [[->| ->] _]; lia) Hrn Hrk)
    ltac:(destruct Hk as [[->| ->] _]; lia)) as Hf.
  unfold common_bits, nval, kval in *. destruct (Hk) as ([->| ->]&Hlen&Hb); cbn [Z.eqb Pos.eqb] in *.
  - assert (zlen (n_bits n) = 4) by apply Hn. change (32 / 8) with 4 in Hlen.
    rewrite !ztake_all by lia. apply wrap_small. lia.
  - destruct (key_halves _ Hn) as (N1&N2&N3). destruct (key_halves _ Hk) as (K1&K2&K3).
    rewrite N3, K3, fls128_halves, <- halves_lxor by (done || (apply Z.lxor_nonneg; lia) || (apply lxor_range; lia)).
    apply wrap_small. lia.
Qed.

(** The prefix of length [c] of an address. *)
Definition pfx (bits c k : Z) : Z := Z.shiftr k (bits - c).

Lemma lxor_small_shiftr a b k :
  0 <= a → 0 <= b → 0 <= k → Z.lxor a b < 2 ^ k ↔ Z.shiftr a k = Z.shiftr b k.
Proof.
  intros Ha Hb Hk. rewrite <- Z.lxor_eq_0_iff, <- Z.shiftr_lxor.
  assert (0 <= Z.lxor a b) by (apply Z.lxor_nonneg; lia).
  rewrite Z.shiftr_div_pow2 by done. split; intros H1; [apply Z.div_small; lia|].
  apply Z.div_small_iff in H1; [lia|]. apply Z.pow_nonzero; lia.
Qed.

Lemma common_bits_ge bits n key c :
  is_key bits (n_bits n) → is_key bits key → 0 <= c <= bits →
  c <= common_bits n key bits ↔ pfx bits c (nval bits n) = pfx bits c (kval bits key).
Proof.
  intros Hn Hk Hc. rewrite common_bits_spec by done. unfold pfx.
  pose proof (kval_range _ _ Hn). pose proof (kval_range _ _ Hk). fold (nval bits n) in *.
  rewrite <- lxor_small_shiftr by lia. rewrite <- fls_le by (lia || (apply Z.lxor_nonneg; lia)). lia.
Qed.

Lemma prefix_matches_spec bits n key :
  node_ok bits n → is_key bits key →
  prefix_matches n key bits = bool_decide (pfx bits (n_cidr n) (nval bits n) = pfx bits (n_cidr n) (kval bits key)).
Proof.
  intros (Hn&Hc&_) Hk. apply eq_true_iff_eq. unfold prefix_matches.
  rewrite Z.leb_le, bool_decide_eq_true. by apply common_bits_ge.
Qed.
