(* ===== verification/AllowedIpsSpec.v ===== *)
(** * The table of allowed addresses is a longest-prefix-match map

    The specification of the table is, per address family, a finite map from
    prefixes (length and leading bits) to peers, looked up by the longest prefix
    of an address that it holds.  This file shows that the trie of AllowedIps.v
    implements it under every sequence of operations, that the lists of nodes
    per peer stay exact, and that the walks with a fixed stack fit it. *)
From stdpp Require Import prelude list gmap sorting.
From S2P Require Import Prelude Skb Net AllowedIps.

#[local] Open Scope Z_scope.

(** ** Specification *)
Abbreviation routes := (gmap (Z * Z) Z).

(** The peer of the longest prefix, of length at most [c], of the address. *)
Fixpoint lpm_upto (bits : Z) (m : routes) (k : Z) (c : nat) : option Z :=
  match m !! (Z.of_nat c, pfx bits (Z.of_nat c) k) with
  | Some q => Some q
  | None => match c with O => None | S c => lpm_upto bits m k c end
  end.

Definition lpm (bits : Z) (m : routes) (k : Z) : option Z := lpm_upto bits m k (Z.to_nat bits).

(** The map a trie stands for. *)
Definition index (bits : Z) (n : allowedips_node) : Z * Z := (n_cidr n, pfx bits (n_cidr n) (nval bits n)).

Definition put_opt (i : Z * Z) (o : option Z) (m : routes) : routes :=
  match o with Some q => <[i := q]> m | None => m end.

Fixpoint abs (bits : Z) (t : trie) : routes :=
  match t with
  | Null => ∅
  | Node n t0 t1 => put_opt (index bits n) (n_peer n) (abs bits t0 ∪ abs bits t1)
  end.

(** ** Prefixes *)
Section prefixes.
Context (bits : Z).

Lemma pfx_0 k : 0 <= k < 2 ^ bits → 0 <= bits → pfx bits 0 k = 0.
Proof. intros Hk Hb. unfold pfx. rewrite Z.sub_0_r, Z.shiftr_div_pow2 by done. by apply Z.div_small. Qed.

Lemma pfx_shorter c c' k : 0 <= c <= c' → c' <= bits → pfx bits c k = Z.shiftr (pfx bits c' k) (c' - c).
Proof. intros Hc Hc'. unfold pfx. rewrite Z.shiftr_shiftr by lia. f_equal. lia. Qed.

Lemma pfx_eq_shorter c c' k k' :
  0 <= c <= c' → c' <= bits → pfx bits c' k = pfx bits c' k' → pfx bits c k = pfx bits c k'.
Proof. intros Hc Hc' Heq. rewrite !(pfx_shorter c c') by done. by rewrite Heq. Qed.

Lemma pfx_succ c k :
  0 <= c < bits → pfx bits (c + 1) k = 2 * pfx bits c k + Z.b2z (Z.testbit k (bits - 1 - c)).
Proof.
  intros Hc. rewrite (pfx_shorter c (c + 1)) by lia. replace (c + 1 - c) with 1 by lia.
  replace (Z.testbit k (bits - 1 - c)) with (Z.testbit (pfx bits (c + 1) k) 0).
  - rewrite Z.bit0_mod, Z.shiftr_div_pow2, Z.pow_1_r by done. apply Z.div_mod. done.
  - unfold pfx. rewrite Z.shiftr_spec by done. f_equal. lia.
Qed.

Lemma double_bit a b (x y : bool) : 2 * a + Z.b2z x = 2 * b + Z.b2z y → a = b ∧ x = y.
Proof. destruct x, y; cbn; intros; split; (lia || done || exfalso; lia). Qed.
End prefixes.

(** ** Well-formed tries

    [wf bits c p t]: the trie hangs at a place that fixes the first [c] bits to
    [p]. *)
Inductive wf (bits : Z) : Z → Z → trie → Prop :=
  | wf_null c p : wf bits c p Null
  | wf_node c p n t0 t1 :
      node_ok bits n → 0 <= c <= n_cidr n → pfx bits c (nval bits n) = p →
      wf bits (n_cidr n + 1) (2 * pfx bits (n_cidr n) (nval bits n)) t0 →
      wf bits (n_cidr n + 1) (2 * pfx bits (n_cidr n) (nval bits n) + 1) t1 →
      (n_peer n = None → is_null t0 = false ∧ is_null t1 = false) →
      wf bits c p (Node n t0 t1).

Section trie.
Context (bits : Z).

(** A place with fewer fixed bits will do, and one with more if the node at the
    top has them. *)
Lemma wf_up c p c' p' t :
  wf bits c' p' t → 0 <= c <= c' → p = Z.shiftr p' (c' - c) → wf bits c p t.
Proof.
  intros Hw Hc ->. inversion Hw as [|? ? n t0 t1 Hok Hc' Hp]; subst; constructor; auto; [lia|].
  apply pfx_shorter; [done|]. destruct Hok as (_&?&_). lia.
Qed.

Lemma wf_down c p c' n t0 t1 :
  wf bits c p (Node n t0 t1) → 0 <= c' <= n_cidr n →
  wf bits c' (pfx bits c' (nval bits n)) (Node n t0 t1).
Proof. inversion 1; subst. constructor; auto. Qed.

(** Every prefix in a trie extends the bits of its place. *)
Lemma abs_support c p t i q :
  wf bits c p t → 0 <= c → abs bits t !! i = Some q →
  c <= i.1 <= bits ∧ Z.shiftr i.2 (i.1 - c) = p.
Proof.
  intros Hw. induction Hw as [|c p n t0 t1 Hok Hc Hp _ IH0 _ IH1 _]; intros H0 Hi; [done|].
  pose proof (proj1 (proj2 Hok)) as Hn.
  assert (Hstep : ∀ b : bool, n_cidr n + 1 <= i.1 <= bits →
    Z.shiftr i.2 (i.1 - (n_cidr n + 1)) = 2 * pfx bits (n_cidr n) (nval bits n) + Z.b2z b →
    c <= i.1 <= bits ∧ Z.shiftr i.2 (i.1 - c) = p).
  { intros b Hi1 Hi2. split; [lia|]. rewrite <- Hp, (pfx_shorter bits c (n_cidr n)) by lia.
    replace (i.1 - c) with ((i.1 - (n_cidr n + 1)) + (1 + (n_cidr n - c))) by lia.
    rewrite <- Z.shiftr_shiftr, Hi2, <- Z.shiftr_shiftr by lia. f_equal.
    rewrite Z.shiftr_div_pow2, Z.pow_1_r by done. destruct b; cbn [Z.b2z]; div_mod_lia. }
  assert (Hchild : (abs bits t0 ∪ abs bits t1) !! i = Some q →
    c <= i.1 <= bits ∧ Z.shiftr i.2 (i.1 - c) = p).
  { intros [Hl|[_ Hr]]%lookup_union_Some_raw.
    - destruct (IH0 ltac:(lia) Hl) as [H1 H2]. apply (Hstep false); [done|]. cbn. lia.
    - destruct (IH1 ltac:(lia) Hr) as [H1 H2]. by apply (Hstep true). }
  cbn [abs] in Hi. unfold put_opt in Hi. destruct (n_peer n) as [q'|]; [|by auto].
  destruct (decide (i = index bits n)) as [->|Hne]; [|rewrite lookup_insert_ne in Hi by done; by auto].
  cbn [index fst snd]. split; [lia|]. by rewrite <- pfx_shorter by lia.
Qed.

Lemma abs_outside c p t i :
  wf bits c p t → 0 <= c → (i.1 < c ∨ Z.shiftr i.2 (i.1 - c) ≠ p) → abs bits t !! i = None.
Proof.
  intros Hw Hc Hi. destruct (abs bits t !! i) as [q|] eqn:Hq; [|done].
  destruct (abs_support c p t i q Hw Hc Hq) as [[H1 _] H2]. destruct Hi as [Hi|Hi]; [lia|done].
Qed.

(** ** Lookup *)
Lemma lpm_upto_spec m k c :
  match lpm_upto bits m k c with
  | None => ∀ c', 0 <= c' <= Z.of_nat c → m !! (c', pfx bits c' k) = None
  | Some q => ∃ c', 0 <= c' <= Z.of_nat c ∧ m !! (c', pfx bits c' k) = Some q ∧
                ∀ c'', c' < c'' <= Z.of_nat c → m !! (c'', pfx bits c'' k) = None
  end.
Proof.
  induction c as [|c IH]; cbn [lpm_upto].
  - destruct (m !! _) as [q|] eqn:Hm; [exists 0; split_and!; [lia..|done|lia]|].
    intros c' Hc. by replace c' with 0 by lia.
  - destruct (m !! (Z.of_nat (S c), _)) as [q|] eqn:Hm.
    { exists (Z.of_nat (S c)). split_and!; [lia..|done|lia]. }
    destruct (lpm_upto bits m k c) as [q|].
    + destruct IH as (c'&Hc'&Hq&Hnone). exists c'. split_and!; [lia..|done|]. intros c'' Hc''.
      destruct (decide (c'' = Z.of_nat (S c))) as [->|]; [done|]. apply Hnone. lia.
    + intros c' Hc'. destruct (decide (c' = Z.of_nat (S c))) as [->|]; [done|]. apply IH. lia.
Qed.

Lemma lpm_some m k c q :
  0 <= c <= bits → m !! (c, pfx bits c k) = Some q →
  (∀ c', c < c' <= bits → m !! (c', pfx bits c' k) = None) → lpm bits m k = Some q.
Proof.
  intros Hc Hq Hnone. unfold lpm. pose proof (lpm_upto_spec m k (Z.to_nat bits)) as H.
  rewrite Z2Nat.id in H by lia. destruct (lpm_upto _ _ _ _) as [q'|]; [|by rewrite H in Hq].
  destruct H as (c'&Hc'&Hq'&Hnone'). destruct (Z.lt_trichotomy c c') as [Hlt|[->|Hlt]]; [| congruence|].
  - rewrite Hnone in Hq' by lia. done.
  - rewrite Hnone' in Hq by lia. done.
Qed.

Lemma lpm_none m k :
  0 <= bits → (∀ c, 0 <= c <= bits → m !! (c, pfx bits c k) = None) → lpm bits m k = None.
Proof.
  intros Hb Hnone. unfold lpm. pose proof (lpm_upto_spec m k (Z.to_nat bits)) as H.
  rewrite Z2Nat.id in H by lia. destruct (lpm_upto _ _ _ _) as [q'|]; [|done].
  destruct H as (c'&Hc'&Hq'&_). by rewrite Hnone in Hq'.
Qed.

(** The entries of a trie that concern an address. *)
Lemma abs_node_lookup c0 p0 n t0 t1 k c :
  wf bits c0 p0 (Node n t0 t1) → 0 <= c <= bits →
  abs bits (Node n t0 t1) !! (c, pfx bits c k) =
  if bool_decide (pfx bits (n_cidr n) (nval bits n) = pfx bits (n_cidr n) k) then
    if c =? n_cidr n then n_peer n
    else if n_cidr n <? c
    then abs bits (if Z.testbit k (bits - 1 - n_cidr n) then t1 else t0) !! (c, pfx bits c k)
    else None
  else None.
Proof.
  intros Hw Hc. inversion Hw as [|? ? ? ? ? Hok Hc0 Hp0 Hw0 Hw1 _]; subst.
  pose proof (proj1 (proj2 Hok)) as Hn. set (P := pfx bits (n_cidr n) (nval bits n)) in *.
  assert (Hside : ∀ (b : bool) t, wf bits (n_cidr n + 1) (2 * P + Z.b2z b) t →
    (c <= n_cidr n ∨ P ≠ pfx bits (n_cidr n) k ∨ Z.testbit k (bits - 1 - n_cidr n) ≠ b) →
    abs bits t !! (c, pfx bits c k) = None).
  { intros b t Ht Hor. eapply abs_outside; [exact Ht|lia|]. cbn [fst snd].
    destruct (decide (c <= n_cidr n)) as [|Hgt]; [left; lia|right]. destruct Hor as [?|Hor]; [lia|].
    rewrite <- pfx_shorter by lia. rewrite pfx_succ by lia.
    intros [<- <-]%double_bit. by destruct Hor. }
  specialize (Hside false t0) as H0. specialize (Hside true t1) as H1. cbn [Z.b2z] in H0, H1.
  rewrite Z.add_0_r in H0. specialize (H0 Hw0). specialize (H1 Hw1).
  assert (Hput : abs bits (Node n t0 t1) !! (c, pfx bits c k) =
    if bool_decide ((c, pfx bits c k) = index bits n) then n_peer n
    else (abs bits t0 ∪ abs bits t1) !! (c, pfx bits c k)).
  { cbn [abs]. unfold put_opt. destruct (n_peer n) as [q|] eqn:Hq; case_bool_decide as Hi.
    - by rewrite Hi, lookup_insert_eq.
    - by rewrite lookup_insert_ne.
    - apply lookup_union_None. injection Hi as -> _. split; [apply H0|apply H1]; left; lia.
    - done. }
  rewrite Hput. clear Hput. unfold index. fold P. rewrite lookup_union.
  destruct (c =? n_cidr n) eqn:Hcn; simpl_guards.
  - subst c. rewrite H0, H1 by (left; lia).
    destruct (decide (P = pfx bits (n_cidr n) k)) as [HP|HP];
      [rewrite !bool_decide_eq_true_2 by congruence|rewrite !bool_decide_eq_false_2 by congruence]; done.
  - rewrite bool_decide_eq_false_2 by congruence. case_bool_decide as HP.
    + destruct (n_cidr n <? c) eqn:Hlt; simpl_guards; [|by rewrite H0, H1 by (left; lia)].
      destruct (Z.testbit k (bits - 1 - n_cidr n)).
      * rewrite H0 by (by right; right). by rewrite (left_id None _).
      * rewrite H1 by (by right; right). by rewrite (right_id None _).
    + by rewrite H0, H1 by (by right; left).
Qed.

(** The longest prefix lies in the subtree the address leads to, or it is the
    node's own. *)
Lemma lpm_node c p n t0 t1 k :
  wf bits c p (Node n t0 t1) →
  lpm bits (abs bits (Node n t0 t1)) k =
  if bool_decide (pfx bits (n_cidr n) (nval bits n) = pfx bits (n_cidr n) k) then
    match lpm bits (abs bits (if Z.testbit k (bits - 1 - n_cidr n) then t1 else t0)) k with
    | Some q => Some q
    | None => n_peer n
    end
  else None.
Proof.
  intros Hw. pose proof (abs_node_lookup c p n t0 t1 k) as Hl.
  inversion Hw as [|? ? ? ? ? Hok Hc Hp Hw0 Hw1 _]; subst. pose proof (proj1 (proj2 Hok)) as Hn.
  case_bool_decide as HP; [|apply lpm_none; [lia|intros c' Hc'; by rewrite Hl]].
  set (tb := if Z.testbit k _ then t1 else t0) in *.
  assert (Hlow : ∀ c', c' <= n_cidr n → abs bits tb !! (c', pfx bits c' k) = None).
  { intros c' Hc'. subst tb. destruct (Z.testbit _ _); (eapply abs_outside; [done|lia|left; cbn; lia]). }
  pose proof (lpm_upto_spec (abs bits tb) k (Z.to_nat bits)) as Hs. rewrite Z2Nat.id in Hs by lia.
  fold (lpm bits (abs bits tb) k) in Hs. destruct (lpm bits (abs bits tb) k) as [q|].
  - destruct Hs as (c'&Hc'&Hq&Hnone). assert (n_cidr n < c').
    { destruct (decide (c' <= n_cidr n)); [|lia]. by rewrite Hlow in Hq. }
    apply (lpm_some _ _ c' q); [done| |].
    + by rewrite Hl, (proj2 (Z.eqb_neq _ _)), (proj2 (Z.ltb_lt _ _)) by (done || lia).
    + intros c'' Hc''. rewrite Hl, (proj2 (Z.eqb_neq _ _)), (proj2 (Z.ltb_lt _ _)) by (done || lia).
      by apply Hnone.
  - assert (Hhigh : ∀ c', 0 <= c' <= bits → c' ≠ n_cidr n →
      abs bits (Node n t0 t1) !! (c', pfx bits c' k) = None).
    { intros c' Hc' Hne. rewrite Hl, (proj2 (Z.eqb_neq _ _)) by done. case_if; [by apply Hs|done]. }
    assert (Hown : abs bits (Node n t0 t1) !! (n_cidr n, pfx bits (n_cidr n) k) = n_peer n)
      by (by rewrite Hl, Z.eqb_refl by done).
    destruct (n_peer n) as [q|] eqn:Hq.
    + apply (lpm_some _ _ (n_cidr n) q); [done..|]. intros c' Hc'. apply Hhigh; lia.
    + apply lpm_none; [lia|]. intros c' Hc'. destruct (decide (c' = n_cidr n)) as [->|]; auto.
Qed.

Lemma find_node_from_spec c p t key found :
  wf bits c p t → is_key bits key →
  find_node_from t bits key found ≫= n_peer =
  match lpm bits (abs bits t) (kval bits key) with Some q => Some q | None => found ≫= n_peer end.
Proof.
  intros Hw Hk. assert (0 <= bits) as Hbits by (destruct Hk as [[->| ->] _]; done).
  revert found. induction Hw as [|c p n t0 t1 Hok Hc Hp Hw0 IH0 Hw1 IH1 Hnull]; intros found.
  { by rewrite lpm_none. }
  rewrite (lpm_node c p) by (by constructor). pose proof (proj1 (proj2 Hok)) as Hn.
  cbn [find_node_from]. rewrite (prefix_matches_spec bits) by done.
  case_bool_decide as HP; cbn [negb]; [|done].
  set (found' := match n_peer n with Some _ => Some n | None => found end).
  assert (Hf : found' ≫= n_peer = match n_peer n with Some q => Some q | None => found ≫= n_peer end)
    by (subst found'; by destruct (n_peer n) eqn:?).
  destruct (n_cidr n =? bits) eqn:Hcb; simpl_guards.
  - assert (Hnull' : ∀ c' p' t, wf bits c' p' t → bits < c' → t = Null).
    { intros c' p' t [|? ? ? ? ? (_&?&_) ?]; [done|lia]. }
    rewrite (Hnull' _ _ _ Hw0), (Hnull' _ _ _ Hw1) by lia. rewrite Hf.
    replace (lpm bits _ _) with (@None Z) by (destruct (Z.testbit _ _); by rewrite lpm_none).
    by destruct (n_peer n).
  - rewrite (choose_spec bits) by (done || lia).
    destruct (Z.testbit _ _); cbn [Z.b2z Z.eqb]; cbv iota; rewrite ?IH0, ?IH1, Hf;
      clear; by repeat case_match; simplify_eq.
Qed.

(** ** Adding *)

(** The nodes that hold a peer, with their peers. *)
Definition own_entry (n : allowedips_node) : list (entry * Z) :=
  match n_peer n with Some q => [(entry_of n, q)] | None => [] end.

Fixpoint peered (t : trie) : list (entry * Z) :=
  match t with
  | Null => []
  | Node n t0 t1 => own_entry n ++ peered t0 ++ peered t1
  end.

Lemma new_node_ok q key cidr :
  is_key bits key → 0 <= cidr <= bits →
  node_ok bits (copy_and_assign_cidr q key cidr bits) ∧
  n_bits (copy_and_assign_cidr q key cidr bits) = key.
Proof.
  intros Hk Hc. unfold copy_and_assign_cidr. rewrite (kval_ztake bits) by done. split; [|done].
  split; [done|]. split; [done|]. unfold copy_and_assign_cidr. cbn. by rewrite kval_ztake.
Qed.

Lemma node_ok_peer n o : node_ok bits n → node_ok bits (n{{ n_peer := o }}).
Proof.
  intros (Hk&Hc&Hn). split; [done|]. split; [done|].
  etrans; [exact (f_equal (λ x, x{{ n_peer := o }}) Hn)|done].
Qed.

(** The side of a node another prefix hangs at. *)
Lemma connect_above_spec c p n dn d0 d1 :
  node_ok bits n → is_Some (n_peer n) → 0 <= c <= n_cidr n → pfx bits c (nval bits n) = p →
  wf bits c p (Node dn d0 d1) → n_cidr n < n_cidr dn →
  pfx bits (n_cidr n) (nval bits n) = pfx bits (n_cidr n) (nval bits dn) →
  let t := connect_above n (Node dn d0 d1) (n_bits dn) in
  wf bits c p t ∧ abs bits t = put_opt (index bits n) (n_peer n) (abs bits (Node dn d0 d1)) ∧
  is_null t = false ∧ peered t = own_entry n ++ peered (Node dn d0 d1).
Proof.
  intros Hok Hsome Hc Hp Hw Hlt Heq. inversion Hw as [|? ? ? ? ? Hokd Hcd Hpd _ _ _]; subst.
  pose proof (proj1 (proj2 Hokd)) as Hd. unfold connect_above.
  rewrite (choose_spec bits n (n_bits dn)) by (done || apply Hokd || lia). fold (nval bits dn).
  assert (Hdown : wf bits (n_cidr n + 1)
    (2 * pfx bits (n_cidr n) (nval bits n) + Z.b2z (Z.testbit (nval bits dn) (bits - 1 - n_cidr n)))
    (Node dn d0 d1)).
  { rewrite Heq, <- pfx_succ by lia. eapply wf_down; [exact Hw|lia]. }
  destruct (Z.testbit _ _); cbn [Z.b2z Z.eqb] in *.
  - split_and!; [|cbn [abs]; by rewrite (left_id_L ∅ (∪))|done|done].
    constructor; auto; [constructor|]. intros Hn. by destruct Hsome; simplify_eq.
  - rewrite Z.add_0_r in Hdown.
    split_and!; [|cbn [abs]; by rewrite (right_id_L ∅ (∪))|done|cbn [peered]; by rewrite app_nil_r].
    constructor; auto; [constructor|]. intros Hn. by destruct Hsome; simplify_eq.
Qed.

(** Two prefixes that part after a common one. *)
Lemma branch_spec c p nn n q dn d0 d1 :
  node_ok bits nn → n_peer nn = None → node_ok bits n → n_peer n = Some q →
  0 <= c <= n_cidr nn → pfx bits c (nval bits nn) = p → wf bits c p (Node dn d0 d1) →
  n_cidr nn < n_cidr dn → n_cidr nn < n_cidr n → nval bits nn = nval bits n →
  pfx bits (n_cidr nn) (nval bits nn) = pfx bits (n_cidr nn) (nval bits dn) →
  pfx bits (n_cidr nn + 1) (nval bits n) ≠ pfx bits (n_cidr nn + 1) (nval bits dn) →
  let down := Node dn d0 d1 in
  let t := if choose nn (n_bits n) =? 0
           then match connect_above nn down (n_bits dn) with
                | Node x _ t1 => Node x (Node n Null Null) t1 | Null => Null end
           else match connect_above nn down (n_bits dn) with
                | Node x t0 _ => Node x t0 (Node n Null Null) | Null => Null end in
  wf bits c p t ∧ abs bits t = <[index bits n := q]> (abs bits down) ∧ is_null t = false ∧
  peered t ≡ₚ (entry_of n, q) :: peered down.
Proof.
  intros Hok Hnone Hokn Hq Hc Hp Hw Hltd Hltn Hval Heq Hne down.
  inversion Hw as [|? ? ? ? ? Hokd Hcd Hpd _ _ _]; subst.
  pose proof (proj1 (proj2 Hokd)) as Hd. pose proof (proj1 (proj2 Hokn)) as Hn.
  assert (Hdown : wf bits (n_cidr nn + 1) (pfx bits (n_cidr nn + 1) (nval bits dn)) down)
    by (eapply wf_down; [exact Hw|lia]).
  assert (Hnew : wf bits (n_cidr nn + 1) (pfx bits (n_cidr nn + 1) (nval bits n)) (Node n Null Null)).
  { constructor; [done|lia|done|constructor..|]. by rewrite Hq. }
  assert (Hout : abs bits down !! index bits n = None).
  { eapply abs_outside; [exact Hdown|lia|]. right. cbn [index fst snd].
    rewrite <- pfx_shorter by lia. done. }
  unfold connect_above.
  rewrite (choose_spec bits nn (n_bits n)), (choose_spec bits nn (n_bits dn))
    by (done || apply Hokn || apply Hokd || lia).
  fold (nval bits n) (nval bits dn).
  rewrite pfx_succ in Hdown by lia. rewrite pfx_succ in Hnew by lia. rewrite !pfx_succ in Hne by lia.
  rewrite <- Heq in Hdown. rewrite <- Heq, <- Hval in Hne. rewrite <- Hval in Hnew |- *.
  assert (Hi : abs bits (Node n Null Null) = {[ index bits n := q ]}).
  { cbn [abs]. rewrite Hq. cbn [put_opt]. by rewrite (left_id_L ∅ (∪)). }
  assert (Hpn : peered (Node n Null Null) = [(entry_of n, q)])
    by (cbn [peered]; unfold own_entry; by rewrite Hq).
  assert (Hon : own_entry nn = []) by (unfold own_entry; by rewrite Hnone).
  destruct (Z.testbit (nval bits nn) _), (Z.testbit (nval bits dn) _); cbn [Z.b2z Z.eqb] in *;
    try (exfalso; by apply Hne); rewrite ?Z.add_0_r in *.
  - split_and!; [by constructor| |done|].
    + cbn [abs] in Hi |- *. fold (abs bits down). rewrite Hi, Hnone. cbn [put_opt].
      by rewrite map_union_comm, <- insert_union_singleton_l by (by apply map_disjoint_singleton_r).
    + change (own_entry nn ++ peered down ++ peered (Node n Null Null) ≡ₚ (entry_of n, q) :: peered down).
      rewrite Hon, Hpn. symmetry. apply Permutation_cons_append.
  - split_and!; [by constructor| |done|].
    + cbn [abs] in Hi |- *. fold (abs bits down). rewrite Hi, Hnone. cbn [put_opt].
      by rewrite <- insert_union_singleton_l.
    + change (own_entry nn ++ peered (Node n Null Null) ++ peered down ≡ₚ (entry_of n, q) :: peered down).
      by rewrite Hon, Hpn.
Qed.

(** Where the walk of [add] ends, the new node goes in; the only failure is that
    of the allocation for the common prefix. *)
Lemma place_spec alloc2 n q c p down :
  node_ok bits n → n_peer n = Some q → 0 <= c <= n_cidr n → pfx bits c (nval bits n) = p →
  wf bits c p down →
  (∀ dn d0 d1, down = Node dn d0 d1 → n_cidr dn <= n_cidr n → prefix_matches dn (n_bits n) bits = false) →
  match place alloc2 n bits down with
  | Ok t => wf bits c p t ∧ abs bits t = <[index bits n := q]> (abs bits down) ∧ is_null t = false ∧
            peered t ≡ₚ (entry_of n, q) :: peered down
  | Err e => alloc2 = false ∧ e = -ENOMEM
  end.
Proof.
  intros Hok Hq Hc Hp Hw Hstop. unfold place. destruct down as [|dn d0 d1].
  { split_and!; [|by cbn [abs]; rewrite Hq, (left_id_L ∅ (∪))|done|by cbn [peered]; unfold own_entry; rewrite Hq].
    constructor; [done..|constructor|constructor|]. by rewrite Hq. }
  specialize (Hstop dn d0 d1 eq_refl). inversion Hw as [|? ? ? ? ? Hokd Hcd Hpd _ _ _]; subst.
  pose proof (proj1 (proj2 Hokd)) as Hd. pose proof (proj1 (proj2 Hok)) as Hn.
  set (cb := common_bits dn (n_bits n) bits). fold (nval bits n) in *.
  assert (Hge : ∀ x, 0 <= x <= bits → x <= cb ↔ pfx bits x (nval bits dn) = pfx bits x (nval bits n))
    by (intros x Hx; apply common_bits_ge; [apply Hokd|apply Hok|done]).
  assert (Hccb : c <= cb) by (apply Hge; [lia|done]).
  assert (Hcut : n_cidr dn <= n_cidr n → cb < n_cidr dn).
  { intros Hle. specialize (Hstop Hle). unfold prefix_matches in Hstop. simpl_guards. subst cb. lia. }
  clearbody cb. destruct (n_cidr n =? Z.min (n_cidr n) cb) eqn:Hmin; simpl_guards.
  - assert (Hlt : n_cidr n < n_cidr dn) by (destruct (decide (n_cidr dn <= n_cidr n)); lia).
    destruct (connect_above_spec c (pfx bits c (nval bits n)) n dn d0 d1) as (H1&H2&H3&H4); eauto.
    { symmetry. apply Hge; lia. }
    split_and!; [done| |done|]; [by rewrite H2, Hq|rewrite H4; unfold own_entry; by rewrite Hq].
  - destruct alloc2; cbn [negb]; [|done]. rewrite Z.min_r by lia.
    destruct (new_node_ok None (n_bits n) cb) as [Hoknn Hbits]; [apply Hok|lia|].
    set (nn := copy_and_assign_cidr None (n_bits n) cb bits) in *.
    assert (Hnnc : n_cidr nn = cb) by done. assert (Hnnp : n_peer nn = None) by done.
    assert (Hnnv : nval bits nn = nval bits n) by (unfold nval; by rewrite Hbits). clearbody nn.
    apply (branch_spec c (pfx bits c (nval bits n)) nn n q dn d0 d1); rewrite ?Hnnc, ?Hnnv; auto;
      [lia|destruct (decide (n_cidr dn <= n_cidr n)); lia|lia|symmetry; apply Hge; lia|].
    intros Heq. assert (cb + 1 <= cb); [|lia]. apply Hge; [lia|done].
Qed.

(** The prefix an entry stands for. *)
Definition eidx (e : entry) : Z * Z := (e.2, pfx bits e.2 (kval bits e.1.2)).

(** A change in one child shows in the map of the node. *)
Lemma abs_child0 (f : routes → routes) n t0 t1 t0' i o :
  abs bits t0' = f (abs bits t0) → (f = delete i ∧ abs bits t1 !! i = None ∨ f = <[i := o]>) →
  i ≠ index bits n → abs bits (Node n t0' t1) = f (abs bits (Node n t0 t1)).
Proof.
  intros Ht Hf Hne. cbn [abs]. rewrite Ht. unfold put_opt. destruct Hf as [[-> Hi]| ->].
  - assert (Hd : delete i (abs bits t0) ∪ abs bits t1 = delete i (abs bits t0 ∪ abs bits t1))
      by (by rewrite delete_union, (delete_id (abs bits t1))).
    destruct (n_peer n); rewrite Hd; [|done]. by rewrite delete_insert_ne.
  - rewrite <- insert_union_l. destruct (n_peer n); [|done]. by apply insert_insert_ne.
Qed.

Lemma abs_child1 (f : routes → routes) n t0 t1 t1' i o :
  abs bits t1' = f (abs bits t1) → (f = delete i ∨ f = <[i := o]>) → abs bits t0 !! i = None →
  i ≠ index bits n → abs bits (Node n t0 t1') = f (abs bits (Node n t0 t1)).
Proof.
  intros Ht Hf Hi Hne. cbn [abs]. rewrite Ht. unfold put_opt. destruct Hf as [-> | ->].
  - assert (Hd : abs bits t0 ∪ delete i (abs bits t1) = delete i (abs bits t0 ∪ abs bits t1))
      by (by rewrite delete_union, (delete_id (abs bits t0))).
    destruct (n_peer n); rewrite Hd; [|done]. by rewrite delete_insert_ne.
  - rewrite <- insert_union_r by done. destruct (n_peer n); [|done]. by apply insert_insert_ne.
Qed.

(** The child an address leads to, and the other one. *)
Lemma child_place c p n t0 t1 k :
  wf bits c p (Node n t0 t1) → n_cidr n < bits →
  pfx bits (n_cidr n) (nval bits n) = pfx bits (n_cidr n) k →
  wf bits (n_cidr n + 1) (pfx bits (n_cidr n + 1) k)
    (if Z.testbit k (bits - 1 - n_cidr n) then t1 else t0) ∧
  (∀ cidr, n_cidr n < cidr <= bits →
     abs bits (if Z.testbit k (bits - 1 - n_cidr n) then t0 else t1) !! (cidr, pfx bits cidr k) = None).
Proof.
  intros Hw Hlt HP. inversion Hw as [|? ? ? ? ? Hok Hc Hp Hw0 Hw1 _]; subst.
  pose proof (proj1 (proj2 Hok)). rewrite HP in Hw0, Hw1.
  assert (Hs : ∀ cidr, n_cidr n < cidr <= bits →
    Z.shiftr (pfx bits cidr k) (cidr - (n_cidr n + 1)) = pfx bits (n_cidr n + 1) k)
    by (intros cidr Hcidr; symmetry; apply pfx_shorter; lia).
  rewrite pfx_succ in Hs |- * by lia.
  destruct (Z.testbit _ _); cbn [Z.b2z] in *; rewrite ?Z.add_0_r in *; split; try done.
  - intros cidr Hcidr. eapply abs_outside; [exact Hw0|lia|right]. cbn [fst snd]. rewrite Hs by done. lia.
  - intros cidr Hcidr. eapply abs_outside; [exact Hw1|lia|right]. cbn [fst snd]. rewrite Hs by done. lia.
Qed.

(** What an addition owes: [i] is bound to [q], the trie is in shape, and one
    node has changed its peer; it fails only for want of memory. *)
Definition added (alloc1 alloc2 : bool) (t : trie) (i : Z * Z) (q c p : Z)
    (r : result (trie * allowedips_node * option Z)) : Prop :=
  match r with
  | Ok (t', x, old) =>
      wf bits c p t' ∧ is_null t' = false ∧ abs bits t' = <[i := q]> (abs bits t) ∧
      ∃ L, peered t ≡ₚ match old with Some o => [(entry_of x, o)] | None => [] end ++ L ∧
           peered t' ≡ₚ (entry_of x, q) :: L
  | Err e => e = -ENOMEM ∧ alloc1 && alloc2 = false
  end.

Lemma add_stop_spec (alloc1 alloc2 : bool) t key cidr q c p :
  is_key bits key → wf bits c p t → 0 <= c <= cidr → cidr <= bits → pfx bits c (kval bits key) = p →
  (∀ n t0 t1, t = Node n t0 t1 → n_cidr n <= cidr → prefix_matches n key bits = false) →
  added alloc1 alloc2 t (cidr, pfx bits cidr (kval bits key)) q c p
    (if negb alloc1 then Err (-ENOMEM)
     else match place alloc2 (copy_and_assign_cidr (Some q) key cidr bits) bits t with
          | Ok t' => Ok (t', copy_and_assign_cidr (Some q) key cidr bits, None)
          | Err e => Err e
          end).
Proof.
  intros Hk Hw Hc Hcb Hp Hstop. destruct (new_node_ok (Some q) key cidr Hk) as [Hok Hbits]; [lia|].
  set (n := copy_and_assign_cidr (Some q) key cidr bits) in *.
  assert (Hnv : nval bits n = kval bits key) by (unfold nval; by rewrite Hbits).
  assert (Hnc : n_cidr n = cidr) by done. assert (Hq : n_peer n = Some q) by done. clearbody n.
  pose proof (place_spec alloc2 n q c p t Hok Hq) as Hpl. unfold index in Hpl. rewrite Hnc, Hnv, Hbits in Hpl.
  specialize (Hpl Hc Hp Hw Hstop). destruct alloc1; cbn [negb added andb]; [|done].
  destruct (place _ _ _ _) as [t'|e]; cbn [added]; [|by destruct Hpl as [-> ->]].
  destruct Hpl as (H1&H2&H3&H4). split_and!; [done..|]. by exists (peered t).
Qed.

Lemma add_at_spec alloc1 alloc2 t key cidr q c p :
  is_key bits key → wf bits c p t → 0 <= c <= cidr → cidr <= bits → pfx bits c (kval bits key) = p →
  added alloc1 alloc2 t (cidr, pfx bits cidr (kval bits key)) q c p (add_at alloc1 alloc2 t bits key cidr q).
Proof.
  intros Hk. revert c p. induction t as [|n t0 IH0 t1 IH1]; intros c p Hw Hc Hcb Hp.
  { cbn [add_at]. by apply add_stop_spec. }
  inversion Hw as [|? ? ? ? ? Hok Hcn Hpn Hw0 Hw1 Hnull]; subst. pose proof (proj1 (proj2 Hok)) as Hn.
  cbn [add_at]. destruct (_ && _) eqn:Hgo.
  2: { apply add_stop_spec; auto. intros ? ? ? [= <- <- <-] Hle. apply andb_false_iff in Hgo as [Hgo|]; [|done].
       simpl_guards. lia. }
  apply andb_true_iff in Hgo as [Hle Hm]. simpl_guards. rewrite (prefix_matches_spec bits) in Hm by done.
  apply bool_decide_eq_true in Hm. destruct (n_cidr n =? cidr) eqn:Heq; simpl_guards.
  - subst cidr. cbn [added]. split_and!; [by constructor; auto using node_ok_peer|done| |].
    + cbn [abs n_peer]. unfold put_opt. change (index bits (n{{n_peer := Some q}})) with (index bits n).
      unfold index. rewrite Hm. destruct (n_peer n); [by rewrite insert_insert_eq|done].
    + exists (peered t0 ++ peered t1). cbn [peered]. unfold own_entry at 1. by destruct (n_peer n).
  - destruct (child_place c _ n t0 t1 (kval bits key) Hw) as [Hside Hother]; [lia|done|].
    rewrite (choose_spec bits) by (done || lia). specialize (Hother cidr ltac:(lia)).
    assert (Hne : (cidr, pfx bits cidr (kval bits key)) ≠ index bits n) by (unfold index; congruence).
    destruct (Z.testbit _ _) eqn:Hbit; cbn [Z.b2z Z.eqb].
    + specialize (IH1 _ _ Hside ltac:(lia) Hcb eq_refl). unfold added in IH1.
      destruct (add_at _ _ t1 _ _ _ _) as [[[t1' x] old]|e]; cbn [added]; [|done].
      destruct IH1 as (H1&H2&H3&L&HL&HL').
      split_and!; [|done|eapply (abs_child1 _ n t0 t1 t1'); eauto|].
      * constructor; auto; [|by intros [? ?]%Hnull]. rewrite pfx_succ in H1 by lia.
        by rewrite Hbit, <- Hm in H1.
      * exists (own_entry n ++ peered t0 ++ L). cbn [peered]. rewrite HL, HL'. split; solve_Permutation.
    + specialize (IH0 _ _ Hside ltac:(lia) Hcb eq_refl). unfold added in IH0.
      destruct (add_at _ _ t0 _ _ _ _) as [[[t0' x] old]|e]; cbn [added]; [|done].
      destruct IH0 as (H1&H2&H3&L&HL&HL').
      split_and!; [|done|eapply (abs_child0 _ n t0 t1 t0'); eauto|].
      * constructor; auto; [|by intros [? ?]%Hnull]. rewrite pfx_succ in H1 by lia.
        rewrite Hbit, <- Hm in H1. cbn [Z.b2z] in H1. by rewrite Z.add_0_r in H1.
      * exists (own_entry n ++ L ++ peered t1). cbn [peered]. rewrite HL, HL'. split; solve_Permutation.
Qed.

(** ** Removing *)

(** What a removal owes: the prefix is unbound in a trie in shape, of which one
    node has gone, or there was nothing to remove.  The place is empty only if
    the node was a leaf. *)
Definition removed (sel : option Z → bool) (t : trie) (i : Z * Z) (c p : Z)
    (r : trie * bool * option allowedips_node) : Prop :=
  let '(t', leaf, x) := r in
  is_null t' = leaf || is_null t ∧
  match x with
  | Some n => wf bits c p t' ∧ abs bits t' = delete i (abs bits t) ∧ abs bits t !! i = n_peer n ∧
              sel (n_peer n) = true ∧ index bits n = i ∧ node_ok bits n ∧
              peered t ≡ₚ own_entry n ++ peered t'
  | None => leaf = false ∧ t' = t ∧ (abs bits t !! i = None ∨ sel (abs bits t !! i) = false)
  end.

Lemma wf_child_up c n t0 t1 :
  wf bits c (pfx bits c (nval bits n)) (Node n t0 t1) →
  wf bits c (pfx bits c (nval bits n)) t0 ∧ wf bits c (pfx bits c (nval bits n)) t1.
Proof.
  intros Hw. inversion Hw as [|? ? ? ? ? Hok Hc _ Hw0 Hw1 _]; subst. pose proof (proj1 (proj2 Hok)) as Hn.
  assert (Hs : ∀ b, pfx bits c (nval bits n) =
    Z.shiftr (2 * pfx bits (n_cidr n) (nval bits n) + Z.b2z b) (n_cidr n + 1 - c)).
  { intros b. rewrite (pfx_shorter bits c (n_cidr n)) by lia.
    replace (n_cidr n + 1 - c) with (1 + (n_cidr n - c)) by lia. rewrite <- Z.shiftr_shiftr by lia. f_equal.
    rewrite Z.shiftr_div_pow2, Z.pow_1_r by done. destruct b; cbn [Z.b2z]; div_mod_lia. }
  split; eapply wf_up; eauto; [lia| |lia|apply (Hs true)]. specialize (Hs false). cbn [Z.b2z] in Hs.
  by rewrite Z.add_0_r in Hs.
Qed.

Lemma remove_node_spec sel n t0 t1 c p :
  wf bits c p (Node n t0 t1) → sel (n_peer n) = true →
  removed sel (Node n t0 t1) (index bits n) c p (remove_node n t0 t1, Some n).
Proof.
  intros Hw Hsel. inversion Hw as [|? ? ? ? ? Hok Hc Hp Hw0 Hw1 Hnull]; subst.
  pose proof (proj1 (proj2 Hok)) as Hn.
  assert (Hi : ∀ c' p' t, wf bits c' p' t → n_cidr n < c' → abs bits t !! index bits n = None)
    by (intros; eapply abs_outside; [done|lia|left; cbn; lia]).
  assert (Hown : abs bits (Node n t0 t1) !! index bits n = n_peer n).
  { unfold index. rewrite (abs_node_lookup c (pfx bits c (nval bits n))) by done.
    by rewrite bool_decide_eq_true_2, Z.eqb_refl by done. }
  assert (Hdel : delete (index bits n) (abs bits (Node n t0 t1)) = abs bits t0 ∪ abs bits t1).
  { cbn [abs]. unfold put_opt. assert ((abs bits t0 ∪ abs bits t1) !! index bits n = None) as Hnone.
    { apply lookup_union_None. split; eapply Hi; eauto; lia. }
    destruct (n_peer n); [by rewrite delete_insert_id|by rewrite delete_id]. }
  pose proof (wf_child_up c n t0 t1 Hw) as [Hup0 Hup1]. unfold remove_node, removed. rewrite Hdel.
  destruct t0 as [|n0 t00 t01] eqn:Ht0, t1 as [|n1 t10 t11] eqn:Ht1; cbn [is_null negb andb orb];
    (split; [done|]); split_and!; auto using wf.
  all: cbn [abs peered]; rewrite ?(left_id_L ∅ (∪)), ?(right_id_L ∅ (∪)), ?app_nil_r; try done.
  by constructor; auto using node_ok_peer.
Qed.

(** A removal below a node is one from the node. *)
Lemma after_removal_spec sel n t0 t1 i c p (b : bool) t' leaf x :
  wf bits c p (Node n t0 t1) → i ≠ index bits n →
  abs bits (if b then t0 else t1) !! i = None →
  removed sel (if b then t1 else t0) i (n_cidr n + 1)
    (2 * pfx bits (n_cidr n) (nval bits n) + Z.b2z b) (t', leaf, x) →
  removed sel (Node n t0 t1) i c p
    (after_removal n leaf (if b then t0 else t') (if b then t' else t1) (if b then t0 else t1), false, x).
Proof.
  intros Hw Hne Hother (Hz&Hx). inversion Hw as [|? ? ? ? ? Hok Hc Hp Hw0 Hw1 Hnull]; subst.
  assert (Hl : abs bits (Node n t0 t1) !! i = abs bits (if b then t1 else t0) !! i).
  { cbn [abs]. unfold put_opt. destruct (n_peer n); rewrite ?lookup_insert_ne by done; rewrite lookup_union;
      destruct b; rewrite Hother; by rewrite ?(left_id None _), ?(right_id None _). }
  assert (Hisn : is_null (after_removal n leaf (if b then t0 else t') (if b then t' else t1)
    (if b then t0 else t1)) = false).
  { unfold after_removal. destruct (n_peer n); [done|]. destruct Hnull; [done|]. by destruct leaf, b. }
  split; [done|]. rewrite Hl. destruct x as [x|].
  2: { destruct Hx as (->&->&Hx). split_and!; [done| |done]. unfold after_removal.
       destruct b; by destruct (n_peer n). }
  destruct Hx as (H1&H2&H3&H4&H5&H6&H7).
  assert (Habs : abs bits (Node n (if b then t0 else t') (if b then t' else t1)) = delete i (abs bits (Node n t0 t1)))
    by (destruct b; [eapply (abs_child1 _ n t0 t1 t' i 0)|eapply (abs_child0 _ n t0 t1 t' i 0)]; eauto).
  assert (Hper : peered (Node n t0 t1) ≡ₚ own_entry x ++ peered (Node n (if b then t0 else t') (if b then t' else t1)))
    by (cbn [peered]; destruct b; rewrite H7; solve_Permutation).
  assert (Hupd : (n_peer n = None → leaf = false) →
    wf bits c (pfx bits c (nval bits n)) (Node n (if b then t0 else t') (if b then t' else t1))).
  { intros Hleaf. destruct b; cbn [Z.b2z] in H1; rewrite ?Z.add_0_r in H1; constructor; auto; intros Hnn;
      destruct (Hnull Hnn); rewrite Hleaf in Hz by done; cbn [orb] in Hz; split; congruence. }
  pose proof (wf_child_up c n t0 t1 Hw) as [Hup0 Hup1].
  split_and!; try done; unfold after_removal; destruct (n_peer n) eqn:Hnp; [by apply Hupd| |done| |done|];
    destruct leaf; auto; cbn [orb] in Hz; destruct t'; try done; clear Hupd.
  - by destruct b.
  - rewrite <- Habs. destruct b; cbn [abs]; rewrite Hnp; cbn [put_opt];
      by rewrite ?(left_id_L ∅ (∪)), ?(right_id_L ∅ (∪)).
  - rewrite Hper. cbn [peered]. unfold own_entry at 2. rewrite Hnp. destruct b; cbn [app]; by rewrite ?app_nil_r.
Qed.

Lemma remove_at_spec sel t key cidr c p :
  is_key bits key → wf bits c p t → 0 <= c <= cidr → cidr <= bits → pfx bits c (kval bits key) = p →
  removed sel t (cidr, pfx bits cidr (kval bits key)) c p (remove_at sel t bits key cidr).
Proof.
  intros Hk. revert c p. induction t as [|n t0 IH0 t1 IH1]; intros c p Hw Hc Hcb Hp.
  { cbn. auto. }
  inversion Hw as [|? ? ? ? ? Hok Hcn Hpn Hw0 Hw1 Hnull]; subst. pose proof (proj1 (proj2 Hok)) as Hn.
  assert (Hl : abs bits (Node n t0 t1) !! (cidr, pfx bits cidr (kval bits key)) = _)
    by (apply (abs_node_lookup c (pfx bits c (kval bits key))); [done|lia]).
  cbn [remove_at]. rewrite (prefix_matches_spec bits) by done.
  destruct (n_cidr n <=? cidr) eqn:Hle; simpl_guards; cbn [andb].
  2: { split; [done|]. split_and!; [done..|]. left. rewrite Hl. repeat case_match; simpl_guards; done || lia. }
  case_bool_decide as Hm.
  2: { split; [done|]. split_and!; [done..|]. by left. }
  destruct (n_cidr n =? cidr) eqn:Heq; simpl_guards.
  - subst cidr. rewrite Z.eqb_refl in Hl. rewrite <- Hm in Hl |- *. fold (index bits n) in Hl |- *.
    destruct (sel (n_peer n)) eqn:Hsel; [by apply remove_node_spec|].
    split; [done|]. split_and!; [done..|]. right. by rewrite Hl.
  - destruct (child_place c _ n t0 t1 (kval bits key) Hw) as [Hside Hother]; [lia|done|].
    rewrite (choose_spec bits) by (done || lia). specialize (Hother cidr ltac:(lia)).
    assert (Hne : (cidr, pfx bits cidr (kval bits key)) ≠ index bits n) by (unfold index; congruence).
    assert (Hpb := pfx_succ bits (n_cidr n) (kval bits key) ltac:(lia)). rewrite <- Hm in Hpb.
    destruct (Z.testbit _ _) eqn:Hbit; cbn [Z.b2z Z.eqb].
    + specialize (IH1 _ _ Hside ltac:(lia) Hcb eq_refl). rewrite Hpb in IH1.
      destruct (remove_at _ t1 _ _ _) as [[t1' leaf] x].
      by apply (after_removal_spec sel n t0 t1 _ c _ true).
    + specialize (IH0 _ _ Hside ltac:(lia) Hcb eq_refl). rewrite Hpb in IH0.
      destruct (remove_at _ t0 _ _ _) as [[t0' leaf] x].
      by apply (after_removal_spec sel n t0 t1 _ c _ false).
Qed.

(** ** The nodes that hold a peer are the entries of the map *)
Lemma abs_node_parts c p n t0 t1 :
  wf bits c p (Node n t0 t1) →
  abs bits t0 ##ₘ abs bits t1 ∧ abs bits t0 !! index bits n = None ∧ abs bits t1 !! index bits n = None.
Proof.
  intros Hw. inversion Hw as [|? ? ? ? ? Hok Hc Hp Hw0 Hw1 _]; subst. pose proof (proj1 (proj2 Hok)) as Hn.
  assert (Hi : ∀ p' t, wf bits (n_cidr n + 1) p' t → abs bits t !! index bits n = None)
    by (intros; eapply abs_outside; [done|lia|left; cbn; lia]).
  split; [|by eauto]. apply map_disjoint_spec. intros i q0 q1 H0 H1.
  destruct (abs_support _ _ _ _ _ Hw0 ltac:(lia) H0) as [_ Hs0].
  destruct (abs_support _ _ _ _ _ Hw1 ltac:(lia) H1) as [_ Hs1]. lia.
Qed.

Lemma abs_node_some c p n t0 t1 i q :
  wf bits c p (Node n t0 t1) →
  abs bits (Node n t0 t1) !! i = Some q ↔
  (i = index bits n ∧ n_peer n = Some q) ∨ abs bits t0 !! i = Some q ∨ abs bits t1 !! i = Some q.
Proof.
  intros Hw. destruct (abs_node_parts c p n t0 t1 Hw) as (Hd&H0&H1). cbn [abs]. unfold put_opt.
  rewrite <- (lookup_union_Some (abs bits t0)) by done.
  assert ((abs bits t0 ∪ abs bits t1) !! index bits n = None) as Hn by (by apply lookup_union_None).
  destruct (n_peer n) as [q'|]; [rewrite lookup_insert_Some|].
  - split; [|intros [[-> [= ->]]|H]; [by left|right]].
    + intros [[<- ->]|[_ H]]; [by left|by right].
    + split; [|done]. intros <-. congruence.
  - split; [by right|]. by intros [[_ ?]|?].
Qed.

Lemma own_entry_elem n e q : (e, q) ∈ own_entry n ↔ e = entry_of n ∧ n_peer n = Some q.
Proof. unfold own_entry. destruct (n_peer n); rewrite ?list_elem_of_singleton; set_solver. Qed.

Definition entry_ok (e : entry) : Prop := e.1.1 = bits ∧ is_key bits e.1.2 ∧ 0 <= e.2 <= bits.

Lemma entry_of_ok n : node_ok bits n → entry_ok (entry_of n).
Proof. intros (Hk&Hc&Hn). split; [cbn; by rewrite Hn|done]. Qed.

Lemma peered_abs c p t e q :
  wf bits c p t → (e, q) ∈ peered t → entry_ok e ∧ abs bits t !! eidx e = Some q.
Proof.
  induction 1 as [|c p n t0 t1 Hok Hc Hp Hw0 IH0 Hw1 IH1 Hnull]; cbn [peered]; [by intros []%elem_of_nil|].
  rewrite !elem_of_app, own_entry_elem, (abs_node_some c p) by (by constructor).
  intros [[-> Hq]|[He|He]]; [split; [by apply entry_of_ok|by left]| |].
  - destruct (IH0 He) as [? ?]. split; [done|by right; left].
  - destruct (IH1 He) as [? ?]. split; [done|by right; right].
Qed.

Lemma abs_peered c p t i q :
  wf bits c p t → abs bits t !! i = Some q → ∃ e, (e, q) ∈ peered t ∧ eidx e = i.
Proof.
  induction 1 as [|c p n t0 t1 Hok Hc Hp Hw0 IH0 Hw1 IH1 Hnull]; [done|].
  rewrite (abs_node_some c p) by (by constructor). cbn [peered].
  intros [[-> Hq]|[He|He]].
  - exists (entry_of n). rewrite elem_of_app, own_entry_elem. by split; [left|].
  - destruct (IH0 He) as (e&?&?). exists e. rewrite !elem_of_app. auto.
  - destruct (IH1 He) as (e&?&?). exists e. rewrite !elem_of_app. auto.
Qed.

Lemma peered_nodup c p t : wf bits c p t → NoDup (eidx ∘ fst <$> peered t).
Proof.
  induction 1 as [|c p n t0 t1 Hok Hc Hp Hw0 IH0 Hw1 IH1 Hnull]; cbn [peered]; [by constructor|].
  destruct (abs_node_parts c p n t0 t1) as (Hd&H0&H1); [by constructor|].
  assert (Hin : ∀ c p t i, wf bits c p t → i ∈ (eidx ∘ fst <$> peered t) → is_Some (abs bits t !! i)).
  { intros c' p' t i Ht ([e q]&->&He)%list_elem_of_fmap. destruct (peered_abs _ _ _ _ _ Ht He) as [_ Hq].
    by exists q. }
  rewrite !fmap_app. apply NoDup_app. split_and!.
  - unfold own_entry. destruct (n_peer n); [apply NoDup_singleton|constructor].
  - intros i ([e q]&->&[-> _]%own_entry_elem)%list_elem_of_fmap.
    change ((eidx ∘ fst) (entry_of n, q)) with (index bits n).
    intros [[x Hx]%(Hin _ _ _ _ Hw0)|[x Hx]%(Hin _ _ _ _ Hw1)]%elem_of_app; congruence.
  - apply NoDup_app. split_and!; [done| |done]. intros i [x Hx]%(Hin _ _ _ _ Hw0) [y Hy]%(Hin _ _ _ _ Hw1).
    by apply (map_disjoint_spec (abs bits t0) (abs bits t1)) with i x y in Hd.
Qed.

(** ** The walk with the stack

    Each pending node lies at least as deep as there are entries below it on the
    stack, and no prefix is longer than the address. *)
Fixpoint nodes (t : trie) : list allowedips_node :=
  match t with Null => [] | Node n t0 t1 => n :: nodes t1 ++ nodes t0 end.

Fixpoint stack_ok (stack : list trie) : Prop :=
  match stack with
  | [] => True
  | t :: stack => is_null t = false ∧ (∃ c p, wf bits c p t ∧ zlen stack <= c) ∧ stack_ok stack
  end.

Definition pushed (t : trie) (stack : list trie) : list trie := if is_null t then stack else t :: stack.

Lemma pushed_nodes t stack : mjoin (nodes <$> pushed t stack) = nodes t ++ mjoin (nodes <$> stack).
Proof. by destruct t. Qed.

Lemma pushed_size t stack :
  sum_list (trie_size <$> pushed t stack) = (trie_size t + sum_list (trie_size <$> stack))%nat.
Proof. by destruct t. Qed.

Lemma push_spec debug c p t stack :
  bits < MAX_ALLOWEDIPS_DEPTH → wf bits c p t → zlen stack <= c → stack_ok stack →
  push_rcu debug t stack = Some (pushed t stack) ∧ stack_ok (pushed t stack) ∧
  zlen (pushed t stack) <= c + 1.
Proof.
  intros Hb Hw Hlen Hs. unfold push_rcu, pushed. destruct t as [|n t0 t1]; cbn [is_null].
  { split_and!; [done..|lia]. }
  assert (n_cidr n <= bits ∧ c <= n_cidr n) by (by inversion Hw as [|? ? ? ? ? (_&[_ ?]&_) [_ ?]]).
  rewrite (proj2 (Z.leb_gt _ _)) by lia. rewrite andb_false_r.
  split; [done|]. split; [by split; [|split; [exists c, p|]]|rewrite zlen_cons; lia].
Qed.

Lemma stack_walk_spec debug fuel stack visited :
  bits < MAX_ALLOWEDIPS_DEPTH → stack_ok stack → (sum_list (trie_size <$> stack) < fuel)%nat →
  stack_walk debug fuel stack visited = Some (visited ++ mjoin (nodes <$> stack)).
Proof.
  intros Hb. revert stack visited. induction fuel as [|fuel IH]; intros stack visited Hs Hf; [lia|].
  destruct stack as [|t stack]; cbn [stack_walk]; [by cbn; rewrite app_nil_r|].
  destruct Hs as (Ht&(c&p&Hw&Hlen)&Hs). destruct t as [|n t0 t1]; [done|].
  inversion Hw as [|? ? ? ? ? Hok Hc _ Hw0 Hw1 _]; subst.
  destruct (push_spec debug (n_cidr n + 1) _ t0 stack Hb Hw0) as (->&Hs0&_); [lia|done|].
  assert (Hl0 : zlen (pushed t0 stack) <= n_cidr n + 1)
    by (unfold pushed; destruct (is_null t0); rewrite ?zlen_cons; lia).
  cbn [mbind option_bind]. destruct (push_spec debug (n_cidr n + 1) _ t1 _ Hb Hw1 Hl0 Hs0) as (->&Hs1&_).
  cbn [mbind option_bind]. rewrite IH; [|done|].
  - rewrite !pushed_nodes. cbn [fmap list_fmap mjoin list_join nodes]. rewrite <- !(assoc_L (++)). cbn [app]. by rewrite <- !(assoc_L (++)).
  - rewrite !pushed_size. change (S (trie_size t0 + trie_size t1) + sum_list (trie_size <$> stack) < S fuel)%nat in Hf. lia.
Qed.

Lemma root_walk_spec debug t p :
  bits < MAX_ALLOWEDIPS_DEPTH → wf bits 0 p t → root_walk debug t = Some (nodes t).
Proof.
  intros Hb Hw. unfold root_walk. destruct t as [|n t0 t1]; [done|].
  rewrite stack_walk_spec; [by cbn; rewrite app_nil_r|done| |change (trie_size (Node n t0 t1) + 0 < S (trie_size (Node n t0 t1)))%nat; lia].
  split; [done|]. split; [by exists 0, p|done].
Qed.

Lemma peered_nodes t : peered t ≡ₚ nodes t ≫= own_entry.
Proof.
  induction t as [|n t0 IH0 t1 IH1]; [done|]. cbn [peered nodes]. rewrite bind_cons, bind_app, IH0, IH1.
  solve_Permutation.
Qed.

End trie.
