(* ===== verification/AllowedIpsTable.v ===== *)
(** * The table of allowed addresses: refinement

    The operations of AllowedIps.v, in any order and with any allocation
    failing, implement two maps from prefixes to peers, one per address family;
    lookups are longest-prefix matches in them; the list of nodes per peer holds
    exactly that peer's prefixes; and freeing the table stays inside its
    fixed-size stack. *)
From stdpp Require Import prelude list gmap sorting.
From S2P Require Import Prelude Skb Net AllowedIps AllowedIpsSpec.

#[local] Open Scope Z_scope.

(** ** Addresses in network order *)
Lemma swap_endian_key bits ip :
  is_key bits ip → is_key bits (swap_endian ip bits) ∧ kval bits (swap_endian ip bits) = be_val ip.
Proof.
  intros ([->| ->]&Hlen&Hb); unfold swap_endian, kval; cbn [Z.eqb Pos.eqb].
  - change (32 / 8) with 4 in Hlen. rewrite ztake_all by lia. split; [|apply le_val_rev]. split; [by left|].
    rewrite zlen_rev. split; [done|]. by apply Forall_rev.
  - change (128 / 8) with 16 in Hlen.
    assert (H1 : zlen (ztake 8 ip) = 8) by (rewrite zlen_ztake; lia).
    assert (H2 : zlen (zdrop 8 ip) = 8) by (rewrite zlen_zdrop; lia).
    rewrite (ztake_all 8 (zdrop 8 ip)) by lia. split.
    + split; [by right|]. rewrite zlen_app, !zlen_rev, H1, H2. split; [done|].
      apply Forall_app. split; apply Forall_rev; [by apply Forall_ztake|by apply Forall_zdrop].
    + rewrite ztake_app_length, zdrop_app_length by (rewrite zlen_rev; lia). rewrite !le_val_rev.
      rewrite <- (ztake_zdrop 8 ip) at 3. rewrite be_val_app, H2. done.
Qed.

(** ** Specification: two maps *)
Abbreviation table := (routes * routes)%type.

Definition s_get (bits : Z) (m : table) : routes := if bits =? 32 then m.1 else m.2.
Definition s_set (bits : Z) (r : routes) (m : table) : table :=
  if bits =? 32 then (r, m.2) else (m.1, r).

Definition prefix (bits : Z) (ip : list Z) (cidr : Z) : Z * Z := (cidr, pfx bits cidr (be_val ip)).

Inductive op :=
  | Insert (alloc1 alloc2 : bool) (bits : Z) (ip : list Z) (cidr peer : Z)
  | Remove (bits : Z) (ip : list Z) (cidr peer : Z)
  | RemovePeer (peer : Z)
  | Free.

(** The returned value and the table after an operation; an insertion that needs
    memory it does not get changes nothing. *)
Inductive spec_step (m : table) : op → Z → table → Prop :=
  | spec_insert alloc1 alloc2 bits ip cidr peer :
      cidr <= bits →
      spec_step m (Insert alloc1 alloc2 bits ip cidr peer) 0
        (s_set bits (<[prefix bits ip cidr := peer]> (s_get bits m)) m)
  | spec_insert_inval alloc1 alloc2 bits ip cidr peer :
      bits < cidr → spec_step m (Insert alloc1 alloc2 bits ip cidr peer) (-EINVAL) m
  | spec_insert_nomem alloc1 alloc2 bits ip cidr peer :
      cidr <= bits → alloc1 && alloc2 = false →
      spec_step m (Insert alloc1 alloc2 bits ip cidr peer) (-ENOMEM) m
  | spec_remove bits ip cidr peer :
      cidr <= bits → s_get bits m !! prefix bits ip cidr = Some peer →
      spec_step m (Remove bits ip cidr peer) 0 (s_set bits (delete (prefix bits ip cidr) (s_get bits m)) m)
  | spec_remove_none bits ip cidr peer :
      cidr <= bits → s_get bits m !! prefix bits ip cidr ≠ Some peer →
      spec_step m (Remove bits ip cidr peer) 0 m
  | spec_remove_inval bits ip cidr peer :
      bits < cidr → spec_step m (Remove bits ip cidr peer) (-EINVAL) m
  | spec_remove_peer peer :
      spec_step m (RemovePeer peer) 0 (filter (λ kv, kv.2 ≠ peer) m.1, filter (λ kv, kv.2 ≠ peer) m.2)
  | spec_free : spec_step m Free 0 (∅, ∅).

Inductive spec_run : table → list op → list Z → table → Prop :=
  | spec_run_nil m : spec_run m [] [] m
  | spec_run_cons m m' m'' o os r rs :
      spec_step m o r m' → spec_run m' os rs m'' → spec_run m (o :: os) (r :: rs) m''.

(** ** The operations of the code *)
Definition exec (debug : bool) (o : op) (a : allowedips) : option (Z * allowedips) :=
  match o with
  | Insert alloc1 alloc2 bits ip cidr peer => Some (wg_allowedips_insert alloc1 alloc2 bits ip cidr peer a)
  | Remove bits ip cidr peer => Some (wg_allowedips_remove bits ip cidr peer a)
  | RemovePeer peer => Some (0, wg_allowedips_remove_by_peer peer a)
  | Free => '(a, _) ← wg_allowedips_free debug a; Some (0, a)
  end.

Fixpoint exec_all (debug : bool) (os : list op) (a : allowedips) : option (list Z * allowedips) :=
  match os with
  | [] => Some ([], a)
  | o :: os =>
      '(r, a) ← exec debug o a;
      '(rs, a) ← exec_all debug os a;
      Some (r :: rs, a)
  end.

Definition op_ok (o : op) : Prop :=
  match o with
  | Insert _ _ bits ip cidr _ | Remove bits ip cidr _ => is_key bits ip ∧ 0 <= cidr < 256
  | RemovePeer _ | Free => True
  end.

(** ** Invariant of the table *)
Definition holds (a : allowedips) : list (entry * Z) := peered (root4 a) ++ peered (root6 a).

Definition lists_ok (ls : gmap Z (list entry)) (l : list (entry * Z)) : Prop :=
  ∀ q, list_of q ls ≡ₚ (filter (λ x, x.2 = q) l).*1.

Record table_ok (a : allowedips) : Prop := {
  ok4 : wf 32 0 0 (root4 a);
  ok6 : wf 128 0 0 (root6 a);
  ok_lists : lists_ok (allowedips_list a) (holds a);
}.

Definition spec_of (a : allowedips) : table := (abs 32 (root4 a), abs 128 (root6 a)).

(** ** The lists of nodes per peer *)
Lemma list_of_insert p q l ls : list_of q (<[p := l]> ls) = if bool_decide (p = q) then l else list_of q ls.
Proof.
  unfold list_of. case_bool_decide as Hpq; [subst; by rewrite lookup_insert_eq|by rewrite lookup_insert_ne].
Qed.

#[export] Instance lists_ok_proper ls : Proper ((≡ₚ) ==> iff) (lists_ok ls).
Proof. intros l l' Hl. unfold lists_ok. by setoid_rewrite Hl. Qed.

Lemma lists_ok_add ls l e q : lists_ok ls l → lists_ok (list_add_tail e q ls) ((e, q) :: l).
Proof.
  intros Hl p. unfold list_add_tail. rewrite list_of_insert, filter_cons. cbn [snd].
  case_bool_decide as Hpq; [subst p; rewrite decide_True by done|by rewrite decide_False].
  cbn [fmap list_fmap fst]. rewrite <- (Hl q). symmetry. apply Permutation_cons_append.
Qed.

Lemma filter_ne_id (e : entry) (l : list entry) : e ∉ l → filter (λ y, y ≠ e) l = l.
Proof.
  induction l as [|x l IH]; [done|]. intros [Hx Hl]%not_elem_of_cons.
  rewrite filter_cons_True by done. by rewrite IH.
Qed.

Lemma lists_ok_del ls l e q :
  e ∉ l.*1 → lists_ok ls ((e, q) :: l) → lists_ok (list_del e (Some q) ls) l.
Proof.
  intros He Hl p. cbn [list_del]. rewrite list_of_insert. specialize (Hl p). rewrite filter_cons in Hl. cbn [snd] in Hl.
  case_bool_decide as Hpq; [subst p; rewrite decide_True in Hl by done|by rewrite decide_False in Hl].
  rewrite Hl. cbn [fmap list_fmap fst]. rewrite filter_cons_False by (by intros []).
  rewrite filter_ne_id; [done|]. intros (y&->&[_ Hy]%list_elem_of_filter)%list_elem_of_fmap.
  by apply He, list_elem_of_fmap_2.
Qed.

(** ** One family of the table *)
Definition other_root (bits : Z) (a : allowedips) : trie := if bits =? 32 then root6 a else root4 a.

Lemma pfx_top bits key : is_key bits key → pfx bits 0 (kval bits key) = 0.
Proof. intros Hk. apply pfx_0; [by apply kval_range|destruct Hk as [[->| ->] _]; done]. Qed.

Lemma root_wf bits a : is_width bits → table_ok a → wf bits 0 0 (root bits a).
Proof. by intros [->| ->] []. Qed.

Lemma holds_root bits a : is_width bits → holds a ≡ₚ peered (root bits a) ++ peered (other_root bits a).
Proof. intros [->| ->]; unfold holds, root, other_root; cbn; [done|apply Permutation_app_comm]. Qed.

Lemma s_get_spec_of bits a : is_width bits → s_get bits (spec_of a) = abs bits (root bits a).
Proof. by intros [->| ->]. Qed.

Lemma holds_nodup a : table_ok a → NoDup (holds a).*1.
Proof.
  intros [H4 H6 _]. unfold holds. rewrite fmap_app. apply NoDup_app. split_and!.
  - apply (NoDup_fmap_1 (eidx 32)). rewrite <- list_fmap_compose. by apply (peered_nodup 32 0 0).
  - intros e ([e4 q4]&->&He4)%list_elem_of_fmap ([e6 q6]&Heq&He6)%list_elem_of_fmap. cbn in Heq. subst e6.
    apply (peered_abs 32 0 0) in He4 as [[E4 _] _]; [|done].
    apply (peered_abs 128 0 0) in He6 as [[E6 _] _]; [|done]. congruence.
  - apply (NoDup_fmap_1 (eidx 128)). rewrite <- list_fmap_compose. by apply (peered_nodup 128 0 0).
Qed.

(** Replacing a trie and the lists that go with it. *)
Lemma set_root_ok bits t ls a :
  is_width bits → table_ok a → wf bits 0 0 t → lists_ok ls (peered t ++ peered (other_root bits a)) →
  table_ok ((set_root bits t a){{ allowedips_list := ls }}) ∧
  spec_of ((set_root bits t a){{ allowedips_list := ls }}) = s_set bits (abs bits t) (spec_of a).
Proof.
  intros [->| ->] [H4 H6 _] Ht Hl; split; try done; split; try done.
  cbn. unfold holds. cbn. by rewrite (comm (++)).
Qed.

Lemma bump_ok a : table_ok a → table_ok (bump a).
Proof. by intros []. Qed.

(** The lists when a node has lost its peer. *)
Lemma lists_lose a n l : table_ok a → holds a ≡ₚ own_entry n ++ l → lists_ok (list_del (entry_of n) (n_peer n) (allowedips_list a)) l.
Proof.
  intros Hok Hl. pose proof (holds_nodup a Hok) as Hnd. rewrite Hl in Hnd.
  pose proof (ok_lists a Hok) as Hls. rewrite Hl in Hls. unfold own_entry in *.
  destruct (n_peer n) as [q|]; [|done]. apply lists_ok_del; [|done]. by apply NoDup_cons in Hnd as [? _].
Qed.

Lemma table_add_ok alloc1 alloc2 bits key cidr q a :
  table_ok a → is_key bits key → 0 <= cidr →
  ∃ r a', add alloc1 alloc2 bits key cidr q a = (r, a') ∧ table_ok a' ∧
    ((bits < cidr ∧ r = -EINVAL ∧ a' = a) ∨
     (cidr <= bits ∧ r = -ENOMEM ∧ alloc1 && alloc2 = false ∧ a' = a) ∨
     (cidr <= bits ∧ r = 0 ∧
      spec_of a' = s_set bits (<[(cidr, pfx bits cidr (kval bits key)) := q]> (s_get bits (spec_of a))) (spec_of a))).
Proof.
  intros Hok Hk Hc. pose proof (proj1 Hk) as Hwd. unfold add. destruct (bits <? cidr) eqn:Hbc; simpl_guards.
  { exists (-EINVAL), a. auto 10. }
  pose proof (add_at_spec bits alloc1 alloc2 (root bits a) key cidr q 0 0 Hk (root_wf _ _ Hwd Hok)
    ltac:(lia) Hbc (pfx_top _ _ Hk)) as Hadd.
  destruct (add_at _ _ _ _ _ _ _) as [[[t x] old]|e]; cbn [added] in Hadd.
  2: { destruct Hadd as [-> Hal]. exists (-ENOMEM), a. auto 10. }
  destruct Hadd as (Hw&_&Habs&L&HL&HL'). do 2 eexists. split; [reflexivity|].
  assert (Hls : lists_ok (list_del (entry_of x) old (allowedips_list a)) (L ++ peered (other_root bits a))).
  { pose proof (lists_lose a (x{{ n_peer := old }}) (L ++ peered (other_root bits a)) Hok) as Hlose.
    cbn [n_peer] in Hlose. apply Hlose. rewrite (holds_root bits) by done. rewrite HL.
    rewrite <- (assoc_L (++)). by destruct old. }
  destruct (set_root_ok bits t (list_add_tail (entry_of x) q (list_del (entry_of x) old (allowedips_list a))) a)
    as [H1 H2]; auto.
  { rewrite HL'. by apply lists_ok_add. }
  split; [done|]. right. right. rewrite s_get_spec_of by done. by rewrite <- Habs.
Qed.

(** A node goes from the trie and from its peer's list. *)
Lemma removal_ok sel bits key cidr a t leaf n :
  table_ok a → is_key bits key → 0 <= cidr <= bits →
  remove_at sel (root bits a) bits key cidr = (t, leaf, Some n) →
  let a' := (set_root bits t a){{ allowedips_list := list_del (entry_of n) (n_peer n) (allowedips_list a) }} in
  let i := (cidr, pfx bits cidr (kval bits key)) in
  table_ok a' ∧ spec_of a' = s_set bits (delete i (s_get bits (spec_of a))) (spec_of a) ∧
  s_get bits (spec_of a) !! i = n_peer n ∧ sel (n_peer n) = true.
Proof.
  intros Hok Hk Hc Hr a' i. pose proof (proj1 Hk) as Hwd.
  pose proof (remove_at_spec bits sel (root bits a) key cidr 0 0 Hk (root_wf _ _ Hwd Hok)
    ltac:(lia) (proj2 Hc) (pfx_top _ _ Hk)) as Hs.
  rewrite Hr in Hs. destruct Hs as (_&Hw&Habs&Hl&Hsel&_&_&Hp).
  destruct (set_root_ok bits t (list_del (entry_of n) (n_peer n) (allowedips_list a)) a) as [H1 H2]; auto.
  { apply lists_lose; [done|]. rewrite (holds_root bits) by done. by rewrite Hp, (assoc_L (++)). }
  rewrite s_get_spec_of by done. subst a' i. by rewrite <- Habs.
Qed.

Lemma set_list_eq f bits t a :
  (set_root bits t a){{ allowedips_list ::= f }} =
  (set_root bits t a){{ allowedips_list := f (allowedips_list a) }}.
Proof. unfold set_root. by destruct (bits =? 32). Qed.

Lemma table_remove_ok bits key cidr q a :
  table_ok a → is_key bits key → 0 <= cidr →
  let i := (cidr, pfx bits cidr (kval bits key)) in
  ∃ r a', remove bits key cidr q a = (r, a') ∧ table_ok a' ∧
    ((bits < cidr ∧ r = -EINVAL ∧ a' = a) ∨
     (cidr <= bits ∧ r = 0 ∧ s_get bits (spec_of a) !! i ≠ Some q ∧ a' = a) ∨
     (cidr <= bits ∧ r = 0 ∧ s_get bits (spec_of a) !! i = Some q ∧
      spec_of a' = s_set bits (delete i (s_get bits (spec_of a))) (spec_of a))).
Proof.
  intros Hok Hk Hc i. pose proof (proj1 Hk) as Hwd. unfold remove. destruct (bits <? cidr) eqn:Hbc; simpl_guards.
  { exists (-EINVAL), a. auto 10. }
  pose proof (remove_at_spec bits (λ o, bool_decide (o = Some q)) (root bits a) key cidr 0 0 Hk (root_wf _ _ Hwd Hok)
    ltac:(lia) Hbc (pfx_top _ _ Hk)) as Hs.
  pose proof (λ t leaf n, removal_ok (λ o, bool_decide (o = Some q)) bits key cidr a t leaf n Hok Hk ltac:(lia)) as Hr.
  destruct (remove_at _ _ _ _ _) as [[t leaf] [n|]].
  - destruct (Hr t leaf n eq_refl) as (H1&H2&H3&Hsel). apply bool_decide_eq_true in Hsel.
    rewrite set_list_eq. do 2 eexists. split; [reflexivity|]. split; [exact H1|]. right. right. fold i in H2, H3. by rewrite H3.
  - destruct Hs as (_&_&_&Hs). exists 0, a. split; [done|]. split; [done|]. right. left.
    rewrite s_get_spec_of by done. split_and!; [done..| |done]. intros Hq. fold i in Hs. rewrite Hq in Hs.
    destruct Hs as [|Hs%bool_decide_eq_false]; done.
Qed.

(** ** Removing all of a peer *)
Lemma NoDup_fmap_elem {A B} (f : A → B) l x y : NoDup (f <$> l) → x ∈ l → y ∈ l → f x = f y → x = y.
Proof.
  intros Hnd [i Hi]%list_elem_of_lookup [j Hj]%list_elem_of_lookup Hf.
  assert (i = j) as ->; [|congruence].
  eapply (NoDup_lookup _ i j (f x)); [done|..]; rewrite list_lookup_fmap; [by rewrite Hi|by rewrite Hj, Hf].
Qed.

Lemma holds_elem a e q :
  table_ok a → (e, q) ∈ holds a → ∃ bits, is_width bits ∧ entry_ok bits e ∧ (e, q) ∈ peered (root bits a).
Proof.
  intros [H4 H6 _] [He|He]%elem_of_app.
  - exists 32. split; [by left|]. split; [|done]. by apply (peered_abs 32 0 0) in He as [? _].
  - exists 128. split; [by right|]. split; [|done]. by apply (peered_abs 128 0 0) in He as [? _].
Qed.

Lemma list_of_holds a e q : table_ok a → e ∈ list_of q (allowedips_list a) → (e, q) ∈ holds a.
Proof.
  intros Hok. rewrite (ok_lists a Hok q). by intros ([? ?]&->&[? ?]%list_elem_of_filter)%list_elem_of_fmap; cbn in *; subst.
Qed.

Definition without (q : Z) (r : routes) : routes := filter (λ kv, kv.2 ≠ q) r.

Lemma without_delete (q : Z) (r : routes) (i : Z * Z) : r !! i = Some q → without q (delete i r) = without q r.
Proof.
  intros Hi. unfold without. rewrite map_filter_delete. apply delete_id, map_lookup_filter_None. right.
  intros x Hx Hne. cbn in Hne. congruence.
Qed.

(** An entry of the peer's list leads to the peer's node, which goes. *)
Lemma remove_entry_ok q a e :
  table_ok a → e ∈ list_of q (allowedips_list a) →
  let a' := remove_entry q a e in
  table_ok a' ∧ allowedips_list a' = list_del e (Some q) (allowedips_list a) ∧
  without q (spec_of a').1 = without q (spec_of a).1 ∧ without q (spec_of a').2 = without q (spec_of a).2.
Proof.
  intros Hok He. destruct (holds_elem a e q Hok (list_of_holds a e q Hok He)) as (bits&Hwd&(Hb&Hk&Hc)&Hin).
  destruct e as [[b key] cidr]. cbn [fst snd] in *. subst b. unfold remove_entry.
  destruct (peered_abs bits 0 0 _ _ _ (root_wf _ _ Hwd Hok) Hin) as [_ Hq]. unfold eidx in Hq. cbn [fst snd] in Hq.
  pose proof (remove_at_spec bits (λ _, true) (root bits a) key cidr 0 0 Hk (root_wf _ _ Hwd Hok)
    ltac:(lia) (proj2 Hc) (pfx_top _ _ Hk)) as Hs.
  pose proof (λ t leaf n, removal_ok (λ _, true) bits key cidr a t leaf n Hok Hk Hc) as Hr.
  destruct (remove_at _ _ _ _ _) as [[t leaf] [n|]].
  2: { destruct Hs as (_&_&_&[Hs|Hs]); [|done]. congruence. }
  destruct Hs as (_&_&_&Hl&_&Hidx&_&Hp). rewrite Hq in Hl.
  assert (Hen : entry_of n = (bits, key, cidr)).
  { assert ((entry_of n, q) ∈ peered (root bits a))
      by (rewrite Hp; apply elem_of_app; left; by apply own_entry_elem).
    apply (NoDup_fmap_elem (eidx bits ∘ fst) (peered (root bits a)) (entry_of n, q) (bits, key, cidr, q)) in Hin;
      [by simplify_eq|by apply (peered_nodup bits 0 0), root_wf|done|exact Hidx]. }
  destruct (Hr t leaf n eq_refl) as (H1&H2&H3&_). rewrite <- Hen, Hl, set_list_eq.
  split; [exact H1|]. split; [done|]. rewrite H2. rewrite <- Hl in H3.
  destruct Hwd as [->| ->]; cbn in H3 |- *; by rewrite without_delete.
Qed.

Lemma list_of_nodup a q : table_ok a → NoDup (list_of q (allowedips_list a)).
Proof.
  intros Hok. rewrite (ok_lists a Hok q). eapply sublist_NoDup; [by apply holds_nodup|].
  apply fmap_sublist, sublist_filter.
Qed.

Lemma remove_entries_ok q l a :
  table_ok a → list_of q (allowedips_list a) = l →
  let a' := foldl (remove_entry q) a l in
  table_ok a' ∧ list_of q (allowedips_list a') = [] ∧
  without q (spec_of a').1 = without q (spec_of a).1 ∧ without q (spec_of a').2 = without q (spec_of a).2.
Proof.
  revert a. induction l as [|e l IH]; intros a Hok Hl; [done|]. cbn [foldl].
  destruct (remove_entry_ok q a e Hok) as (H1&H2&H3&H4); [rewrite Hl; by left|].
  rewrite <- H3, <- H4. apply IH; [done|]. rewrite H2. cbn [list_del]. rewrite list_of_insert, bool_decide_eq_true_2 by done.
  pose proof (list_of_nodup a q Hok) as Hnd. rewrite Hl in Hnd |- *. apply NoDup_cons in Hnd as [Hne _].
  rewrite filter_cons_False by (by intros []). by apply filter_ne_id.
Qed.

Lemma without_id bits q a :
  is_width bits → table_ok a → list_of q (allowedips_list a) = [] → without q (abs bits (root bits a)) = abs bits (root bits a).
Proof.
  intros Hwd Hok Hl. apply map_filter_id. intros i q' Hi Heq. cbn in Heq. subst q'.
  destruct (abs_peered bits 0 0 _ i q (root_wf _ _ Hwd Hok) Hi) as (e&He&_).
  assert (Hin : e ∈ list_of q (allowedips_list a)); [|rewrite Hl in Hin; by apply not_elem_of_nil in Hin].
  rewrite (ok_lists a Hok q), (holds_root bits a Hwd). apply list_elem_of_fmap. exists (e, q). split; [done|].
  apply list_elem_of_filter. split; [done|]. apply elem_of_app. by left.
Qed.

Lemma remove_by_peer_ok q a :
  table_ok a →
  let a' := wg_allowedips_remove_by_peer q a in
  table_ok a' ∧ list_of q (allowedips_list a') = [] ∧
  spec_of a' = (without q (spec_of a).1, without q (spec_of a).2).
Proof.
  intros Hok. assert (Hmain : ∀ a', table_ok a' → list_of q (allowedips_list a') = [] →
    without q (spec_of a').1 = without q (spec_of a).1 → without q (spec_of a').2 = without q (spec_of a).2 →
    table_ok a' ∧ list_of q (allowedips_list a') = [] ∧
    spec_of a' = (without q (spec_of a).1, without q (spec_of a).2)).
  { intros a' Hok' Hl H1 H2. split_and!; [done..|]. rewrite <- H1, <- H2. cbn [spec_of fst snd].
    pose proof (without_id 32 q a' (or_introl eq_refl) Hok' Hl) as H4.
    pose proof (without_id 128 q a' (or_intror eq_refl) Hok' Hl) as H6.
    cbn in H4, H6. by rewrite H4, H6. }
  unfold wg_allowedips_remove_by_peer. destruct (list_of q (allowedips_list a)) as [|e l] eqn:Hl; [by apply Hmain|].
  destruct (remove_entries_ok q (e :: l) (bump a)) as (H1&H2&H3&H4); [by apply bump_ok|done|]. by apply Hmain.
Qed.

(** ** Freeing *)
Lemma lists_ok_drop t ls l :
  NoDup (peered t ++ l).*1 → lists_ok ls (peered t ++ l) →
  lists_ok (foldl (λ ls n, list_del (entry_of n) (n_peer n) ls) ls (nodes t)) l.
Proof.
  rewrite peered_nodes. generalize (nodes t) as ns. intros ns. revert ls.
  induction ns as [|n ns IH]; intros ls Hnd Hls; [done|]. cbn [foldl]. rewrite bind_cons, <- (assoc_L (++)) in Hnd, Hls.
  unfold own_entry in Hnd, Hls at 1. destruct (n_peer n) as [q|]; cbn [app] in *; [|by apply IH].
  apply NoDup_cons in Hnd as [Hne Hnd]. apply IH; [done|]. by apply lists_ok_del.
Qed.

Lemma width_depth bits : is_width bits → bits < MAX_ALLOWEDIPS_DEPTH.
Proof. by intros [->| ->]. Qed.

Lemma free_ok debug a :
  table_ok a →
  ∃ a', wg_allowedips_free debug a = Some (a', nodes (root4 a) ++ nodes (root6 a)) ∧
    table_ok a' ∧ spec_of a' = (∅, ∅) ∧ ∀ q, list_of q (allowedips_list a') = [].
Proof.
  intros Hok. pose proof (holds_nodup a Hok) as Hnd. destruct Hok as [H4 H6 Hl]. unfold wg_allowedips_free, root_remove_peer_lists, root_free_rcu.
  rewrite (root_walk_spec 32 debug (root4 a) 0 (width_depth 32 (or_introl eq_refl)) H4).
  rewrite (root_walk_spec 128 debug (root6 a) 0 (width_depth 128 (or_intror eq_refl)) H6).
  cbn [fmap option_fmap option_map mbind option_bind].
  set (del := λ (ls : gmap Z (list entry)) n, list_del (entry_of n) (n_peer n) ls).
  assert (Hdrop : ∀ t (ls : gmap Z (list entry)) (freed : list allowedips_node),
    (if is_null t then Some (ls, freed) else Some (foldl del ls (nodes t), freed ++ nodes t)) =
    Some (foldl del ls (nodes t), freed ++ nodes t)) by (intros [] ls freed; cbn; by rewrite ?app_nil_r).
  rewrite Hdrop. cbn [mbind option_bind]. rewrite Hdrop. cbn [mbind option_bind app].
  assert (Hend : lists_ok (foldl del (foldl del (allowedips_list a) (nodes (root4 a))) (nodes (root6 a))) []).
  { assert (Hnd6 : NoDup (peered (root6 a)).*1)
      by (unfold holds in Hnd; rewrite fmap_app in Hnd; by apply NoDup_app in Hnd as (_&_&?)).
    apply lists_ok_drop; rewrite app_nil_r; [done|]. by apply lists_ok_drop. }
  eexists. split; [reflexivity|]. split; [split; [constructor|constructor|exact Hend]|]. split; [done|].
  intros q. apply Permutation_nil_r, (Hend q).
Qed.

(** ** Lookup *)
Lemma lookup_ok bits ip a :
  table_ok a → is_key bits ip → lookup (root bits a) bits ip = lpm bits (s_get bits (spec_of a)) (be_val ip).
Proof.
  intros Hok Hk. destruct (swap_endian_key bits ip Hk) as [Hk' Hv]. unfold lookup, find_node.
  rewrite (find_node_from_spec bits 0 0), s_get_spec_of by (done || apply Hk || by apply root_wf, Hok; apply Hk).
  rewrite Hv. by destruct (lpm _ _ _).
Qed.

(** ** Reading a node back *)
Lemma be_val_range l : Forall is_byte l → 0 <= be_val l < 256 ^ zlen l.
Proof.
  intros Hl. rewrite <- le_val_rev. pose proof (le_val_range (rev l) (Forall_rev Hl)) as H.
  rewrite zlen_rev in H. rewrite Z.pow_mul_r in H by zlia. exact H.
Qed.

Lemma swap_endian_invol bits ip : is_key bits ip → swap_endian (swap_endian ip bits) bits = ip.
Proof.
  intros ([->| ->]&Hlen&_); unfold swap_endian; cbn [Z.eqb Pos.eqb].
  - change (32 / 8) with 4 in Hlen. rewrite (ztake_all 4 ip) by lia.
    rewrite ztake_all by (rewrite zlen_rev; lia). apply rev_involutive.
  - change (128 / 8) with 16 in Hlen. rewrite (ztake_all 8 (zdrop 8 ip)) by (rewrite zlen_zdrop; lia).
    rewrite ztake_app_length, zdrop_app_length by (rewrite zlen_rev, zlen_ztake; lia).
    rewrite (ztake_all 8 (rev (zdrop 8 ip))) by (rewrite zlen_rev, zlen_zdrop; lia). rewrite !rev_involutive. apply ztake_zdrop.
Qed.

Lemma be_val_zeros m : be_val (replicate m 0) = 0.
Proof. induction m as [|m IH]; [done|]. cbn [replicate]. by rewrite be_val_cons, IH. Qed.

(** The mask of the last byte clears the bits after the prefix. *)
Lemma mask_byte b s :
  0 <= b < 256 → 0 <= s < 8 → Z.land b (u8 (Z.shiftl (2 ^ 32 - 1) s)) = b / 2 ^ s * 2 ^ s.
Proof.
  intros Hb Hs. pose (ok s b := Z.land b (u8 (Z.shiftl (2 ^ 32 - 1) s)) =? b / 2 ^ s * 2 ^ s).
  assert (Hall : forallb (λ s, forallb (ok s) (seqZ 0 256)) (seqZ 0 8) = true) by (vm_compute; reflexivity).
  rewrite forallb_forall in Hall. specialize (Hall s). rewrite forallb_forall in Hall. apply Z.eqb_eq.
  apply (Hall ltac:(apply list_elem_of_In, elem_of_seqZ; lia)), list_elem_of_In, elem_of_seqZ. lia.
Qed.

Lemma read_last_byte (init rest : list Z) b m v :
  <[Z.to_nat (zlen init) := v]> ((init ++ [b]) ++ replicate m 0) = (init ++ [v]) ++ replicate m 0 ∧
  byte_at ((init ++ [b]) ++ rest) (zlen init) = b.
Proof.
  unfold zlen. rewrite Nat2Z.id. rewrite <- !(assoc_L (++)). split.
  - rewrite insert_app_r_alt by lia. by rewrite Nat.sub_diag.
  - unfold byte_at. rewrite Nat2Z.id, app_nth2 by lia. by rewrite Nat.sub_diag.
Qed.

Lemma last_byte (ip : list Z) cb :
  1 <= cb <= zlen ip → ∃ init b rest, ip = (init ++ [b]) ++ rest ∧ zlen init = cb - 1 ∧ zlen rest = zlen ip - cb.
Proof.
  intros Hcb. pose proof (zlen_zdrop (cb - 1) ip ltac:(lia)) as Hl.
  destruct (zdrop (cb - 1) ip) as [|b rest] eqn:Hd; [rewrite zlen_nil in Hl; lia|].
  rewrite zlen_cons in Hl. exists (ztake (cb - 1) ip), b, rest. split_and!; [|apply zlen_ztake; lia|lia].
  rewrite <- (assoc_L (++)). cbn [app]. rewrite <- Hd. symmetry. apply ztake_zdrop.
Qed.

Lemma mask_value I b P R s :
  0 <= R < P → 0 <= s < 8 →
  (I * 256 + b / 2 ^ s * 2 ^ s) * P + 0 = ((I * 256 + b) * P + R) / (P * 2 ^ s) * (P * 2 ^ s).
Proof.
  intros HR Hs. rewrite <- Z.div_div by lia. rewrite Z.div_add_l, (Z.div_small R P), !Z.add_0_r by lia.
  replace (I * 256) with (I * 2 ^ (8 - s) * 2 ^ s)
    by (rewrite <- Z.mul_assoc, <- Z.pow_add_r by lia; f_equal; by replace (8 - s + s) with 8 by lia).
  rewrite Z.div_add_l by lia. lia.
Qed.

(** Reading a node gives its prefix with all later bits zero. *)
Lemma read_node_spec bits n :
  node_ok bits n →
  ∃ ip, wg_allowedips_read_node n = (if bits =? 32 then AF_INET else AF_INET6, ip, n_cidr n) ∧
    is_key bits ip ∧ be_val ip = Z.shiftl (pfx bits (n_cidr n) (nval bits n)) (bits - n_cidr n).
Proof.
  intros (Hk&Hc&Hn). assert (Hbl : n_bitlen n = bits) by (by rewrite Hn). unfold wg_allowedips_read_node. rewrite Hbl.
  destruct (swap_endian_key bits (n_bits n) Hk) as [Hk0 _].
  destruct (swap_endian_key bits (swap_endian (n_bits n) bits) Hk0) as [_ Hv].
  rewrite swap_endian_invol in Hv by done. fold (nval bits n) in Hv.
  set (ip0 := swap_endian (n_bits n) bits) in *. rewrite Hv. clearbody ip0. clear Hn Hv Hbl.
  destruct Hk0 as (Hwd&Hlen&Hb). assert (Hb8 : bits = 8 * zlen ip0) by (rewrite Hlen; destruct Hwd as [->| ->]; done).
  assert (Hr : 0 <= be_val ip0 < 2 ^ bits)
    by (rewrite Hb8, Z.pow_mul_r by zlia; by apply be_val_range).
  rewrite <- Hlen. set (cb := (n_cidr n + 7) / 8). eexists. split; [done|].
  destruct (n_cidr n =? 0) eqn:Hz; simpl_guards.
  { subst cb. rewrite Hz. change ((0 + 7) / 8) with 0. rewrite ztake_0, Z.sub_0_r. cbn [app].
    rewrite be_val_zeros. rewrite pfx_0 by (done || zlia).
    rewrite Z.shiftl_0_l. split; [|done]. split; [done|]. rewrite <- Hlen.
    split; [unfold zlen; rewrite length_replicate; lia|by apply Forall_replicate]. }
  assert (Hcb : 1 <= cb <= zlen ip0) by (subst cb; div_mod_lia).
  set (s := (- n_cidr n) mod 8).
  assert (Hs : 0 <= s < 8 ∧ bits - n_cidr n = 8 * (zlen ip0 - cb) + s) by (subst cb s; div_mod_lia).
  clearbody cb s. destruct (last_byte ip0 cb Hcb) as (init&b&rest&->&Hinit&Hrest).
  apply Forall_app in Hb as [[Hbi Hbb]%Forall_app Hbr]. assert (Hb : is_byte b) by (by inversion Hbb).
  rewrite (ztake_app_length cb) by (rewrite zlen_app, zlen_cons, zlen_nil; lia). rewrite <- Hinit.
  destruct (read_last_byte init (replicate (Z.to_nat (zlen ((init ++ [b]) ++ rest) - cb)) 0) b
    (Z.to_nat (zlen ((init ++ [b]) ++ rest) - cb)) (b / 2 ^ s * 2 ^ s)) as [Hins Hat].
  rewrite Hat, mask_byte, Hins by (done || unfold is_byte in Hb; lia). rewrite <- Hrest in *.
  clear Hins Hat. split.
  - split; [done|]. rewrite <- Hlen, !zlen_app, !zlen_cons. split; [unfold zlen at 3; rewrite length_replicate; zlia|].
    apply Forall_app. split; [apply Forall_app; split; [done|]|by apply Forall_replicate].
    constructor; [|done]. unfold is_byte in *. split; [apply Z.mul_nonneg_nonneg; [apply Z.div_pos|]; lia|].
    pose proof (Z.mul_div_le b (2 ^ s) ltac:(lia)). lia.
  - rewrite !be_val_app, be_val_zeros. replace (zlen (replicate (Z.to_nat (zlen rest)) 0)) with (zlen rest)
      by (unfold zlen; rewrite length_replicate; lia).
    unfold pfx. rewrite Z.shiftr_div_pow2, Z.shiftl_mul_pow2, (proj2 Hs), Z.pow_add_r by zlia.
    rewrite (Z.pow_mul_r 2 8) by zlia. pose proof (be_val_range rest Hbr) as HR. 
    exact (mask_value (be_val init) b (256 ^ zlen rest) (be_val rest) s HR (proj1 Hs)).
Qed.

(** ** Refinement *)
Lemma exec_ok debug o a :
  table_ok a → op_ok o →
  ∃ r a', exec debug o a = Some (r, a') ∧ table_ok a' ∧ spec_step (spec_of a) o r (spec_of a').
Proof.
  intros Hok Ho. destruct o as [alloc1 alloc2 bits ip cidr q|bits ip cidr q|q|]; cbn [exec op_ok] in *.
  - destruct Ho as [Hk Hc]. destruct (swap_endian_key bits ip Hk) as [Hk' Hv].
    destruct (table_add_ok alloc1 alloc2 bits _ cidr q (bump a) (bump_ok a Hok) Hk') as (r&a'&Hr&Hok'&Hcase); [lia|].
    unfold wg_allowedips_insert. rewrite Hr. exists r, a'. split_and!; [done..|].
    change (spec_of (bump a)) with (spec_of a) in Hcase. rewrite Hv in Hcase.
    destruct Hcase as [(?&->&->)|[(?&->&?&->)|(?&->&->)]]; by constructor.
  - destruct Ho as [Hk Hc]. destruct (swap_endian_key bits ip Hk) as [Hk' Hv].
    destruct (table_remove_ok bits _ cidr q (bump a) (bump_ok a Hok) Hk') as (r&a'&Hr&Hok'&Hcase); [lia|].
    unfold wg_allowedips_remove. rewrite Hr. exists r, a'. split_and!; [done..|].
    change (spec_of (bump a)) with (spec_of a) in Hcase. rewrite Hv in Hcase.
    destruct Hcase as [(?&->&->)|[(?&->&?&->)|(?&->&?&->)]]; by constructor.
  - destruct (remove_by_peer_ok q a Hok) as (H1&_&H2). do 2 eexists. split; [done|]. split; [done|].
    rewrite H2. constructor.
  - destruct (free_ok debug a Hok) as (a'&->&H1&H2&_). exists 0, a'. split; [done|]. split; [done|].
    rewrite H2. constructor.
Qed.

Lemma exec_all_ok debug os a :
  table_ok a → Forall op_ok os →
  ∃ rs a', exec_all debug os a = Some (rs, a') ∧ table_ok a' ∧ spec_run (spec_of a) os rs (spec_of a').
Proof.
  intros Hok Hos. revert a Hok. induction Hos as [|o os Ho _ IH]; intros a Hok; cbn [exec_all].
  { exists [], a. split_and!; [done..|constructor]. }
  destruct (exec_ok debug o a Hok Ho) as (r&a1&->&Hok1&Hs1). cbn [mbind option_bind].
  destruct (IH a1 Hok1) as (rs&a'&->&Hok'&Hs'). exists (r :: rs), a'.
  split_and!; [done..|]. by econstructor.
Qed.

Lemma init_ok : table_ok wg_allowedips_init.
Proof. split; [apply wf_null|apply wf_null|]. intros q. unfold list_of. cbn [allowedips_list wg_allowedips_init]. by rewrite lookup_empty. Qed.

(** C36: whatever is inserted, removed, removed by peer or freed, in any order and
    with any allocation failing, the table implements two maps from prefixes to
    peers: each call returns what the map operation does (0, -EINVAL for a prefix
    longer than the address, -ENOMEM, and then without effect, only if an
    allocation failed), and looking an address up gives the peer of the longest
    prefix the map holds for it. *)
Theorem allowedips_longest_prefix (debug : bool) (os : list op) :
  Forall op_ok os →
  ∃ rs a, exec_all debug os wg_allowedips_init = Some (rs, a) ∧
    spec_run (∅, ∅) os rs (spec_of a) ∧
    ∀ bits ip, is_key bits ip →
      lookup (root bits a) bits ip = lpm bits (s_get bits (spec_of a)) (be_val ip).
Proof.
  intros Hos. destruct (exec_all_ok debug os _ init_ok Hos) as (rs&a&He&Hok&Hs).
  exists rs, a. split; [done|]. split; [done|]. intros bits ip. by apply lookup_ok.
Qed.

Lemma allowedips_longest_prefix_witness :
  ∃ rs a, exec_all true
    [Insert true true 32 [10;0;0;0] 8 1; Insert true true 32 [10;1;0;0] 16 2; Insert true false 32 [11;0;0;0] 8 3;
     Insert true true 32 [0;0;0;0] 33 3; Remove 32 [10;1;0;0] 16 1] wg_allowedips_init = Some (rs, a) ∧
    rs = [0; 0; -ENOMEM; -EINVAL; 0] ∧ lookup (root 32 a) 32 [10;1;2;3] = Some 2 ∧
    lookup (root 32 a) 32 [10;2;2;3] = Some 1 ∧ lookup (root 32 a) 32 [11;0;0;1] = None ∧
    lookup (root 32 a) 32 [10;1;2;3] = lpm 32 (s_get 32 (spec_of a)) (be_val [10;1;2;3]).
Proof.
  destruct (allowedips_longest_prefix true
    [Insert true true 32 [10;0;0;0] 8 1; Insert true true 32 [10;1;0;0] 16 2; Insert true false 32 [11;0;0;0] 8 3;
     Insert true true 32 [0;0;0;0] 33 3; Remove 32 [10;1;0;0] 16 1]) as (rs&a&He&_&Hl).
  { repeat constructor; cbn; unfold is_byte; lia. }
  specialize (Hl 32 [10;1;2;3]). exists rs, a. split; [done|].
  assert (Hk : is_key 32 [10;1;2;3]) by (repeat constructor; unfold is_byte; lia).
  vm_compute in He. injection He as <- <-. split_and!; [vm_compute; reflexivity..|exact (Hl Hk)].
Defined.

(** after any such sequence the list of nodes kept with a peer names exactly
    the prefixes bound to that peer, each once; removing the peer by that list
    empties it and leaves the bindings of all other peers. *)
Theorem allowedips_lists_exact (debug : bool) (os : list op) (rs : list Z) (a : allowedips) (q : Z) :
  Forall op_ok os → exec_all debug os wg_allowedips_init = Some (rs, a) →
  NoDup (list_of q (allowedips_list a)) ∧
  (∀ bits i, is_width bits →
     s_get bits (spec_of a) !! i = Some q ↔
     ∃ e, e ∈ list_of q (allowedips_list a) ∧ e.1.1 = bits ∧ eidx bits e = i) ∧
  let a' := wg_allowedips_remove_by_peer q a in
  list_of q (allowedips_list a') = [] ∧
  ∀ bits i, is_width bits →
    s_get bits (spec_of a') !! i =
    (if bool_decide (s_get bits (spec_of a) !! i = Some q) then None else s_get bits (spec_of a) !! i).
Proof.
  intros Hos He. destruct (exec_all_ok debug os _ init_ok Hos) as (rs'&a1&He'&Hok&_).
  rewrite He in He'. injection He' as <- <-. split; [by apply list_of_nodup|]. split.
  - intros bits i Hwd. rewrite s_get_spec_of by done. split.
    + intros (e&He1&<-)%(abs_peered bits 0 0); [|by apply root_wf]. exists e.
      pose proof (peered_abs bits 0 0 _ _ _ (root_wf _ _ Hwd Hok) He1) as [[Hb _] _].
      split_and!; [|done..]. rewrite (ok_lists a Hok q), (holds_root bits a Hwd).
      apply list_elem_of_fmap. exists (e, q). split; [done|]. apply list_elem_of_filter.
      split; [done|]. apply elem_of_app. by left.
    + intros (e&Hin&Hb&<-). apply list_of_holds in Hin; [|done].
      destruct (holds_elem a e q Hok Hin) as (bits'&Hwd'&[Hb' _]&Hin'). assert (bits' = bits) as -> by congruence.
      by apply (peered_abs bits 0 0) in Hin' as [_ ?]; [|by apply root_wf].
  - destruct (remove_by_peer_ok q a Hok) as (_&Hl&Hs). split; [done|]. intros bits i Hwd. rewrite Hs.
    assert (Hwo : ∀ r : routes, without q r !! i = if bool_decide (r !! i = Some q) then None else r !! i).
    { intros r. unfold without. rewrite map_lookup_filter. destruct (r !! i) as [x|]; cbn; [|done].
      case_bool_decide as Hx; case_guard; cbn; simplify_eq; done. }
    destruct Hwd as [->| ->]; cbn; apply Hwo.
Qed.

Lemma allowedips_lists_exact_witness :
  ∃ rs a, exec_all true
    [Insert true true 32 [10;0;0;0] 8 1; Insert true true 128 (replicate 16 0) 0 1; Insert true true 32 [10;0;0;0] 8 2]
    wg_allowedips_init = Some (rs, a) ∧ list_of 1 (allowedips_list a) = [(128, replicate 16 0, 0)] ∧
    NoDup (list_of 1 (allowedips_list a)) ∧ list_of 1 (allowedips_list (wg_allowedips_remove_by_peer 1 a)) = [].
Proof.
  eexists _, _. split; [vm_compute; reflexivity|]. split; [vm_compute; reflexivity|].
  match goal with |- NoDup (list_of 1 (allowedips_list ?a)) ∧ _ =>
    destruct (allowedips_lists_exact true
      [Insert true true 32 [10;0;0;0] 8 1; Insert true true 128 (replicate 16 0) 0 1; Insert true true 32 [10;0;0;0] 8 2]
      [0; 0; 0] a 1) as (H1&_&H2&_) end.
  - repeat constructor; cbn; unfold is_byte; lia.
  - vm_compute. reflexivity.
  - by split.
Defined.

(** freeing a table that any sequence of operations left walks each trie with
    the stack of [MAX_ALLOWEDIPS_DEPTH] entries without writing past it, frees
    every node once, and leaves both maps and every peer's list empty. *)
Theorem allowedips_free_bounded (debug : bool) (os : list op) (rs : list Z) (a : allowedips) :
  Forall op_ok os → exec_all debug os wg_allowedips_init = Some (rs, a) →
  ∃ a' freed, wg_allowedips_free debug a = Some (a', freed) ∧
    freed = nodes (root4 a) ++ nodes (root6 a) ∧
    spec_of a' = (∅, ∅) ∧ ∀ q, list_of q (allowedips_list a') = [].
Proof.
  intros Hos He. destruct (exec_all_ok debug os _ init_ok Hos) as (rs'&a1&He'&Hok&_).
  rewrite He in He'. injection He' as <- <-. destruct (free_ok debug a Hok) as (a'&Hf&_&H1&H2). eauto 10.
Qed.

Lemma allowedips_free_bounded_witness :
  ∃ rs a, exec_all false
    [Insert true true 32 [10;0;0;0] 8 1; Insert true true 32 [11;0;0;0] 8 2] wg_allowedips_init = Some (rs, a) ∧
    ∃ a' freed, wg_allowedips_free false a = Some (a', freed) ∧ length freed = 3%nat.
Proof.
  eexists _, _. split; [vm_compute; reflexivity|].
  match goal with |- ∃ a' freed, wg_allowedips_free false ?a = _ ∧ _ =>
    destruct (allowedips_free_bounded false
      [Insert true true 32 [10;0;0;0] 8 1; Insert true true 32 [11;0;0;0] 8 2] [0; 0] a) as (a'&freed&H1&Hf&_) end.
  - repeat constructor; cbn; unfold is_byte; lia.
  - vm_compute. reflexivity.
  - exists a', freed. split; [exact H1|]. rewrite Hf. vm_compute. reflexivity.
Defined.

Lemma nodes_ok bits c p t n : wf bits c p t → n ∈ nodes t → node_ok bits n.
Proof.
  induction 1 as [|c p x t0 t1 Hok Hc Hp Hw0 IH0 Hw1 IH1 Hnull]; cbn [nodes]; [by intros ?%elem_of_nil|].
  rewrite elem_of_cons, elem_of_app. intros [->|[?|?]]; auto.
Qed.

(** a node of the table read for a dump gives an address whose bits after the
    prefix are zero and whose prefix the table binds to the node's peer, so that
    inserting what was read changes no binding. *)
Theorem allowedips_read_roundtrip (debug : bool) (os : list op) (rs : list Z) (a : allowedips)
    (bits : Z) (n : allowedips_node) (q : Z) :
  Forall op_ok os → exec_all debug os wg_allowedips_init = Some (rs, a) →
  is_width bits → n ∈ nodes (root bits a) → n_peer n = Some q →
  ∃ ip cidr, wg_allowedips_read_node n = (if bits =? 32 then AF_INET else AF_INET6, ip, cidr) ∧
    be_val ip mod 2 ^ (bits - cidr) = 0 ∧
    s_get bits (spec_of a) !! prefix bits ip cidr = Some q ∧
    (wg_allowedips_insert true true bits ip cidr q a).1 = 0 ∧
    spec_of (wg_allowedips_insert true true bits ip cidr q a).2 = spec_of a.
Proof.
  intros Hos He Hwd Hin Hq. destruct (exec_all_ok debug os _ init_ok Hos) as (rs'&a1&He'&Hok&_).
  rewrite He in He'. injection He' as <- <-. pose proof (root_wf bits a Hwd Hok) as Hw.
  pose proof (nodes_ok bits 0 0 _ n Hw Hin) as Hnok. destruct (read_node_spec bits n Hnok) as (ip&Hread&Hk&Hval).
  pose proof (proj1 (proj2 Hnok)) as Hc. exists ip, (n_cidr n). split; [done|].
  assert (Hidx : prefix bits ip (n_cidr n) = eidx bits (entry_of n)).
  { unfold prefix, eidx. cbn [fst snd entry_of]. rewrite Hval. unfold pfx at 1.
    by rewrite Z.shiftr_shiftl_l, Z.sub_diag, Z.shiftl_0_r by lia. }
  assert (Hbound : s_get bits (spec_of a) !! prefix bits ip (n_cidr n) = Some q).
  { rewrite s_get_spec_of, Hidx by done. apply (peered_abs bits 0 0); [done|]. rewrite peered_nodes.
    apply list_elem_of_bind. exists n. split; [by apply own_entry_elem|done]. }
  split_and!; [rewrite Hval, Z.shiftl_mul_pow2 by lia; apply Z.mod_mul; lia|done| |].
  all: destruct (exec_ok debug (Insert true true bits ip (n_cidr n) q) a Hok) as (r&a'&Hr&_&Hs);
    [split; [done|destruct Hwd as [->| ->]; lia]|]; cbn [exec] in Hr; injection Hr as Hr; rewrite Hr; cbn [fst snd].
  all: inversion Hs; subst; try lia; try done.
  rewrite insert_id by done. by destruct Hwd as [->| ->]; destruct (spec_of a).
Qed.

Lemma allowedips_read_roundtrip_witness :
  ∃ rs a, exec_all false [Insert true true 32 [10;1;2;3] 20 7] wg_allowedips_init = Some (rs, a) ∧
    ∃ n ip cidr, n ∈ nodes (root 32 a) ∧ wg_allowedips_read_node n = (AF_INET, ip, cidr) ∧
      s_get 32 (spec_of a) !! prefix 32 ip cidr = Some 7 ∧ (ip, cidr) = ([10;1;0;0], 20).
Proof.
  eexists _, _. split; [vm_compute; reflexivity|].
  match goal with |- ∃ n ip cidr, n ∈ nodes (root 32 ?a) ∧ _ =>
    destruct (allowedips_read_roundtrip false [Insert true true 32 [10;1;2;3] 20 7] [0] a 32
      (copy_and_assign_cidr (Some 7) [3;2;1;10] 20 32) 7) as (ip&cidr&H1&_&H2&_) end.
  - repeat constructor; cbn; unfold is_byte; lia.
  - vm_compute. reflexivity.
  - by left.
  - vm_compute. apply list_elem_of_here.
  - reflexivity.
  - exists (copy_and_assign_cidr (Some 7) [3;2;1;10] 20 32), ip, cidr.
    split; [vm_compute; apply list_elem_of_here|]. split; [exact H1|]. split; [exact H2|].
    vm_compute in H1. by injection H1 as <- <-.
Defined.
