(* ===== verification/PeerLookup.v ===== *)
(** * Lookup tables of peers (kernel/peerlookup.c)

    Two hash tables with chained buckets.  The index table finds the handshake
    or the session a received message belongs to by the 32-bit index this side
    chose for it; the key table finds a peer by its public key.  Every change of
    the index table is a section under its spinlock; choosing an unused index
    searches without the lock and checks again under it.

    The theorem shows that the sections, interleaved in any way, implement a map
    from indices to entries. *)
From stdpp Require Import prelude list gmap.
From S2P Require Import Prelude.

#[local] Open Scope Z_scope.

(** ** Entries

    An entry is embedded in the handshake of a peer or in a session; it is
    identified by what it is embedded in. *)
Inductive index_hashtable_entry :=
  | EntHandshake (peer : Z)
  | EntKeypair (peer keypair : Z).

#[export] Instance index_hashtable_entry_eq_dec : EqDecision index_hashtable_entry.
Proof. solve_decision. Defined.

Definition INDEX_HASHTABLE_HANDSHAKE := 1.
Definition INDEX_HASHTABLE_KEYPAIR := 2.

Definition ent_type (e : index_hashtable_entry) : Z :=
  match e with EntHandshake _ => INDEX_HASHTABLE_HANDSHAKE | EntKeypair _ _ => INDEX_HASHTABLE_KEYPAIR end.

Definition ent_peer (e : index_hashtable_entry) : Z :=
  match e with EntHandshake p | EntKeypair p _ => p end.

(** ** The index table: buckets of entries with their indices *)
Abbreviation ientry := (Z * index_hashtable_entry)%type.
Abbreviation index_hashtable := (gmap Z (list ientry)).

Definition index_bucket (index : Z) : Z := Z.land index (2 ^ 13 - 1).

Definition bucket (b : Z) (t : index_hashtable) : list ientry := default [] (t !! b).

(** [hlist_del_init_rcu]: an entry that is not hashed is left alone. *)
Definition hlist_del (e : index_hashtable_entry) (t : index_hashtable) : index_hashtable :=
  filter (λ x, x.2 ≠ e) <$> t.

Definition hlist_add_head (index : Z) (e : index_hashtable_entry) (t : index_hashtable) : index_hashtable :=
  <[index_bucket index := (index, e) :: bucket (index_bucket index) t]> t.

(** The search of the bucket for the index. *)
Definition find_index (index : Z) (t : index_hashtable) : option index_hashtable_entry :=
  snd <$> head (filter (λ x, x.1 = index) (bucket (index_bucket index) t)).

(** The place of an entry, if it is hashed. *)
Definition index_of (e : index_hashtable_entry) (t : index_hashtable) : option Z :=
  fst <$> head (filter (λ x, x.2 = e) (mjoin (map_to_list t).*2)).

(** ** The sections under the lock *)
Definition wg_index_hashtable_remove (e : index_hashtable_entry) (t : index_hashtable) : index_hashtable :=
  hlist_del e t.

(** The check under the lock and the insertion; [None] if the index was
    stolen. *)
Definition insert_locked (index : Z) (e : index_hashtable_entry) (t : index_hashtable)
    : option index_hashtable :=
  match find_index index t with
  | Some _ => None
  | None => Some (hlist_add_head index e t)
  end.

(** [hlist_replace_rcu]: the new entry takes the place of the old one in its
    chain. *)
Definition hlist_replace (old new : index_hashtable_entry) (l : list ientry) : list ientry :=
  map (λ x, if bool_decide (x.2 = old) then (x.1, new) else x) l.

Definition wg_index_hashtable_replace (old new : index_hashtable_entry) (t : index_hashtable)
    : bool * index_hashtable :=
  match index_of old t with
  | None => (false, t)
  | Some _ => (true, hlist_replace old new <$> t)
  end.

Inductive section :=
  | SecRemove (e : index_hashtable_entry)
  | SecInsert (index : Z) (e : index_hashtable_entry)
  | SecReplace (old new : index_hashtable_entry).

Definition run_section (t : index_hashtable) (s : section) : index_hashtable :=
  match s with
  | SecRemove e => wg_index_hashtable_remove e t
  | SecInsert i e => default t (insert_locked i e t)
  | SecReplace old new => (wg_index_hashtable_replace old new t).2
  end.

(** [wg_index_hashtable_insert]: [tries] are the random numbers drawn, each with
    the sections other threads run between the search and the lock.  The loop
    ends with the first number that is unused at both looks. *)
Fixpoint search_unused_slot (tries : list (Z * list section)) (e : index_hashtable_entry)
    (t : index_hashtable) : option (Z * index_hashtable) :=
  match tries with
  | [] => None
  | (index, others) :: tries =>
      let free := match find_index index t with Some _ => false | None => true end in
      let t := foldl run_section t others in
      match (if free then insert_locked index e t else None) with
      | None => search_unused_slot tries e t
      | Some t => Some (index, t)
      end
  end.

Definition wg_index_hashtable_insert (tries : list (Z * list section)) (e : index_hashtable_entry)
    (t : index_hashtable) : option (Z * index_hashtable) :=
  search_unused_slot tries e (hlist_del e t).

(** [alive] tells whether a reference to the peer can still be taken. *)
Definition wg_index_hashtable_lookup (alive : Z → bool) (type_mask index : Z) (t : index_hashtable)
    : option index_hashtable_entry :=
  match find_index index t with
  | Some e =>
      if negb (Z.land (ent_type e) type_mask =? 0) && alive (ent_peer e) then Some e else None
  | None => None
  end.

(** ** The key table: peers with their public keys, in buckets by a keyed hash *)
Abbreviation pubkey_hashtable := (gmap Z (list (list Z * Z))).

Section pubkey.
Context (siphash : list Z → Z).

Definition pubkey_bucket (pubkey : list Z) : Z := Z.land (siphash pubkey) (2 ^ 11 - 1).

Definition wg_pubkey_hashtable_add (pubkey : list Z) (peer : Z) (t : pubkey_hashtable) : pubkey_hashtable :=
  <[pubkey_bucket pubkey := (pubkey, peer) :: default [] (t !! pubkey_bucket pubkey)]> t.

Definition wg_pubkey_hashtable_remove (peer : Z) (t : pubkey_hashtable) : pubkey_hashtable :=
  filter (λ x, x.2 ≠ peer) <$> t.

Definition wg_pubkey_hashtable_lookup (alive : Z → bool) (pubkey : list Z) (t : pubkey_hashtable) : option Z :=
  match snd <$> head (filter (λ x, x.1 = pubkey) (default [] (t !! pubkey_bucket pubkey))) with
  | Some peer => if alive peer then Some peer else None
  | None => None
  end.
End pubkey.

(** ** Specification: a map from indices to entries *)
Abbreviation indices := (gmap Z index_hashtable_entry).

Definition spec_section (m : indices) (s : section) : indices :=
  match s with
  | SecRemove e => filter (λ kv, kv.2 ≠ e) m
  | SecInsert i e => match m !! i with Some _ => m | None => <[i := e]> m end
  | SecReplace old new => (λ e, if bool_decide (e = old) then new else e) <$> m
  end.

Definition spec_lookup (alive : Z → bool) (type_mask index : Z) (m : indices) : option index_hashtable_entry :=
  e ← m !! index;
  if negb (Z.land (ent_type e) type_mask =? 0) && alive (ent_peer e) then Some e else None.

(** An entry is put in the table by the one thread that holds the lock of what
    it is embedded in, after it has been taken out or when it is new. *)
Definition unhashed (m : indices) (e : index_hashtable_entry) : Prop := ∀ i, m !! i ≠ Some e.

Definition section_ok (m : indices) (s : section) : Prop :=
  match s with
  | SecRemove _ => True
  | SecInsert i e => unhashed m e
  | SecReplace old new => unhashed m new
  end.

Fixpoint sections_ok (m : indices) (ss : list section) : Prop :=
  match ss with
  | [] => True
  | s :: ss => section_ok m s ∧ sections_ok (spec_section m s) ss
  end.

Record implements (t : index_hashtable) (m : indices) : Prop := {
  imp_buckets : ∀ b i e, (i, e) ∈ bucket b t ↔ b = index_bucket i ∧ m !! i = Some e;
  imp_unique : ∀ i j e, m !! i = Some e → m !! j = Some e → i = j;
}.

Lemma bucket_fmap (f : list ientry → list ientry) b t : f [] = [] → bucket b (f <$> t) = f (bucket b t).
Proof. intros Hf. unfold bucket. rewrite lookup_fmap. by destruct (t !! b). Qed.

Lemma implements_empty : implements ∅ ∅.
Proof.
  split; [|by intros ? ? ? []%lookup_empty_Some]. intros b i e. unfold bucket. rewrite lookup_empty. cbn.
  rewrite lookup_empty, elem_of_nil. naive_solver.
Qed.

Lemma find_index_spec t m i : implements t m → find_index i t = m !! i.
Proof.
  intros [Hb _]. unfold find_index.
  destruct (filter _ _) as [|[j e] l] eqn:Hf; cbn.
  - destruct (m !! i) as [e|] eqn:Hm; [|done]. assert (Hin : (i, e) ∈ bucket (index_bucket i) t) by (by apply Hb).
    assert (Hin' : (i, e) ∈ filter (λ x : ientry, x.1 = i) (bucket (index_bucket i) t))
      by (by apply list_elem_of_filter). rewrite Hf in Hin'. by apply elem_of_nil in Hin'.
  - assert (Hin : (j, e) ∈ filter (λ x : ientry, x.1 = i) (bucket (index_bucket i) t)) by (rewrite Hf; by left).
    apply list_elem_of_filter in Hin as [Hj Hin]. cbn in Hj. subst j. by apply Hb in Hin as [_ ->].
Qed.

Lemma in_all_buckets t m i e : implements t m → (i, e) ∈ mjoin (map_to_list t).*2 ↔ m !! i = Some e.
Proof.
  intros [Hb _]. rewrite list_elem_of_join. setoid_rewrite list_elem_of_fmap. split.
  - intros (l&Hin&([b l']&->&Hl)). apply elem_of_map_to_list in Hl. cbn in Hin.
    assert (Hin' : (i, e) ∈ bucket b t) by (unfold bucket; by rewrite Hl). by apply Hb in Hin' as [_ ?].
  - intros Hm. assert (Hin : (i, e) ∈ bucket (index_bucket i) t) by (by apply Hb). unfold bucket in Hin.
    destruct (t !! index_bucket i) as [l|] eqn:Hl; [|by apply elem_of_nil in Hin].
    exists l. split; [done|]. exists (index_bucket i, l). split; [done|]. by apply elem_of_map_to_list.
Qed.

Lemma index_of_spec t m e i : implements t m → index_of e t = Some i ↔ m !! i = Some e.
Proof.
  intros Ht. pose proof (in_all_buckets t m) as Hall. unfold index_of.
  destruct (filter _ _) as [|[j e'] l] eqn:Hf; cbn.
  - split; [done|]. intros Hm%(Hall _ _ Ht). 
    assert (Hin' : (i, e) ∈ filter (λ x : ientry, x.2 = e) (mjoin (map_to_list t).*2)) by (by apply list_elem_of_filter).
    rewrite Hf in Hin'. by apply elem_of_nil in Hin'.
  - assert (Hin : (j, e') ∈ filter (λ x : ientry, x.2 = e) (mjoin (map_to_list t).*2)) by (rewrite Hf; by left).
    apply list_elem_of_filter in Hin as [Hj Hin%(Hall _ _ Ht)]. cbn in Hj. subst e'.
    split; [by intros [= <-]|]. intros Hm. f_equal. by eapply (imp_unique t m).
Qed.

(** ** What a single operation does to the index it concerns *)
Lemma find_add_head i e t : find_index i (hlist_add_head i e t) = Some e.
Proof.
  unfold find_index, hlist_add_head, bucket at 1. rewrite lookup_insert_eq. cbn [from_option]. unfold id.
  by rewrite filter_cons_True.
Qed.

Lemma insert_found tries e t i t' :
  wg_index_hashtable_insert tries e t = Some (i, t') → find_index i t' = Some e ∧ ∃ others : list section, (i, others) ∈ tries.
Proof.
  unfold wg_index_hashtable_insert. generalize (hlist_del e t). induction tries as [|[j others] tries IH]; intros t0; [done|].
  cbn [search_unused_slot]. match goal with |- match ?x with _ => _ end = _ → _ => destruct x as [t1|] eqn:Hins end.
  - intros [= <- <-]. split; [|eexists; by left]. unfold insert_locked in Hins.
    repeat case_match; simplify_eq. apply find_add_head.
  - intros Ht. destruct (IH _ Ht) as [Hf [o Ho]]. split; [done|]. exists o. by right.
Qed.

Lemma find_remove_other i t e e' :
  find_index i t = Some e → e ≠ e' → find_index i (wg_index_hashtable_remove e' t) = Some e.
Proof.
  unfold find_index, wg_index_hashtable_remove, hlist_del. rewrite bucket_fmap by done. intros Hf Hne.
  induction (bucket (index_bucket i) t) as [|[j x] l IH]; [done|]. rewrite (filter_cons _ (j, x)). cbn [snd].
  destruct (decide (j = i)) as [->|Hj]; [rewrite filter_cons_True in Hf by done; cbn in Hf; simplify_eq|].
  - rewrite decide_True by done. by rewrite filter_cons_True.
  - rewrite filter_cons_False in Hf by done. case_decide; [rewrite filter_cons_False by done|]; by apply IH.
Qed.

Lemma replace_found i t old new :
  find_index i t = Some old →
  (wg_index_hashtable_replace old new t).1 = true ∧ find_index i (wg_index_hashtable_replace old new t).2 = Some new.
Proof.
  intros Hf. unfold wg_index_hashtable_replace. destruct (index_of old t) as [j|] eqn:Hi; cbn [fst snd].
  - split; [done|]. unfold find_index in *. rewrite bucket_fmap by done.
    induction (bucket (index_bucket i) t) as [|[k x] l IH]; [done|]. cbn [hlist_replace map]. cbn [fst snd].
    destruct (decide (k = i)) as [->|Hk].
    + rewrite filter_cons_True in Hf by done. cbn in Hf. simplify_eq.
      rewrite bool_decide_eq_true_2 by done. by rewrite filter_cons_True.
    + rewrite filter_cons_False in Hf by done. rewrite filter_cons_False by (by case_bool_decide). by apply IH.
  - exfalso. unfold find_index in Hf. destruct (filter _ _) as [|[k x] l] eqn:Hl; [done|]. injection Hf as ->.
    assert (Hin : (k, old) ∈ bucket (index_bucket i) t).
    { assert (H : (k, old) ∈ filter (λ x : ientry, x.1 = i) (bucket (index_bucket i) t)) by (rewrite Hl; by left).
      by apply list_elem_of_filter in H as [_ ?]. }
    unfold bucket in Hin. destruct (t !! index_bucket i) as [b|] eqn:Hb; [|by apply elem_of_nil in Hin].
    unfold index_of in Hi. destruct (filter _ (mjoin _)) as [|y l'] eqn:Hl'; [|done].
    assert (H : (k, old) ∈ filter (λ x : ientry, x.2 = old) (mjoin (map_to_list t).*2)).
    { apply list_elem_of_filter. split; [done|]. apply list_elem_of_join. exists b. split; [done|].
      apply list_elem_of_fmap. exists (index_bucket i, b). split; [done|]. by apply elem_of_map_to_list. }
    rewrite Hl' in H. by apply elem_of_nil in H.
Qed.

(** ** Every section implements its map operation *)
Lemma remove_implements e t m :
  implements t m → implements (wg_index_hashtable_remove e t) (filter (λ kv, kv.2 ≠ e) m).
Proof.
  intros [Hb Hu]. split.
  - intros b i e'. unfold wg_index_hashtable_remove, hlist_del. rewrite bucket_fmap by done.
    rewrite list_elem_of_filter, Hb, map_lookup_filter_Some. cbn. tauto.
  - intros i j e' [Hi _]%map_lookup_filter_Some [Hj _]%map_lookup_filter_Some. by eapply Hu.
Qed.

Lemma insert_implements i e t m :
  implements t m → m !! i = None → unhashed m e → implements (hlist_add_head i e t) (<[i := e]> m).
Proof.
  intros [Hb Hu] Hi He. split.
  - intros b j e'. unfold hlist_add_head, bucket at 1.
    destruct (decide (b = index_bucket i)) as [->|Hne].
    + rewrite lookup_insert_eq. cbn [from_option]. unfold id. rewrite elem_of_cons, Hb.
      destruct (decide (j = i)) as [->|Hj]; [rewrite lookup_insert_eq|rewrite lookup_insert_ne by done]; naive_solver.
    + rewrite lookup_insert_ne by done. fold (bucket b t). rewrite Hb.
      destruct (decide (j = i)) as [->|Hj]; [rewrite lookup_insert_eq|rewrite lookup_insert_ne by done]; naive_solver.
  - intros j k e' [[<- <-]|[Hj Hmj]]%lookup_insert_Some [[<- Hk']|[Hk Hmk]]%lookup_insert_Some; subst; try done.
    + by destruct (He k).
    + by destruct (He j).
    + by eapply Hu.
Qed.

Lemma replace_implements old new t m :
  implements t m → unhashed m new →
  implements (wg_index_hashtable_replace old new t).2 ((λ e, if bool_decide (e = old) then new else e) <$> m).
Proof.
  intros Ht Hn. pose proof Ht as [Hb Hu]. unfold wg_index_hashtable_replace.
  assert (Huniq : ∀ i j e, ((λ e, if bool_decide (e = old) then new else e) <$> m) !! i = Some e →
    ((λ e, if bool_decide (e = old) then new else e) <$> m) !! j = Some e → i = j).
  { intros i j e (e1&<-&H1)%lookup_fmap_Some (e2&H&H2)%lookup_fmap_Some.
    repeat case_bool_decide; subst; try (by eapply Hu); exfalso; by eapply Hn. }
  destruct (index_of old t) as [i|] eqn:Hi; split; try done.
  - intros b j e. cbn [snd]. rewrite bucket_fmap by done. rewrite lookup_fmap_Some. unfold hlist_replace.
    rewrite list_elem_of_fmap. split.
    + intros ([k e']&Heq&[-> Hm]%Hb). cbn in Heq. case_bool_decide; simplify_eq; split; try done.
      * exists old. by rewrite bool_decide_eq_true_2.
      * exists e'. by rewrite bool_decide_eq_false_2.
    + intros (->&e'&<-&Hm). exists (j, e'). split; [cbn; by case_bool_decide|by apply Hb].
  - intros b j e. cbn [snd]. rewrite Hb, lookup_fmap_Some. split.
    + intros (->&Hm). split; [done|]. exists e. split; [|done]. rewrite bool_decide_eq_false_2; [done|].
      intros ->. apply (index_of_spec t m old j Ht) in Hm. congruence.
    + intros (->&e'&<-&Hm). split; [done|]. rewrite bool_decide_eq_false_2; [done|].
      intros ->. apply (index_of_spec t m old j Ht) in Hm. congruence.
Qed.

Lemma section_implements t m s :
  implements t m → section_ok m s → implements (run_section t s) (spec_section m s).
Proof.
  intros Ht Hs. destruct s as [e|i e|old new]; cbn [run_section spec_section section_ok] in *.
  - by apply remove_implements.
  - unfold insert_locked. rewrite (find_index_spec t m) by done. destruct (m !! i) eqn:Hm; [done|].
    by apply insert_implements.
  - by apply replace_implements.
Qed.

Lemma sections_implement t m ss :
  implements t m → sections_ok m ss → implements (foldl run_section t ss) (foldl spec_section m ss).
Proof.
  revert t m. induction ss as [|s ss IH]; intros t m Ht Hss; [done|]. destruct Hss as [Hs Hss].
  cbn [foldl]. apply IH; [by apply section_implements|done].
Qed.

Lemma sections_ok_app m ss ss' :
  sections_ok m (ss ++ ss') ↔ sections_ok m ss ∧ sections_ok (foldl spec_section m ss) ss'.
Proof. revert m. induction ss as [|s ss IH]; intros m; cbn; [tauto|]. rewrite IH. tauto. Qed.

(** Other threads neither hash this entry nor take it out. *)
Definition avoids (e : index_hashtable_entry) (s : section) : Prop :=
  match s with SecRemove _ => True | SecInsert _ e' => e' ≠ e | SecReplace _ new => new ≠ e end.

Lemma avoids_unhashed m e ss : unhashed m e → Forall (avoids e) ss → unhashed (foldl spec_section m ss) e.
Proof.
  intros Hm Hss. revert m Hm. induction Hss as [|s ss Hs _ IH]; intros m Hm; [done|]. cbn [foldl]. apply IH.
  intros i Hi. destruct s as [e'|j e'|old new]; cbn in *.
  - apply map_lookup_filter_Some in Hi as [Hi _]. by apply (Hm i).
  - destruct (m !! j) eqn:Hj; [by apply (Hm i)|]. apply lookup_insert_Some in Hi as [[_ ?]|[_ Hi]]; [done|by apply (Hm i)].
  - apply lookup_fmap_Some in Hi as (e'&He&Hi). case_bool_decide; simplify_eq. by apply (Hm i).
Qed.

Lemma search_spec tries e t m :
  implements t m → unhashed m e → sections_ok m (mjoin tries.*2) → Forall (avoids e) (mjoin tries.*2) →
  match search_unused_slot tries e t with
  | Some (i, t') => ∃ n, let m' := foldl spec_section m (mjoin (take n tries).*2) in
      m' !! i = None ∧ implements t' (<[i := e]> m')
  | None => ∀ i others, (i, others) ∈ tries → ∃ n, is_Some (foldl spec_section m (take n (mjoin tries.*2)) !! i)
  end.
Proof.
  revert t m. induction tries as [|[i others] tries IH]; intros t m Ht He Hok Hav; [by intros ? ? ?%elem_of_nil|].
  cbn [search_unused_slot fmap list_fmap mjoin list_join] in *. cbn [snd] in *.
  apply sections_ok_app in Hok as [Hok Hoks]. apply Forall_app in Hav as [Hav Havs].
  pose proof (sections_implement _ _ _ Ht Hok) as Ht'. pose proof (avoids_unhashed _ _ _ He Hav) as He'.
  specialize (IH _ _ Ht' He' Hoks Havs). rewrite (find_index_spec t m) by done.
  unfold insert_locked. rewrite (find_index_spec _ _ i Ht').
  assert (Hretry : (∃ n, is_Some (foldl spec_section m (take n (others ++ mjoin tries.*2)) !! i)) →
    match search_unused_slot tries e (foldl run_section t others) with
    | Some (j, t') => ∃ n, let m' := foldl spec_section m (mjoin (take n ((i, others) :: tries)).*2) in
        m' !! j = None ∧ implements t' (<[j := e]> m')
    | None => ∀ j others', (j, others') ∈ (i, others) :: tries →
        ∃ n, is_Some (foldl spec_section m (take n (others ++ mjoin tries.*2)) !! j)
    end).
  { intros Hused. destruct (search_unused_slot tries e _) as [[j t']|].
    - destruct IH as [n IH]. exists (S n). cbn. by rewrite foldl_app.
    - intros j others' [[= -> ->]|Hin]%elem_of_cons; [done|]. destruct (IH j others' Hin) as [n Hn].
      exists (length others + n)%nat. rewrite take_app_add. by rewrite foldl_app. }
  destruct (m !! i) as [x|] eqn:Hi.
  { apply Hretry. exists 0%nat. change (is_Some (m !! i)). by exists x. }
  destruct (foldl spec_section m others !! i) as [x|] eqn:Hi'.
  { apply Hretry. exists (length others). rewrite take_app_length, Hi'. by eexists. }
  exists 1%nat. cbn. rewrite app_nil_r. split; [done|]. by apply insert_implements.
Qed.

(** C37: the index table is a map.  Whatever sections the threads have run in
    whatever order, looking an index up finds exactly the entry the map binds to
    it, if the entry is of the kind asked for and its peer is alive.  Choosing an
    index for an entry, while others change the table between the look and the
    lock, binds the entry to an index that was free at that moment and changes no
    other binding; it goes on only while every number drawn was in use. *)
Theorem index_table_is_map (ss : list section) (tries : list (Z * list section)) (e : index_hashtable_entry) :
  sections_ok ∅ ss →
  let t := foldl run_section ∅ ss in
  let m := foldl spec_section ∅ ss in
  (∀ alive mask i, wg_index_hashtable_lookup alive mask i t = spec_lookup alive mask i m) ∧
  (let m0 := spec_section m (SecRemove e) in
   sections_ok m0 (mjoin tries.*2) → Forall (avoids e) (mjoin tries.*2) →
   match wg_index_hashtable_insert tries e t with
   | Some (i, t') =>
       ∃ n, let m' := foldl spec_section m0 (mjoin (take n tries).*2) in
         m' !! i = None ∧
         ∀ alive mask j, wg_index_hashtable_lookup alive mask j t' = spec_lookup alive mask j (<[i := e]> m')
   | None => ∀ i others, (i, others) ∈ tries →
       ∃ n, is_Some (foldl spec_section m0 (take n (mjoin tries.*2)) !! i)
   end).
Proof.
  intros Hss t m. pose proof (sections_implement _ _ _ implements_empty Hss) as Ht. fold t m in Ht.
  assert (Hlookup : ∀ t m alive mask i, implements t m →
    wg_index_hashtable_lookup alive mask i t = spec_lookup alive mask i m).
  { intros t0 m0 alive mask i H0. unfold wg_index_hashtable_lookup, spec_lookup.
    rewrite (find_index_spec t0 m0) by done. by destruct (m0 !! i). }
  split; [intros; by apply Hlookup|]. intros m0 Hok Hav.
  assert (He : unhashed m0 e) by (intros i [_ Hne]%map_lookup_filter_Some; by apply Hne).
  pose proof (search_spec tries e (hlist_del e t) m0 (remove_implements e t m Ht) He Hok Hav) as Hs.
  unfold wg_index_hashtable_insert. destruct (search_unused_slot _ _ _) as [[i t']|]; [|done].
  destruct Hs as [n [H1 H2]]. exists n. split; [done|]. intros. by apply Hlookup.
Qed.

Lemma index_table_is_map_witness :
  wg_index_hashtable_lookup (λ _, true) INDEX_HASHTABLE_HANDSHAKE 9000
    (foldl run_section ∅ [SecInsert 9000 (EntHandshake 1); SecInsert 808 (EntKeypair 2 5)]) = Some (EntHandshake 1) ∧
  ∃ t', wg_index_hashtable_insert [(808, []); (17, [SecInsert 17 (EntKeypair 3 6)]); (18, [])] (EntHandshake 1)
    (foldl run_section ∅ [SecInsert 9000 (EntHandshake 1); SecInsert 808 (EntKeypair 2 5)]) = Some (18, t').
Proof.
  destruct (index_table_is_map [SecInsert 9000 (EntHandshake 1); SecInsert 808 (EntKeypair 2 5)]
    [(808, []); (17, [SecInsert 17 (EntKeypair 3 6)]); (18, [])] (EntHandshake 1)) as [H1 _].
  - cbn. repeat split; intros i; [by rewrite lookup_empty|].
    intros [[<- [=]]|[_ H]]%lookup_insert_Some. by rewrite lookup_empty in H.
  - split; [rewrite H1; vm_compute; reflexivity|]. eexists. vm_compute. reflexivity.
Defined.
