(* ===== verification/Crypto.v ===== *)
(** * Cryptographic primitives, messages and time

    The kernel's cryptographic functions as a class of operations, with a second
    class for what their documentation promises; the message structures of
    kernel/messages.h with their layout in memory; and
    [wg_birthdate_has_expired] of kernel/timers.h. *)
From stdpp Require Import prelude list.
From S2P Require Import Prelude Skb.

#[local] Open Scope Z_scope.

(** ** Primitives

    [blake2s] with output length, key and input; [curve25519] and
    [curve25519_generate_public] return nothing where the kernel's functions
    report the null point; the two AEADs take key, nonce and associated data. *)
Class Crypto := {
  blake2s : Z → list Z → list Z → list Z;
  curve25519 : list Z → list Z → option (list Z);
  curve25519_generate_public : list Z → option (list Z);
  curve25519_clamp_secret : list Z → list Z;
  chacha20poly1305_encrypt : list Z → Z → list Z → list Z → list Z;
  chacha20poly1305_decrypt : list Z → Z → list Z → list Z → option (list Z);
  xchacha20poly1305_encrypt : list Z → list Z → list Z → list Z → list Z;
  xchacha20poly1305_decrypt : list Z → list Z → list Z → list Z → option (list Z);
}.

Definition zero_point : list Z := replicate 32 0.

Class CryptoOk (C : Crypto) : Prop := {
  blake2s_len n k d : 0 <= n → zlen (blake2s n k d) = n;
  curve25519_comm a b A B :
    curve25519_generate_public a = Some A → curve25519_generate_public b = Some B →
    curve25519 a B = curve25519 b A;
  curve25519_not_null a B x : curve25519 a B = Some x → x ≠ zero_point;
  generate_public_len a A : curve25519_generate_public a = Some A → zlen A = 32;
  generate_public_clamp k : curve25519_generate_public (curve25519_clamp_secret k) = curve25519_generate_public k;
  chacha_len k n ad p : zlen (chacha20poly1305_encrypt k n ad p) = zlen p + NOISE_AUTHTAG_LEN;
  chacha_decrypt_encrypt k n ad p :
    chacha20poly1305_decrypt k n ad (chacha20poly1305_encrypt k n ad p) = Some p;
  chacha_decrypt_len k n ad c p :
    chacha20poly1305_decrypt k n ad c = Some p → zlen c = zlen p + NOISE_AUTHTAG_LEN;
  xchacha_len k n ad p : zlen (xchacha20poly1305_encrypt k n ad p) = zlen p + NOISE_AUTHTAG_LEN;
  xchacha_decrypt_encrypt k n ad p :
    xchacha20poly1305_decrypt k n ad (xchacha20poly1305_encrypt k n ad p) = Some p;
}.

(** An instance for examples: keys that are their own public keys, sums as shared
    secrets and sums as tags. *)
Definition sum_bytes (l : list Z) : Z := u8 (foldr Z.add 0 l).

Definition toy_add (a b : list Z) : list Z := zip_with (λ x y, u8 (x + y)) a b.

Definition toy_tag (k : list Z) (n : Z) (ad p : list Z) : list Z :=
  replicate 16 (sum_bytes (k ++ n :: ad ++ p)).

Definition toy_open (k : list Z) (n : Z) (ad c : list Z) : option (list Z) :=
  let p := ztake (zlen c - 16) c in
  if decide (zdrop (zlen c - 16) c = toy_tag k n ad p) then Some p else None.

Definition toy_crypto : Crypto := {|
  blake2s n k d := replicate (Z.to_nat n) (sum_bytes (k ++ d));
  curve25519 a B := if decide (toy_add a B = zero_point) then None else Some (toy_add a B);
  curve25519_generate_public a := if decide (a = zero_point) then None else
                                  if decide (zlen a = 32) then Some a else None;
  curve25519_clamp_secret k := k;
  chacha20poly1305_encrypt k n ad p := p ++ toy_tag k n ad p;
  chacha20poly1305_decrypt k n ad c := toy_open k n ad c;
  xchacha20poly1305_encrypt k n ad p := p ++ toy_tag k (sum_bytes n) ad p;
  xchacha20poly1305_decrypt k n ad c := toy_open k (sum_bytes n) ad c;
|}.

Lemma toy_open_seal k n ad p : toy_open k n ad (p ++ toy_tag k n ad p) = Some p.
Proof.
  unfold toy_open. assert (Hl : zlen (p ++ toy_tag k n ad p) - 16 = zlen p) by (rewrite zlen_app; change (zlen (toy_tag k n ad p)) with 16; lia).
  rewrite Hl, ztake_app_length, zdrop_app_length by done. by rewrite decide_True.
Qed.

Lemma toy_add_comm a b : toy_add a b = toy_add b a.
Proof.
  unfold toy_add. revert b.
  induction a as [|x a IH]; intros [|y b]; cbn; [done..|]. f_equal; [f_equal; lia|apply IH].
Qed.

#[export] Instance toy_crypto_ok : CryptoOk toy_crypto.
Proof.
  split; cbn -[zlen].
  - intros n k d Hn. unfold zlen. rewrite length_replicate. lia.
  - intros a b A B HA HB. assert (a = A ∧ b = B) as [-> ->] by (repeat case_decide; by simplify_eq).
    by rewrite (toy_add_comm A B).
  - intros a B x. case_decide; [done|]. by intros [= <-].
  - intros a A. repeat case_decide; by intros [= <-].
  - done.
  - intros k n ad p. rewrite zlen_app. done.
  - intros. apply toy_open_seal.
  - intros k n ad c p. unfold toy_open. case_decide as Ht; [|done]. intros [= <-].
    rewrite <- (ztake_zdrop (zlen c - 16) c) at 1. rewrite zlen_app, Ht. done.
  - intros k n ad p. rewrite zlen_app. done.
  - intros. apply toy_open_seal.
Qed.

(** ** Memory comparison: the sign of the first difference *)
Fixpoint memcmp (a b : list Z) : Z :=
  match a, b with
  | x :: a, y :: b => if x =? y then memcmp a b else x - y
  | _, _ => 0
  end.

(** ** Time *)
Definition NSEC_PER_SEC := 1000000000.

Definition wg_birthdate_has_expired (birthday_nanoseconds expiration_seconds now : Z) : bool :=
  s64 (birthday_nanoseconds + u64 (expiration_seconds * NSEC_PER_SEC)) <=? s64 now.

(** ** Messages and their layout

    Indices are the values of the 32-bit fields. *)
Record message_handshake_initiation := mk_initiation {
  mi_sender_index : Z;
  mi_unencrypted_ephemeral : list Z;
  mi_encrypted_static : list Z;
  mi_encrypted_timestamp : list Z;
  mi_mac1 : list Z;
  mi_mac2 : list Z;
}.

Record message_handshake_response := mk_response {
  mr_sender_index : Z;
  mr_receiver_index : Z;
  mr_unencrypted_ephemeral : list Z;
  mr_encrypted_nothing : list Z;
  mr_mac1 : list Z;
  mr_mac2 : list Z;
}.

Record message_handshake_cookie := mk_cookie_message {
  mc_receiver_index : Z;
  mc_nonce : list Z;
  mc_encrypted_cookie : list Z;
}.

#[export] Instance eta_initiation : Settable message_handshake_initiation := λ m,
  mk_initiation (mi_sender_index m) (mi_unencrypted_ephemeral m) (mi_encrypted_static m)
    (mi_encrypted_timestamp m) (mi_mac1 m) (mi_mac2 m).
#[export] Instance eta_response : Settable message_handshake_response := λ m,
  mk_response (mr_sender_index m) (mr_receiver_index m) (mr_unencrypted_ephemeral m)
    (mr_encrypted_nothing m) (mr_mac1 m) (mr_mac2 m).

Definition initiation_bytes (m : message_handshake_initiation) : list Z :=
  le_bytes 4 MESSAGE_HANDSHAKE_INITIATION ++ le_bytes 4 (mi_sender_index m) ++
  mi_unencrypted_ephemeral m ++ mi_encrypted_static m ++ mi_encrypted_timestamp m ++ mi_mac1 m ++ mi_mac2 m.

Definition response_bytes (m : message_handshake_response) : list Z :=
  le_bytes 4 MESSAGE_HANDSHAKE_RESPONSE ++ le_bytes 4 (mr_sender_index m) ++
  le_bytes 4 (mr_receiver_index m) ++ mr_unencrypted_ephemeral m ++ mr_encrypted_nothing m ++
  mr_mac1 m ++ mr_mac2 m.

Definition cookie_bytes (m : message_handshake_cookie) : list Z :=
  le_bytes 4 MESSAGE_HANDSHAKE_COOKIE ++ le_bytes 4 (mc_receiver_index m) ++ mc_nonce m ++ mc_encrypted_cookie m.

(** The [n] bytes of a message from offset [off] on. *)
Definition field (off n : Z) (bs : list Z) : list Z := ztake n (zdrop off bs).

Definition initiation_of (bs : list Z) : message_handshake_initiation :=
  mk_initiation (le_val (field 4 4 bs)) (field 8 32 bs) (field 40 48 bs) (field 88 28 bs)
    (field 116 16 bs) (field 132 16 bs).

Definition response_of (bs : list Z) : message_handshake_response :=
  mk_response (le_val (field 4 4 bs)) (le_val (field 8 4 bs)) (field 12 32 bs) (field 44 16 bs)
    (field 60 16 bs) (field 76 16 bs).

Definition cookie_message_of (bs : list Z) : message_handshake_cookie :=
  mk_cookie_message (le_val (field 4 4 bs)) (field 8 24 bs) (field 32 32 bs).

(** A field of a message that is laid out as a sequence of fields. *)
Lemma memcmp_refl a : memcmp a a = 0.
Proof. induction a as [|x a IH]; [done|]. cbn. by rewrite Z.eqb_refl. Qed.

Lemma memcmp_antisym a b : memcmp b a = - memcmp a b.
Proof.
  revert b. induction a as [|x a IH]; intros [|y b]; cbn; [done..|].
  rewrite (Z.eqb_sym y x). destruct (x =? y); [apply IH|lia].
Qed.

Lemma memcmp_eq a b : zlen a = zlen b → memcmp a b = 0 → a = b.
Proof.
  unfold zlen. revert b. induction a as [|x a IH]; intros [|y b]; cbn [length memcmp]; [done|lia|lia|].
  intros Hl. destruct (Z.eqb_spec x y) as [->|]; [|lia]. intros H. f_equal. apply IH; [lia|done].
Qed.

Lemma memcmp_trans a b c :
  zlen a = zlen b → zlen b = zlen c → memcmp a b <= 0 → memcmp b c <= 0 → memcmp a c <= 0.
Proof.
  unfold zlen. revert b c. induction a as [|x a IH]; intros [|y b] [|z c]; cbn [length memcmp]; try (intros; lia).
  intros H1 H2. destruct (Z.eqb_spec x y), (Z.eqb_spec y z), (Z.eqb_spec x z); subst; try lia.
  intros. eapply (IH b c); lia.
Qed.

Lemma field_app off n l rest : zlen l <= off → field off n (l ++ rest) = field (off - zlen l) n rest.
Proof.
  intros Hl. unfold field, zdrop, zlen in *. rewrite drop_app, (drop_ge l) by lia. cbn [app].
  do 2 f_equal. lia.
Qed.

Lemma field_here n l rest : zlen l = n → field 0 n (l ++ rest) = l.
Proof. intros Hl. unfold field. rewrite zdrop_0. by apply ztake_app_length. Qed.

Lemma field_last n l : zlen l = n → field 0 n l = l.
Proof. intros Hl. unfold field. rewrite zdrop_0. apply ztake_all. lia. Qed.

Definition initiation_ok (m : message_handshake_initiation) : Prop :=
  0 <= mi_sender_index m < 2 ^ 32 ∧ zlen (mi_unencrypted_ephemeral m) = 32 ∧
  zlen (mi_encrypted_static m) = 48 ∧ zlen (mi_encrypted_timestamp m) = 28 ∧
  zlen (mi_mac1 m) = 16 ∧ zlen (mi_mac2 m) = 16.

Definition response_ok (m : message_handshake_response) : Prop :=
  0 <= mr_sender_index m < 2 ^ 32 ∧ 0 <= mr_receiver_index m < 2 ^ 32 ∧
  zlen (mr_unencrypted_ephemeral m) = 32 ∧ zlen (mr_encrypted_nothing m) = 16 ∧
  zlen (mr_mac1 m) = 16 ∧ zlen (mr_mac2 m) = 16.

Lemma word_at z rest : 0 <= z < 2 ^ 32 → le_val (field 0 4 (le_bytes 4 z ++ rest)) = z.
Proof. intros Hz. rewrite field_here by done. by apply le_bytes_val. Qed.

(** Reads a field of a layout whose field lengths are in the context. *)
Ltac read_field :=
  repeat (rewrite field_app by (rewrite ?zlen_le_bytes; zlia));
  rewrite ?zlen_le_bytes;
  repeat match goal with H : zlen ?l = _ |- context [zlen ?l] => rewrite H end;
  match goal with |- context [field ?o _ _] => ring_simplify o end;
  (apply field_here || apply field_last || apply word_at); done.

Lemma initiation_of_bytes m : initiation_ok m → initiation_of (initiation_bytes m) = m.
Proof.
  destruct m as [i e s t m1 m2]. intros (?&?&?&?&?&?). unfold initiation_of, initiation_bytes. cbn -[zlen Z.pow] in * |-.
  f_equal; cbn -[le_bytes field zlen]; read_field.
Qed.

Lemma response_of_bytes m : response_ok m → response_of (response_bytes m) = m.
Proof.
  destruct m as [i r e s m1 m2]. intros (?&?&?&?&?&?). unfold response_of, response_bytes. cbn -[zlen Z.pow] in * |-.
  f_equal; cbn -[le_bytes field zlen]; read_field.
Qed.
