(* ===== verification/Noise.v ===== *)
(** * Key derivation and mixing of the handshake (kernel/noise.c)

    The functions below the four handshake messages: HMAC and HKDF over BLAKE2s,
    and the operations on the chaining key and the transcript hash.  A function of
    the code that overwrites [chaining_key], [hash] or [key] returns the new
    values. *)
From stdpp Require Import prelude list.
From S2P Require Import Prelude Skb Crypto.

#[local] Open Scope Z_scope.

Definition BLAKE2S_BLOCK_SIZE := 64.
Definition BLAKE2S_HASH_SIZE := 32.
Definition INITIATIONS_PER_SECOND := 50.

(** "Noise_IKpsk2_25519_ChaChaPoly_BLAKE2s" *)
Definition handshake_name : list Z :=
  [78; 111; 105; 115; 101; 95; 73; 75; 112; 115; 107; 50; 95; 50; 53; 53; 49; 57; 95;
   67; 104; 97; 67; 104; 97; 80; 111; 108; 121; 95; 66; 76; 65; 75; 69; 50; 115].

(** "WireGuard v1 zx2c4 Jason@zx2c4.com" *)
Definition identifier_name : list Z :=
  [87; 105; 114; 101; 71; 117; 97; 114; 100; 32; 118; 49; 32; 122; 120; 50; 99; 52; 32;
   74; 97; 115; 111; 110; 64; 122; 120; 50; 99; 52; 46; 99; 111; 109].

(** ** The time stamp of an initiation *)
Definition rounddown_pow_of_two (n : Z) : Z := 2 ^ Z.log2 n.

(** [ALIGN_DOWN] for a power of two. *)
Definition ALIGN_DOWN (x a : Z) : Z := Z.land x (Z.lnot (a - 1)).

Definition tai64n_now (tv_sec tv_nsec : Z) : list Z :=
  let tv_nsec := ALIGN_DOWN tv_nsec (rounddown_pow_of_two (NSEC_PER_SEC / INITIATIONS_PER_SECOND)) in
  be_bytes 8 (u64 (0x400000000000000a + tv_sec)) ++ be_bytes 4 (u32 tv_nsec).

(** ** Data *)
Record noise_symmetric_key := mk_key {
  sk_key : list Z;
  sk_birthdate : Z;
  sk_is_valid : bool;
}.

#[export] Instance eta_symmetric_key : Settable noise_symmetric_key := λ k,
  mk_key (sk_key k) (sk_birthdate k) (sk_is_valid k).

Record noise_static_identity := mk_identity {
  si_static_public : list Z;
  si_static_private : list Z;
  si_has_identity : bool;
}.

Section noise.
Context {C : Crypto}.

(** ** HMAC and HKDF *)
Definition hmac (input key : list Z) : list Z :=
  let x_key := if BLAKE2S_BLOCK_SIZE <? zlen key then blake2s BLAKE2S_HASH_SIZE [] key else key in
  let x_key := x_key ++ replicate (Z.to_nat (BLAKE2S_BLOCK_SIZE - zlen x_key)) 0 in
  let x_key := Z.lxor 0x36 <$> x_key in
  let i_hash := blake2s BLAKE2S_HASH_SIZE [] (x_key ++ input) in
  let x_key := Z.lxor (Z.lxor 0x5c 0x36) <$> x_key in
  blake2s BLAKE2S_HASH_SIZE [] (x_key ++ i_hash).

(** The three outputs, of which a caller asks for the first ones.  Every
    requested length is the full [BLAKE2S_HASH_SIZE]. *)
Definition kdf (data chaining_key : list Z) : list Z * list Z * list Z :=
  let secret := hmac data chaining_key in
  let output := hmac [1] secret in
  let first_dst := output in
  let output := hmac (output ++ [2]) secret in
  let second_dst := output in
  let output := hmac (output ++ [3]) secret in
  let third_dst := output in
  (first_dst, second_dst, third_dst).

(** ** Mixing *)
Definition handshake_init_chaining_key : list Z := blake2s NOISE_HASH_LEN [] handshake_name.

Definition handshake_init_hash : list Z :=
  blake2s NOISE_HASH_LEN [] (handshake_init_chaining_key ++ identifier_name).

Definition mix_key (chaining_key data : list Z) : list Z * list Z :=
  let '(ck, key, _) := kdf data chaining_key in (ck, key).

(** The new chaining key and the key. *)
Definition mix_dh (chaining_key private public : list Z) : option (list Z * list Z) :=
  dh ← curve25519 private public; Some (mix_key chaining_key dh).

Definition mix_precomputed_dh (chaining_key precomputed : list Z) : option (list Z * list Z) :=
  if bool_decide (precomputed = zero_point) then None else Some (mix_key chaining_key precomputed).

Definition mix_hash (hash src : list Z) : list Z := blake2s NOISE_HASH_LEN [] (hash ++ src).

(** The new chaining key, hash and key. *)
Definition mix_psk (chaining_key hash psk : list Z) : list Z * list Z * list Z :=
  let '(ck, temp_hash, key) := kdf psk chaining_key in (ck, mix_hash hash temp_hash, key).

(** The initial chaining key and hash. *)
Definition handshake_init (remote_static : list Z) : list Z * list Z :=
  (handshake_init_chaining_key, mix_hash handshake_init_hash remote_static).

(** The ciphertext and the new hash. *)
Definition message_encrypt (plaintext key hash : list Z) : list Z * list Z :=
  let c := chacha20poly1305_encrypt key 0 hash plaintext in (c, mix_hash hash c).

Definition message_decrypt (ciphertext key hash : list Z) : option (list Z * list Z) :=
  p ← chacha20poly1305_decrypt key 0 hash ciphertext; Some (p, mix_hash hash ciphertext).

(** The new chaining key and hash. *)
Definition message_ephemeral (ephemeral chaining_key hash : list Z) : list Z * list Z :=
  let '(ck, _, _) := kdf ephemeral chaining_key in (ck, mix_hash hash ephemeral).

(** ** Session keys *)
(** The two keys derived from the chaining key. *)
Definition derive_keys (chaining_key : list Z) (now : Z) : noise_symmetric_key * noise_symmetric_key :=
  let '(first, second, _) := kdf [] chaining_key in
  (mk_key first now true, mk_key second now true).

(** ** Identity *)
(** A failing [curve25519_generate_public], which the null secret makes it, does
    not write the public key. *)
Definition wg_noise_set_static_identity_private_key (private_key : list Z) (id : noise_static_identity)
    : noise_static_identity :=
  match curve25519_generate_public private_key with
  | Some public => mk_identity public (curve25519_clamp_secret private_key) true
  | None => mk_identity (si_static_public id) (curve25519_clamp_secret private_key) false
  end.

Definition wg_noise_precompute_static_static (id : noise_static_identity) (remote_static : list Z) : list Z :=
  if si_has_identity id then default zero_point (curve25519 (si_static_private id) remote_static)
  else zero_point.

Context {Hok : CryptoOk C}.

Lemma message_decrypt_encrypt p k h :
  message_decrypt (message_encrypt p k h).1 k h = Some (p, (message_encrypt p k h).2).
Proof. unfold message_decrypt, message_encrypt. cbn. by rewrite chacha_decrypt_encrypt. Qed.

Lemma zlen_mix_hash h s : zlen (mix_hash h s) = 32.
Proof. by apply blake2s_len. Qed.

(** An identity made from a private key. *)
Definition identity_of (k : list Z) (id : noise_static_identity) : Prop :=
  ∃ id0, wg_noise_set_static_identity_private_key k id0 = id ∧ si_has_identity id = true.

Lemma identity_public k id :
  identity_of k id → curve25519_generate_public (si_static_private id) = Some (si_static_public id).
Proof.
  intros (id0&<-&Hid). revert Hid. unfold wg_noise_set_static_identity_private_key.
  destruct (curve25519_generate_public k) eqn:Hk; [|done]. cbn. by rewrite generate_public_clamp.
Qed.

(** Both ends compute the same shared secret. *)
Lemma dh_agree ka kb A B :
  curve25519_generate_public ka = Some A → curve25519_generate_public kb = Some B →
  curve25519 kb A = curve25519 ka B.
Proof. intros. by apply curve25519_comm. Qed.

Lemma static_static_agree ka kb A B :
  identity_of ka A → identity_of kb B →
  wg_noise_precompute_static_static B (si_static_public A) = wg_noise_precompute_static_static A (si_static_public B).
Proof.
  intros HA HB. pose proof (identity_public _ _ HA). pose proof (identity_public _ _ HB).
  destruct HA as (?&_&HA), HB as (?&_&HB). unfold wg_noise_precompute_static_static. rewrite HA, HB.
  by rewrite (dh_agree (si_static_private A) (si_static_private B) (si_static_public A) (si_static_public B)).
Qed.
End noise.
