(* ===== verification/Ratelimiter.v ===== *)
(** * Rate limit for handshakes (kernel/ratelimiter.c)

    A hash table of token buckets, one for each IPv4 address or IPv6 network of 64
    bits.  Entries that have been idle are collected.  The reference is a map of
    buckets that are never collected; collecting is not noticed because a bucket
    that has been idle that long is full. *)
From stdpp Require Import prelude list gmap.
From S2P Require Import Prelude Skb Net Crypto.

#[local] Open Scope Z_scope.

Definition PACKETS_PER_SECOND := 20.
Definition PACKETS_BURSTABLE := 5.
Definition PACKET_COST := NSEC_PER_SEC / PACKETS_PER_SECOND.
Definition TOKEN_MAX := PACKET_COST * PACKETS_BURSTABLE.

Record ratelimiter_entry := mk_rl_entry {
  re_last_time_ns : Z;
  re_tokens : Z;
  re_ip : Z;
  re_net : Z;
}.

#[export] Instance eta_rl_entry : Settable ratelimiter_entry := λ e,
  mk_rl_entry (re_last_time_ns e) (re_tokens e) (re_ip e) (re_net e).

(** The static variables of the file.  The buckets of a table are numbered;
    [rl_rcu] holds the entries that wait for a grace period. *)
Record ratelimiter := mk_ratelimiter {
  rl_init_refcnt : Z;
  rl_table_size : Z;
  rl_max_entries : Z;
  rl_total_entries : Z;
  rl_table_v4 : gmap Z (list ratelimiter_entry);
  rl_table_v6 : gmap Z (list ratelimiter_entry);
  rl_rcu : list ratelimiter_entry;
}.

#[export] Instance eta_ratelimiter : Settable ratelimiter := λ r,
  mk_ratelimiter (rl_init_refcnt r) (rl_table_size r) (rl_max_entries r) (rl_total_entries r)
    (rl_table_v4 r) (rl_table_v6 r) (rl_rcu r).

Definition bucket_of (t : gmap Z (list ratelimiter_entry)) (i : Z) : list ratelimiter_entry := default [] (t !! i).

(** ** Garbage collection *)
Definition entry_free (r : ratelimiter) : ratelimiter := r{{ rl_total_entries ::= λ n, n - 1 }}.

(** A grace period passes. *)
Definition free_waiting (r : ratelimiter) : ratelimiter :=
  (foldr (λ _, entry_free) r (rl_rcu r)){{ rl_rcu := [] }}.

(** Whether the collector takes an entry; without work it takes all. *)
Definition collects (work : bool) (now : Z) (e : ratelimiter_entry) : bool :=
  negb work || (NSEC_PER_SEC <? u64 (now - re_last_time_ns e)).

(** One bucket, under the lock of the table. *)
Definition gc_bucket (work : bool) (now i : Z) (r : ratelimiter) : ratelimiter :=
  let sweep t := (filter (λ e, negb (collects work now e)) (bucket_of t i), filter (λ e, collects work now e) (bucket_of t i)) in
  let '(keep4, out4) := sweep (rl_table_v4 r) in
  let '(keep6, out6) := sweep (rl_table_v6 r) in
  r{{ rl_table_v4 ::= <[i := keep4]>; rl_table_v6 ::= <[i := keep6]>; rl_rcu ::= λ l, out6 ++ out4 ++ l }}.

Definition wg_ratelimiter_gc_entries (work : bool) (now : Z) (r : ratelimiter) : ratelimiter :=
  foldl (λ r i, gc_bucket work now i r) r (seqZ 0 (rl_table_size r)).

(** ** Asking

    Each packet costs tokens; tokens come with time, up to a limit. *)
Definition take_token (now : Z) (e : ratelimiter_entry) : bool * ratelimiter_entry :=
  let tokens := Z.min TOKEN_MAX (u64 (re_tokens e + now - re_last_time_ns e)) in
  let ret := PACKET_COST <=? tokens in
  (ret, e{{ re_last_time_ns := now; re_tokens := if ret then tokens - PACKET_COST else tokens }}).

(** The first entry of the bucket for this address. *)
Fixpoint take_from (net ip now : Z) (l : list ratelimiter_entry) : option (bool * list ratelimiter_entry) :=
  match l with
  | [] => None
  | e :: l =>
      if (re_net e =? net) && (re_ip e =? ip)
      then let '(ret, e) := take_token now e in Some (ret, e :: l)
      else '(ret, l) ← take_from net ip now l; Some (ret, e :: l)
  end.

(** ** Life cycle

    [ram] is the memory of the machine in bytes; the last arguments say which
    allocations succeed. *)
Definition roundup_pow_of_two (n : Z) : Z := 2 ^ Z.log2_up n.

Definition rl_table_size_for (ram : Z) : Z :=
  if 2 ^ 30 <? ram then 8192 else Z.max 16 (roundup_pow_of_two (ram / 2 ^ 14 / 8)).

Definition wg_ratelimiter_init (ram : Z) (cache v4 v6 : bool) (r : ratelimiter) : Z * ratelimiter :=
  let r := r{{ rl_init_refcnt ::= λ n, u64 (n + 1) }} in
  if negb (rl_init_refcnt r =? 1) then (0, r)
  else
    let fail r := (- ENOMEM, r{{ rl_init_refcnt ::= λ n, u64 (n - 1) }}) in
    if negb cache then fail r
    else
      let size := rl_table_size_for ram in
      let r := r{{ rl_table_size := size; rl_max_entries := size * 8 }} in
      if negb v4 then fail r
      else if negb v6 then fail r
      else (0, r{{ rl_table_v4 := ∅; rl_table_v6 := ∅ }}).

Definition wg_ratelimiter_uninit (now : Z) (r : ratelimiter) : ratelimiter :=
  if rl_init_refcnt r =? 0 then r
  else
    let r := r{{ rl_init_refcnt ::= λ n, u64 (n - 1) }} in
    if negb (rl_init_refcnt r =? 0) then r
    else free_waiting (wg_ratelimiter_gc_entries false now r).

Section asking.
Context (hsiphash_2u32 : Z → Z → Z) (hsiphash_3u32 : Z → Z → Z → Z).

(** The family and the address of a packet: of an IPv6 address only the upper
    half, so that a network shares its limit. *)
Definition source_ip (skb : sk_buff) : option (bool * Z) :=
  if skb_protocol skb =? ETH_P_IP then Some (false, le_val (field 12 4 (skb_at skb (skb_network_header skb))))
  else if skb_protocol skb =? ETH_P_IPV6 then Some (true, le_val (field 8 8 (skb_at skb (skb_network_header skb))))
  else None.

Definition hash_bucket (v6 : bool) (table_size net ip : Z) : Z :=
  let net_word := u32 net in
  Z.land (if v6 then hsiphash_3u32 net_word (u32 (Z.shiftr ip 32)) (u32 ip) else hsiphash_2u32 net_word (u32 ip))
    (table_size - 1).

Definition rl_table (v6 : bool) (r : ratelimiter) : gmap Z (list ratelimiter_entry) :=
  if v6 then rl_table_v6 r else rl_table_v4 r.

Definition set_bucket (v6 : bool) (i : Z) (l : list ratelimiter_entry) (r : ratelimiter) : ratelimiter :=
  if v6 then r{{ rl_table_v6 ::= <[i := l]> }} else r{{ rl_table_v4 ::= <[i := l]> }}.

(** [alloc] says whether the entry can be allocated. *)
Definition wg_ratelimiter_allow (skb : sk_buff) (net now : Z) (alloc : bool) (r : ratelimiter) : bool * ratelimiter :=
  match source_ip skb with
  | None => (false, r)
  | Some (v6, ip) =>
      let i := hash_bucket v6 (rl_table_size r) net ip in
      let bucket := bucket_of (rl_table v6 r) i in
      match take_from net ip now bucket with
      | Some (ret, bucket) => (ret, set_bucket v6 i bucket r)
      | None =>
          let r := r{{ rl_total_entries ::= λ n, n + 1 }} in
          if (rl_max_entries r <? rl_total_entries r) || negb alloc
          then (false, r{{ rl_total_entries ::= λ n, n - 1 }})
          else (true, set_bucket v6 i (mk_rl_entry now (TOKEN_MAX - PACKET_COST) ip net :: bucket) r)
      end
  end.

(** ** The reference: buckets that stay

    A source is its family, network namespace and address; its bucket is the time
    it was last asked and its tokens then. *)
Abbreviation source := (bool * Z * Z)%type.

Definition spec_take (now : Z) (b : option (Z * Z)) : bool * (Z * Z) :=
  match b with
  | None => (true, (now, TOKEN_MAX - PACKET_COST))
  | Some (last, tokens) =>
      let tokens := Z.min TOKEN_MAX (tokens + now - last) in
      if PACKET_COST <=? tokens then (true, (now, tokens - PACKET_COST)) else (false, (now, tokens))
  end.

Definition entry_for (net ip : Z) (l : list ratelimiter_entry) : option ratelimiter_entry :=
  find (λ e, (re_net e =? net) && (re_ip e =? ip)) l.

Definition rl_entry (x : source) (r : ratelimiter) : option ratelimiter_entry :=
  let '(v6, net, ip) := x in entry_for net ip (bucket_of (rl_table v6 r) (hash_bucket v6 (rl_table_size r) net ip)).

(** ** Runs: questions, collections of a bucket, and grace periods

    The reference sees a question when the source has an entry afterwards; the
    packets let through are logged with their source and time. *)
Inductive rl_op :=
  | RlAllow (skb : sk_buff) (net now : Z) (alloc : bool)
  | RlCollect (i now : Z)
  | RlGrace.

Record rl_world := mk_rl_world {
  rw_limiter : ratelimiter;
  rw_buckets : gmap source (Z * Z);
  rw_passed : list (source * Z);
}.

Definition rl_step (w : rl_world) (o : rl_op) : rl_world :=
  let r := rw_limiter w in
  match o with
  | RlAllow skb net now alloc =>
      let '(ret, r') := wg_ratelimiter_allow skb net now alloc r in
      match source_ip skb with
      | None => mk_rl_world r' (rw_buckets w) (rw_passed w)
      | Some (v6, ip) =>
          let x := (v6, net, ip) in
          mk_rl_world r'
            (if bool_decide (is_Some (rl_entry x r')) then <[x := (spec_take now (rw_buckets w !! x)).2]> (rw_buckets w) else rw_buckets w)
            (rw_passed w ++ if ret then [(x, now)] else [])
      end
  | RlCollect i now => mk_rl_world (gc_bucket true now i r) (rw_buckets w) (rw_passed w)
  | RlGrace => mk_rl_world (free_waiting r) (rw_buckets w) (rw_passed w)
  end.

Definition rl_time (t : Z) (o : rl_op) : Z :=
  match o with RlAllow _ _ now _ | RlCollect _ now => now | RlGrace => t end.

(** Time does not go back, also not between a collection and the questions before
    it, and stays below 2^63 nanoseconds. *)
Fixpoint times_ok (t : Z) (os : list rl_op) : Prop :=
  match os with
  | [] => True
  | o :: os => t <= rl_time t o < 2 ^ 63 ∧ times_ok (rl_time t o) os
  end.

(** ** Facts about one bucket of the table *)
Definition entry_key (e : ratelimiter_entry) : Z * Z := (re_net e, re_ip e).

Lemma entry_for_Some net ip l e : entry_for net ip l = Some e → e ∈ l ∧ entry_key e = (net, ip).
Proof.
  intros H. apply find_some in H as [Hin Hm]. apply andb_true_iff in Hm as [?%Z.eqb_eq ?%Z.eqb_eq].
  split; [by apply list_elem_of_In|]. unfold entry_key. congruence.
Qed.

Lemma entry_for_cons net ip e l :
  entry_for net ip (e :: l) = if bool_decide (entry_key e = (net, ip)) then Some e else entry_for net ip l.
Proof.
  unfold entry_for, entry_key. cbn. destruct (Z.eqb_spec (re_net e) net), (Z.eqb_spec (re_ip e) ip); cbn; subst;
    case_bool_decide as H; naive_solver.
Qed.

(** Taking from a bucket changes the entry of the address and no other. *)
Lemma take_from_spec net ip now l :
  match entry_for net ip l, take_from net ip now l with
  | None, None => True
  | Some e, Some (ret, l') => ret = (take_token now e).1 ∧ entry_key <$> l' = entry_key <$> l ∧
      ∀ n i, entry_for n i l' = if bool_decide ((n, i) = (net, ip)) then Some (take_token now e).2 else entry_for n i l
  | _, _ => False
  end.
Proof.
  induction l as [|e l IH]; [done|]. rewrite entry_for_cons. cbn [take_from].
  assert (Hm : (re_net e =? net) && (re_ip e =? ip) = bool_decide (entry_key e = (net, ip))).
  { unfold entry_key. destruct (Z.eqb_spec (re_net e) net), (Z.eqb_spec (re_ip e) ip); cbn; case_bool_decide; naive_solver. }
  rewrite Hm. case_bool_decide as Hk.
  - assert (Hsame : entry_key (take_token now e).2 = entry_key e) by done. destruct (take_token now e) as [ret e'].
    cbn [fst snd] in *. split_and!; [done|by rewrite !fmap_cons, Hsame|]. intros n i. rewrite !entry_for_cons, Hsame, Hk.
    case_bool_decide as H1; case_bool_decide as H2; naive_solver.
  - destruct (entry_for net ip l) as [f|], (take_from net ip now l) as [[ret l']|]; cbn [mbind option_bind]; try done.
    destruct IH as (->&Hkeys&Hf). split_and!; [done|by rewrite !fmap_cons, Hkeys|]. intros n i. rewrite !entry_for_cons, Hf.
    case_bool_decide as H1; [|done]. rewrite bool_decide_eq_false_2 by congruence. done.
Qed.

(** With one entry for an address, filtering drops it or keeps it. *)
Lemma entry_for_filter (P : ratelimiter_entry → bool) net ip l :
  NoDup (entry_key <$> l) →
  entry_for net ip (filter (λ e, P e) l) = match entry_for net ip l with Some e => if P e then Some e else None | None => None end.
Proof.
  induction l as [|e l IH]; [done|]. cbn [fmap list_fmap]. intros [Hno Hnd]%NoDup_cons. rewrite filter_cons, entry_for_cons.
  case_decide as HP; [rewrite entry_for_cons|]; case_bool_decide as Hk; rewrite ?IH by done; [|done| |done].
  - destruct (P e); [done|by destruct HP].
  - destruct (entry_for net ip l) as [f|] eqn:Hf.
    + apply entry_for_Some in Hf as [Hin Hf]. destruct Hno. rewrite Hk, <- Hf. by apply list_elem_of_fmap_2.
    + destruct (P e); [by destruct HP|done].
Qed.

(** ** Facts about the tables *)
Lemma bucket_of_insert t i j l : bucket_of (<[i := l]> t) j = if bool_decide (i = j) then l else bucket_of t j.
Proof. unfold bucket_of. rewrite lookup_insert. by do 2 case_decide || case_bool_decide; simplify_eq. Qed.

Lemma bucket_set v6 i l r w6 j :
  bucket_of (rl_table w6 (set_bucket v6 i l r)) j =
    if bool_decide ((v6, i) = (w6, j)) then l else bucket_of (rl_table w6 r) j.
Proof.
  destruct v6, w6; cbn; rewrite ?bucket_of_insert; repeat case_bool_decide; simplify_eq; done.
Qed.

Definition table_count (t : gmap Z (list ratelimiter_entry)) : Z := map_fold (λ _ l n, zlen l + n) 0 t.

Lemma table_count_insert t i l : table_count (<[i := l]> t) = table_count t - zlen (bucket_of t i) + zlen l.
Proof.
  assert (Hd : ∀ t : gmap Z (list ratelimiter_entry), t !! i = None → ∀ l, table_count (<[i := l]> t) = zlen l + table_count t).
  { intros t' Hi l'. unfold table_count. apply (map_fold_insert_L (λ _ l n, zlen l + n)); [intros; lia|done]. }
  unfold bucket_of. destruct (t !! i) as [l0|] eqn:Hi; cbn [default from_option id].
  - pose proof (Hd (delete i t) (lookup_delete_eq t i) l0) as H0. rewrite insert_delete_id in H0 by done.
    pose proof (Hd (delete i t) (lookup_delete_eq t i) l) as H1. rewrite insert_delete_eq in H1. lia.
  - rewrite Hd by done. change (zlen (@nil ratelimiter_entry)) with 0. lia.
Qed.

Definition rl_counted (r : ratelimiter) : Z := table_count (rl_table_v4 r) + table_count (rl_table_v6 r) + zlen (rl_rcu r).

Lemma counted_set v6 i l r :
  rl_counted (set_bucket v6 i l r) = rl_counted r - zlen (bucket_of (rl_table v6 r) i) + zlen l.
Proof. destruct v6; unfold rl_counted; cbn; rewrite table_count_insert; lia. Qed.

Lemma filter_split_len (P : ratelimiter_entry → bool) l :
  zlen (filter (λ e, negb (P e)) l) + zlen (filter (λ e, P e) l) = zlen l.
Proof.
  induction l as [|e l IH]; [done|]. rewrite !filter_cons, zlen_cons.
  repeat case_decide; destruct (P e); cbn in *; rewrite ?zlen_cons; (lia || tauto).
Qed.

Lemma counted_gc work now i r : rl_counted (gc_bucket work now i r) = rl_counted r.
Proof.
  unfold rl_counted, gc_bucket. cbn. rewrite !table_count_insert, !zlen_app.
  pose proof (filter_split_len (collects work now) (bucket_of (rl_table_v4 r) i)).
  pose proof (filter_split_len (collects work now) (bucket_of (rl_table_v6 r) i)). lia.
Qed.

Lemma bucket_gc work now i r v6 j :
  bucket_of (rl_table v6 (gc_bucket work now i r)) j =
    if bool_decide (i = j) then filter (λ e, negb (collects work now e)) (bucket_of (rl_table v6 r) j) else bucket_of (rl_table v6 r) j.
Proof. destruct v6; cbn; rewrite bucket_of_insert; case_bool_decide; by subst. Qed.

Lemma free_waiting_total r : rl_total_entries (free_waiting r) = rl_total_entries r - zlen (rl_rcu r).
Proof.
  unfold free_waiting. change (rl_total_entries (set rl_rcu _ ?x)) with (rl_total_entries x). generalize (rl_rcu r).
  induction l as [|e l IH]; [change (zlen (@nil ratelimiter_entry)) with 0; cbn; lia|]. rewrite zlen_cons. cbn. lia.
Qed.

Lemma free_waiting_tables r :
  rl_table_v4 (free_waiting r) = rl_table_v4 r ∧ rl_table_v6 (free_waiting r) = rl_table_v6 r ∧
  rl_table_size (free_waiting r) = rl_table_size r ∧ rl_max_entries (free_waiting r) = rl_max_entries r ∧ rl_rcu (free_waiting r) = [].
Proof.
  assert (H : ∀ (l : list ratelimiter_entry) r, rl_table_v4 (foldr (λ _, entry_free) r l) = rl_table_v4 r ∧ rl_table_v6 (foldr (λ _, entry_free) r l) = rl_table_v6 r ∧
    rl_table_size (foldr (λ _, entry_free) r l) = rl_table_size r ∧ rl_max_entries (foldr (λ _, entry_free) r l) = rl_max_entries r).
  { induction l as [|e l IH]; intros r'; [done|]. cbn. apply IH. }
  destruct (H (rl_rcu r) r) as (?&?&?&?). by split_and!.
Qed.

(** ** Tokens over time *)
Lemma limits : PACKET_COST = 50000000 ∧ TOKEN_MAX = 250000000 ∧ NSEC_PER_SEC = 1000000000.
Proof. done. Qed.

Lemma take_token_spec now e :
  0 <= re_last_time_ns e <= now → now < 2 ^ 63 → 0 <= re_tokens e <= TOKEN_MAX →
  let '(ret, (last, tokens)) := spec_take now (Some (re_last_time_ns e, re_tokens e)) in
  (take_token now e).1 = ret ∧ re_last_time_ns (take_token now e).2 = last ∧ re_tokens (take_token now e).2 = tokens.
Proof.
  destruct limits as (Hc&Hm&_). intros Hl Hn Ht. unfold take_token, spec_take, u64. rewrite wrap_small by lia.
  by destruct (PACKET_COST <=? _).
Qed.

(** A bucket that was idle for a second is full. *)
Lemma spec_take_idle now last tokens :
  last + NSEC_PER_SEC < now → 0 <= tokens → spec_take now (Some (last, tokens)) = (true, (now, TOKEN_MAX - PACKET_COST)).
Proof.
  destruct limits as (Hc&Hm&Hs). intros Hl Ht. unfold spec_take. rewrite Z.min_l by lia. by rewrite (proj2 (Z.leb_le _ _)) by lia.
Qed.

Lemma spec_take_range now b :
  (∀ last tokens, b = Some (last, tokens) → 0 <= tokens ∧ last <= now) →
  let '(ret, (last, tokens)) := spec_take now b in
  last = now ∧ 0 <= tokens <= TOKEN_MAX ∧
  (∀ l0 t0, b = Some (l0, t0) → tokens + (if ret then PACKET_COST else 0) <= t0 + (now - l0)) ∧
  (ret = true → tokens + PACKET_COST <= TOKEN_MAX).
Proof.
  destruct limits as (Hc&Hm&_). intros Hb. unfold spec_take. destruct b as [[l0 t0]|].
  - destruct (Hb l0 t0 eq_refl). destruct (Z.leb_spec PACKET_COST (Z.min TOKEN_MAX (t0 + now - l0)));
      (split_and!; [done|lia|lia| |]); [intros ? ? [= <- <-]; lia|lia|intros ? ? [= <- <-]; lia|done].
  - split_and!; [done|lia|lia|done|lia].
Qed.

(** The times at which packets of a source were let through. *)
Definition passed_at (x : source) (g : list (source * Z)) : list Z := (filter (λ p, p.1 = x) g).*2.

Lemma passed_at_app x g h : passed_at x (g ++ h) = passed_at x g ++ passed_at x h.
Proof. unfold passed_at. by rewrite filter_app, fmap_app. Qed.

(** What a source has used since an earlier packet is covered by time and by a full
    bucket. *)
Record paced (b : option (Z * Z)) (ts : list Z) : Prop := {
  pc_none : b = None → ts = [];
  pc_covered : ∀ last tokens i a, b = Some (last, tokens) → ts !! i = Some a →
    PACKET_COST * (zlen ts - Z.of_nat i) + tokens <= TOKEN_MAX + (last - a);
  pc_spaced : ∀ i j a c, (i <= j)%nat → ts !! i = Some a → ts !! j = Some c →
    PACKET_COST * (Z.of_nat j - Z.of_nat i + 1) <= TOKEN_MAX + (c - a);
}.

Lemma paced_take now b ts :
  (∀ last tokens, b = Some (last, tokens) → 0 <= tokens ∧ last <= now) →
  paced b ts → let '(ret, b') := spec_take now b in paced (Some b') (ts ++ if ret then [now] else []).
Proof.
  intros Hb [P1 P2 P3]. pose proof (spec_take_range now b Hb) as Hr. destruct (spec_take now b) as [ret [last tokens]].
  destruct Hr as (->&Ht&Huse&Hfull). destruct limits as (Hc&Hm&_).
  assert (Hold : ∀ i a, ts !! i = Some a →
    PACKET_COST * (zlen ts - Z.of_nat i) + tokens + (if ret then PACKET_COST else 0) <= TOKEN_MAX + (now - a)).
  { intros i a Hi. destruct b as [[l0 t0]|]; [|by rewrite P1 in Hi]. specialize (P2 l0 t0 i a eq_refl Hi).
    specialize (Huse l0 t0 eq_refl). lia. }
  destruct ret.
  2: { rewrite app_nil_r. split; [done| |done]. intros l tk i a [= <- <-] Hi. specialize (Hold i a Hi). lia. }
  specialize (Hfull eq_refl). assert (Hlen : ∀ i a, (ts ++ [now]) !! i = Some a → ts !! i = Some a ∨ i = length ts ∧ a = now).
  { intros i a [Hi|[Hge Hi]]%lookup_app_Some; [by left|right]. apply list_lookup_singleton_Some in Hi as [? ?]. lia. }
  split; [done| |].
  - intros l tk i a [= <- <-] [Hi|[-> ->]]%Hlen; rewrite zlen_app; change (zlen [now]) with 1; [specialize (Hold i a Hi); lia|].
    unfold zlen. lia.
  - intros i j a c Hij [Hi|[-> ->]]%Hlen [Hj|[-> ->]]%Hlen; [by eapply P3| |apply lookup_lt_Some in Hj; lia|lia].
    specialize (Hold i a Hi). unfold zlen in Hold. lia.
Qed.

(** ** The invariant *)
Definition tracks (t : Z) (e : option ratelimiter_entry) (b : option (Z * Z)) : Prop :=
  match e with
  | Some e => b = Some (re_last_time_ns e, re_tokens e)
  | None => ∀ last tokens, b = Some (last, tokens) → last + NSEC_PER_SEC < t
  end.

Record rl_inv (t : Z) (w : rl_world) : Prop := {
  rv_time : 0 <= t;
  rv_keys : ∀ v6 i, NoDup (entry_key <$> bucket_of (rl_table v6 (rw_limiter w)) i);
  rv_tracks : ∀ x, tracks t (rl_entry x (rw_limiter w)) (rw_buckets w !! x);
  rv_range : ∀ x last tokens, rw_buckets w !! x = Some (last, tokens) → 0 <= last <= t ∧ 0 <= tokens <= TOKEN_MAX;
  rv_paced : ∀ x, paced (rw_buckets w !! x) (passed_at x (rw_passed w));
  rv_total : rl_total_entries (rw_limiter w) = rl_counted (rw_limiter w);
  rv_max : rl_total_entries (rw_limiter w) <= rl_max_entries (rw_limiter w);
}.

Lemma tracks_later t t' e b : t <= t' → tracks t e b → tracks t' e b.
Proof. intros Ht. destruct e; cbn; [done|]. intros H last tokens Hb. specialize (H _ _ Hb). lia. Qed.

(** Collecting is not noticed. *)
Lemma rl_inv_collect t w i now :
  rl_inv t w → t <= now < 2 ^ 63 → rl_inv now (rl_step w (RlCollect i now)).
Proof.
  intros [I0 I1 I2 I3 I4 I5 I6] Hnow. split; cbn [rl_step rw_limiter rw_buckets rw_passed]; [lia|..].
  - intros v6 j. rewrite bucket_gc. case_bool_decide; [|done].
    eapply sublist_NoDup; [apply I1|apply fmap_sublist, sublist_filter].
  - intros [[v6 net] ip]. specialize (I2 (v6, net, ip)). cbn [rl_entry] in *.
    change (rl_table_size (gc_bucket true now i (rw_limiter w))) with (rl_table_size (rw_limiter w)).
    rewrite bucket_gc. set (j := hash_bucket _ _ _ _) in *. case_bool_decide as Hij; [|by apply (tracks_later t); [lia|]].
    rewrite entry_for_filter by apply I1. destruct (entry_for net ip _) as [e|] eqn:He; [|by apply (tracks_later t); [lia|]].
    cbn in I2. destruct (collects true now e) eqn:Hcol; cbn [negb]; [|done]. cbn. intros last tokens Hb.
    destruct (I3 _ _ _ Hb) as [Hl _]. rewrite I2 in Hb. injection Hb as <- <-. unfold collects, u64 in Hcol. cbn [negb orb] in Hcol.
    rewrite wrap_small in Hcol by lia. apply Z.ltb_lt in Hcol. lia.
  - intros x last tokens Hb. destruct (I3 x last tokens Hb). lia.
  - done.
  - rewrite counted_gc. exact I5.
  - exact I6.
Qed.

Lemma rl_inv_grace t w : rl_inv t w → rl_inv t (rl_step w RlGrace).
Proof.
  intros [I0 I1 I2 I3 I4 I5 I6]. destruct (free_waiting_tables (rw_limiter w)) as (H4&H6&Hs&Hm&Hr).
  assert (Ht : ∀ v6, rl_table v6 (free_waiting (rw_limiter w)) = rl_table v6 (rw_limiter w)) by (intros []; done).
  split; cbn [rl_step rw_limiter rw_buckets rw_passed]; [done|..].
  - intros v6 i. rewrite Ht. apply I1.
  - intros [[v6 net] ip]. specialize (I2 (v6, net, ip)). cbn [rl_entry] in *. by rewrite Ht, Hs.
  - done.
  - done.
  - rewrite free_waiting_total, I5. unfold rl_counted. rewrite H4, H6, Hr. change (zlen (@nil ratelimiter_entry)) with 0. lia.
  - rewrite free_waiting_total, Hm. pose proof (zlen_nonneg (rl_rcu (rw_limiter w))). lia.
Qed.

(** ** Asking *)
Lemma rl_entry_set v6 net ip l r e' :
  let i := hash_bucket v6 (rl_table_size r) net ip in
  (∀ n k, entry_for n k l = if bool_decide ((n, k) = (net, ip)) then e' else entry_for n k (bucket_of (rl_table v6 r) i)) →
  ∀ y, rl_entry y (set_bucket v6 i l r) = if bool_decide (y = (v6, net, ip)) then e' else rl_entry y r.
Proof.
  intros i Hl [[w6 n] k]. cbn [rl_entry]. replace (rl_table_size (set_bucket v6 i l r)) with (rl_table_size r) by (by destruct v6).
  rewrite bucket_set. case_bool_decide as Hb.
  - injection Hb as -> Hi. rewrite Hl, <- Hi. repeat case_bool_decide; naive_solver.
  - rewrite bool_decide_eq_false_2; [done|]. intros [= -> -> ->]. done.
Qed.

Lemma set_bucket_total v6 i l r : rl_total_entries (set_bucket v6 i l r) = rl_total_entries r.
Proof. by destruct v6. Qed.

Lemma set_bucket_max v6 i l r : rl_max_entries (set_bucket v6 i l r) = rl_max_entries r.
Proof. by destruct v6. Qed.

Lemma rl_set_keys v6 i l r :
  (∀ w6 j, NoDup (entry_key <$> bucket_of (rl_table w6 r) j)) → NoDup (entry_key <$> l) →
  ∀ w6 j, NoDup (entry_key <$> bucket_of (rl_table w6 (set_bucket v6 i l r)) j).
Proof. intros Hr Hl w6 j. rewrite bucket_set. by case_bool_decide. Qed.

(** What the limiter answers and what becomes of its entries. *)
Inductive answered (x : source) (now : Z) (alloc : bool) (b : option (Z * Z)) (r : ratelimiter) : bool → ratelimiter → Prop :=
  | answer_bucket e' r' :
      (∀ y, rl_entry y r' = if bool_decide (y = x) then Some e' else rl_entry y r) →
      (∀ w6 j, NoDup (entry_key <$> bucket_of (rl_table w6 r') j)) →
      rl_total_entries r' - rl_counted r' = rl_total_entries r - rl_counted r → rl_total_entries r' <= rl_max_entries r' →
      (re_last_time_ns e', re_tokens e') = (spec_take now b).2 →
      answered x now alloc b r (spec_take now b).1 r'
  | answer_no_room :
      rl_entry x r = None → alloc = false ∨ rl_max_entries r <= rl_total_entries r →
      answered x now alloc b r false r.

(** A source without an entry gets a new one. *)
Lemma answered_new v6 net ip now alloc b r :
  let x := (v6, net, ip) in
  let i := hash_bucket v6 (rl_table_size r) net ip in
  (∀ w6 j, NoDup (entry_key <$> bucket_of (rl_table w6 r) j)) →
  rl_entry x r = None → rl_total_entries r + 1 <= rl_max_entries r →
  spec_take now b = (true, (now, TOKEN_MAX - PACKET_COST)) →
  answered x now alloc b r (spec_take now b).1
    (set_bucket v6 i (mk_rl_entry now (TOKEN_MAX - PACKET_COST) ip net :: bucket_of (rl_table v6 r) i)
       (r{{ rl_total_entries ::= λ n, n + 1 }})).
Proof.
  intros x i I1 He Hroom Es. set (bk := bucket_of (rl_table v6 r) i). change (entry_for net ip bk = None) in He.
  set (r1 := r{{ rl_total_entries ::= λ n, n + 1 }}). set (e' := mk_rl_entry now (TOKEN_MAX - PACKET_COST) ip net).
  apply (answer_bucket _ _ _ _ _ e').
  - intros y. transitivity (if bool_decide (y = (v6, net, ip)) then Some e' else rl_entry y r1); [|by destruct y as [[[] ?] ?]].
    apply (rl_entry_set v6 net ip _ r1). intros n k. rewrite entry_for_cons. change (entry_key e') with (net, ip).
    do 2 case_bool_decide; try done; naive_solver.
  - apply rl_set_keys; [intros [] j; [apply (I1 true j)|apply (I1 false j)]|].
    rewrite fmap_cons. apply NoDup_cons. split; [|apply I1]. change (entry_key e') with (net, ip).
    intros (f&Hf&Hin)%list_elem_of_fmap. apply (find_none _ bk) with (x := f) in He; [|by apply list_elem_of_In].
    unfold entry_key in Hf. injection Hf as H1 H2. by rewrite <- H1, <- H2, !Z.eqb_refl in He.
  - rewrite counted_set, zlen_cons. change (rl_counted r1) with (rl_counted r).
    replace (bucket_of (rl_table v6 r1) i) with bk by (by destruct v6).
    rewrite set_bucket_total. change (rl_total_entries r1) with (rl_total_entries r + 1). lia.
  - rewrite set_bucket_total, set_bucket_max. change (rl_total_entries r1) with (rl_total_entries r + 1).
    change (rl_max_entries r1) with (rl_max_entries r). lia.
  - by rewrite Es.
Qed.

Lemma allow_answered t w skb net now alloc v6 ip :
  rl_inv t w → t <= now < 2 ^ 63 → source_ip skb = Some (v6, ip) →
  let x := (v6, net, ip) in
  let '(ret, r') := wg_ratelimiter_allow skb net now alloc (rw_limiter w) in
  answered x now alloc (rw_buckets w !! x) (rw_limiter w) ret r'.
Proof.
  intros [I0 I1 I2 I3 I4 I5 I6] Hnow Hsrc x. specialize (I2 x). pose proof (I3 x) as I3x. unfold wg_ratelimiter_allow. rewrite Hsrc.
  set (r := rw_limiter w) in *. set (i := hash_bucket v6 (rl_table_size r) net ip). set (b := bucket_of (rl_table v6 r) i).
  pose proof (take_from_spec net ip now b) as Htake. change (rl_entry x r) with (entry_for net ip b) in I2.
  destruct (entry_for net ip b) as [e|] eqn:He; destruct (take_from net ip now b) as [[ret l']|]; try done.
  - destruct Htake as (->&Hkeys&Hl'). cbn in I2. destruct (I3x _ _ I2) as [Hlast Htok].
    pose proof (take_token_spec now e ltac:(lia) ltac:(lia) Htok) as Hspec. rewrite <- I2 in Hspec.
    destruct (spec_take now (rw_buckets w !! x)) as [ret [last tokens]] eqn:Es. destruct Hspec as (->&H1&H2).
    change ret with (ret, (last, tokens)).1. rewrite <- Es. apply (answer_bucket _ _ _ _ _ (take_token now e).2).
    + by apply rl_entry_set.
    + apply rl_set_keys; [done|]. rewrite Hkeys. apply I1.
    + rewrite counted_set, set_bucket_total. fold b. assert (zlen l' = zlen b) as ->; [|lia].
      apply (f_equal length) in Hkeys. rewrite !length_fmap in Hkeys. unfold zlen. lia.
    + by rewrite set_bucket_total, set_bucket_max.
    + rewrite Es. cbn [snd]. congruence.
  - change (rl_max_entries (set rl_total_entries _ r)) with (rl_max_entries r).
    change (rl_total_entries (set rl_total_entries _ r)) with (rl_total_entries r + 1).
    assert (Hback : (r{{ rl_total_entries ::= λ n, n + 1 }}){{ rl_total_entries ::= λ n, n - 1 }} = r)
      by (destruct r; unfold set; cbn; f_equal; lia).
    destruct (Z.ltb_spec (rl_max_entries r) (rl_total_entries r + 1)); cbn [orb];
      [rewrite Hback; apply answer_no_room; [done|right; lia]|].
    destruct alloc; cbn [negb]; [|rewrite Hback; apply answer_no_room; [done|by left]].
    assert (Es : spec_take now (rw_buckets w !! x) = (true, (now, TOKEN_MAX - PACKET_COST))).
    { cbn in I2. destruct (rw_buckets w !! x) as [[last tokens]|]; [|done]. specialize (I2 _ _ eq_refl). destruct (I3x _ _ eq_refl).
      apply spec_take_idle; lia. }
    replace true with (spec_take now (rw_buckets w !! x)).1 by (by rewrite Es).
    by apply answered_new.
Qed.

Lemma rl_inv_allow t w skb net now alloc :
  rl_inv t w → t <= now < 2 ^ 63 → rl_inv now (rl_step w (RlAllow skb net now alloc)).
Proof.
  intros Hinv Hnow. pose proof (λ v6 ip, allow_answered t w skb net now alloc v6 ip Hinv Hnow) as Hans.
  destruct Hinv as [I0 I1 I2 I3 I4 I5 I6]. cbn [rl_step].
  assert (Hlater : ∀ p, p = rw_passed w → rl_inv now (mk_rl_world (rw_limiter w) (rw_buckets w) p)).
  { intros p ->. split; try done; [lia|intros x; eapply tracks_later, I2; lia|].
    intros x last tokens Hb. destruct (I3 x last tokens Hb). cbn in *. lia. }
  destruct (source_ip skb) as [[v6 ip]|] eqn:Hsrc.
  2: { unfold wg_ratelimiter_allow. rewrite Hsrc. by apply Hlater. }
  specialize (Hans v6 ip eq_refl). set (x := (v6, net, ip)) in *.
  destruct (wg_ratelimiter_allow skb net now alloc (rw_limiter w)) as [ret r'].
  destruct Hans as [e' r' Hent Hkeys Htot Hmax He'|Hno _].
  2: { rewrite bool_decide_eq_false_2 by (rewrite Hno; by intros []). apply Hlater. apply app_nil_r. }
  rewrite bool_decide_eq_true_2 by (rewrite Hent, bool_decide_eq_true_2 by done; by eexists).
  assert (Hb : ∀ last tokens, rw_buckets w !! x = Some (last, tokens) → 0 <= tokens ∧ last <= now)
    by (intros last tokens Hb; destruct (I3 x last tokens Hb); lia).
  pose proof (spec_take_range now _ Hb) as Hrange. pose proof (paced_take now _ _ Hb (I4 x)) as Hpace.
  destruct (spec_take now (rw_buckets w !! x)) as [ret' [last' tokens']]. cbn [fst snd] in *.
  destruct Hrange as (->&Htok'&_).
  split; cbn [rw_limiter rw_buckets rw_passed]; [lia|done| | | |lia|done].
  - intros y. rewrite Hent, lookup_insert. case_bool_decide as Hy; [subst y; rewrite decide_True by done; cbn; by rewrite He'|].
    rewrite decide_False by congruence. eapply tracks_later, I2. lia.
  - intros y last tokens. rewrite lookup_insert. case_decide; [intros [= <- <-]; lia|]. intros Hy. destruct (I3 y _ _ Hy). lia.
  - intros y. rewrite lookup_insert, passed_at_app. case_decide as Hy; [subst y|].
    + replace (passed_at x (if ret' then [(x, now)] else [])) with (if ret' then [now] else []); [done|].
      destruct ret'; [|done]. unfold passed_at. by rewrite filter_cons_True.
    + replace (passed_at y (if ret' then [(x, now)] else [])) with (@nil Z); [by rewrite app_nil_r|].
      destruct ret'; [|done]. unfold passed_at. by rewrite filter_cons_False.
Qed.

Lemma rl_inv_run t w os : rl_inv t w → times_ok t os → ∃ t', t <= t' ∧ rl_inv t' (foldl rl_step w os) ∧
  t' = foldl rl_time t os.
Proof.
  revert t w. induction os as [|o os IH]; intros t w Hinv Ht; [exists t; split_and!; [lia|done|done]|].
  destruct Ht as [Ho Ht]. destruct (IH (rl_time t o) (rl_step w o)) as (t'&Hle&Hinv'&->); [|done|].
  - destruct o; [by eapply rl_inv_allow|by eapply rl_inv_collect|by apply rl_inv_grace].
  - eexists. split_and!; [|done|done]. cbn [foldl] in *. lia.
Qed.

(** ** The limiter after its initialisation *)
Definition rl_zero : ratelimiter := mk_ratelimiter 0 0 0 0 ∅ ∅ [].
Definition rl_start (ram : Z) : rl_world := mk_rl_world (wg_ratelimiter_init ram true true true rl_zero).2 ∅ [].

Lemma rl_inv_start ram : rl_inv 0 (rl_start ram).
Proof.
  assert (Hb : ∀ v6 i, bucket_of (rl_table v6 (rw_limiter (rl_start ram))) i = []).
  { intros [] i; change (default [] ((∅ : gmap Z (list ratelimiter_entry)) !! i) = []); by rewrite lookup_empty. }
  assert (Hs : 16 <= rl_table_size_for ram) by (unfold rl_table_size_for; case_if; lia).
  split; cbn [rw_buckets rw_passed rl_start]; try done.
  - intros v6 i. rewrite Hb. apply NoDup_nil_2.
  - intros [[v6 net] ip]. cbn [rl_entry]. rewrite Hb. cbn. by intros last tokens.
  - change (0 <= rl_table_size_for ram * 8). lia.
Qed.

End asking.

(** ** Examples *)
Definition flat_hash2 (a b : Z) : Z := 3.
Definition flat_hash3 (a b c : Z) : Z := 5.

Definition a_question (last_byte : Z) : sk_buff :=
  mk_sk_buff ([69;0;0;100] ++ replicate 8 0 ++ [192;0;2;last_byte] ++ replicate 12 0) [] 0 0 20 ETH_P_IP 0 packet_cb_zero.

Definition asks (n : nat) (now : Z) : list rl_op := replicate n (RlAllow (a_question 1) 7 now true).


(** The time of a collection matters: the collector reads the clock once, before it
    walks over the buckets, and computes ages without sign.  An entry that was used
    after that looks old and is dropped, and its source gets a full bucket. *)
Lemma stale_collection_refills :
  let w := foldl (rl_step flat_hash2 flat_hash3) (rl_start (2 ^ 31)) (asks 6 1000000000 ++ [RlCollect 3 999999999] ++ asks 6 1000000000) in
  length (rw_passed w) = 10%nat ∧ ¬ times_ok 0 (asks 6 1000000000 ++ [RlCollect 3 999999999]).
Proof. split; [vm_compute; reflexivity|]. cbn. lia. Qed.
