(* ===== verification/Cookie.v ===== *)
(** * MACs and cookies of handshake messages (kernel/cookie.c, kernel/receive.c)

    Every handshake message carries a MAC under a key derived from the receiver's
    public key.  A receiver under load answers with a cookie, a MAC of the sender's
    address under a secret, and the sender has to put a second MAC under that cookie
    in its next message.  The last part is the decision of
    [wg_receive_handshake_packet] what to do with a message. *)
From stdpp Require Import prelude list gmap.
From S2P Require Import Prelude Skb Net FakeHeaders RxHeader PeerLookup Crypto Noise Ratelimiter.

#[local] Open Scope Z_scope.

Definition COOKIE_SECRET_MAX_AGE := 2 * 60.
Definition COOKIE_SECRET_LATENCY := 5.

Record cookie_checker := mk_cookie_checker {
  cc_secret : list Z;
  cc_cookie_encryption_key : list Z;
  cc_message_mac1_key : list Z;
  cc_secret_birthdate : Z;
}.

#[export] Instance eta_cookie_checker : Settable cookie_checker := λ c,
  mk_cookie_checker (cc_secret c) (cc_cookie_encryption_key c) (cc_message_mac1_key c) (cc_secret_birthdate c).

Record cookie := mk_cookie {
  ck_birthdate : Z;
  ck_is_valid : bool;
  ck_cookie : list Z;
  ck_have_sent_mac1 : bool;
  ck_last_mac1_sent : list Z;
  ck_cookie_decryption_key : list Z;
  ck_message_mac1_key : list Z;
}.

#[export] Instance eta_cookie : Settable cookie := λ c,
  mk_cookie (ck_birthdate c) (ck_is_valid c) (ck_cookie c) (ck_have_sent_mac1 c) (ck_last_mac1_sent c)
    (ck_cookie_decryption_key c) (ck_message_mac1_key c).

Inductive cookie_mac_state :=
  | INVALID_MAC
  | VALID_MAC_BUT_NO_COOKIE
  | VALID_MAC_WITH_COOKIE_BUT_RATELIMITED
  | VALID_MAC_WITH_COOKIE.

#[export] Instance cookie_mac_state_eq_dec : EqDecision cookie_mac_state.
Proof. solve_decision. Defined.

Inductive cookie_validation_action :=
  | WG_COOKIE_DROP
  | WG_COOKIE_ACCEPT
  | WG_COOKIE_CHALLENGE.

Definition wg_cookie_validation_action (under_load : bool) (mac_state : cookie_mac_state) : cookie_validation_action :=
  if under_load && bool_decide (mac_state = VALID_MAC_WITH_COOKIE) then WG_COOKIE_ACCEPT
  else if negb under_load && bool_decide (mac_state = VALID_MAC_BUT_NO_COOKIE) then WG_COOKIE_ACCEPT
  else if under_load && bool_decide (mac_state = VALID_MAC_BUT_NO_COOKIE) then WG_COOKIE_CHALLENGE
  else WG_COOKIE_DROP.

(** The labels "mac1----" and "cookie--". *)
Definition mac1_key_label : list Z := [109; 97; 99; 49; 45; 45; 45; 45].
Definition cookie_key_label : list Z := [99; 111; 111; 107; 105; 101; 45; 45].

Section cookies.
Context {C : Crypto}.

(** ** Keys *)
Definition wg_cookie_checker_init (secret : list Z) (now : Z) (c : cookie_checker) : cookie_checker :=
  c{{ cc_secret_birthdate := now; cc_secret := secret }}.

Definition precompute_key (pubkey label : list Z) : list Z := blake2s NOISE_SYMMETRIC_KEY_LEN [] (label ++ pubkey).

Definition wg_cookie_checker_precompute_device_keys (id : noise_static_identity) (c : cookie_checker) : cookie_checker :=
  if si_has_identity id then
    c{{ cc_cookie_encryption_key := precompute_key (si_static_public id) cookie_key_label;
        cc_message_mac1_key := precompute_key (si_static_public id) mac1_key_label }}
  else
    c{{ cc_cookie_encryption_key := replicate (Z.to_nat NOISE_SYMMETRIC_KEY_LEN) 0;
        cc_message_mac1_key := replicate (Z.to_nat NOISE_SYMMETRIC_KEY_LEN) 0 }}.

Definition wg_cookie_checker_precompute_peer_keys (remote_static : list Z) (c : cookie) : cookie :=
  c{{ ck_cookie_decryption_key := precompute_key remote_static cookie_key_label;
      ck_message_mac1_key := precompute_key remote_static mac1_key_label }}.

Definition wg_cookie_init : cookie :=
  let zeros n := replicate (Z.to_nat n) 0 in
  mk_cookie 0 false (zeros COOKIE_LEN) false (zeros COOKIE_LEN) (zeros NOISE_SYMMETRIC_KEY_LEN) (zeros NOISE_SYMMETRIC_KEY_LEN).

(** ** MACs: over the message up to the MAC itself *)
Definition compute_mac1 (message key : list Z) : list Z :=
  blake2s COOKIE_LEN key (ztake (zlen message - sizeof_message_macs) message).

Definition compute_mac2 (message cookie : list Z) : list Z :=
  blake2s COOKIE_LEN cookie (ztake (zlen message - sizeof_message_macs + COOKIE_LEN) message).

(** The MACs a message ends with. *)
Definition macs_of (message : list Z) : list Z * list Z :=
  let macs := zdrop (zlen message - sizeof_message_macs) message in
  (ztake COOKIE_LEN macs, zdrop COOKIE_LEN macs).

Definition write_mac1 (mac message : list Z) : list Z :=
  ztake (zlen message - sizeof_message_macs) message ++ mac ++ zdrop (zlen message - sizeof_message_macs + COOKIE_LEN) message.

Definition write_mac2 (mac message : list Z) : list Z :=
  ztake (zlen message - sizeof_message_macs + COOKIE_LEN) message ++ mac.

(** What identifies the sender: address and port. *)
Definition cookie_source (skb : sk_buff) : list Z :=
  let iph := skb_at skb (skb_network_header skb) in
  (if skb_protocol skb =? ETH_P_IP then field 12 4 iph
   else if skb_protocol skb =? ETH_P_IPV6 then field 8 16 iph else [])
  ++ ztake 2 (skb_at skb (skb_transport_header skb)).

(** [random] is the next secret, should the present one be too old. *)
Definition make_cookie (skb : sk_buff) (now : Z) (random : list Z) (c : cookie_checker) : list Z * cookie_checker :=
  let c := if wg_birthdate_has_expired (cc_secret_birthdate c) COOKIE_SECRET_MAX_AGE now
           then c{{ cc_secret_birthdate := now; cc_secret := random }} else c in
  (blake2s COOKIE_LEN (cc_secret c) (cookie_source skb), c).

Context (hsiphash_2u32 : Z → Z → Z) (hsiphash_3u32 : Z → Z → Z → Z).

Definition wg_cookie_validate_packet (skb : sk_buff) (check_cookie : bool) (net now : Z) (random : list Z) (alloc : bool)
    (c : cookie_checker) (r : ratelimiter) : cookie_mac_state * (cookie_checker * ratelimiter) :=
  let '(mac1, mac2) := macs_of (skb_data skb) in
  if bool_decide (compute_mac1 (skb_data skb) (cc_message_mac1_key c) ≠ mac1) then (INVALID_MAC, (c, r))
  else if negb check_cookie then (VALID_MAC_BUT_NO_COOKIE, (c, r))
  else
    let '(cookie, c) := make_cookie skb now random c in
    if bool_decide (compute_mac2 (skb_data skb) cookie ≠ mac2) then (VALID_MAC_BUT_NO_COOKIE, (c, r))
    else
      let '(allowed, r) := wg_ratelimiter_allow hsiphash_2u32 hsiphash_3u32 skb net now alloc r in
      (if allowed then VALID_MAC_WITH_COOKIE else VALID_MAC_WITH_COOKIE_BUT_RATELIMITED, (c, r)).

(** The MACs of a message that is about to be sent. *)
Definition wg_cookie_add_mac_to_packet (message : list Z) (now : Z) (c : cookie) : list Z * cookie :=
  let mac1 := compute_mac1 message (ck_message_mac1_key c) in
  let message := write_mac1 mac1 message in
  let c := c{{ ck_last_mac1_sent := mac1; ck_have_sent_mac1 := true }} in
  let mac2 :=
    if ck_is_valid c && negb (wg_birthdate_has_expired (ck_birthdate c) (COOKIE_SECRET_MAX_AGE - COOKIE_SECRET_LATENCY) now)
    then compute_mac2 message (ck_cookie c) else replicate (Z.to_nat COOKIE_LEN) 0 in
  (write_mac2 mac2 message, c).

Definition wg_cookie_message_create (skb : sk_buff) (index : Z) (nonce : list Z) (now : Z) (random : list Z) (c : cookie_checker)
    : message_handshake_cookie * cookie_checker :=
  let '(mac1, _) := macs_of (skb_data skb) in
  let '(cookie, c) := make_cookie skb now random c in
  (mk_cookie_message index nonce (xchacha20poly1305_encrypt (cc_cookie_encryption_key c) nonce mac1 cookie), c).

(** [peers] holds the cookie of every peer. *)
Definition wg_cookie_message_consume (alive : Z → bool) (src : message_handshake_cookie) (now : Z) (t : index_hashtable)
    (peers : gmap Z cookie) : gmap Z cookie :=
  match wg_index_hashtable_lookup alive (Z.lor INDEX_HASHTABLE_HANDSHAKE INDEX_HASHTABLE_KEYPAIR) (mc_receiver_index src) t with
  | None => peers
  | Some e =>
      match peers !! ent_peer e with
      | None => peers
      | Some c =>
          if negb (ck_have_sent_mac1 c) then peers
          else
            match xchacha20poly1305_decrypt (ck_cookie_decryption_key c) (mc_nonce src) (ck_last_mac1_sent c) (mc_encrypted_cookie src) with
            | None => peers
            | Some cookie =>
                <[ent_peer e := c{{ ck_cookie := cookie; ck_birthdate := now; ck_is_valid := true; ck_have_sent_mac1 := false }}]> peers
            end
      end
  end.

(** ** What to do with a handshake message *)
Inductive handshake_action :=
  | ConsumeCookie
  | DropHandshake
  | SendCookie (sender_index : Z)
  | ConsumeInitiation
  | ConsumeResponse
  | UnknownHandshake.

(** Whether the system counts as under load, and when it was last. *)
Definition load_state (queue_len last_under_load now : Z) : bool * Z :=
  if MAX_QUEUED_INCOMING_HANDSHAKES / 8 <=? queue_len then (true, now)
  else if negb (last_under_load =? 0) then
    if wg_birthdate_has_expired last_under_load 1 now then (false, 0) else (true, last_under_load)
  else (false, last_under_load).

Definition handshake_dispatch (needs_cookie : bool) (skb : sk_buff) : handshake_action :=
  if (SKB_TYPE_LE32 skb =? MESSAGE_HANDSHAKE_INITIATION) then
    if needs_cookie then SendCookie (le_val (field 4 4 (skb_data skb))) else ConsumeInitiation
  else if (SKB_TYPE_LE32 skb =? MESSAGE_HANDSHAKE_RESPONSE) then
    if needs_cookie then SendCookie (le_val (field 4 4 (skb_data skb))) else ConsumeResponse
  else UnknownHandshake.

Record handshake_gate := mk_gate {
  hg_checker : cookie_checker;
  hg_limiter : ratelimiter;
  hg_last_under_load : Z;
}.

Definition wg_receive_handshake_packet (transport_tcp : bool) (queue_len net now : Z) (random : list Z) (alloc : bool)
    (skb : sk_buff) (g : handshake_gate) : handshake_action * handshake_gate :=
  if transport_tcp then (handshake_dispatch false skb, g)
  else if SKB_TYPE_LE32 skb =? MESSAGE_HANDSHAKE_COOKIE then (ConsumeCookie, g)
  else
    let '(under_load, last) := load_state queue_len (hg_last_under_load g) now in
    let '(mac_state, (c, r)) := wg_cookie_validate_packet skb under_load net now random alloc (hg_checker g) (hg_limiter g) in
    let g := mk_gate c r last in
    match wg_cookie_validation_action under_load mac_state with
    | WG_COOKIE_ACCEPT => (handshake_dispatch false skb, g)
    | WG_COOKIE_CHALLENGE => (handshake_dispatch true skb, g)
    | WG_COOKIE_DROP => (DropHandshake, g)
    end.

(** ** Messages and their MACs *)
Context {COk : CryptoOk C}.

Lemma mac_parts body mac1 mac2 key :
  zlen mac1 = COOKIE_LEN → zlen mac2 = COOKIE_LEN →
  macs_of (body ++ mac1 ++ mac2) = (mac1, mac2) ∧
  compute_mac1 (body ++ mac1 ++ mac2) key = blake2s COOKIE_LEN key body ∧
  compute_mac2 (body ++ mac1 ++ mac2) key = blake2s COOKIE_LEN key (body ++ mac1).
Proof.
  intros H1 H2. unfold macs_of, compute_mac1, compute_mac2. rewrite !zlen_app, H1, H2.
  change sizeof_message_macs with 32. change COOKIE_LEN with 16 in *.
  replace (zlen body + (16 + 16) - 32) with (zlen body) by lia.
  rewrite (zdrop_app_length (zlen body)), (ztake_app_length (zlen body)), (ztake_app_length 16), (zdrop_app_length 16) by done.
  rewrite (app_assoc body), ztake_app_length by (rewrite zlen_app; lia). done.
Qed.

Lemma add_mac_shape m now c :
  sizeof_message_macs <= zlen m →
  let body := ztake (zlen m - sizeof_message_macs) m in
  let mac1 := blake2s COOKIE_LEN (ck_message_mac1_key c) body in
  let '(s, c') := wg_cookie_add_mac_to_packet m now c in
  c' = c{{ ck_last_mac1_sent := mac1; ck_have_sent_mac1 := true }} ∧
  ∃ mac2, s = body ++ mac1 ++ mac2 ∧ zlen mac1 = COOKIE_LEN ∧ zlen mac2 = COOKIE_LEN ∧
    (ck_is_valid c = true → wg_birthdate_has_expired (ck_birthdate c) (COOKIE_SECRET_MAX_AGE - COOKIE_SECRET_LATENCY) now = false →
     mac2 = blake2s COOKIE_LEN (ck_cookie c) (body ++ mac1)) ∧
    (ck_is_valid c = false → mac2 = replicate (Z.to_nat COOKIE_LEN) 0).
Proof.
  intros Hm body mac1. change sizeof_message_macs with 32 in *. unfold wg_cookie_add_mac_to_packet.
  change (compute_mac1 m (ck_message_mac1_key c)) with mac1. split; [done|].
  assert (Hl1 : zlen mac1 = 16) by (by apply blake2s_len). assert (Hlb : zlen body = zlen m - 32) by (apply zlen_ztake; lia).
  set (rest := zdrop (zlen m - 32 + 16) m). assert (Hlr : zlen rest = 16) by (unfold rest; rewrite zlen_zdrop; lia).
  change (write_mac1 mac1 m) with (body ++ mac1 ++ rest).
  assert (Hw : ∀ mac, write_mac2 mac (body ++ mac1 ++ rest) = body ++ mac1 ++ mac).
  { intros mac. unfold write_mac2. rewrite app_assoc, ztake_app_length, <- app_assoc; [done|].
    rewrite !zlen_app. change sizeof_message_macs with 32. change COOKIE_LEN with 16. lia. }
  eexists. split; [apply Hw|]. split; [done|].
  change (ck_is_valid (set ck_have_sent_mac1 _ _)) with (ck_is_valid c). change (ck_birthdate (set ck_have_sent_mac1 _ _)) with (ck_birthdate c).
  change (ck_cookie (set ck_have_sent_mac1 _ _)) with (ck_cookie c).
  destruct (mac_parts body mac1 rest (ck_cookie c) Hl1 Hlr) as (_&_&->). split_and!.
  - case_if; [by apply blake2s_len|done].
  - by intros -> ->.
  - by intros ->.
Qed.

(** ** The exchange *)
Lemma validate_mac1 skb c r net now random alloc body mac2 :
  let mac1 := blake2s COOKIE_LEN (cc_message_mac1_key c) body in
  skb_data skb = body ++ mac1 ++ mac2 → zlen mac1 = COOKIE_LEN → zlen mac2 = COOKIE_LEN →
  wg_cookie_validate_packet skb false net now random alloc c r = (VALID_MAC_BUT_NO_COOKIE, (c, r)) ∧
  wg_cookie_validate_packet skb true net now random alloc c r =
    (let '(cookie, c) := make_cookie skb now random c in
     if bool_decide (blake2s COOKIE_LEN cookie (body ++ mac1) ≠ mac2) then (VALID_MAC_BUT_NO_COOKIE, (c, r))
     else
       let '(allowed, r) := wg_ratelimiter_allow hsiphash_2u32 hsiphash_3u32 skb net now alloc r in
       (if allowed then VALID_MAC_WITH_COOKIE else VALID_MAC_WITH_COOKIE_BUT_RATELIMITED, (c, r))).
Proof.
  intros mac1 Hd H1 H2. unfold wg_cookie_validate_packet. rewrite Hd.
  destruct (mac_parts body mac1 mac2 (cc_message_mac1_key c) H1 H2) as (->&->&_).
  rewrite bool_decide_eq_false_2 by (fold mac1; tauto). cbn [negb]. split; [done|].
  destruct (make_cookie skb now random c) as [ck c']. by destruct (mac_parts body mac1 mac2 ck H1 H2) as (_&_&->).
Qed.

Lemma under_load_decision skb queue_len net now random alloc g body mac2 :
  let mac1 := blake2s COOKIE_LEN (cc_message_mac1_key (hg_checker g)) body in
  skb_data skb = body ++ mac1 ++ mac2 → zlen mac1 = COOKIE_LEN → zlen mac2 = COOKIE_LEN →
  SKB_TYPE_LE32 skb ≠ MESSAGE_HANDSHAKE_COOKIE → (load_state queue_len (hg_last_under_load g) now).1 = true →
  (wg_receive_handshake_packet false queue_len net now random alloc skb g).1 =
    if bool_decide (blake2s COOKIE_LEN (make_cookie skb now random (hg_checker g)).1 (body ++ mac1) = mac2) then
      if (wg_ratelimiter_allow hsiphash_2u32 hsiphash_3u32 skb net now alloc (hg_limiter g)).1 then handshake_dispatch false skb
      else DropHandshake
    else handshake_dispatch true skb.
Proof.
  intros mac1 Hd H1 H2 Hty Hload. unfold wg_receive_handshake_packet. rewrite (proj2 (Z.eqb_neq _ _) Hty).
  destruct (load_state queue_len (hg_last_under_load g) now) as [ul lst]. cbn in Hload. subst ul.
  destruct (validate_mac1 skb (hg_checker g) (hg_limiter g) net now random alloc body mac2 Hd H1 H2) as [_ ->]. fold mac1.
  destruct (make_cookie skb now random (hg_checker g)) as [ck c']. cbn [fst].
  do 2 case_bool_decide; try done. by destruct (wg_ratelimiter_allow _ _ skb net now alloc (hg_limiter g)) as [[] r'].
Qed.

Lemma make_cookie_stable skb skb' now now' random random' c :
  let '(ck, c') := make_cookie skb now random c in
  cookie_source skb' = cookie_source skb →
  wg_birthdate_has_expired (cc_secret_birthdate c') COOKIE_SECRET_MAX_AGE now' = false →
  make_cookie skb' now' random' c' = (ck, c') ∧
  cc_message_mac1_key c' = cc_message_mac1_key c ∧ cc_cookie_encryption_key c' = cc_cookie_encryption_key c.
Proof.
  unfold make_cookie. intros Hs Hx. cbn [fst snd] in *. rewrite Hx, Hs. split; [done|]. by case_if.
Qed.

Lemma consume_created alive skb idx nonce now random c t e peers ck now' mac2 body :
  let mac1 := blake2s COOKIE_LEN (ck_message_mac1_key ck) body in
  let '(msg, c') := wg_cookie_message_create skb idx nonce now random c in
  let '(cookie, c'') := make_cookie skb now random c in
  skb_data skb = body ++ mac1 ++ mac2 → zlen mac1 = COOKIE_LEN → zlen mac2 = COOKIE_LEN →
  ck_cookie_decryption_key ck = cc_cookie_encryption_key c → ck_have_sent_mac1 ck = true → ck_last_mac1_sent ck = mac1 →
  wg_index_hashtable_lookup alive (Z.lor INDEX_HASHTABLE_HANDSHAKE INDEX_HASHTABLE_KEYPAIR) idx t = Some e →
  peers !! ent_peer e = Some ck →
  c' = c'' ∧
  wg_cookie_message_consume alive msg now' t peers !! ent_peer e =
    Some (ck{{ ck_cookie := cookie; ck_birthdate := now'; ck_is_valid := true; ck_have_sent_mac1 := false }}).
Proof.
  intros mac1. unfold wg_cookie_message_create. destruct (macs_of (skb_data skb)) as [mac1' mac2'] eqn:Hm.
  destruct (make_cookie skb now random c) as [cookie c''] eqn:Hmk. intros Hd H1 H2 Hkey Hsent Hlast Hl Hp. split; [done|].
  rewrite Hd in Hm. destruct (mac_parts body mac1 mac2 [] H1 H2) as (Hm'&_). assert (mac1' = mac1) as -> by congruence.
  unfold wg_cookie_message_consume. cbn [mc_receiver_index mc_nonce mc_encrypted_cookie]. rewrite Hl, Hp, Hsent. cbn [negb].
  assert (Hk : cc_cookie_encryption_key c'' = cc_cookie_encryption_key c) by (unfold make_cookie in Hmk; injection Hmk as _ <-; by case_if).
  rewrite Hlast, Hk, <- Hkey, xchacha_decrypt_encrypt. apply lookup_insert_eq.
Qed.

End cookies.

(** Over TCP there are no cookies, and a cookie message ends in the case for unknown
    messages, after which the code warns about a missing peer. *)
Lemma tcp_cookie_message_unknown {C : Crypto} h2 h3 queue_len net now random alloc skb g :
  SKB_TYPE_LE32 skb = MESSAGE_HANDSHAKE_COOKIE →
  wg_receive_handshake_packet h2 h3 true queue_len net now random alloc skb g = (UnknownHandshake, g).
Proof. intros H. unfold wg_receive_handshake_packet, handshake_dispatch. by rewrite H. Qed.

(** ** Example *)
#[local] Existing Instances toy_crypto toy_crypto_ok.

Definition example_id : noise_static_identity := mk_identity (replicate 32 9) (replicate 32 9) true.
Definition example_checker : cookie_checker := mk_cookie_checker (replicate 32 3) [] [] 1000000000.
Definition example_initiation (x : Z) : list Z := [1; 0; 0; 0] ++ replicate 144 x.
Definition example_index : index_hashtable := default ∅ (snd <$> wg_index_hashtable_insert [(9000, [])] (EntHandshake 4) ∅).

Definition handshake_skb (data : list Z) : sk_buff :=
  mk_sk_buff ([69;0;0;100] ++ replicate 8 0 ++ [192;0;2;1] ++ replicate 4 0 ++ [4;210] ++ replicate 6 0) data 0 0 20 ETH_P_IP 0 packet_cb_zero.

Definition example_sent1 : list Z * cookie :=
  wg_cookie_add_mac_to_packet (example_initiation 5) 2000000000
    (wg_cookie_checker_precompute_peer_keys (si_static_public example_id) wg_cookie_init).

