(* ===== verification/Keypairs.v ===== *)
(** * Sessions of a peer (kernel/noise.c, the keypairs)

    A peer has up to three sessions, in the slots [current], [previous] and
    [next].  A session is counted: each slot and each packet in flight that uses
    it holds a reference.  It is found by the index under which it is hashed, and
    freed after an RCU grace period once its count drops to zero.

    The theorem is about all interleavings of the sections that change slots,
    counts and the index table: a session the index table yields is one of the
    three of its peer and allocated, the counts are exact, and nothing is kept
    without a reference. *)
From stdpp Require Import prelude list gmap.
From S2P Require Import Prelude Skb Crypto PeerLookup Replay Noise.

#[local] Open Scope Z_scope.

Record noise_keypair := mk_keypair {
  kp_peer : Z;
  kp_sending : noise_symmetric_key;
  kp_sending_counter : Z;
  kp_receiving : noise_symmetric_key;
  kp_receiving_counter : noise_replay_counter;
  kp_remote_index : Z;
  kp_i_am_the_initiator : bool;
  kp_refcount : Z;
  kp_internal_id : Z;
}.

#[export] Instance eta_keypair : Settable noise_keypair := λ k,
  mk_keypair (kp_peer k) (kp_sending k) (kp_sending_counter k) (kp_receiving k) (kp_receiving_counter k)
    (kp_remote_index k) (kp_i_am_the_initiator k) (kp_refcount k) (kp_internal_id k).

(** The slots hold the addresses of sessions. *)
Record noise_keypairs := mk_keypairs {
  ks_current_keypair : option Z;
  ks_previous_keypair : option Z;
  ks_next_keypair : option Z;
}.

#[export] Instance eta_keypairs : Settable noise_keypairs := λ k,
  mk_keypairs (ks_current_keypair k) (ks_previous_keypair k) (ks_next_keypair k).

Definition no_keypairs : noise_keypairs := mk_keypairs None None None.

(** The sessions of a device: those allocated, the index table, the counter of
    session numbers, and the sessions waiting for a grace period to be freed. *)
Record kstore := mk_kstore {
  kt_heap : gmap Z noise_keypair;
  kt_index : index_hashtable;
  kt_counter : Z;
  kt_rcu : list Z;
}.

#[export] Instance eta_kstore : Settable kstore := λ s,
  mk_kstore (kt_heap s) (kt_index s) (kt_counter s) (kt_rcu s).

Definition zeroed_key : noise_symmetric_key := mk_key (replicate 32 0) 0 false.

(** ** Creation and reference counting

    [alloc] is the result of the allocation. *)
Definition keypair_create (alloc : option Z) (peer : Z) (st : kstore) : option Z * kstore :=
  match alloc with
  | None => (None, st)
  | Some k =>
      let id := u64 (kt_counter st + 1) in
      (Some k, st{{ kt_counter := id;
                    kt_heap ::= <[k := mk_keypair peer zeroed_key 0 zeroed_key replay_init 0 false 1 id]> }})
  end.

Definition keypair_free_rcu (k : Z) (st : kstore) : kstore := st{{ kt_heap ::= delete k }}.

Definition keypair_free_kref (peer k : Z) (st : kstore) : kstore :=
  st{{ kt_index ::= wg_index_hashtable_remove (EntKeypair peer k); kt_rcu ::= λ l, l ++ [k] }}.

Definition wg_noise_keypair_put (keypair : option Z) (unreference_now : bool) (st : kstore) : kstore :=
  match keypair with
  | None => st
  | Some k =>
      match kt_heap st !! k with
      | None => st
      | Some kp =>
          let st := if unreference_now then
                      st{{ kt_index ::= wg_index_hashtable_remove (EntKeypair (kp_peer kp) k) }} else st in
          let n := kp_refcount kp - 1 in
          let st := st{{ kt_heap ::= <[k := kp{{ kp_refcount := n }}]> }} in
          if n =? 0 then keypair_free_kref (kp_peer kp) k st else st
      end
  end.

Definition wg_noise_keypair_get (keypair : option Z) (st : kstore) : option Z * kstore :=
  match keypair with
  | None => (None, st)
  | Some k =>
      match kt_heap st !! k with
      | None => (None, st)
      | Some kp =>
          if kp_refcount kp =? 0 then (None, st)
          else (Some k, st{{ kt_heap ::= <[k := kp{{ kp_refcount ::= Z.add 1 }}]> }})
      end
  end.

(** ** The sections under [keypair_update_lock] *)
Definition wg_noise_keypairs_clear (ks : noise_keypairs) (st : kstore) : noise_keypairs * kstore :=
  let st := wg_noise_keypair_put (ks_next_keypair ks) true st in
  let st := wg_noise_keypair_put (ks_previous_keypair ks) true st in
  let st := wg_noise_keypair_put (ks_current_keypair ks) true st in
  (no_keypairs, st).

(** The section of [wg_noise_expire_current_peer_keypairs]. *)
Definition expire_sending (keypair : option Z) (st : kstore) : kstore :=
  match keypair with
  | None => st
  | Some k => st{{ kt_heap ::= alter (λ kp, kp{{ kp_sending ::= λ s, s{{ sk_is_valid := false }} }}) k }}
  end.

Definition expire_keypairs (ks : noise_keypairs) (st : kstore) : kstore :=
  expire_sending (ks_current_keypair ks) (expire_sending (ks_next_keypair ks) st).

Definition add_new_keypair (ks : noise_keypairs) (new_keypair : Z) (i_am_the_initiator : bool) (st : kstore)
    : noise_keypairs * kstore :=
  let previous_keypair := ks_previous_keypair ks in
  let next_keypair := ks_next_keypair ks in
  let current_keypair := ks_current_keypair ks in
  if i_am_the_initiator then
    let '(ks, st) :=
      match next_keypair with
      | Some _ => (ks{{ ks_next_keypair := None; ks_previous_keypair := next_keypair }},
                   wg_noise_keypair_put current_keypair true st)
      | None => (ks{{ ks_previous_keypair := current_keypair }}, st)
      end in
    (ks{{ ks_current_keypair := Some new_keypair }}, wg_noise_keypair_put previous_keypair true st)
  else
    let ks := ks{{ ks_next_keypair := Some new_keypair }} in
    let st := wg_noise_keypair_put next_keypair true st in
    (ks{{ ks_previous_keypair := None }}, wg_noise_keypair_put previous_keypair true st).

(** [wg_noise_received_with_keypair]: the look without the lock, which spares
    the section most of the time, and the section. *)
Definition received_unlocked (ks : noise_keypairs) (received_keypair : Z) : bool :=
  bool_decide (ks_next_keypair ks = Some received_keypair).

Definition received_locked (ks : noise_keypairs) (received_keypair : Z) (st : kstore)
    : bool * (noise_keypairs * kstore) :=
  if negb (bool_decide (ks_next_keypair ks = Some received_keypair)) then (false, (ks, st))
  else
    let old_keypair := ks_previous_keypair ks in
    let ks := ks{{ ks_previous_keypair := ks_current_keypair ks }} in
    let st := wg_noise_keypair_put old_keypair true st in
    (true, (ks{{ ks_current_keypair := Some received_keypair; ks_next_keypair := None }}, st)).

(** [ks0] are the slots the unlocked look sees. *)
Definition wg_noise_received_with_keypair (ks0 ks : noise_keypairs) (received_keypair : Z) (st : kstore)
    : bool * (noise_keypairs * kstore) :=
  if negb (received_unlocked ks0 received_keypair) then (false, (ks, st))
  else received_locked ks received_keypair st.

(** ** Sessions from handshakes: the parts of [wg_noise_handshake_begin_session] *)
Section begin_session.
Context {C : Crypto}.

(** Creation of the session from the state of the handshake. *)
Definition session_create (alloc : option Z) (peer : Z) (i_am_the_initiator : bool) (remote_index : Z)
    (chaining_key : list Z) (now : Z) (st : kstore) : option Z * kstore :=
  match keypair_create alloc peer st with
  | (None, st) => (None, st)
  | (Some k, st) =>
      let '(first, second) := derive_keys chaining_key now in
      let fill kp := kp{{ kp_i_am_the_initiator := i_am_the_initiator; kp_remote_index := remote_index;
                          kp_sending := if i_am_the_initiator then first else second;
                          kp_receiving := if i_am_the_initiator then second else first }} in
      (Some k, st{{ kt_heap ::= alter fill k }})
  end.

(** A session of a dead peer is freed at once. *)
Definition session_install (is_dead : bool) (ks : noise_keypairs) (k : Z) (i_am_the_initiator : bool) (st : kstore)
    : option (noise_keypairs * kstore) * kstore :=
  if is_dead then (None, st{{ kt_heap ::= delete k }})
  else let r := add_new_keypair ks k i_am_the_initiator st in (Some r, r.2).

(** The session takes over the index of the handshake. *)
Definition session_hash (peer k : Z) (st : kstore) : bool * kstore :=
  let '(ret, t) := wg_index_hashtable_replace (EntHandshake peer) (EntKeypair peer k) (kt_index st) in
  (ret, st{{ kt_index := t }}).

(** ** All sections, in any order

    [kw_held] are the references of packets in flight, [kw_begin] the peers that
    are between [session_install] and [session_hash], with the session. *)
Record kworld := mk_kworld {
  kw_slots : gmap Z noise_keypairs;
  kw_store : kstore;
  kw_held : list Z;
  kw_begin : gmap Z Z;
}.

#[export] Instance eta_kworld : Settable kworld := λ w,
  mk_kworld (kw_slots w) (kw_store w) (kw_held w) (kw_begin w).

Definition slots (w : kworld) (p : Z) : noise_keypairs := default no_keypairs (kw_slots w !! p).

Inductive kop :=
  | KAdd (peer : Z) (alloc : option Z) (is_dead i_am_the_initiator : bool) (remote_index : Z) (ck : list Z) (now : Z)
  | KHash (peer : Z)
  | KClear (peer : Z)
  | KExpire (peer : Z)
  | KReceived (peer k : Z)
  | KGetIndex (index : Z)
  | KGetCurrent (peer : Z)
  | KPut (k : Z)
  | KHandshakeInsert (peer index : Z)
  | KHandshakeRemove (peer : Z)
  | KGrace.

Definition set_slots (p : Z) (r : noise_keypairs * kstore) (w : kworld) : kworld :=
  w{{ kw_slots ::= <[p := r.1]>; kw_store := r.2 }}.

Definition remove_one (k : Z) (l : list Z) : list Z :=
  match list_find (eq k) l with Some (i, _) => delete i l | None => l end.

Definition hold (r : option Z * kstore) (w : kworld) : kworld :=
  w{{ kw_store := r.2; kw_held ::= λ l, match r.1 with Some k => k :: l | None => l end }}.

(** A grace period does not end within the read-side section that
    [session_install] and [session_hash] are in. *)
Definition kstep (w : kworld) (o : kop) : kworld :=
  let st := kw_store w in
  match o with
  | KAdd p alloc is_dead ini ri ck now =>
      match kw_begin w !! p with
      | Some _ => w
      | None =>
          match session_create alloc p ini ri ck now st with
          | (None, st) => w{{ kw_store := st }}
          | (Some k, st) =>
              match session_install is_dead (slots w p) k ini st with
              | (None, st) => w{{ kw_store := st }}
              | (Some r, _) => (set_slots p r w){{ kw_begin ::= <[p := k]> }}
              end
          end
      end
  | KHash p =>
      match kw_begin w !! p with
      | Some k => w{{ kw_store := (session_hash p k st).2; kw_begin ::= delete p }}
      | None => w
      end
  | KClear p => set_slots p (wg_noise_keypairs_clear (slots w p) st) w
  | KExpire p => w{{ kw_store := expire_keypairs (slots w p) st }}
  | KReceived p k => set_slots p (received_locked (slots w p) k st).2 w
  | KGetIndex i =>
      match wg_index_hashtable_lookup (λ _, true) INDEX_HASHTABLE_KEYPAIR i (kt_index st) with
      | Some (EntKeypair _ k) => hold (wg_noise_keypair_get (Some k) st) w
      | _ => w
      end
  | KGetCurrent p => hold (wg_noise_keypair_get (ks_current_keypair (slots w p)) st) w
  | KPut k =>
      if bool_decide (k ∈ kw_held w) then
        w{{ kw_store := wg_noise_keypair_put (Some k) false st; kw_held ::= remove_one k }}
      else w
  | KHandshakeInsert p i =>
      match wg_index_hashtable_insert [(i, [])] (EntHandshake p) (kt_index st) with
      | Some (_, t) => w{{ kw_store ::= λ st, st{{ kt_index := t }} }}
      | None => w{{ kw_store ::= λ st, st{{ kt_index ::= wg_index_hashtable_remove (EntHandshake p) }} }}
      end
  | KHandshakeRemove p => w{{ kw_store ::= λ st, st{{ kt_index ::= wg_index_hashtable_remove (EntHandshake p) }} }}
  | KGrace =>
      if bool_decide (kw_begin w = ∅) then
        w{{ kw_store := (foldr keypair_free_rcu st (kt_rcu st)){{ kt_rcu := [] }} }}
      else w
  end.

Definition kinit : kworld := mk_kworld ∅ (mk_kstore ∅ ∅ 0 []) [] ∅.
End begin_session.

(** ** Invariant

    [F] are the sessions in slots, [m] the map the index table implements. *)
Definition opt_set (o : option Z) : gset Z := match o with Some k => {[k]} | None => ∅ end.

Definition kset (ks : noise_keypairs) : gset Z :=
  opt_set (ks_current_keypair ks) ∪ opt_set (ks_previous_keypair ks) ∪ opt_set (ks_next_keypair ks).

(** No session is in two slots. *)
Definition distinct (ks : noise_keypairs) : Prop :=
  opt_set (ks_current_keypair ks) ## opt_set (ks_previous_keypair ks) ∧
  opt_set (ks_current_keypair ks) ## opt_set (ks_next_keypair ks) ∧
  opt_set (ks_previous_keypair ks) ## opt_set (ks_next_keypair ks).

Definition held_count (k : Z) (held : list Z) : Z := zlen (filter (eq k) held).

Definition refs (F : gset Z) (held : list Z) (k : Z) : Z :=
  (if bool_decide (k ∈ F) then 1 else 0) + held_count k held.

Definition peer_of (st : kstore) (k : Z) : option Z := kp_peer <$> kt_heap st !! k.

Record store_ok (st : kstore) (F : gset Z) (held : list Z) (m : indices) : Prop := {
  so_counts : ∀ k kp, kt_heap st !! k = Some kp → kp_refcount kp = refs F held k;
  so_rcu : ∀ k, k ∈ kt_rcu st ↔ is_Some (kt_heap st !! k) ∧ refs F held k = 0;
  so_alive : ∀ k, refs F held k ≠ 0 → is_Some (kt_heap st !! k);
  so_index : implements (kt_index st) m;
  so_hashed : ∀ i p k, m !! i = Some (EntKeypair p k) → k ∈ F ∧ peer_of st k = Some p;
}.

Lemma held_count_nonneg k held : 0 <= held_count k held.
Proof. apply zlen_nonneg. Qed.

Lemma held_count_cons k k' held : held_count k (k' :: held) = (if bool_decide (k = k') then 1 else 0) + held_count k held.
Proof.
  unfold held_count. rewrite filter_cons. case_bool_decide; subst.
  - rewrite decide_True by done. apply zlen_cons.
  - by rewrite decide_False.
Qed.

Lemma held_count_remove k k' held :
  k' ∈ held → held_count k held = (if bool_decide (k = k') then 1 else 0) + held_count k (remove_one k' held).
Proof.
  unfold remove_one. destruct (list_find (eq k') held) as [[i x]|] eqn:Hf.
  - intros _. apply list_find_Some in Hf as (Hi&->&_).
    rewrite <- held_count_cons. unfold held_count, zlen. f_equal. apply Permutation_length.
    by rewrite <- delete_Permutation.
  - intros Hin. apply list_find_None in Hf. rewrite Forall_forall in Hf. by destruct (Hf k' Hin).
Qed.

Lemma refs_nonneg F held k : 0 <= refs F held k.
Proof. unfold refs. pose proof (held_count_nonneg k held). case_bool_decide; lia. Qed.

Lemma refs_remove F held k k' : k' ∈ F → refs F held k = (if bool_decide (k = k') then 1 else 0) + refs (F ∖ {[k']}) held k.
Proof.
  intros Hk. unfold refs. destruct (decide (k = k')) as [->|Hne].
  - rewrite (bool_decide_eq_true_2 (k' ∈ F)), (bool_decide_eq_false_2 (k' ∈ F ∖ _)), (bool_decide_eq_true_2 (k' = k'));
      [lia|done|set_solver|done].
  - rewrite (bool_decide_eq_false_2 (k = k')) by done. rewrite (bool_decide_ext (k ∈ F ∖ {[k']}) (k ∈ F)); [lia|set_solver].
Qed.

(** Dropping a reference, of a slot or of a packet. *)
Lemma put_ok st F held F' held' k unref m :
  store_ok st F held m → refs F held k ≠ 0 →
  (∀ j, refs F held j = (if bool_decide (j = k) then 1 else 0) + refs F' held' j) →
  (∀ j, j ∈ F → j ≠ k → j ∈ F') → (k ∈ F' → k ∈ F) → (k ∈ F → k ∈ F' ∨ unref = true) →
  ∃ m', store_ok (wg_noise_keypair_put (Some k) unref st) F' held' m' ∧ m' ⊆ m ∧
    ∀ j, peer_of (wg_noise_keypair_put (Some k) unref st) j = peer_of st j.
Proof.
  intros Hst Hk Hrefs HF HF1 Hun. destruct (so_alive _ _ _ _ Hst k Hk) as [kp Hkp].
  pose proof (so_counts _ _ _ _ Hst k kp Hkp) as Hcount. pose proof (Hrefs k) as Hrk.
  rewrite bool_decide_eq_true_2 in Hrk by done. unfold wg_noise_keypair_put. rewrite Hkp.
  set (st1 := if unref then _ else st).
  assert (H1 : ∃ m1, implements (kt_index st1) m1 ∧ m1 ⊆ m ∧
    (unref = true → unhashed m1 (EntKeypair (kp_peer kp) k)) ∧ kt_heap st1 = kt_heap st ∧ kt_rcu st1 = kt_rcu st).
  { destruct unref; subst st1; cbn.
    - eexists. split_and!; [apply remove_implements, Hst|apply map_filter_subseteq| |done|done].
      by intros _ i [_ ?]%map_lookup_filter_Some.
    - exists m. split_and!; [apply Hst|done|done|done|done]. }
  destruct H1 as (m1&Hm1&Hsub&Hunh&Hheap&Hrcu). clearbody st1.
  set (st2 := if _ =? 0 then _ else _).
  assert (H2 : ∃ m2, implements (kt_index st2) m2 ∧ m2 ⊆ m1 ∧
    kt_heap st2 = <[k := kp{{ kp_refcount := kp_refcount kp - 1 }}]> (kt_heap st) ∧
    kt_rcu st2 = kt_rcu st ++ (if bool_decide (refs F' held' k = 0) then [k] else [])).
  { subst st2. replace (kp_refcount kp - 1) with (refs F' held' k) by lia.
    destruct (Z.eqb_spec (refs F' held' k) 0) as [H0|H0]; cbn.
    - rewrite bool_decide_eq_true_2 by done. rewrite Hheap, Hrcu.
      eexists. split_and!; [apply remove_implements, Hm1|apply map_filter_subseteq|done|done].
    - rewrite bool_decide_eq_false_2 by done. rewrite Hheap, Hrcu, app_nil_r. by exists m1. }
  destruct H2 as (m2&Hm2&Hsub2&Hheap2&Hrcu2). clearbody st2. exists m2.
  assert (Hpeer : ∀ j, peer_of st2 j = peer_of st j).
  { intros j. unfold peer_of. rewrite Hheap2. destruct (decide (j = k)) as [->|Hne];
      [by rewrite lookup_insert_eq, Hkp|by rewrite lookup_insert_ne]. }
  split_and!; [|by etrans|done]. split.
  - intros j kj. rewrite Hheap2. intros [[<- <-]|[Hne Hj]]%lookup_insert_Some; cbn; [lia|].
    rewrite (so_counts _ _ _ _ Hst j kj Hj), Hrefs, bool_decide_eq_false_2 by done. lia.
  - intros j. rewrite Hrcu2, Hheap2, elem_of_app, (so_rcu _ _ _ _ Hst j), Hrefs.
    pose proof (refs_nonneg F' held' j) as Hnn. destruct (decide (j = k)) as [->|Hne].
    + rewrite lookup_insert_eq, (bool_decide_eq_true_2 (k = k)) by done.
      case_bool_decide as H0; rewrite ?list_elem_of_singleton, ?elem_of_nil.
      * split; [by eauto|by right].
      * split; [intros [[_ ?]|[]]; lia|intros [_ ?]; lia].
    + rewrite lookup_insert_ne, (bool_decide_eq_false_2 (j = k)) by done. rewrite Z.add_0_l.
      case_bool_decide; rewrite ?list_elem_of_singleton, ?elem_of_nil; tauto.
  - intros j Hj. rewrite Hheap2. destruct (decide (j = k)) as [->|Hne]; [by rewrite lookup_insert_eq|].
    rewrite lookup_insert_ne by done. apply (so_alive _ _ _ _ Hst). rewrite Hrefs, bool_decide_eq_false_2 by done. lia.
  - done.
  - intros i p j Hi. rewrite Hpeer. pose proof (lookup_weaken _ _ _ _ Hi Hsub2) as Hi1.
    destruct (so_hashed _ _ _ _ Hst i p j (lookup_weaken _ _ _ _ Hi1 Hsub)) as [HjF Hjp]. split; [|done].
    destruct (decide (j = k)) as [->|Hne]; [|by apply HF]. destruct (Hun HjF) as [?|Hu]; [done|].
    unfold peer_of in Hjp. rewrite Hkp in Hjp. injection Hjp as <-. by destruct (Hunh Hu i).
Qed.

(** The reference of a slot. *)
Lemma put_slot st F held o m :
  store_ok st F held m → opt_set o ⊆ F →
  ∃ m', store_ok (wg_noise_keypair_put o true st) (F ∖ opt_set o) held m' ∧ m' ⊆ m ∧
    ∀ j, peer_of (wg_noise_keypair_put o true st) j = peer_of st j.
Proof.
  intros Hst Ho. destruct o as [k|]; cbn [opt_set] in *; [|exists m; split_and!; [by rewrite difference_empty_L|done|done]].
  assert (Hk : k ∈ F) by set_solver. apply (put_ok st F held); [done| | |set_solver|set_solver|by right].
  - unfold refs. rewrite bool_decide_eq_true_2 by done. pose proof (held_count_nonneg k held). lia.
  - intros j. by apply refs_remove.
Qed.

(** The reference of a packet. *)
Lemma put_held st F held k m :
  store_ok st F held m → k ∈ held →
  ∃ m', store_ok (wg_noise_keypair_put (Some k) false st) F (remove_one k held) m' ∧ m' ⊆ m ∧
    ∀ j, peer_of (wg_noise_keypair_put (Some k) false st) j = peer_of st j.
Proof.
  intros Hst Hk. apply (put_ok st F held); [done| | |by auto..].
  - unfold refs. rewrite (held_count_remove k k held Hk), (bool_decide_eq_true_2 (k = k)) by done.
    pose proof (held_count_nonneg k (remove_one k held)). case_bool_decide; lia.
  - intros j. unfold refs. rewrite (held_count_remove j k held Hk). lia.
Qed.

Lemma slotted_alive st F held m k : store_ok st F held m → k ∈ F → is_Some (kt_heap st !! k) ∧ refs F held k ≠ 0.
Proof.
  intros Hst Hk. assert (H : refs F held k ≠ 0).
  { unfold refs. rewrite bool_decide_eq_true_2 by done. pose proof (held_count_nonneg k held). lia. }
  split; [by eapply so_alive|done].
Qed.

Lemma get_ok st F held o m :
  store_ok st F held m →
  let r := wg_noise_keypair_get o st in
  store_ok r.2 F (match r.1 with Some k => k :: held | None => held end) m ∧ ∀ j, peer_of r.2 j = peer_of st j.
Proof.
  intros Hst. unfold wg_noise_keypair_get. destruct o as [k|]; [|done].
  destruct (kt_heap st !! k) as [kp|] eqn:Hkp; [|done].
  pose proof (so_counts _ _ _ _ Hst k kp Hkp) as Hcount. destruct (Z.eqb_spec (kp_refcount kp) 0) as [H0|H0]; [done|].
  cbn [fst snd]. set (st' := st{{ kt_heap ::= _ }}).
  assert (Hheap : kt_heap st' = <[k := kp{{ kp_refcount ::= Z.add 1 }}]> (kt_heap st)) by done.
  assert (Hpeer : ∀ j, peer_of st' j = peer_of st j).
  { intros j. unfold peer_of. rewrite Hheap. destruct (decide (j = k)) as [->|Hne];
      [by rewrite lookup_insert_eq, Hkp|by rewrite lookup_insert_ne]. }
  assert (Hrefs : ∀ j, refs F (k :: held) j = (if bool_decide (j = k) then 1 else 0) + refs F held j).
  { intros j. unfold refs. rewrite held_count_cons. lia. }
  assert (Hsome : ∀ j, is_Some (kt_heap st' !! j) ↔ is_Some (kt_heap st !! j)).
  { intros j. rewrite Hheap, lookup_insert_is_Some'. split; [intros [<-|?]; [by rewrite Hkp|done]|by right]. }
  split; [|done]. split.
  - intros j kj. rewrite Hheap, Hrefs. intros [[<- <-]|[Hne Hj]]%lookup_insert_Some; cbn.
    + rewrite bool_decide_eq_true_2 by done. lia.
    + rewrite bool_decide_eq_false_2 by done. by rewrite (so_counts _ _ _ _ Hst j kj Hj).
  - intros j. change (kt_rcu st') with (kt_rcu st). rewrite Hsome, Hrefs, (so_rcu _ _ _ _ Hst j).
    pose proof (refs_nonneg F held j). case_bool_decide; subst; [|by rewrite Z.add_0_l].
    split; intros [_ ?]; lia.
  - intros j. rewrite Hrefs, Hsome. case_bool_decide; subst; [by rewrite Hkp|apply (so_alive _ _ _ _ Hst)].
  - apply Hst.
  - intros i p j Hi. rewrite Hpeer. by eapply so_hashed.
Qed.

Lemma create_ok `{Crypto} st F held m p k ini ri ck now :
  store_ok st F held m → kt_heap st !! k = None →
  ∃ st', session_create (Some k) p ini ri ck now st = (Some k, st') ∧ store_ok st' (F ∪ {[k]}) held m ∧ (k ∉ F) ∧
    kt_heap st = delete k (kt_heap st') ∧ kt_rcu st' = kt_rcu st ∧ kt_index st' = kt_index st ∧
    ∀ j, peer_of st' j = if bool_decide (j = k) then Some p else peer_of st j.
Proof.
  intros Hst Hk. unfold session_create, keypair_create. destruct (derive_keys ck now) as [k1 k2].
  eexists. split; [done|]. set (st' := _ {{ kt_heap ::= alter _ _ }}).
  assert (Hheap : ∃ kp, kt_heap st' = <[k := kp]> (kt_heap st) ∧ kp_refcount kp = 1 ∧ kp_peer kp = p).
  { eexists. split; [subst st'; cbn; apply alter_insert_eq|done]. }
  destruct Hheap as (kp&Hheap&Hn&Hp). assert (Hrcu : kt_rcu st' = kt_rcu st) by done.
  assert (Hidx : kt_index st' = kt_index st) by done. clearbody st'.
  assert (HkF : refs F held k = 0).
  { destruct (decide (refs F held k = 0)) as [|Hne]; [done|]. apply (so_alive _ _ _ _ Hst) in Hne. rewrite Hk in Hne. by destruct Hne. }
  assert (Hnew : k ∉ F). { intros HF. by destruct (slotted_alive _ _ _ _ _ Hst HF). }
  assert (Hrefs : ∀ j, refs (F ∪ {[k]}) held j = (if bool_decide (j = k) then 1 else 0) + refs F held j).
  { intros j. replace F with ((F ∪ {[k]}) ∖ {[k]}) at 2 by set_solver. apply refs_remove. set_solver. }
  assert (Hpeer : ∀ j, peer_of st' j = if bool_decide (j = k) then Some p else peer_of st j).
  { intros j. unfold peer_of. rewrite Hheap. case_bool_decide as Hj; [subst j; rewrite lookup_insert_eq; cbn; by rewrite Hp|].
    by rewrite lookup_insert_ne. }
  split_and!; [|done|by rewrite Hheap, delete_insert_id|done|done|done]. split.
  - intros j kj. rewrite Hheap, Hrefs. intros [[<- <-]|[Hne Hj]]%lookup_insert_Some.
    + rewrite bool_decide_eq_true_2 by done. lia.
    + rewrite bool_decide_eq_false_2 by done. by rewrite (so_counts _ _ _ _ Hst j kj Hj).
  - intros j. rewrite Hrcu, Hheap, Hrefs, (so_rcu _ _ _ _ Hst j), lookup_insert_is_Some'.
    case_bool_decide as Hj; [subst j; rewrite HkF, Hk|rewrite Z.add_0_l; naive_solver].
    split; [intros [[? [=]] _]|intros [_ ?]; lia].
  - intros j. rewrite Hheap, Hrefs, lookup_insert_is_Some'. case_bool_decide; [by left|]. right. by eapply so_alive.
  - rewrite Hidx. apply Hst.
  - intros i q j Hi. destruct (so_hashed _ _ _ _ Hst i q j Hi) as [HjF Hq]. split; [set_solver|].
    rewrite Hpeer, bool_decide_eq_false_2; [done|]. by intros ->.
Qed.

(** A change of the index table. *)
Lemma index_ok st F held m t m' :
  store_ok st F held m → implements t m' →
  (∀ i p k, m' !! i = Some (EntKeypair p k) → (∃ j, m !! j = Some (EntKeypair p k)) ∨ k ∈ F ∧ peer_of st k = Some p) →
  store_ok (st{{ kt_index := t }}) F held m'.
Proof.
  intros Hst Ht Hm. split; cbn; [apply (so_counts _ _ _ _ Hst)|apply (so_rcu _ _ _ _ Hst)|apply (so_alive _ _ _ _ Hst)|done|].
  intros i p k Hi. destruct (Hm i p k Hi) as [[j Hj]|?]; [by apply (so_hashed _ _ _ _ Hst j)|done].
Qed.

Lemma hash_ok st F held m p k :
  store_ok st F held m → k ∈ F → peer_of st k = Some p → unhashed m (EntKeypair p k) →
  store_ok (session_hash p k st).2 F held
    ((λ e, if bool_decide (e = EntHandshake p) then EntKeypair p k else e) <$> m).
Proof.
  intros Hst HF Hp Hun. unfold session_hash.
  pose proof (replace_implements (EntHandshake p) (EntKeypair p k) _ _ (so_index _ _ _ _ Hst) Hun) as Hr.
  destruct (wg_index_hashtable_replace _ _ _) as [b t]. cbn [snd] in *. apply (index_ok _ _ _ m); [done|done|].
  intros i q j (e&He&Hi)%lookup_fmap_Some. case_bool_decide; simplify_eq; [by right|left; by exists i].
Qed.

Lemma handshake_remove_ok st F held m p :
  store_ok st F held m →
  store_ok (st{{ kt_index ::= wg_index_hashtable_remove (EntHandshake p) }}) F held
    (filter (λ kv, kv.2 ≠ EntHandshake p) m).
Proof.
  intros Hst. apply (index_ok _ _ _ m); [done|apply remove_implements, Hst|].
  intros i q k [Hi _]%map_lookup_filter_Some. left. by exists i.
Qed.

Lemma handshake_insert_ok st F held m p i t j :
  store_ok st F held m → wg_index_hashtable_insert [(i, [])] (EntHandshake p) (kt_index st) = Some (j, t) →
  j = i ∧ (filter (λ kv : ientry, kv.2 ≠ EntHandshake p) m : indices) !! i = None ∧
  store_ok (st{{ kt_index := t }}) F held (<[i := EntHandshake p]> (filter (λ kv, kv.2 ≠ EntHandshake p) m)).
Proof.
  intros Hst. pose proof (remove_implements (EntHandshake p) _ _ (so_index _ _ _ _ Hst)) as Hr.
  unfold wg_index_hashtable_insert. cbn. unfold insert_locked. fold (wg_index_hashtable_remove (EntHandshake p) (kt_index st)).
  rewrite (find_index_spec _ _ i Hr). destruct (_ !! i) eqn:Hi; [done|]. intros [= <- <-]. split_and!; [done|done|].
  assert (Hun : unhashed (filter (λ kv : ientry, kv.2 ≠ EntHandshake p) m) (EntHandshake p)).
  { by intros l [_ ?]%map_lookup_filter_Some. }
  apply (index_ok _ _ _ m); [done|by apply insert_implements|].
  intros l q k [[_ [=]]|[_ [Hl _]%map_lookup_filter_Some]]%lookup_insert_Some. left. by exists l.
Qed.

(** A change of sessions that keeps counts and peers. *)
Lemma alter_ok st F held m f k :
  store_ok st F held m → (∀ kp, kp_refcount (f kp) = kp_refcount kp) → (∀ kp, kp_peer (f kp) = kp_peer kp) →
  store_ok (st{{ kt_heap ::= alter f k }}) F held m ∧ ∀ j, peer_of (st{{ kt_heap ::= alter f k }}) j = peer_of st j.
Proof.
  intros Hst Hn Hp.
  assert (Hpeer : ∀ j, peer_of (st{{ kt_heap ::= alter f k }}) j = peer_of st j).
  { intros j. unfold peer_of. change (kt_heap (st{{ kt_heap ::= alter f k }})) with (alter f k (kt_heap st)).
    destruct (decide (j = k)) as [->|Hj]; [|by rewrite lookup_alter_ne].
    rewrite lookup_alter_eq. destruct (kt_heap st !! k) as [kp|]; cbn; by rewrite ?Hp. }
  assert (Hsome : ∀ j, is_Some (alter f k (kt_heap st) !! j) ↔ is_Some (kt_heap st !! j)).
  { intros j. destruct (decide (j = k)) as [->|Hj]; [|by rewrite lookup_alter_ne].
    rewrite lookup_alter_eq. apply fmap_is_Some. }
  split; [|done]. split; cbn.
  - intros j kj. destruct (decide (j = k)) as [->|Hj]; [|rewrite lookup_alter_ne by done; apply (so_counts _ _ _ _ Hst)].
    rewrite lookup_alter_eq. intros (kp&Hj&->)%fmap_Some. rewrite Hn. by apply (so_counts _ _ _ _ Hst).
  - intros j. rewrite Hsome. apply (so_rcu _ _ _ _ Hst).
  - intros j. rewrite Hsome. apply (so_alive _ _ _ _ Hst).
  - apply Hst.
  - intros i p j Hi. rewrite Hpeer. by eapply so_hashed.
Qed.

Lemma expire_ok st F held m ks :
  store_ok st F held m → store_ok (expire_keypairs ks st) F held m ∧ ∀ j, peer_of (expire_keypairs ks st) j = peer_of st j.
Proof.
  assert (Hone : ∀ st o, store_ok st F held m →
    store_ok (expire_sending o st) F held m ∧ ∀ j, peer_of (expire_sending o st) j = peer_of st j).
  { intros st' [k|] Hst; [|done]. by apply alter_ok. }
  intros Hst. unfold expire_keypairs. destruct (Hone st (ks_next_keypair ks) Hst) as [H1 P1].
  destruct (Hone _ (ks_current_keypair ks) H1) as [H2 P2]. split; [done|]. intros j. by rewrite P2.
Qed.

Lemma free_all_heap st l j : kt_heap (foldr keypair_free_rcu st l) !! j = if bool_decide (j ∈ l) then None else kt_heap st !! j.
Proof.
  induction l as [|k l IH]; [done|]. cbn. destruct (decide (j = k)) as [->|Hne].
  - rewrite lookup_delete_eq, bool_decide_eq_true_2; [done|]. by left.
  - rewrite lookup_delete_ne by done. rewrite IH. rewrite (bool_decide_ext (j ∈ k :: l) (j ∈ l)); [done|].
    rewrite elem_of_cons. naive_solver.
Qed.

Lemma free_all_index st l : kt_index (foldr keypair_free_rcu st l) = kt_index st.
Proof. induction l as [|k l IH]; [done|]. cbn. apply IH. Qed.

Lemma grace_ok st F held m :
  store_ok st F held m → 
  let st' := (foldr keypair_free_rcu st (kt_rcu st)){{ kt_rcu := [] }} in
  store_ok st' F held m ∧ ∀ j, refs F held j ≠ 0 → peer_of st' j = peer_of st j.
Proof.
  intros Hst st'. assert (Hheap : ∀ j, kt_heap st' !! j = if bool_decide (j ∈ kt_rcu st) then None else kt_heap st !! j).
  { intros j. apply free_all_heap. }
  assert (Hidx : kt_index st' = kt_index st) by apply free_all_index.
  assert (Hrcu : kt_rcu st' = []) by done. clearbody st'.
  assert (Hlive : ∀ j, refs F held j ≠ 0 → kt_heap st' !! j = kt_heap st !! j).
  { intros j Hj. rewrite Hheap, bool_decide_eq_false_2; [done|]. by intros [_ ?]%(so_rcu _ _ _ _ Hst). }
  split; [|intros j Hj; unfold peer_of; by rewrite Hlive]. split.
  - intros j kj. rewrite Hheap. case_bool_decide; [done|]. apply (so_counts _ _ _ _ Hst).
  - intros j. rewrite Hrcu, Hheap, elem_of_nil. split; [done|]. intros [Hj H0]. case_bool_decide as Hin; [by destruct Hj|].
    apply Hin. by apply (so_rcu _ _ _ _ Hst).
  - intros j Hj. rewrite Hlive by done. by apply (so_alive _ _ _ _ Hst).
  - rewrite Hidx. apply Hst.
  - intros i p j Hi. destruct (so_hashed _ _ _ _ Hst i p j Hi) as [HF Hp]. split; [done|].
    unfold peer_of. rewrite Hlive; [done|]. by destruct (slotted_alive _ _ _ _ _ Hst HF).
Qed.

(** ** What a new session leaves alone *)
Lemma put_keeps_handshake o u st i p :
  find_index i (kt_index st) = Some (EntHandshake p) →
  find_index i (kt_index (wg_noise_keypair_put o u st)) = Some (EntHandshake p).
Proof.
  intros Hf. unfold wg_noise_keypair_put. destruct o as [k|]; [|done]. destruct (kt_heap st !! k) as [kp|]; [|done].
  destruct u; case_if; cbn; repeat apply find_remove_other; done.
Qed.

Lemma put_keeps_session o u st k :
  k ∉ opt_set o → kt_heap (wg_noise_keypair_put o u st) !! k = kt_heap st !! k.
Proof.
  intros Hk. unfold wg_noise_keypair_put. destruct o as [j|]; [|done]. destruct (kt_heap st !! j) as [kp|]; [|done].
  assert (j ≠ k) by (cbn in Hk; set_solver). destruct u; case_if; cbn; by rewrite lookup_insert_ne.
Qed.

Lemma add_keeps ks k ini st :
  let r := add_new_keypair ks k ini st in
  (if ini then ks_current_keypair r.1 else ks_next_keypair r.1) = Some k ∧
  (k ∉ kset ks → kt_heap r.2 !! k = kt_heap st !! k) ∧
  ∀ i p, find_index i (kt_index st) = Some (EntHandshake p) → find_index i (kt_index r.2) = Some (EntHandshake p).
Proof.
  destruct ks as [c p n]. unfold add_new_keypair, kset.
  destruct ini; [destruct n as [n|]|]; cbn; (split; [done|]); (split; [intros Hk|intros i q Hf]);
    rewrite ?put_keeps_session by set_solver; try done; by repeat apply put_keeps_handshake.
Qed.

Lemma session_create_spec `{Crypto} k p ini ri ck now st :
  ∃ st', session_create (Some k) p ini ri ck now st = (Some k, st') ∧ kt_index st' = kt_index st ∧
    kt_heap st' !! k = Some (mk_keypair p
      (if ini then (derive_keys ck now).1 else (derive_keys ck now).2) 0
      (if ini then (derive_keys ck now).2 else (derive_keys ck now).1) replay_init ri ini 1 (u64 (kt_counter st + 1))).
Proof.
  unfold session_create, keypair_create. destruct (derive_keys ck now) as [k1 k2]. eexists. split_and!; [done|done|].
  cbn. by rewrite lookup_alter_eq, lookup_insert_eq.
Qed.

(** A session just installed and not yet confirmed. *)
Definition newest (ks : noise_keypairs) (k : Z) : Prop :=
  ks_next_keypair ks = Some k ∨ ks_current_keypair ks = Some k ∧ ks_next_keypair ks = None.

Record kinv (w : kworld) (F : gset Z) (m : indices) : Prop := {
  ki_store : store_ok (kw_store w) F (kw_held w) m;
  ki_slots : ∀ p, kset (slots w p) ⊆ F;
  ki_peer : ∀ p k, k ∈ kset (slots w p) → peer_of (kw_store w) k = Some p;
  ki_F : ∀ k p, k ∈ F → peer_of (kw_store w) k = Some p → k ∈ kset (slots w p);
  ki_distinct : ∀ p, distinct (slots w p);
  ki_begin : ∀ p k, kw_begin w !! p = Some k → newest (slots w p) k ∧ unhashed m (EntKeypair p k);
}.

(** ** The sections on slots, by the sessions they keep and drop *)
Lemma put_slots st F held m a b :
  store_ok st F held m → opt_set a ⊆ F → opt_set b ⊆ F → opt_set a ## opt_set b →
  ∃ m', store_ok (wg_noise_keypair_put b true (wg_noise_keypair_put a true st)) (F ∖ (opt_set a ∪ opt_set b)) held m' ∧
    m' ⊆ m ∧ ∀ j, peer_of (wg_noise_keypair_put b true (wg_noise_keypair_put a true st)) j = peer_of st j.
Proof.
  intros Hst Ha Hb Hab. destruct (put_slot _ _ _ a _ Hst Ha) as (m1&H1&S1&P1).
  destruct (put_slot _ _ _ b _ H1) as (m2&H2&S2&P2); [set_solver|].
  exists m2. split_and!; [by rewrite <- difference_difference_l_L|by etrans|]. intros j. by rewrite P2.
Qed.

Lemma keep_sets (F D R K : gset Z) : D ∪ R ⊆ F → D ## R → K ## F → F ∖ (D ∪ R) ∪ (R ∪ K) = (F ∪ K) ∖ D.
Proof. intros. apply set_eq. intros j. destruct (decide (j ∈ R)), (decide (j ∈ D)); set_solver. Qed.

(** The slots [ks'] keep the sessions [R] of [ks], drop [D] and add [K]. *)
Lemma store_kept st F held m ks ks' (D R K : gset Z) :
  store_ok st ((F ∪ K) ∖ D) held m → kset ks ⊆ F → kset ks = D ∪ R → D ## R → K ## F → kset ks' = R ∪ K →
  store_ok st (F ∖ kset ks ∪ kset ks') held m.
Proof. intros Hst HF Hks HD HK ->. rewrite Hks in *. by rewrite keep_sets. Qed.

(** Solves a goal about the sessions of slots from their disjointness. *)
Ltac slot_sets :=
  unfold distinct, kset; cbn in *;
  repeat match goal with
  | H : store_ok _ _ _ _ |- _ => clear H
  | H : @subseteq indices _ _ _ |- _ => clear H
  | H : ∀ _ : Z, peer_of _ _ = _ |- _ => clear H
  | H : kset _ ⊆ _ |- _ => clear H
  end;
  repeat match goal with |- context [opt_set ?o] => is_var o; let S := fresh "S" in set (S := opt_set o) in *; clearbody S end;
  set_solver.

Lemma add_session_ok st F held m ks k ini :
  store_ok st (F ∪ {[k]}) held m → k ∉ F → kset ks ⊆ F → distinct ks →
  let r := add_new_keypair ks k ini st in
  ∃ m', store_ok r.2 (F ∖ kset ks ∪ kset r.1) held m' ∧ m' ⊆ m ∧ (∀ j, peer_of r.2 j = peer_of st j) ∧
    distinct r.1 ∧ kset r.1 ⊆ kset ks ∪ {[k]} ∧ newest r.1 k.
Proof.
  intros Hst Hk Hks Hd r. destruct Hd as (D1&D2&D3). destruct ks as [c p n]. subst r. unfold add_new_keypair.
  pose proof Hks as Hks0. unfold kset in Hks0. cbn in Hks0, D1, D2, D3. destruct ini; [destruct n as [n|]|].
  - destruct (put_slots _ _ _ _ c p Hst) as (m'&H'&S'&P'); [set_solver..|]. exists m'.
    split_and!; [|done|done|slot_sets..|by right].
    apply (store_kept _ _ _ _ _ _ (opt_set c ∪ opt_set p) {[n]} {[k]}); try done; slot_sets.
  - destruct (put_slot _ _ _ p _ Hst) as (m'&H'&S'&P'); [set_solver|]. exists m'.
    split_and!; [|done|done|slot_sets..|by right].
    apply (store_kept _ _ _ _ _ _ (opt_set p) (opt_set c) {[k]}); try done; slot_sets.
  - destruct (put_slots _ _ _ _ n p Hst) as (m'&H'&S'&P'); [set_solver..|]. exists m'.
    split_and!; [|done|done|slot_sets..|by left].
    apply (store_kept _ _ _ _ _ _ (opt_set n ∪ opt_set p) (opt_set c) {[k]}); try done; slot_sets.
Qed.

Lemma clear_ok st F held m ks :
  store_ok st F held m → kset ks ⊆ F → distinct ks →
  let r := wg_noise_keypairs_clear ks st in
  ∃ m', store_ok r.2 (F ∖ kset ks ∪ kset r.1) held m' ∧ m' ⊆ m ∧ (∀ j, peer_of r.2 j = peer_of st j) ∧
    distinct r.1 ∧ kset r.1 ⊆ kset ks.
Proof.
  intros Hst Hks (D1&D2&D3) r. destruct ks as [c p n]. subst r. unfold wg_noise_keypairs_clear.
  pose proof Hks as Hks0. unfold kset in Hks0. cbn in Hks0, D1, D2, D3.
  destruct (put_slots _ _ _ _ n p Hst) as (m1&H1&S1&P1); [set_solver..|].
  destruct (put_slot _ _ _ c _ H1) as (m2&H2&S2&P2); [set_solver|]. exists m2.
  split_and!; [|by etrans|intros j; cbn [snd]; by rewrite P2|slot_sets..].
  apply (store_kept _ _ _ _ _ _ (opt_set n ∪ opt_set p ∪ opt_set c) ∅ ∅); try done; try slot_sets.
  by rewrite union_empty_r_L, <- difference_difference_l_L.
Qed.

Lemma received_ok st F held m ks k :
  store_ok st F held m → kset ks ⊆ F → distinct ks →
  let r := (received_locked ks k st).2 in
  ∃ m', store_ok r.2 (F ∖ kset ks ∪ kset r.1) held m' ∧ m' ⊆ m ∧ (∀ j, peer_of r.2 j = peer_of st j) ∧
    distinct r.1 ∧ kset r.1 ⊆ kset ks ∧ ∀ j, newest ks j → newest r.1 j.
Proof.
  intros Hst Hks Hd r. pose proof Hd as (D1&D2&D3). destruct ks as [c p n]. subst r. unfold received_locked.
  pose proof Hks as Hks0. unfold kset in Hks0. cbn in Hks0, D1, D2, D3. cbn [ks_next_keypair].
  case_bool_decide as Hn; cbn [negb snd].
  - subst n. destruct (put_slot _ _ _ p _ Hst) as (m'&H'&S'&P'); [set_solver|]. exists m'.
    split_and!; [|done|done|slot_sets..|].
    + apply (store_kept _ _ _ _ _ _ (opt_set p) (opt_set c ∪ {[k]}) ∅); try done; try slot_sets.
      by rewrite union_empty_r_L.
    + intros j [[= <-]|[_ [=]]]. by right.
  - exists m. split_and!; try done. cbn [fst snd].
    by rewrite difference_union_L, (union_comm_L F), (proj1 (subseteq_union_L _ _) Hks).
Qed.

(** ** The invariant is kept *)
Lemma slots_insert w p ks st held b q :
  slots (mk_kworld (<[p := ks]> (kw_slots w)) st held b) q = if bool_decide (q = p) then ks else slots w q.
Proof.
  unfold slots. cbn [kw_slots]. case_bool_decide; [subst; by rewrite lookup_insert_eq|by rewrite lookup_insert_ne].
Qed.

Lemma unhashed_sub (m m' : indices) e : unhashed m e → m' ⊆ m → unhashed m' e.
Proof. intros Hm Hsub i Hi. by apply (Hm i), (lookup_weaken m'). Qed.

(** A section on the slots of [p], after which [p] may be at the start of a
    session. *)
Lemma kinv_slots w F m p ks' st' F' m' b' :
  kinv w F m → F' = F ∖ kset (slots w p) ∪ kset ks' →
  store_ok st' F' (kw_held w) m' → m' ⊆ m →
  (∀ j, j ∈ F → peer_of st' j = peer_of (kw_store w) j) → (∀ k, k ∈ kset ks' → peer_of st' k = Some p) →
  distinct ks' →
  (∀ q k, q ≠ p → b' !! q = Some k → kw_begin w !! q = Some k) →
  (∀ k, b' !! p = Some k → newest ks' k ∧ unhashed m' (EntKeypair p k)) →
  kinv (mk_kworld (<[p := ks']> (kw_slots w)) st' (kw_held w) b') F' m'.
Proof.
  intros Hi -> Hst Hm Hpeer Hnew Hd Hb Hbp. split; cbn [kw_store kw_held kw_begin]; try intros q; rewrite ?slots_insert; try done.
  - case_bool_decide as Hq; [set_solver|]. intros j Hj. pose proof (ki_slots _ _ _ Hi q j Hj) as HF.
    apply elem_of_union_l, elem_of_difference. split; [done|]. intros Hjp.
    pose proof (ki_peer _ _ _ Hi q j Hj). pose proof (ki_peer _ _ _ Hi p j Hjp). congruence.
  - intros k. case_bool_decide as Hq; [subst; apply Hnew|]. intros Hk.
    rewrite Hpeer by (by apply (ki_slots _ _ _ Hi q)). by apply (ki_peer _ _ _ Hi).
  - intros r Hq Hr. rewrite slots_insert. case_bool_decide as Hrp; [subst r|].
    + apply elem_of_union in Hq as [[HF Hp]%elem_of_difference|?]; [|done].
      rewrite Hpeer in Hr by done. by destruct (Hp (ki_F _ _ _ Hi q p HF Hr)).
    + apply elem_of_union in Hq as [[HF Hp]%elem_of_difference|Hks].
      * rewrite Hpeer in Hr by done. by apply (ki_F _ _ _ Hi).
      * rewrite (Hnew q Hks) in Hr. congruence.
  - case_bool_decide; [done|]. apply (ki_distinct _ _ _ Hi).
  - intros k Hk. case_bool_decide as Hq; [subst; by apply Hbp|].
    destruct (ki_begin _ _ _ Hi q k (Hb q k Hq Hk)) as [? Hun]. split; [done|]. by eapply unhashed_sub.
Qed.

(** A section that changes no slots. *)
Lemma kinv_frame w F m st' held' m' b' :
  kinv w F m → store_ok st' F held' m' → (∀ j, j ∈ F → peer_of st' j = peer_of (kw_store w) j) →
  (∀ p k, b' !! p = Some k → kw_begin w !! p = Some k ∧ unhashed m' (EntKeypair p k)) →
  kinv (mk_kworld (kw_slots w) st' held' b') F m'.
Proof.
  intros Hi Hst Hpeer Hb. split; cbn [kw_store kw_held kw_begin].
  - done.
  - apply (ki_slots _ _ _ Hi).
  - intros p k Hk. rewrite Hpeer by (by apply (ki_slots _ _ _ Hi p)). by apply (ki_peer _ _ _ Hi).
  - intros k p Hk. rewrite Hpeer by done. by apply (ki_F _ _ _ Hi).
  - apply (ki_distinct _ _ _ Hi).
  - intros p k Hk. destruct (Hb p k Hk) as [Hw ?]. by destruct (ki_begin _ _ _ Hi p k Hw).
Qed.

Lemma newest_in ks k : newest ks k → k ∈ kset ks.
Proof. unfold kset. intros [->|[-> _]]; cbn; set_solver. Qed.

(** What the environment guarantees: an allocation yields an address that is not
    in use, and the sessions of a peer are not cleared between the installation
    of a new one and its hashing. *)
Definition kop_ok (w : kworld) (o : kop) : Prop :=
  match o with
  | KAdd _ (Some k) _ _ _ _ _ => kt_heap (kw_store w) !! k = None
  | KClear p => kw_begin w !! p = None
  | _ => True
  end.

Fixpoint kops_ok `{Crypto} (w : kworld) (os : list kop) : Prop :=
  match os with [] => True | o :: os => kop_ok w o ∧ kops_ok (kstep w o) os end.

Lemma kinv_add `{Crypto} w F m p alloc dead ini ri ck now :
  kinv w F m → kop_ok w (KAdd p alloc dead ini ri ck now) →
  ∃ F' m', kinv (kstep w (KAdd p alloc dead ini ri ck now)) F' m'.
Proof.
  intros Hi Hok. cbn [kstep]. destruct (kw_begin w !! p) eqn:Hb; [by eauto|].
  destruct alloc as [k|]; [|exists F, m; by destruct w].
  destruct (create_ok _ _ _ _ p k ini ri ck now (ki_store _ _ _ Hi) Hok) as (st1&->&H1&HkF&Hheap&Hrcu&Hidx&P1).
  assert (Hold : ∀ j, j ∈ F → peer_of st1 j = peer_of (kw_store w) j).
  { intros j Hj. rewrite P1, bool_decide_eq_false_2; [done|]. by intros ->. }
  unfold session_install. destruct dead.
  - exists F, m. apply (kinv_frame w F m); [done| | |].
    + destruct (ki_store _ _ _ Hi) as [S1 S2 S3 S4 S5].
      split; unfold peer_of; cbn; rewrite <- ?Hheap, ?Hrcu, ?Hidx; done.
    + intros j _. unfold peer_of. cbn. by rewrite <- Hheap.
    + intros q j Hq. split; [done|]. by destruct (ki_begin _ _ _ Hi q j Hq).
  - destruct (add_session_ok st1 F _ m (slots w p) k ini H1 HkF (ki_slots _ _ _ Hi p) (ki_distinct _ _ _ Hi p))
      as (m'&H2&Hsub&P2&Hd&Hks&Hnew).
    destruct (add_new_keypair _ _ _ _) as [ks' st2]. cbn [fst snd] in *.
    eexists _, m'. apply (kinv_slots w F m p); [done|done|done|done| | |done| |].
    + intros j Hj. rewrite P2. by apply Hold.
    + intros j Hj%Hks. rewrite P2, P1. case_bool_decide as Hjk; [done|].
      apply (ki_peer _ _ _ Hi). set_solver.
    + intros q j Hq. by rewrite lookup_insert_ne.
    + intros j. rewrite lookup_insert_eq. intros [= <-]. split; [done|].
      intros i Hik. apply HkF. by eapply (so_hashed _ _ _ _ (ki_store _ _ _ Hi)), lookup_weaken.
Qed.

Lemma kinv_begin_sub w F m (m' : indices) :
  kinv w F m → m' ⊆ m → ∀ p k, kw_begin w !! p = Some k → kw_begin w !! p = Some k ∧ unhashed m' (EntKeypair p k).
Proof. intros Hi Hsub p k Hk. destruct (ki_begin _ _ _ Hi p k Hk). split; [done|]. by eapply unhashed_sub. Qed.

Lemma kinv_hash `{Crypto} w F m p : kinv w F m → ∃ F' m', kinv (kstep w (KHash p)) F' m'.
Proof.
  intros Hi. cbn [kstep]. destruct (kw_begin w !! p) as [k|] eqn:Hb; [|by eauto].
  destruct (ki_begin _ _ _ Hi p k Hb) as [Hn Hun]. apply newest_in in Hn.
  pose proof (ki_peer _ _ _ Hi p k Hn) as Hp. pose proof (ki_slots _ _ _ Hi p k Hn) as HF.
  eexists F, _. apply (kinv_frame w F m); [done|by eapply hash_ok, Hun; first apply Hi| |].
  - intros j _. unfold session_hash. by destruct (wg_index_hashtable_replace _ _ _).
  - intros q j [Hq Hj]%lookup_delete_Some. split; [done|]. destruct (ki_begin _ _ _ Hi q j Hj) as [_ Hu].
    intros i (e&He&Hie)%lookup_fmap_Some. case_bool_decide; simplify_eq. by apply (Hu i).
Qed.

Lemma kinv_handshake `{Crypto} w F m p i :
  kinv w F m → (∃ m', kinv (kstep w (KHandshakeInsert p i)) F m') ∧ ∃ m', kinv (kstep w (KHandshakeRemove p)) F m'.
Proof.
  intros Hi. cbn [kstep].
  assert (Hrem : ∃ m', kinv (w{{ kw_store ::= λ st, st{{ kt_index ::= wg_index_hashtable_remove (EntHandshake p) }} }}) F m').
  { eexists. apply (kinv_frame w F m); [done|apply handshake_remove_ok, Hi|done|].
    apply (kinv_begin_sub w F m); [done|apply map_filter_subseteq]. }
  split; [|done]. destruct (wg_index_hashtable_insert _ _ _) as [[j t]|] eqn:Hins; [|done].
  destruct (handshake_insert_ok _ _ _ _ _ _ _ _ (ki_store _ _ _ Hi) Hins) as (->&_&Hst).
  eexists. apply (kinv_frame w F m); [done|exact Hst|done|].
  intros q k Hk. split; [done|]. destruct (ki_begin _ _ _ Hi q k Hk) as [_ Hu].
  intros l [[_ [=]]|[_ [Hl _]%map_lookup_filter_Some]]%lookup_insert_Some. by apply (Hu l).
Qed.

Lemma kinv_get `{Crypto} w F m o : kinv w F m → kinv (hold (wg_noise_keypair_get o (kw_store w)) w) F m.
Proof.
  intros Hi. destruct (get_ok _ _ _ o _ (ki_store _ _ _ Hi)) as [Hst Hp].
  apply (kinv_frame w F m); [done|done|by intros|]. by apply (kinv_begin_sub w F m).
Qed.

Lemma kinv_step `{Crypto} w F m o : kinv w F m → kop_ok w o → ∃ F' m', kinv (kstep w o) F' m'.
Proof.
  intros Hi Hok. destruct o as [p alloc dead ini ri ck now|p|p|p|p k|i|p|k|p i|p|].
  - by eapply kinv_add.
  - by eapply kinv_hash.
  - destruct (clear_ok _ _ _ _ (slots w p) (ki_store _ _ _ Hi) (ki_slots _ _ _ Hi p) (ki_distinct _ _ _ Hi p))
      as (m'&Hst&Hsub&Hp&Hd&Hks). eexists _, m'. cbn in Hok.
    apply (kinv_slots w F m p); [done|done|done|done|by intros| |done|done|intros k Hk; cbn in Hk; congruence].
    intros k Hk%Hks. rewrite Hp. by apply (ki_peer _ _ _ Hi).
  - destruct (expire_ok _ _ _ _ (slots w p) (ki_store _ _ _ Hi)) as [Hst Hp]. exists F, m.
    apply (kinv_frame w F m); [done|done|by intros|]. by apply (kinv_begin_sub w F m).
  - destruct (received_ok _ _ _ _ (slots w p) k (ki_store _ _ _ Hi) (ki_slots _ _ _ Hi p) (ki_distinct _ _ _ Hi p))
      as (m'&Hst&Hsub&Hp&Hd&Hks&Hnew). eexists _, m'.
    apply (kinv_slots w F m p); [done|done|done|done|by intros| |done|done|].
    + intros j Hj%Hks. rewrite Hp. by apply (ki_peer _ _ _ Hi).
    + intros j Hj. destruct (ki_begin _ _ _ Hi p j Hj). split; [by apply Hnew|by eapply unhashed_sub].
  - cbn [kstep]. destruct (wg_index_hashtable_lookup _ _ _ _) as [[]|]; eauto using kinv_get.
  - eauto using kinv_get.
  - cbn [kstep]. case_bool_decide as Hk; [|by eauto].
    destruct (put_held _ _ _ _ _ (ki_store _ _ _ Hi) Hk) as (m'&Hst&Hsub&Hp). exists F, m'.
    apply (kinv_frame w F m); [done|done|by intros|]. by apply (kinv_begin_sub w F m).
  - destruct (kinv_handshake w F m p i Hi) as [? _]. by exists F.
  - destruct (kinv_handshake w F m p 0 Hi) as [_ ?]. by exists F.
  - cbn [kstep]. case_bool_decide; [|by eauto]. destruct (grace_ok _ _ _ _ (ki_store _ _ _ Hi)) as [Hst Hp].
    exists F, m. apply (kinv_frame w F m); [done|done| |by apply (kinv_begin_sub w F m)].
    intros j Hj. apply Hp. by destruct (slotted_alive _ _ _ _ _ (ki_store _ _ _ Hi) Hj).
Qed.

Lemma kinv_init : kinv kinit ∅ ∅.
Proof.
  split; cbn; try done.
  split; cbn; try done; [|apply implements_empty]. intros k. split; [by intros ?%elem_of_nil|by intros [[? [=]] _]].
Qed.

Lemma kinv_run `{Crypto} w F m os : kinv w F m → kops_ok w os → ∃ F' m', kinv (foldl kstep w os) F' m'.
Proof.
  revert w F m. induction os as [|o os IH]; intros w F m Hi Hok; [by eauto|]. destruct Hok as [Ho Hok].
  destruct (kinv_step w F m o Hi Ho) as (F'&m'&Hi'). by eapply IH.
Qed.

Lemma lookup_keypair t m i p k :
  implements t m → wg_index_hashtable_lookup (λ _, true) INDEX_HASHTABLE_KEYPAIR i t = Some (EntKeypair p k) →
  m !! i = Some (EntKeypair p k).
Proof.
  intros Ht. unfold wg_index_hashtable_lookup. rewrite (find_index_spec t m) by done.
  destruct (m !! i) as [e|]; [|done]. case_if; [|done]. by intros [= ->].
Qed.

Lemma refs_pos F held k : refs F held k ≠ 0 ↔ k ∈ F ∨ k ∈ held.
Proof.
  unfold refs. pose proof (held_count_nonneg k held) as Hn. assert (Hh : held_count k held ≠ 0 ↔ k ∈ held).
  { unfold held_count. split.
    - intros Hl. destruct (filter (eq k) held) as [|x l] eqn:Hf; [done|].
      assert (Hx : x ∈ filter (eq k) held) by (rewrite Hf; by left). by apply list_elem_of_filter in Hx as [-> ?].
    - intros Hk H0. assert (Hx : k ∈ filter (eq k) held) by (by apply list_elem_of_filter).
      rewrite (zlen_0_inv (filter (eq k) held)) in Hx by lia. by apply elem_of_nil in Hx. }
  rewrite <- Hh. case_bool_decide; split; [by left|lia|intros ?; right; lia|intros [?|?]; [done|lia]].
Qed.

Lemma kinv_refs w F m k kp :
  kinv w F m → kt_heap (kw_store w) !! k = Some kp →
  refs F (kw_held w) k = (if bool_decide (k ∈ kset (slots w (kp_peer kp))) then 1 else 0) + held_count k (kw_held w).
Proof.
  intros Hi Hkp. unfold refs. f_equal. rewrite (bool_decide_ext (k ∈ F) (k ∈ kset (slots w (kp_peer kp)))); [done|].
  split; [|apply (ki_slots _ _ _ Hi)]. intros HF. apply (ki_F _ _ _ Hi); [done|]. unfold peer_of. by rewrite Hkp.
Qed.


Definition some_sections : list kop :=
  [KHandshakeInsert 1 500; KAdd 1 (Some 10) false false 77 (replicate 32 5) 1000; KHash 1; KGetIndex 500;
   KReceived 1 10; KHandshakeInsert 1 501; KAdd 1 (Some 11) false true 78 (replicate 32 6) 2000; KHash 1;
   KHandshakeInsert 1 502; KAdd 1 (Some 12) false true 79 (replicate 32 7) 3000; KHash 1; KClear 1].


(** A session cleared between its installation and its hashing is hashed all the
    same, and stays in the table after it is freed: the handshake's lock does not
    exclude [wg_noise_keypairs_clear]. *)
Lemma clear_before_hash_dangles :
  let w := foldl (@kstep toy_crypto) kinit
    [KHandshakeInsert 1 500; KAdd 1 (Some 10) false false 77 (replicate 32 5) 1000; KClear 1; KHash 1; KGrace] in
  wg_index_hashtable_lookup (λ _, true) INDEX_HASHTABLE_KEYPAIR 500 (kt_index (kw_store w)) = Some (EntKeypair 1 10) ∧
  kt_heap (kw_store w) !! 10 = None.
Proof. by vm_compute. Qed.
