(* ===== verification/Handshake.v ===== *)
(** * The handshake (kernel/noise.c, the four messages)

    State of a device that takes part in handshakes: its identity, its peers with
    their handshakes and session slots, the table of public keys, and the sessions
    with the index table (Keypairs.v).  Each section under the lock of a handshake
    is a definition; consuming a message reads under the lock, computes without
    it, and writes in a second section, so that other sections can run in
    between.  References to peers are not counted here. *)
From stdpp Require Import prelude list gmap.
From S2P Require Import Prelude Skb Crypto PeerLookup Noise Keypairs.

#[local] Open Scope Z_scope.

Inductive noise_handshake_state :=
  | HANDSHAKE_ZEROED
  | HANDSHAKE_CREATED_INITIATION
  | HANDSHAKE_CONSUMED_INITIATION
  | HANDSHAKE_CREATED_RESPONSE
  | HANDSHAKE_CONSUMED_RESPONSE.

#[export] Instance noise_handshake_state_eq_dec : EqDecision noise_handshake_state.
Proof. solve_decision. Defined.

Record noise_handshake := mk_handshake {
  nh_state : noise_handshake_state;
  nh_last_initiation_consumption : Z;
  nh_ephemeral_private : list Z;
  nh_remote_static : list Z;
  nh_remote_ephemeral : list Z;
  nh_precomputed_static_static : list Z;
  nh_preshared_key : list Z;
  nh_hash : list Z;
  nh_chaining_key : list Z;
  nh_latest_timestamp : list Z;
  nh_remote_index : Z;
}.

#[export] Instance eta_handshake : Settable noise_handshake := λ h,
  mk_handshake (nh_state h) (nh_last_initiation_consumption h) (nh_ephemeral_private h) (nh_remote_static h)
    (nh_remote_ephemeral h) (nh_precomputed_static_static h) (nh_preshared_key h) (nh_hash h) (nh_chaining_key h)
    (nh_latest_timestamp h) (nh_remote_index h).

Record noise_peer := mk_noise_peer {
  np_handshake : noise_handshake;
  np_keypairs : noise_keypairs;
  np_is_dead : bool;
  np_last_sent_handshake : Z;
}.

#[export] Instance eta_noise_peer : Settable noise_peer := λ p,
  mk_noise_peer (np_handshake p) (np_keypairs p) (np_is_dead p) (np_last_sent_handshake p).

Record noise_device := mk_noise_device {
  nd_static_identity : noise_static_identity;
  nd_transport_tcp : bool;
  nd_peers : gmap Z noise_peer;
  nd_peer_hashtable : pubkey_hashtable;
  nd_store : kstore;
}.

#[export] Instance eta_noise_device : Settable noise_device := λ d,
  mk_noise_device (nd_static_identity d) (nd_transport_tcp d) (nd_peers d) (nd_peer_hashtable d) (nd_store d).

Definition REKEY_TIMEOUT := 5.

(** A handshake as allocated, before [wg_noise_handshake_init]. *)
Definition zeros (n : nat) : list Z := replicate n 0.

Definition zeroed_handshake : noise_handshake :=
  mk_handshake HANDSHAKE_ZEROED 0 (zeros 32) (zeros 32) (zeros 32) (zeros 32) (zeros 32) (zeros 32) (zeros 32)
    (zeros 12) 0.

Definition handshake_zero (hs : noise_handshake) : noise_handshake :=
  hs{{ nh_ephemeral_private := zeros 32; nh_remote_ephemeral := zeros 32; nh_hash := zeros 32;
       nh_chaining_key := zeros 32; nh_remote_index := 0; nh_state := HANDSHAKE_ZEROED }}.

Definition wg_noise_reset_last_sent_handshake (now : Z) : Z := u64 (now - (REKEY_TIMEOUT + 1) * NSEC_PER_SEC).

Section handshake.
Context {C : Crypto}.

(** The keyed hash of the public key table, and whether a reference to a peer can
    be taken. *)
Context (siphash : list Z → Z) (alive : Z → bool).

Definition wg_noise_handshake_init (id : noise_static_identity) (peer_public_key : list Z)
    (peer_preshared_key : option (list Z)) : noise_handshake :=
  let hs := zeroed_handshake{{ nh_remote_static := peer_public_key }} in
  let hs := match peer_preshared_key with Some psk => hs{{ nh_preshared_key := psk }} | None => hs end in
  hs{{ nh_precomputed_static_static := wg_noise_precompute_static_static id peer_public_key }}.

(** ** The initiation

    [dst] is the message buffer, [secret] the result of
    [curve25519_generate_secret], [tv_sec] and [tv_nsec] the wall clock.  The
    outer [None] says that every number of [tries] was in use and the search for
    an index goes on. *)
Definition wg_noise_handshake_create_initiation (peer : Z) (id : noise_static_identity) (secret : list Z)
    (tv_sec tv_nsec : Z) (tries : list (Z * list section)) (dst : message_handshake_initiation)
    (hs : noise_handshake) (t : index_hashtable)
    : option (option message_handshake_initiation * noise_handshake * index_hashtable) :=
  if negb (si_has_identity id) then Some (None, hs, t) else
  let '(ck, h) := handshake_init (nh_remote_static hs) in
  let hs := hs{{ nh_chaining_key := ck; nh_hash := h }} in
  let hs := hs{{ nh_ephemeral_private := secret }} in
  match curve25519_generate_public secret with
  | None => Some (None, hs, t)
  | Some e =>
  let dst := dst{{ mi_unencrypted_ephemeral := e }} in
  let '(ck, h) := message_ephemeral e ck h in
  let hs := hs{{ nh_chaining_key := ck; nh_hash := h }} in
  match mix_dh ck secret (nh_remote_static hs) with
  | None => Some (None, hs, t)
  | Some (ck, key) =>
  let '(c, h) := message_encrypt (si_static_public id) key h in
  let dst := dst{{ mi_encrypted_static := c }} in
  let hs := hs{{ nh_chaining_key := ck; nh_hash := h }} in
  match mix_precomputed_dh ck (nh_precomputed_static_static hs) with
  | None => Some (None, hs, t)
  | Some (ck, key) =>
  let '(c, h) := message_encrypt (tai64n_now tv_sec tv_nsec) key h in
  let dst := dst{{ mi_encrypted_timestamp := c }} in
  let hs := hs{{ nh_chaining_key := ck; nh_hash := h }} in
  match wg_index_hashtable_insert tries (EntHandshake peer) t with
  | None => None
  | Some (index, t) =>
      Some (Some (dst{{ mi_sender_index := index }}), hs{{ nh_state := HANDSHAKE_CREATED_INITIATION }}, t)
  end end end end.

(** What is computed from an initiation: the peer, its ephemeral key and time
    stamp, the hash and the chaining key. *)
Record opened := mk_opened {
  op_peer : Z;
  op_ephemeral : list Z;
  op_timestamp : list Z;
  op_hash : list Z;
  op_chaining_key : list Z;
  op_sender_index : Z;
}.

Definition initiation_open (src : message_handshake_initiation) (wg : noise_device) : option opened :=
  let id := nd_static_identity wg in
  if negb (si_has_identity id) then None else
  let '(ck, h) := handshake_init (si_static_public id) in
  let e := mi_unencrypted_ephemeral src in
  let '(ck, h) := message_ephemeral e ck h in
  '(ck, key) ← mix_dh ck (si_static_private id) e;
  '(s, h) ← message_decrypt (mi_encrypted_static src) key h;
  peer ← wg_pubkey_hashtable_lookup siphash alive s (nd_peer_hashtable wg);
  p ← nd_peers wg !! peer;
  '(ck, key) ← mix_precomputed_dh ck (nh_precomputed_static_static (np_handshake p));
  '(t, h) ← message_decrypt (mi_encrypted_timestamp src) key h;
  Some (mk_opened peer e t h ck (mi_sender_index src)).

(** The section under the read lock. *)
Definition initiation_refused (t : list Z) (now : Z) (hs : noise_handshake) : bool :=
  let replay_attack := memcmp t (nh_latest_timestamp hs) <=? 0 in
  let flood_attack :=
    s64 now <? s64 (s64 (nh_last_initiation_consumption hs) + NSEC_PER_SEC / INITIATIONS_PER_SECOND) in
  replay_attack || flood_attack.

(** The section under the write lock. *)
Definition initiation_commit (transport_tcp : bool) (static_public : list Z) (o : opened) (now : Z)
    (hs : noise_handshake) : option noise_handshake :=
  if transport_tcp && bool_decide (nh_state hs = HANDSHAKE_CREATED_INITIATION)
     && (memcmp static_public (nh_remote_static hs) <? 0) then None
  else
    let hs := hs{{ nh_remote_ephemeral := op_ephemeral o }} in
    let hs := if 0 <? memcmp (op_timestamp o) (nh_latest_timestamp hs)
              then hs{{ nh_latest_timestamp := op_timestamp o }} else hs in
    let hs := hs{{ nh_hash := op_hash o; nh_chaining_key := op_chaining_key o; nh_remote_index := op_sender_index o }} in
    let hs := if s64 (nh_last_initiation_consumption hs - now) <? 0
              then hs{{ nh_last_initiation_consumption := now }} else hs in
    Some (hs{{ nh_state := HANDSHAKE_CONSUMED_INITIATION }}).

(** ** The response *)
Definition wg_noise_handshake_create_response (peer : Z) (secret : list Z) (tries : list (Z * list section))
    (dst : message_handshake_response) (hs : noise_handshake) (t : index_hashtable)
    : option (option message_handshake_response * noise_handshake * index_hashtable) :=
  if negb (bool_decide (nh_state hs = HANDSHAKE_CONSUMED_INITIATION)) then Some (None, hs, t) else
  let dst := dst{{ mr_receiver_index := nh_remote_index hs }} in
  let hs := hs{{ nh_ephemeral_private := secret }} in
  match curve25519_generate_public secret with
  | None => Some (None, hs, t)
  | Some e =>
  let dst := dst{{ mr_unencrypted_ephemeral := e }} in
  let '(ck, h) := message_ephemeral e (nh_chaining_key hs) (nh_hash hs) in
  let hs := hs{{ nh_chaining_key := ck; nh_hash := h }} in
  match mix_dh ck secret (nh_remote_ephemeral hs) with
  | None => Some (None, hs, t)
  | Some (ck, _) =>
  let hs := hs{{ nh_chaining_key := ck }} in
  match mix_dh ck secret (nh_remote_static hs) with
  | None => Some (None, hs, t)
  | Some (ck, _) =>
  let '(ck, h, key) := mix_psk ck h (nh_preshared_key hs) in
  let '(c, h) := message_encrypt [] key h in
  let dst := dst{{ mr_encrypted_nothing := c }} in
  let hs := hs{{ nh_chaining_key := ck; nh_hash := h }} in
  match wg_index_hashtable_insert tries (EntHandshake peer) t with
  | None => None
  | Some (index, t) =>
      Some (Some (dst{{ mr_sender_index := index }}), hs{{ nh_state := HANDSHAKE_CREATED_RESPONSE }}, t)
  end end end end.

(** The computation on what was read under the lock. *)
Definition response_open (peer : Z) (src : message_handshake_response) (id : noise_static_identity)
    (hs : noise_handshake) : option opened :=
  if negb (bool_decide (nh_state hs = HANDSHAKE_CREATED_INITIATION)) then None else
  let e := mr_unencrypted_ephemeral src in
  let '(ck, h) := message_ephemeral e (nh_chaining_key hs) (nh_hash hs) in
  '(ck, _) ← mix_dh ck (nh_ephemeral_private hs) e;
  '(ck, _) ← mix_dh ck (si_static_private id) e;
  let '(ck, h, key) := mix_psk ck h (nh_preshared_key hs) in
  '(_, h) ← message_decrypt (mr_encrypted_nothing src) key h;
  Some (mk_opened peer e [] h ck (mr_sender_index src)).

(** The section under the write lock. *)
Definition response_commit (state : noise_handshake_state) (o : opened) (hs : noise_handshake)
    : option noise_handshake :=
  if negb (bool_decide (nh_state hs = state)) then None
  else Some (hs{{ nh_remote_ephemeral := op_ephemeral o; nh_hash := op_hash o; nh_chaining_key := op_chaining_key o;
                  nh_remote_index := op_sender_index o; nh_state := HANDSHAKE_CONSUMED_RESPONSE }}).

(** ** The session

    [session_install] and [session_hash] run without another section on the
    sessions of this peer in between; Keypairs.v treats them apart. *)
Definition wg_noise_handshake_begin_session (peer : Z) (alloc : option Z) (now : Z) (p : noise_peer) (st : kstore)
    : bool * noise_peer * kstore :=
  let hs := np_handshake p in
  if negb (bool_decide (nh_state hs = HANDSHAKE_CREATED_RESPONSE))
     && negb (bool_decide (nh_state hs = HANDSHAKE_CONSUMED_RESPONSE)) then (false, p, st)
  else
    let i_am_the_initiator := bool_decide (nh_state hs = HANDSHAKE_CONSUMED_RESPONSE) in
    match session_create alloc peer i_am_the_initiator (nh_remote_index hs) (nh_chaining_key hs) now st with
    | (None, st) => (false, p, st)
    | (Some k, st) =>
        let p := p{{ np_handshake ::= handshake_zero }} in
        match session_install (np_is_dead p) (np_keypairs p) k i_am_the_initiator st with
        | (None, st) => (false, p, st)
        | (Some (ks, st), _) =>
            let p := p{{ np_keypairs := ks }} in
            let '(ret, st) := session_hash peer k st in (ret, p, st)
        end
    end.

(** ** Forgetting *)
Definition wg_noise_handshake_clear (peer : Z) (hs : noise_handshake) (t : index_hashtable)
    : noise_handshake * index_hashtable :=
  (handshake_zero hs, wg_index_hashtable_remove (EntHandshake peer) t).

Definition wg_noise_expire_current_peer_keypairs (peer now : Z) (p : noise_peer) (st : kstore)
    : noise_peer * kstore :=
  let '(hs, t) := wg_noise_handshake_clear peer (np_handshake p) (kt_index st) in
  let p := p{{ np_handshake := hs; np_last_sent_handshake := wg_noise_reset_last_sent_handshake now }} in
  (p, expire_keypairs (np_keypairs p) (st{{ kt_index := t }})).

(** ** Sections on a device *)
Inductive hsection :=
  | HCreateInitiation (peer : Z) (secret : list Z) (tv_sec tv_nsec : Z) (tries : list (Z * list section))
      (dst : message_handshake_initiation)
  | HCommitInitiation (o : opened) (now : Z)
  | HCreateResponse (peer : Z) (secret : list Z) (tries : list (Z * list section)) (dst : message_handshake_response)
  | HCommitResponse (state : noise_handshake_state) (o : opened)
  | HBeginSession (peer : Z) (alloc : option Z) (now : Z)
  | HClear (peer : Z)
  | HExpire (peer now : Z)
  | HSetPresharedKey (peer : Z) (psk : list Z)
  | HPrecompute (peer : Z)
  | HSetPrivateKey (private_key : list Z).

Definition set_peer (peer : Z) (p : noise_peer) (wg : noise_device) : noise_device :=
  wg{{ nd_peers ::= <[peer := p]> }}.

Definition set_index (t : index_hashtable) (wg : noise_device) : noise_device :=
  wg{{ nd_store ::= λ st, st{{ kt_index := t }} }}.

(** The result of a section that made a message, and the device. *)
Definition created {M} (peer : Z) (p : noise_peer) (wg : noise_device)
    (r : option (option M * noise_handshake * index_hashtable)) : option (option M * noise_device) :=
  match r with
  | None => None
  | Some (m, hs, t) => Some (m, set_index t (set_peer peer (p{{ np_handshake := hs }}) wg))
  end.

Definition create_initiation (peer : Z) (secret : list Z) (tv_sec tv_nsec : Z) (tries : list (Z * list section))
    (dst : message_handshake_initiation) (wg : noise_device)
    : option (option message_handshake_initiation * noise_device) :=
  p ← nd_peers wg !! peer;
  created peer p wg (wg_noise_handshake_create_initiation peer (nd_static_identity wg) secret tv_sec tv_nsec tries dst
    (np_handshake p) (kt_index (nd_store wg))).

Definition create_response (peer : Z) (secret : list Z) (tries : list (Z * list section))
    (dst : message_handshake_response) (wg : noise_device)
    : option (option message_handshake_response * noise_device) :=
  p ← nd_peers wg !! peer;
  created peer p wg (wg_noise_handshake_create_response peer secret tries dst (np_handshake p) (kt_index (nd_store wg))).

(** A section that may change the handshake of a peer; whether it did. *)
Definition on_handshake (peer : Z) (f : noise_handshake → option noise_handshake) (wg : noise_device)
    : bool * noise_device :=
  match nd_peers wg !! peer with
  | None => (false, wg)
  | Some p =>
      match f (np_handshake p) with
      | None => (false, wg)
      | Some hs => (true, set_peer peer (p{{ np_handshake := hs }}) wg)
      end
  end.

Definition commit_initiation (o : opened) (now : Z) (wg : noise_device) : bool * noise_device :=
  on_handshake (op_peer o)
    (initiation_commit (nd_transport_tcp wg) (si_static_public (nd_static_identity wg)) o now) wg.

Definition commit_response (state : noise_handshake_state) (o : opened) (wg : noise_device) : bool * noise_device :=
  on_handshake (op_peer o) (response_commit state o) wg.

Definition begin_session (peer : Z) (alloc : option Z) (now : Z) (wg : noise_device) : bool * noise_device :=
  match nd_peers wg !! peer with
  | None => (false, wg)
  | Some p =>
      let '(ret, p, st) := wg_noise_handshake_begin_session peer alloc now p (nd_store wg) in
      (ret, (set_peer peer p wg){{ nd_store := st }})
  end.

Definition run_hsection (wg : noise_device) (s : hsection) : noise_device :=
  match s with
  | HCreateInitiation peer secret sec nsec tries dst =>
      from_option snd wg (create_initiation peer secret sec nsec tries dst wg)
  | HCommitInitiation o now => (commit_initiation o now wg).2
  | HCreateResponse peer secret tries dst => from_option snd wg (create_response peer secret tries dst wg)
  | HCommitResponse state o => (commit_response state o wg).2
  | HBeginSession peer alloc now => (begin_session peer alloc now wg).2
  | HClear peer =>
      match nd_peers wg !! peer with
      | None => wg
      | Some p =>
          let '(hs, t) := wg_noise_handshake_clear peer (np_handshake p) (kt_index (nd_store wg)) in
          set_index t (set_peer peer (p{{ np_handshake := hs }}) wg)
      end
  | HExpire peer now =>
      match nd_peers wg !! peer with
      | None => wg
      | Some p =>
          let '(p, st) := wg_noise_expire_current_peer_keypairs peer now p (nd_store wg) in
          (set_peer peer p wg){{ nd_store := st }}
      end
  | HSetPresharedKey peer psk => (on_handshake peer (λ hs, Some (hs{{ nh_preshared_key := psk }})) wg).2
  | HPrecompute peer =>
      (on_handshake peer (λ hs, Some (hs{{ nh_precomputed_static_static :=
         wg_noise_precompute_static_static (nd_static_identity wg) (nh_remote_static hs) }})) wg).2
  | HSetPrivateKey key => wg{{ nd_static_identity ::= wg_noise_set_static_identity_private_key key }}
  end.

(** ** Consuming a message

    [gap] are the sections other threads run between the reading and the writing
    section. *)
Definition wg_noise_handshake_consume_initiation (src : message_handshake_initiation) (now now' : Z)
    (gap : list hsection) (wg : noise_device) : option Z * noise_device :=
  match initiation_open src wg with
  | None => (None, wg)
  | Some o =>
      match nd_peers wg !! op_peer o with
      | None => (None, wg)
      | Some p =>
          if initiation_refused (op_timestamp o) now (np_handshake p) then (None, wg)
          else
            let wg := foldl run_hsection wg gap in
            let '(ok, wg) := commit_initiation o now' wg in
            (if ok then Some (op_peer o) else None, wg)
      end
  end.

Definition wg_noise_handshake_consume_response (src : message_handshake_response) (gap : list hsection)
    (wg : noise_device) : option Z * noise_device :=
  if negb (si_has_identity (nd_static_identity wg)) then (None, wg) else
  match wg_index_hashtable_lookup alive INDEX_HASHTABLE_HANDSHAKE (mr_receiver_index src) (kt_index (nd_store wg)) with
  | Some (EntHandshake peer) =>
      match nd_peers wg !! peer with
      | None => (None, wg)
      | Some p =>
          let wg' := foldl run_hsection wg gap in
          match response_open peer src (nd_static_identity wg) (np_handshake p) with
          | None => (None, wg')
          | Some o =>
              let '(ok, wg') := commit_response (nh_state (np_handshake p)) o wg' in
              (if ok then Some peer else None, wg')
          end
      end
  | _ => (None, wg)
  end.

(** ** Reference: the messages of Noise IKpsk2 from the shared secrets

    The initiation gives the two ciphertexts, the response one; both give the new
    chaining key and hash. *)
Definition ik_initiation (responder_static e dh_es initiator_static dh_ss timestamp : list Z)
    : list Z * list Z * list Z * list Z :=
  let '(ck, h) := handshake_init responder_static in
  let '(ck, h) := message_ephemeral e ck h in
  let '(ck, key) := mix_key ck dh_es in
  let '(c1, h) := message_encrypt initiator_static key h in
  let '(ck, key) := mix_key ck dh_ss in
  let '(c2, h) := message_encrypt timestamp key h in
  (c1, c2, ck, h).

Definition ik_response (ck h e dh_ee dh_se psk : list Z) : list Z * list Z * list Z :=
  let '(ck, h) := message_ephemeral e ck h in
  let '(ck, _) := mix_key ck dh_ee in
  let '(ck, _) := mix_key ck dh_se in
  let '(ck, h, key) := mix_psk ck h psk in
  let '(c, h) := message_encrypt [] key h in
  (c, ck, h).

Lemma mix_dh_Some ck priv pub r : mix_dh ck priv pub = Some r ↔ ∃ dh, curve25519 priv pub = Some dh ∧ r = mix_key ck dh.
Proof. unfold mix_dh. destruct (curve25519 priv pub); cbn; naive_solver. Qed.

Lemma mix_precomputed_Some ck pre r : mix_precomputed_dh ck pre = Some r ↔ pre ≠ zero_point ∧ r = mix_key ck pre.
Proof. unfold mix_precomputed_dh. case_bool_decide; naive_solver. Qed.

Lemma create_initiation_spec peer id secret sec nsec tries dst hs t m hs' t' :
  wg_noise_handshake_create_initiation peer id secret sec nsec tries dst hs t = Some (Some m, hs', t') →
  ∃ e es c1 c2 ck h index,
    si_has_identity id = true ∧ curve25519_generate_public secret = Some e ∧
    curve25519 secret (nh_remote_static hs) = Some es ∧ nh_precomputed_static_static hs ≠ zero_point ∧
    ik_initiation (nh_remote_static hs) e es (si_static_public id) (nh_precomputed_static_static hs) (tai64n_now sec nsec)
      = (c1, c2, ck, h) ∧
    wg_index_hashtable_insert tries (EntHandshake peer) t = Some (index, t') ∧
    m = mk_initiation index e c1 c2 (mi_mac1 dst) (mi_mac2 dst) ∧
    hs' = hs{{ nh_ephemeral_private := secret; nh_chaining_key := ck; nh_hash := h;
               nh_state := HANDSHAKE_CREATED_INITIATION }}.
Proof.
  unfold wg_noise_handshake_create_initiation, ik_initiation. destruct (si_has_identity id); [cbn [negb]|done].
  destruct (handshake_init _) as [ck0 h0] eqn:Hinit. destruct (curve25519_generate_public secret) as [e|]; [|done].
  destruct (message_ephemeral e ck0 h0) as [ck1 h1] eqn:He. cbn [nh_remote_static set].
  destruct (mix_dh ck1 secret _) as [[ck2 key2]|] eqn:Hes; [|done]. apply mix_dh_Some in Hes as (es&Hes&Hk2).
  destruct (message_encrypt (si_static_public id) key2 h1) as [c1 h2] eqn:Hc1.
  destruct (mix_precomputed_dh ck2 _) as [[ck3 key3]|] eqn:Hss; [|done]. apply mix_precomputed_Some in Hss as [Hpre Hk3].
  destruct (message_encrypt (tai64n_now sec nsec) key3 h2) as [c2 h3] eqn:Hc2.
  destruct (wg_index_hashtable_insert _ _ _) as [[index t1]|]; [|done]. intros [= <- <- <-].
  exists e, es, c1, c2, ck3, h3, index. split_and!; try done.
  rewrite He, <- Hk2, Hc1. cbn [nh_precomputed_static_static set] in Hk3.
  change (nh_precomputed_static_static _) with (nh_precomputed_static_static hs) in Hk3. by rewrite <- Hk3, Hc2.
Qed.

Context {Hok : CryptoOk C}.

Lemma decrypt_encrypted p k h c h' : message_encrypt p k h = (c, h') → message_decrypt c k h = Some (p, h').
Proof. intros He. pose proof (message_decrypt_encrypt p k h) as Hd. by rewrite He in Hd. Qed.

Lemma initiation_open_spec src wg es pubA a p ts c1 c2 ck h :
  si_has_identity (nd_static_identity wg) = true →
  curve25519 (si_static_private (nd_static_identity wg)) (mi_unencrypted_ephemeral src) = Some es →
  ik_initiation (si_static_public (nd_static_identity wg)) (mi_unencrypted_ephemeral src) es pubA
    (nh_precomputed_static_static (np_handshake p)) ts = (c1, c2, ck, h) →
  mi_encrypted_static src = c1 → mi_encrypted_timestamp src = c2 →
  wg_pubkey_hashtable_lookup siphash alive pubA (nd_peer_hashtable wg) = Some a → nd_peers wg !! a = Some p →
  nh_precomputed_static_static (np_handshake p) ≠ zero_point →
  initiation_open src wg = Some (mk_opened a (mi_unencrypted_ephemeral src) ts h ck (mi_sender_index src)).
Proof.
  intros Hid Hes Hik Hc1 Hc2 Hl Hp Hpre. unfold initiation_open, ik_initiation in *. rewrite Hid. cbn [negb].
  destruct (handshake_init _) as [ck0 h0]. destruct (message_ephemeral _ ck0 h0) as [ck1 h1].
  rewrite (proj2 (mix_dh_Some _ _ _ _) (ex_intro _ es (conj Hes eq_refl))). cbn [mbind option_bind].
  destruct (mix_key ck1 es) as [ck2 key2]. destruct (message_encrypt pubA key2 h1) as [c1' h2] eqn:E1.
  destruct (mix_key ck2 _) as [ck3 key3] eqn:E3. destruct (message_encrypt ts key3 h2) as [c2' h3] eqn:E2. simplify_eq.
  rewrite (decrypt_encrypted _ _ _ _ _ E1). cbn [mbind option_bind]. rewrite Hl. cbn [mbind option_bind]. rewrite Hp. cbn [mbind option_bind].
  rewrite (proj2 (mix_precomputed_Some _ _ _) (conj Hpre eq_refl)), E3. cbn [mbind option_bind].
  by rewrite (decrypt_encrypted _ _ _ _ _ E2).
Qed.

Lemma create_response_spec peer secret tries dst hs t r hs' t' :
  wg_noise_handshake_create_response peer secret tries dst hs t = Some (Some r, hs', t') →
  ∃ e ee se c ck h index,
    nh_state hs = HANDSHAKE_CONSUMED_INITIATION ∧ curve25519_generate_public secret = Some e ∧
    curve25519 secret (nh_remote_ephemeral hs) = Some ee ∧ curve25519 secret (nh_remote_static hs) = Some se ∧
    ik_response (nh_chaining_key hs) (nh_hash hs) e ee se (nh_preshared_key hs) = (c, ck, h) ∧
    wg_index_hashtable_insert tries (EntHandshake peer) t = Some (index, t') ∧
    r = mk_response index (nh_remote_index hs) e c (mr_mac1 dst) (mr_mac2 dst) ∧
    hs' = hs{{ nh_ephemeral_private := secret; nh_chaining_key := ck; nh_hash := h;
               nh_state := HANDSHAKE_CREATED_RESPONSE }}.
Proof.
  unfold wg_noise_handshake_create_response, ik_response. case_bool_decide as Hs; [cbn [negb]|done].
  destruct (curve25519_generate_public secret) as [e|]; [|done].
  change (nh_chaining_key (hs{{ nh_ephemeral_private := secret }})) with (nh_chaining_key hs).
  change (nh_hash (hs{{ nh_ephemeral_private := secret }})) with (nh_hash hs).
  destruct (message_ephemeral e _ _) as [ck1 h1] eqn:He.
  destruct (mix_dh ck1 secret _) as [[ck2 x2]|] eqn:Hee; [|done]. apply mix_dh_Some in Hee as (ee&Hee&H2).
  destruct (mix_dh ck2 secret _) as [[ck3 x3]|] eqn:Hse; [|done]. apply mix_dh_Some in Hse as (se&Hse&H3).
  match goal with |- context [mix_psk ck3 h1 ?k] => change k with (nh_preshared_key hs) end.
  destruct (mix_psk ck3 h1 _) as [[ck4 h4] key4] eqn:H4. destruct (message_encrypt [] key4 h4) as [c h5] eqn:Hc.
  destruct (wg_index_hashtable_insert _ _ _) as [[index t1]|]; [|done]. intros [= <- <- <-].
  exists e, ee, se, c, ck4, h5, index. split_and!; try done. by rewrite He, <- H2, <- H3, H4, Hc.
Qed.

Lemma response_open_spec peer src id hs ee se c ck h :
  nh_state hs = HANDSHAKE_CREATED_INITIATION →
  curve25519 (nh_ephemeral_private hs) (mr_unencrypted_ephemeral src) = Some ee →
  curve25519 (si_static_private id) (mr_unencrypted_ephemeral src) = Some se →
  ik_response (nh_chaining_key hs) (nh_hash hs) (mr_unencrypted_ephemeral src) ee se (nh_preshared_key hs) = (c, ck, h) →
  mr_encrypted_nothing src = c →
  response_open peer src id hs = Some (mk_opened peer (mr_unencrypted_ephemeral src) [] h ck (mr_sender_index src)).
Proof.
  intros Hs Hee Hse Hik Hc. unfold response_open, ik_response in *. rewrite bool_decide_eq_true_2 by done. cbn [negb].
  destruct (message_ephemeral _ _ _) as [ck1 h1].
  rewrite (proj2 (mix_dh_Some _ _ _ _) (ex_intro _ ee (conj Hee eq_refl))). cbn [mbind option_bind].
  destruct (mix_key ck1 ee) as [ck2 x2].
  rewrite (proj2 (mix_dh_Some _ _ _ _) (ex_intro _ se (conj Hse eq_refl))). cbn [mbind option_bind].
  destruct (mix_key ck2 se) as [ck3 x3]. destruct (mix_psk ck3 h1 _) as [[ck4 h4] key4].
  destruct (message_encrypt [] key4 h4) as [c' h5] eqn:E. simplify_eq. by rewrite (decrypt_encrypted _ _ _ _ _ E).
Qed.

(** A completed handshake becomes a session. *)
Lemma begin_session_spec peer k now p st i :
  let hs := np_handshake p in
  let ini := bool_decide (nh_state hs = HANDSHAKE_CONSUMED_RESPONSE) in
  nh_state hs = HANDSHAKE_CREATED_RESPONSE ∨ nh_state hs = HANDSHAKE_CONSUMED_RESPONSE →
  np_is_dead p = false → k ∉ kset (np_keypairs p) → find_index i (kt_index st) = Some (EntHandshake peer) →
  ∃ p' st' kp, wg_noise_handshake_begin_session peer (Some k) now p st = (true, p', st') ∧
    kt_heap st' !! k = Some kp ∧
    kp = mk_keypair peer (if ini then (derive_keys (nh_chaining_key hs) now).1 else (derive_keys (nh_chaining_key hs) now).2)
           0 (if ini then (derive_keys (nh_chaining_key hs) now).2 else (derive_keys (nh_chaining_key hs) now).1)
           Replay.replay_init (nh_remote_index hs) ini 1 (u64 (kt_counter st + 1)) ∧
    (if ini then ks_current_keypair (np_keypairs p') else ks_next_keypair (np_keypairs p')) = Some k ∧
    find_index i (kt_index st') = Some (EntKeypair peer k).
Proof.
  intros hs ini Hs Hd Hk Hi. unfold wg_noise_handshake_begin_session. fold hs.
  replace (negb _ && negb _) with false by (destruct Hs as [-> | ->]; done). fold ini.
  destruct (session_create_spec k peer ini (nh_remote_index hs) (nh_chaining_key hs) now st) as (st1&->&Hidx&Hheap).
  set (p1 := p{{ np_handshake ::= handshake_zero }}). change (np_is_dead p1) with (np_is_dead p).
  change (np_keypairs p1) with (np_keypairs p). rewrite Hd. cbn [session_install].
  destruct (add_keeps (np_keypairs p) k ini st1) as (Hslot&Hses&Hfind).
  destruct (add_new_keypair _ _ _ _) as [ks st2]. cbn [fst snd] in *. specialize (Hses Hk). specialize (Hfind i peer).
  rewrite Hidx in Hfind. apply (replace_found _ _ _ (EntKeypair peer k)) in Hfind as [Hr Hf]; [|done]. unfold session_hash.
  destruct (wg_index_hashtable_replace _ _ _) as [ret t]. cbn [fst snd] in *. subst ret.
  do 3 eexists. split; [done|]. cbn. rewrite Hses. split_and!; [exact Hheap|done|done|done].
Qed.

(** ** Two devices configured as peers of each other

    [A] knows [B] as its peer [b], [B] knows [A] as its peer [a]. *)
Record paired (A B : noise_device) (a b : Z) (pA pB : noise_peer) : Prop := {
  pr_idA : ∃ k, identity_of k (nd_static_identity A);
  pr_idB : ∃ k, identity_of k (nd_static_identity B);
  pr_A : nd_peers A !! b = Some pA;
  pr_B : nd_peers B !! a = Some pB;
  pr_dead : np_is_dead pA = false ∧ np_is_dead pB = false;
  pr_staticA : nh_remote_static (np_handshake pA) = si_static_public (nd_static_identity B);
  pr_staticB : nh_remote_static (np_handshake pB) = si_static_public (nd_static_identity A);
  pr_preA : nh_precomputed_static_static (np_handshake pA) =
    wg_noise_precompute_static_static (nd_static_identity A) (nh_remote_static (np_handshake pA));
  pr_preB : nh_precomputed_static_static (np_handshake pB) =
    wg_noise_precompute_static_static (nd_static_identity B) (nh_remote_static (np_handshake pB));
  pr_psk : nh_preshared_key (np_handshake pA) = nh_preshared_key (np_handshake pB);
  pr_lookup : wg_pubkey_hashtable_lookup siphash alive (si_static_public (nd_static_identity A)) (nd_peer_hashtable B) = Some a;
  pr_alive : alive a = true ∧ alive b = true;
}.

(** The numbers drawn are 32-bit. *)
Definition tries_u32 (tries : list (Z * list section)) : Prop := ∀ i others, (i, others) ∈ tries → 0 <= i < 2 ^ 32.

Lemma zlen_tai64n sec nsec : zlen (tai64n_now sec nsec) = 12.
Proof. unfold tai64n_now. rewrite zlen_app, !zlen_be_bytes. done. Qed.

Lemma ik_initiation_lens rs e es is_ ss ts c1 c2 ck h :
  ik_initiation rs e es is_ ss ts = (c1, c2, ck, h) → zlen is_ = 32 → zlen ts = 12 → zlen c1 = 48 ∧ zlen c2 = 28.
Proof.
  unfold ik_initiation, message_encrypt. intros H H1 H2.
  destruct (handshake_init rs), (message_ephemeral _ _ _), (mix_key _ es), (mix_key _ ss). simplify_eq.
  rewrite !chacha_len. unfold NOISE_AUTHTAG_LEN. lia.
Qed.

Lemma initiation_phase A B a b pA pB secret sec nsec tries dst m A1 mac1 mac2 :
  paired A B a b pA pB → tries_u32 tries →
  create_initiation b secret sec nsec tries dst A = Some (Some m, A1) → zlen mac1 = 16 → zlen mac2 = 16 →
  let src := initiation_of (initiation_bytes (m{{ mi_mac1 := mac1; mi_mac2 := mac2 }})) in
  ∃ e ck h i, curve25519_generate_public secret = Some e ∧ 0 <= i < 2 ^ 32 ∧
    initiation_open src B = Some (mk_opened a e (tai64n_now sec nsec) h ck i) ∧
    A1 = set_index (kt_index (nd_store A1)) (set_peer b (pA{{ np_handshake ::= λ hs, hs{{
      nh_ephemeral_private := secret; nh_chaining_key := ck; nh_hash := h;
      nh_state := HANDSHAKE_CREATED_INITIATION }} }}) A) ∧
    find_index i (kt_index (nd_store A1)) = Some (EntHandshake b).
Proof.
  intros P Ht Hc Hm1 Hm2 src. unfold create_initiation in Hc. rewrite (pr_A _ _ _ _ _ _ P) in Hc. cbn in Hc.
  destruct (wg_noise_handshake_create_initiation _ _ _ _ _ _ _ _ _) as [[[m' hs'] t']|] eqn:Hcr; [|done].
  cbn in Hc. injection Hc as -> <-.
  apply create_initiation_spec in Hcr as (e&es&c1&c2&ck&h&i&Hid&He&Hes&Hpre&Hik&Hins&->&->).
  destruct (insert_found _ _ _ _ _ Hins) as [Hf [others Hin]]. pose proof (Ht _ _ Hin) as Hi.
  destruct (pr_idA _ _ _ _ _ _ P) as [kA HA], (pr_idB _ _ _ _ _ _ P) as [kB HB].
  pose proof (identity_public _ _ HA) as HpA. pose proof (identity_public _ _ HB) as HpB.
  destruct (ik_initiation_lens _ _ _ _ _ _ _ _ _ _ Hik) as [L1 L2];
    [by apply generate_public_len in HpA|apply zlen_tai64n|].
  exists e, ck, h, i. split_and!; [done|lia|lia| |done|done].
  unfold src. match goal with |- context [initiation_bytes ?x] => change x with (mk_initiation i e c1 c2 mac1 mac2) end.
  rewrite initiation_of_bytes by (split_and!; cbn; try done; try lia; by apply generate_public_len in He).
  apply (initiation_open_spec (mk_initiation i e c1 c2 mac1 mac2) B es (si_static_public (nd_static_identity A)) a pB _ c1 c2);
    [by destruct HB as (?&_&?)| | |done|done|apply P|apply P|]; cbn.
  - by rewrite (dh_agree secret _ e (si_static_public (nd_static_identity B))), <- (pr_staticA _ _ _ _ _ _ P).
  - rewrite (pr_preB _ _ _ _ _ _ P), (pr_staticB _ _ _ _ _ _ P), (static_static_agree kA kB) by done.
    by rewrite <- (pr_staticA _ _ _ _ _ _ P), <- (pr_preA _ _ _ _ _ _ P).
  - rewrite (pr_preB _ _ _ _ _ _ P), (pr_staticB _ _ _ _ _ _ P), (static_static_agree kA kB) by done.
    by rewrite <- (pr_staticA _ _ _ _ _ _ P), <- (pr_preA _ _ _ _ _ _ P).
Qed.

(** The tie between simultaneous initiations over TCP does not stand against
    consuming. *)
Definition yields (wg : noise_device) (hs : noise_handshake) : Prop :=
  nd_transport_tcp wg = true → nh_state hs = HANDSHAKE_CREATED_INITIATION →
  0 <= memcmp (si_static_public (nd_static_identity wg)) (nh_remote_static hs).

Lemma commit_phase B pB src o now now' :
  initiation_open src B = Some o → nd_peers B !! op_peer o = Some pB →
  initiation_refused (op_timestamp o) now (np_handshake pB) = false → yields B (np_handshake pB) →
  ∃ hs, wg_noise_handshake_consume_initiation src now now' [] B =
      (Some (op_peer o), set_peer (op_peer o) (pB{{ np_handshake := hs }}) B) ∧
    nh_remote_static hs = nh_remote_static (np_handshake pB) ∧ nh_preshared_key hs = nh_preshared_key (np_handshake pB) ∧
    nh_remote_ephemeral hs = op_ephemeral o ∧ nh_chaining_key hs = op_chaining_key o ∧ nh_hash hs = op_hash o ∧
    nh_remote_index hs = op_sender_index o ∧ nh_state hs = HANDSHAKE_CONSUMED_INITIATION.
Proof.
  intros Ho Hp Hr Hy. unfold wg_noise_handshake_consume_initiation. rewrite Ho, Hp, Hr. cbn [foldl].
  unfold commit_initiation, on_handshake. rewrite Hp. unfold initiation_commit.
  replace (_ && _ && _) with false.
  2: { symmetry. destruct (nd_transport_tcp B) eqn:Htcp; [|done]. case_bool_decide as Hs; [|done]. cbn.
       apply Z.ltb_ge. by apply Hy. }
  eexists. split; [done|]. repeat case_if; done.
Qed.

Lemma ik_response_lens ck h e ee se psk c ck' h' : ik_response ck h e ee se psk = (c, ck', h') → zlen c = 16.
Proof.
  unfold ik_response, message_encrypt. intros H.
  destruct (message_ephemeral _ _ _), (mix_key _ ee), (mix_key _ se), (mix_psk _ _ _) as [[??]?]. simplify_eq.
  by rewrite chacha_len.
Qed.

(** The state of the responder after the initiation, and of the initiator. *)
Record after_initiation (A B A1 B1 : noise_device) (a b : Z) (pA pB : noise_peer) (secret e ck h : list Z) (i : Z)
    (hsB : noise_handshake) : Prop := {
  ai_e : curve25519_generate_public secret = Some e;
  ai_i : 0 <= i < 2 ^ 32;
  ai_A : A1 = set_index (kt_index (nd_store A1)) (set_peer b (pA{{ np_handshake ::= λ hs, hs{{
      nh_ephemeral_private := secret; nh_chaining_key := ck; nh_hash := h;
      nh_state := HANDSHAKE_CREATED_INITIATION }} }}) A);
  ai_find : find_index i (kt_index (nd_store A1)) = Some (EntHandshake b);
  ai_B : B1 = set_peer a (pB{{ np_handshake := hsB }}) B;
  ai_static : nh_remote_static hsB = nh_remote_static (np_handshake pB);
  ai_psk : nh_preshared_key hsB = nh_preshared_key (np_handshake pB);
  ai_ephemeral : nh_remote_ephemeral hsB = e;
  ai_ck : nh_chaining_key hsB = ck;
  ai_h : nh_hash hsB = h;
  ai_index : nh_remote_index hsB = i;
}.

Lemma lookup_handshake p i t :
  find_index i t = Some (EntHandshake p) → alive p = true →
  wg_index_hashtable_lookup alive INDEX_HASHTABLE_HANDSHAKE i t = Some (EntHandshake p).
Proof. intros Hf Ha. unfold wg_index_hashtable_lookup. rewrite Hf. cbn. by rewrite Ha. Qed.

Lemma response_phase A B A1 B1 a b pA pB secret e ck h i hsB secretB triesB dst r B2 mac1 mac2 :
  paired A B a b pA pB → after_initiation A B A1 B1 a b pA pB secret e ck h i hsB → tries_u32 triesB →
  create_response a secretB triesB dst B1 = Some (Some r, B2) → zlen mac1 = 16 → zlen mac2 = 16 →
  let src := response_of (response_bytes (r{{ mr_mac1 := mac1; mr_mac2 := mac2 }})) in
  ∃ e' ck' h' j,
    (wg_noise_handshake_consume_response src [] A1 = (Some b, set_peer b (pA{{ np_handshake ::= λ hs, hs{{
      nh_ephemeral_private := secret; nh_remote_ephemeral := e'; nh_hash := h'; nh_chaining_key := ck';
      nh_remote_index := j; nh_state := HANDSHAKE_CONSUMED_RESPONSE }} }}) A1)) ∧
    B2 = set_index (kt_index (nd_store B2)) (set_peer a (pB{{ np_handshake := hsB{{ nh_ephemeral_private := secretB;
      nh_chaining_key := ck'; nh_hash := h'; nh_state := HANDSHAKE_CREATED_RESPONSE }} }}) B1) ∧
    find_index j (kt_index (nd_store B2)) = Some (EntHandshake a).
Proof.
  intros P I Ht Hc Hm1 Hm2 src. destruct I as [Ie Ii IA Ifind IB Ist Ips Iep Ick Ih Iix]. unfold create_response in Hc.
  assert (HB1 : nd_peers B1 !! a = Some (pB{{ np_handshake := hsB }})) by (rewrite IB; apply lookup_insert_eq).
  rewrite HB1 in Hc. cbn [mbind option_bind] in Hc.
  destruct (wg_noise_handshake_create_response _ _ _ _ _ _) as [[[r' hs'] t']|] eqn:Hcr; [|done].
  cbn in Hc. injection Hc as -> <-.
  apply create_response_spec in Hcr as (e'&ee&se&c&ck'&h'&j&Hs&He&Hee&Hse&Hik&Hins&->&->). cbn in Hs, Hee, Hse, Hik.
  destruct (insert_found _ _ _ _ _ Hins) as [Hf [others Hin]]. pose proof (Ht _ _ Hin) as Hj.
  exists e', ck', h', j. split_and!; [|done|done].
  destruct (pr_idA _ _ _ _ _ _ P) as [kA HA]. pose proof (identity_public _ _ HA) as HpA.
  unfold src. match goal with |- context [response_bytes ?x] => change x with (mk_response j (nh_remote_index hsB) e' c mac1 mac2) end.
  rewrite response_of_bytes by (split_and!; cbn; try done; try lia;
    [by apply generate_public_len in He|by apply ik_response_lens in Hik]).
  unfold wg_noise_handshake_consume_response.
  assert (HidA : nd_static_identity A1 = nd_static_identity A) by (by rewrite IA).
  rewrite HidA. destruct HA as (id0&_&->). cbn [negb mr_receiver_index].
  rewrite Iix, (lookup_handshake b i) by (done || by destruct (pr_alive _ _ _ _ _ _ P)).
  assert (HA1 : nd_peers A1 !! b = Some (pA{{ np_handshake ::= λ hs, hs{{
      nh_ephemeral_private := secret; nh_chaining_key := ck; nh_hash := h;
      nh_state := HANDSHAKE_CREATED_INITIATION }} }})) by (rewrite IA; apply lookup_insert_eq).
  rewrite HA1. cbn [foldl]. erewrite (response_open_spec b (mk_response j i e' c mac1 mac2) _ _ ee se c ck' h').
  - unfold commit_response, on_handshake. cbn [op_peer]. by rewrite HA1.
  - done.
  - cbn. rewrite (dh_agree secretB secret e' e) by done. by rewrite <- Iep.
  - cbn. by rewrite (dh_agree secretB _ e' (si_static_public (nd_static_identity A))), <- (pr_staticB _ _ _ _ _ _ P), <- Ist.
  - cbn. by rewrite (pr_psk _ _ _ _ _ _ P), <- Ips, <- Ick, <- Ih.
  - done.
Qed.

(** The keys and indices of two sessions fit together. *)
Record sessions_match (sA sB : noise_keypair) : Prop := {
  sm_ab : sk_key (kp_sending sA) = sk_key (kp_receiving sB);
  sm_ba : sk_key (kp_sending sB) = sk_key (kp_receiving sA);
  sm_valid : sk_is_valid (kp_sending sA) && sk_is_valid (kp_receiving sA) &&
             sk_is_valid (kp_sending sB) && sk_is_valid (kp_receiving sB) = true;
  sm_initiator : kp_i_am_the_initiator sA = true ∧ kp_i_am_the_initiator sB = false;
}.

Lemma session_phase A B A1 B1 a b pA pB secret e ck h i hsB secretB e' ck' h' j B2 A2 kA kB nowA nowB :
  paired A B a b pA pB → after_initiation A B A1 B1 a b pA pB secret e ck h i hsB →
  A2 = set_peer b (pA{{ np_handshake ::= λ hs, hs{{
      nh_ephemeral_private := secret; nh_remote_ephemeral := e'; nh_hash := h'; nh_chaining_key := ck';
      nh_remote_index := j; nh_state := HANDSHAKE_CONSUMED_RESPONSE }} }}) A1 →
  B2 = set_index (kt_index (nd_store B2)) (set_peer a (pB{{ np_handshake := hsB{{ nh_ephemeral_private := secretB;
      nh_chaining_key := ck'; nh_hash := h'; nh_state := HANDSHAKE_CREATED_RESPONSE }} }}) B1) →
  find_index j (kt_index (nd_store B2)) = Some (EntHandshake a) →
  kA ∉ kset (np_keypairs pA) → kB ∉ kset (np_keypairs pB) →
  ∃ A3 B3 pA3 pB3 sA sB,
    begin_session b (Some kA) nowA A2 = (true, A3) ∧ begin_session a (Some kB) nowB B2 = (true, B3) ∧
    nd_peers A3 !! b = Some pA3 ∧ ks_current_keypair (np_keypairs pA3) = Some kA ∧
    nd_peers B3 !! a = Some pB3 ∧ ks_next_keypair (np_keypairs pB3) = Some kB ∧
    kt_heap (nd_store A3) !! kA = Some sA ∧ kt_heap (nd_store B3) !! kB = Some sB ∧ sessions_match sA sB ∧
    wg_index_hashtable_lookup alive INDEX_HASHTABLE_KEYPAIR (kp_remote_index sB) (kt_index (nd_store A3)) =
      Some (EntKeypair b kA) ∧
    wg_index_hashtable_lookup alive INDEX_HASHTABLE_KEYPAIR (kp_remote_index sA) (kt_index (nd_store B3)) =
      Some (EntKeypair a kB).
Proof.
  intros P I -> HB2 Hfj HkA HkB. destruct (pr_dead _ _ _ _ _ _ P) as [HdA HdB], (pr_alive _ _ _ _ _ _ P) as [Haa Hab].
  set (hA := pA{{ np_handshake ::= _ }}). set (hB := pB{{ np_handshake := hsB{{ nh_ephemeral_private := secretB;
      nh_chaining_key := ck'; nh_hash := h'; nh_state := HANDSHAKE_CREATED_RESPONSE }} }}) in *.
  destruct (begin_session_spec b kA nowA hA (nd_store A1) i) as (pA3&stA&sA&EA&HeapA&HsA&SlotA&FindA);
    [by right|done|done|apply I|].
  destruct (begin_session_spec a kB nowB hB (nd_store B2) j) as (pB3&stB&sB&EB&HeapB&HsB&SlotB&FindB);
    [by left|done|done|done|].
  assert (HB : nd_peers B2 !! a = Some hB) by (rewrite HB2; apply lookup_insert_eq).
  exists ((set_peer b pA3 (set_peer b hA A1)){{ nd_store := stA }}), ((set_peer a pB3 B2){{ nd_store := stB }}), pA3, pB3, sA, sB.
  split_and!.
  - unfold begin_session. change (nd_peers (set_peer b hA A1)) with (<[b := hA]> (nd_peers A1)).
    rewrite lookup_insert_eq. change (nd_store (set_peer b hA A1)) with (nd_store A1). by rewrite EA.
  - unfold begin_session. by rewrite HB, EB.
  - apply lookup_insert_eq.
  - exact SlotA.
  - apply lookup_insert_eq.
  - exact SlotB.
  - exact HeapA.
  - exact HeapB.
  - subst sA sB. split; cbn; by destruct (kdf [] ck') as [[??]?].
  - unfold wg_index_hashtable_lookup. rewrite HsB. cbn [kp_remote_index].
    change (nh_remote_index (np_handshake hB)) with (nh_remote_index hsB). rewrite (ai_index _ _ _ _ _ _ _ _ _ _ _ _ _ _ I).
    match goal with |- context [nd_store ?d] => change (nd_store d) with stA end. rewrite FindA. cbn. by rewrite Hab.
  - unfold wg_index_hashtable_lookup. rewrite HsA. cbn [kp_remote_index]. change (nh_remote_index (np_handshake hA)) with j.
    match goal with |- context [nd_store ?d] => change (nd_store d) with stB end. rewrite FindB. cbn. by rewrite Haa.
Qed.

(** C5: the handshake leads to one shared session.  Of two devices configured with
    each other's public keys and the same preshared key, let one create an
    initiation and send it as bytes, with whatever the cookie code writes into its
    two trailing fields.  Unless the other refuses it as old, as too frequent, or
    because its own simultaneous initiation has precedence, it consumes it.  The
    response it then creates is consumed by the initiator.  Both can begin a
    session: the initiator's is its current one, the responder's waits as its next
    one, the sending key of each is the receiving key of the other, and the index
    each sends under finds the session of the other in its index table. *)
Theorem handshake_agreement A B a b pA pB secretA sec nsec triesA dstA m A1 mac1 mac2 now now' :
  paired A B a b pA pB → tries_u32 triesA → zlen mac1 = 16 → zlen mac2 = 16 →
  create_initiation b secretA sec nsec triesA dstA A = Some (Some m, A1) →
  initiation_refused (tai64n_now sec nsec) now (np_handshake pB) = false → yields B (np_handshake pB) →
  ∃ B1, wg_noise_handshake_consume_initiation
      (initiation_of (initiation_bytes (m{{ mi_mac1 := mac1; mi_mac2 := mac2 }}))) now now' [] B = (Some a, B1) ∧
  ∀ secretB triesB dstB r B2 mac1' mac2',
    tries_u32 triesB → zlen mac1' = 16 → zlen mac2' = 16 →
    create_response a secretB triesB dstB B1 = Some (Some r, B2) →
    ∃ A2, wg_noise_handshake_consume_response
        (response_of (response_bytes (r{{ mr_mac1 := mac1'; mr_mac2 := mac2' }}))) [] A1 = (Some b, A2) ∧
    ∀ kA kB nowA nowB, kA ∉ kset (np_keypairs pA) → kB ∉ kset (np_keypairs pB) →
      ∃ A3 B3 pA3 pB3 sA sB,
        begin_session b (Some kA) nowA A2 = (true, A3) ∧ begin_session a (Some kB) nowB B2 = (true, B3) ∧
        nd_peers A3 !! b = Some pA3 ∧ ks_current_keypair (np_keypairs pA3) = Some kA ∧
        nd_peers B3 !! a = Some pB3 ∧ ks_next_keypair (np_keypairs pB3) = Some kB ∧
        kt_heap (nd_store A3) !! kA = Some sA ∧ kt_heap (nd_store B3) !! kB = Some sB ∧ sessions_match sA sB ∧
        wg_index_hashtable_lookup alive INDEX_HASHTABLE_KEYPAIR (kp_remote_index sB) (kt_index (nd_store A3)) =
          Some (EntKeypair b kA) ∧
        wg_index_hashtable_lookup alive INDEX_HASHTABLE_KEYPAIR (kp_remote_index sA) (kt_index (nd_store B3)) =
          Some (EntKeypair a kB).
Proof.
  intros P Ht Hm1 Hm2 Hc Hr Hy.
  destruct (initiation_phase _ _ _ _ _ _ _ _ _ _ _ _ _ _ _ P Ht Hc Hm1 Hm2) as (e&ck&h&i&He&Hi&Ho&HA1&Hf).
  destruct (commit_phase B pB _ _ now now' Ho (pr_B _ _ _ _ _ _ P) Hr Hy) as (hsB&Hcons&H1&H2&H3&H4&H5&H6&_).
  cbn [op_peer op_ephemeral op_chaining_key op_hash op_sender_index] in *.
  eexists. split; [exact Hcons|]. intros secretB triesB dstB r B2 mac1' mac2' HtB Hm1' Hm2' HcB.
  assert (I : after_initiation A B A1 (set_peer a (pB{{ np_handshake := hsB }}) B) a b pA pB secretA e ck h i hsB) by done.
  destruct (response_phase _ _ _ _ _ _ _ _ _ _ _ _ _ _ _ _ _ _ _ _ _ P I HtB HcB Hm1' Hm2') as (e'&ck'&h'&j&Hcons'&HB2&Hfj).
  eexists. split; [exact Hcons'|]. intros kA kB nowA nowB HkA HkB.
  exact (session_phase _ _ _ _ _ _ _ _ _ _ _ _ _ _ _ _ _ _ _ _ _ kA kB nowA nowB P I eq_refl HB2 Hfj HkA HkB).
Qed.
End handshake.

(** ** An example with the toy primitives *)
#[local] Existing Instance toy_crypto.

Definition no_identity : noise_static_identity := mk_identity (zeros 32) (zeros 32) false.

Definition toy_identity (n : Z) : noise_static_identity :=
  wg_noise_set_static_identity_private_key (replicate 32 n) no_identity.

(** The device with key [n] and the peer [p] with key [k]. *)
Definition toy_device (n p k : Z) : noise_device :=
  mk_noise_device (toy_identity n) true
    {[ p := mk_noise_peer (wg_noise_handshake_init (toy_identity n) (replicate 32 k) (Some (replicate 32 1))) no_keypairs
              false 0 ]}
    (wg_pubkey_hashtable_add (λ _, 0) (replicate 32 k) p ∅) (mk_kstore ∅ ∅ 0 []).

Definition toy_peer (n k : Z) : noise_peer :=
  mk_noise_peer (wg_noise_handshake_init (toy_identity n) (replicate 32 k) (Some (replicate 32 1))) no_keypairs false 0.

Definition toy_initiation_buffer : message_handshake_initiation := mk_initiation 0 [] [] [] (zeros 16) (zeros 16).
Definition toy_response_buffer : message_handshake_response := mk_response 0 0 [] [] (zeros 16) (zeros 16).

Lemma toy_paired : paired (λ _, 0) (λ _, true) (toy_device 3 2 5) (toy_device 5 1 3) 1 2 (toy_peer 3 5) (toy_peer 5 3).
Proof.
  split; try done.
  - exists (replicate 32 3), no_identity. by vm_compute.
  - exists (replicate 32 5), no_identity. by vm_compute.
Qed.

Lemma handshake_agreement_witness :
  ∃ m A1 B1 r B2 A2 A3 B3 sA sB,
    create_initiation 2 (replicate 32 7) 1700000000 123456789 [(600, [])] toy_initiation_buffer (toy_device 3 2 5) =
      Some (Some m, A1) ∧
    wg_noise_handshake_consume_initiation (λ _, 0) (λ _, true)
      (initiation_of (initiation_bytes (m{{ mi_mac1 := zeros 16; mi_mac2 := zeros 16 }}))) 1000000000 1000000000 []
      (toy_device 5 1 3) = (Some 1, B1) ∧
    create_response 1 (replicate 32 9) [(700, [])] toy_response_buffer B1 = Some (Some r, B2) ∧
    wg_noise_handshake_consume_response (λ _, true)
      (response_of (response_bytes (r{{ mr_mac1 := zeros 16; mr_mac2 := zeros 16 }}))) [] A1 = (Some 2, A2) ∧
    begin_session 2 (Some 40) 2000000000 A2 = (true, A3) ∧ begin_session 1 (Some 50) 2000000000 B2 = (true, B3) ∧
    kt_heap (nd_store A3) !! 40 = Some sA ∧ kt_heap (nd_store B3) !! 50 = Some sB ∧ sessions_match sA sB.
Proof.
  destruct (create_initiation 2 (replicate 32 7) 1700000000 123456789 [(600, [])] toy_initiation_buffer (toy_device 3 2 5))
    as [[[m|] A1]|] eqn:Hc; try (vm_compute in Hc; discriminate Hc). exists m, A1.
  destruct (handshake_agreement (λ _, 0) (λ _, true) _ _ _ _ _ _ (replicate 32 7) 1700000000 123456789 [(600, [])]
    toy_initiation_buffer m A1 (zeros 16) (zeros 16) 1000000000 1000000000 toy_paired) as (B1&HB1&H);
    [intros i o [[= -> ->]|?%elem_of_nil]%elem_of_cons; [lia|done]|done|done|done|by vm_compute|by intros _|].
  exists B1. destruct (create_response 1 (replicate 32 9) [(700, [])] toy_response_buffer B1) as [[[r|] B2]|] eqn:Hr.
  2-3: exfalso; vm_compute in Hc; injection Hc as <- <-; vm_compute in HB1; injection HB1 as <-; vm_compute in Hr; discriminate Hr.
  destruct (H (replicate 32 9) [(700, [])] toy_response_buffer r B2 (zeros 16) (zeros 16)) as (A2&HA2&H');
    [intros i o [[= -> ->]|?%elem_of_nil]%elem_of_cons; [lia|done]|done|done|done|].
  destruct (H' 40 50 2000000000 2000000000) as (A3&B3&pA3&pB3&sA&sB&E1&E2&_&_&_&_&E3&E4&E5&_); [by vm_compute..|].
  exists r, B2, A2, A3, B3, sA, sB. by split_and!.
Defined.
