(* ===== verification/HandshakeSpec.v ===== *)
(** * Replayed and simultaneous initiations (kernel/noise.c)

    Over all sections of Handshake.v: the time stamp kept for a peer never goes
    back, so that an initiation once consumed, or an older one, is refused from
    then on; and of two devices that have each sent an initiation over TCP exactly
    one consumes the other's. *)
From stdpp Require Import prelude list gmap.
From S2P Require Import Prelude Skb Crypto PeerLookup Noise Keypairs Handshake.

#[local] Open Scope Z_scope.

Section spec.
Context {C : Crypto} {Hok : CryptoOk C}.
Context (siphash : list Z → Z) (alive : Z → bool).

(** The time stamp kept for a peer. *)
Definition timestamp (wg : noise_device) (p : Z) : option (list Z) :=
  nh_latest_timestamp ∘ np_handshake <$> nd_peers wg !! p.

Lemma timestamp_set_peer q pq wg p :
  timestamp (set_peer q pq wg) p =
  if bool_decide (p = q) then Some (nh_latest_timestamp (np_handshake pq)) else timestamp wg p.
Proof.
  unfold timestamp. cbn. case_bool_decide; [subst; by rewrite lookup_insert_eq|by rewrite lookup_insert_ne].
Qed.

(** A section keeps the time stamp of every peer, unless it consumes an
    initiation with a later one. *)
Definition later (t t' : option (list Z)) (o : opened) (p : Z) : Prop :=
  op_peer o = p ∧ ∃ t0, t = Some t0 ∧ t' = Some (op_timestamp o) ∧ 0 < memcmp (op_timestamp o) t0.

Lemma keep_peer q pq pq' wg p :
  nd_peers wg !! q = Some pq → nh_latest_timestamp (np_handshake pq') = nh_latest_timestamp (np_handshake pq) →
  timestamp (set_peer q pq' wg) p = timestamp wg p.
Proof.
  intros Hq Ht. rewrite timestamp_set_peer. case_bool_decide; [subst|done]. unfold timestamp. rewrite Hq. cbn. by rewrite Ht.
Qed.

Lemma create_initiation_ts peer id secret sec nsec tries dst hs t m hs' t' :
  wg_noise_handshake_create_initiation peer id secret sec nsec tries dst hs t = Some (m, hs', t') →
  nh_latest_timestamp hs' = nh_latest_timestamp hs.
Proof.
  unfold wg_noise_handshake_create_initiation. intros H. repeat case_match; simplify_eq; done.
Qed.

Lemma create_response_ts peer secret tries dst hs t m hs' t' :
  wg_noise_handshake_create_response peer secret tries dst hs t = Some (m, hs', t') →
  nh_latest_timestamp hs' = nh_latest_timestamp hs.
Proof.
  unfold wg_noise_handshake_create_response. intros H. repeat case_match; simplify_eq; done.
Qed.

Lemma begin_session_ts peer alloc now p st :
  nh_latest_timestamp (np_handshake (wg_noise_handshake_begin_session peer alloc now p st).1.2) =
  nh_latest_timestamp (np_handshake p).
Proof. unfold wg_noise_handshake_begin_session. repeat case_match; simplify_eq; done. Qed.

Lemma on_handshake_ts q f wg p :
  (∀ hs hs', f hs = Some hs' → nh_latest_timestamp hs' = nh_latest_timestamp hs) →
  timestamp (on_handshake q f wg).2 p = timestamp wg p.
Proof.
  intros Hf. unfold on_handshake. destruct (nd_peers wg !! q) as [pq|] eqn:Hq; [|done].
  destruct (f _) as [hs'|] eqn:Hhs; [|done]. cbn [snd]. eapply keep_peer; [done|]. by apply Hf.
Qed.

Lemma commit_ts o now wg p :
  timestamp (commit_initiation o now wg).2 p = timestamp wg p ∨
  later (timestamp wg p) (timestamp (commit_initiation o now wg).2 p) o p.
Proof.
  unfold commit_initiation, on_handshake. destruct (nd_peers wg !! op_peer o) as [q|] eqn:Hq; [|by left].
  unfold initiation_commit. destruct (_ && _ && _); [by left|]. cbn [snd]. rewrite timestamp_set_peer.
  case_bool_decide as Hp; [subst p|by left]. unfold later, timestamp. rewrite Hq. cbn.
  destruct (Z.ltb_spec 0 (memcmp (op_timestamp o) (nh_latest_timestamp (np_handshake q)))); [right|left].
  - split; [done|]. eexists. split; [done|]. split; [|done]. by case_if.
  - by case_if.
Qed.

Lemma section_ts wg s p :
  timestamp (run_hsection wg s) p = timestamp wg p ∨
  ∃ o now, s = HCommitInitiation o now ∧ later (timestamp wg p) (timestamp (run_hsection wg s) p) o p.
Proof.
  destruct s as [q secret sec nsec tries dst|o now|q secret tries dst|st o|q alloc now|q|q now|q psk|q|key]; cbn [run_hsection].
  2: { destruct (commit_ts o now wg p); [by left|right; eauto]. }
  all: left.
  - unfold create_initiation. destruct (nd_peers wg !! q) as [pq|] eqn:Hq; [|done]. cbn.
    destruct (wg_noise_handshake_create_initiation _ _ _ _ _ _ _ _ _) as [[[m hs] t]|] eqn:Hc; [|done]. cbn.
    apply create_initiation_ts in Hc. by apply (keep_peer q pq).
  - unfold create_response. destruct (nd_peers wg !! q) as [pq|] eqn:Hq; [|done]. cbn.
    destruct (wg_noise_handshake_create_response _ _ _ _ _ _) as [[[m hs] t]|] eqn:Hc; [|done]. cbn.
    apply create_response_ts in Hc. by apply (keep_peer q pq).
  - apply on_handshake_ts. intros hs hs'. unfold response_commit. case_match; [done|]. by intros [= <-].
  - unfold begin_session. destruct (nd_peers wg !! q) as [pq|] eqn:Hq; [|done].
    pose proof (begin_session_ts q alloc now pq (nd_store wg)) as Ht.
    destruct (wg_noise_handshake_begin_session _ _ _ _ _) as [[b pq'] st]. by apply (keep_peer q pq).
  - destruct (nd_peers wg !! q) as [pq|] eqn:Hq; [|done]. by apply (keep_peer q pq).
  - destruct (nd_peers wg !! q) as [pq|] eqn:Hq; [|done]. by apply (keep_peer q pq).
  - apply on_handshake_ts. by intros hs hs' [= <-].
  - apply on_handshake_ts. by intros hs hs' [= <-].
  - done.
Qed.

(** Time stamps have their 12 bytes. *)
Definition timestamps_ok (wg : noise_device) : Prop := ∀ p t, timestamp wg p = Some t → zlen t = NOISE_TIMESTAMP_LEN.

Definition hsection_ok (s : hsection) : Prop :=
  match s with HCommitInitiation o _ => zlen (op_timestamp o) = NOISE_TIMESTAMP_LEN | _ => True end.

Lemma section_timestamps_ok wg s : timestamps_ok wg → hsection_ok s → timestamps_ok (run_hsection wg s).
Proof.
  intros Hwg Hs p t Ht. destruct (section_ts wg s p) as [He|(o&now&->&_&t0&_&He&_)]; rewrite He in Ht.
  - by apply (Hwg p).
  - by injection Ht as <-.
Qed.

Lemma sections_ts wg ss p t :
  timestamps_ok wg → Forall hsection_ok ss → timestamp wg p = Some t →
  ∃ t', timestamp (foldl run_hsection wg ss) p = Some t' ∧ memcmp t t' <= 0 ∧ timestamps_ok (foldl run_hsection wg ss).
Proof.
  intros Hwg Hss. revert wg t Hwg. induction Hss as [|s ss Hs Hss IH]; intros wg t Hwg Ht.
  - exists t. split_and!; [done|by rewrite memcmp_refl|done].
  - pose proof (section_timestamps_ok wg s Hwg Hs) as Hwg'. cbn [foldl].
    destruct (section_ts wg s p) as [He|(o&now&->&_&t0&H0&He&Hlt)].
    + apply IH; [done|]. by rewrite He.
    + destruct (IH _ _ Hwg' He) as (t'&H1&H2&H3). exists t'. split_and!; [done| |done].
      rewrite Ht in H0. injection H0 as <-. rewrite memcmp_antisym in Hlt.
      apply (memcmp_trans t (op_timestamp o) t'); [|by rewrite (H3 p t')|lia|done].
      by rewrite (Hwg p t Ht).
Qed.

(** The time stamp of an initiation that can be opened. *)
Lemma opened_timestamp src wg o :
  initiation_open siphash alive src wg = Some o → zlen (mi_encrypted_timestamp src) = 28 →
  zlen (op_timestamp o) = NOISE_TIMESTAMP_LEN.
Proof.
  unfold initiation_open. intros Ho Hl. destruct (negb _); [done|].
  destruct (handshake_init _), (message_ephemeral _ _ _), (mix_dh _ _ _) as [[ck key]|]; [|done]. cbn in Ho.
  destruct (message_decrypt _ _ _) as [[s h]|]; [|done]. cbn in Ho.
  destruct (wg_pubkey_hashtable_lookup _ _ _ _) as [q|]; [|done]. cbn in Ho. destruct (nd_peers wg !! q); [|done]. cbn in Ho.
  destruct (mix_precomputed_dh _ _) as [[ck' key']|]; [|done]. cbn in Ho. unfold message_decrypt in Ho.
  destruct (chacha20poly1305_decrypt _ _ _ _) as [t|] eqn:Hd; [|done]. cbn in Ho. injection Ho as <-.
  apply chacha_decrypt_len in Hd. unfold NOISE_AUTHTAG_LEN, NOISE_TIMESTAMP_LEN in *. cbn. lia.
Qed.

(** Consuming an initiation leaves a time stamp that is not older. *)
Lemma consumed_ts src now now' gap wg p wg1 o :
  wg_noise_handshake_consume_initiation siphash alive src now now' gap wg = (Some p, wg1) →
  initiation_open siphash alive src wg = Some o → zlen (op_timestamp o) = NOISE_TIMESTAMP_LEN →
  timestamps_ok wg → Forall hsection_ok gap →
  op_peer o = p ∧ timestamps_ok wg1 ∧ ∃ t, timestamp wg1 p = Some t ∧ memcmp (op_timestamp o) t <= 0.
Proof.
  unfold wg_noise_handshake_consume_initiation. intros Hc Ho Hl Hwg Hgap. rewrite Ho in Hc.
  destruct (nd_peers wg !! op_peer o) as [q|] eqn:Hq; [|done]. destruct (initiation_refused _ _ _); [done|].
  destruct (sections_ts wg gap (op_peer o) (nh_latest_timestamp (np_handshake q))) as (t&Ht&_&Hok');
    [done|done|unfold timestamp; by rewrite Hq|]. set (wg' := foldl run_hsection wg gap) in *. clearbody wg'.
  pose proof (section_timestamps_ok wg' (HCommitInitiation o now') Hok' Hl) as Hok1. cbn [run_hsection] in Hok1.
  pose proof (commit_ts o now' wg' (op_peer o)) as Hts. unfold commit_initiation, on_handshake in *.
  unfold timestamp in Ht. destruct (nd_peers wg' !! op_peer o) as [q'|] eqn:Hq'; [|done].
  injection Ht as Ht. unfold initiation_commit in *.
  destruct (_ && _ && _) eqn:Hyield; [done|]. cbn [snd] in *. simplify_eq. split_and!; [done|done|].
  rewrite timestamp_set_peer, bool_decide_eq_true_2 by done. eexists. split; [done|]. cbn.
  destruct (Z.ltb_spec 0 (memcmp (op_timestamp o) (nh_latest_timestamp (np_handshake q')))); case_if; cbn; rewrite ?memcmp_refl; done.
Qed.

(** C7: an initiation counts once.  When one has been consumed for a peer, then,
    whatever sections have run since, every initiation of that peer whose time
    stamp is not later, the same one included, is refused and changes nothing. *)
Theorem initiation_replay_refused src now now' gap wg p wg1 o ss src' o' now2 now2' gap' :
  timestamps_ok wg → Forall hsection_ok gap → Forall hsection_ok ss →
  zlen (mi_encrypted_timestamp src) = 28 → zlen (mi_encrypted_timestamp src') = 28 →
  initiation_open siphash alive src wg = Some o →
  wg_noise_handshake_consume_initiation siphash alive src now now' gap wg = (Some p, wg1) →
  let wg2 := foldl run_hsection wg1 ss in
  initiation_open siphash alive src' wg2 = Some o' → op_peer o' = p →
  memcmp (op_timestamp o') (op_timestamp o) <= 0 →
  wg_noise_handshake_consume_initiation siphash alive src' now2 now2' gap' wg2 = (None, wg2).
Proof.
  intros Hwg Hgap Hss Hl Hl' Ho Hc wg2 Ho' Hp Hle. pose proof (opened_timestamp _ _ _ Ho Hl) as Ht.
  pose proof (opened_timestamp _ _ _ Ho' Hl') as Ht'.
  destruct (consumed_ts _ _ _ _ _ _ _ _ Hc Ho Ht Hwg Hgap) as (_&Hwg1&t&Hts&Hcmp).
  destruct (sections_ts wg1 ss p t Hwg1 Hss Hts) as (t2&Hts2&Hcmp2&Hwg2). fold wg2 in Hts2, Hwg2.
  unfold wg_noise_handshake_consume_initiation. rewrite Ho', Hp. unfold timestamp in Hts2.
  destruct (nd_peers wg2 !! p) as [q|] eqn:Hq; [|done]. injection Hts2 as Hts2.
  unfold initiation_refused. cbn in Hts2. rewrite Hts2.
  assert (L : zlen t = NOISE_TIMESTAMP_LEN) by (by apply (Hwg1 p)).
  assert (L2 : zlen t2 = NOISE_TIMESTAMP_LEN) by (apply (Hwg2 p); unfold timestamp; rewrite Hq; cbn; by rewrite Hts2).
  assert (memcmp (op_timestamp o') t2 <= 0) as Hrep%Z.leb_le; [|by rewrite Hrep].
  apply (memcmp_trans _ t); [lia..| |done]. apply (memcmp_trans _ (op_timestamp o)); [lia..|done|done].
Qed.

(** The device with precedence refuses. *)
Lemma refuse_phase wg p src o now now' :
  initiation_open siphash alive src wg = Some o → nd_peers wg !! op_peer o = Some p →
  nd_transport_tcp wg = true → nh_state (np_handshake p) = HANDSHAKE_CREATED_INITIATION →
  memcmp (si_static_public (nd_static_identity wg)) (nh_remote_static (np_handshake p)) < 0 →
  wg_noise_handshake_consume_initiation siphash alive src now now' [] wg = (None, wg).
Proof.
  intros Ho Hp Htcp Hs Hlt%Z.ltb_lt. unfold wg_noise_handshake_consume_initiation. rewrite Ho, Hp.
  destruct (initiation_refused _ _ _); [done|]. cbn [foldl]. unfold commit_initiation, on_handshake. rewrite Hp.
  unfold initiation_commit. rewrite Htcp, bool_decide_eq_true_2, Hlt by done. done.
Qed.

(** C8: simultaneous initiations over TCP are resolved.  When both of two peers
    have sent an initiation and each receives the other's in good order, exactly
    one of them consumes it, the one with the greater public key; the other, with
    the lower key, refuses and keeps its handshake, so that it can consume the
    response. *)
Theorem simultaneous_initiations_resolved A B a b pA pB srcA srcB oA oB nowA nowA' nowB nowB' :
  paired siphash alive A B a b pA pB →
  nd_transport_tcp A = true → nd_transport_tcp B = true →
  nh_state (np_handshake pA) = HANDSHAKE_CREATED_INITIATION →
  nh_state (np_handshake pB) = HANDSHAKE_CREATED_INITIATION →
  si_static_public (nd_static_identity A) ≠ si_static_public (nd_static_identity B) →
  initiation_open siphash alive srcA A = Some oA → op_peer oA = b →
  initiation_open siphash alive srcB B = Some oB → op_peer oB = a →
  initiation_refused (op_timestamp oA) nowA (np_handshake pA) = false →
  initiation_refused (op_timestamp oB) nowB (np_handshake pB) = false →
  let rA := wg_noise_handshake_consume_initiation siphash alive srcA nowA nowA' [] A in
  let rB := wg_noise_handshake_consume_initiation siphash alive srcB nowB nowB' [] B in
  let less := memcmp (si_static_public (nd_static_identity A)) (si_static_public (nd_static_identity B)) in
  less < 0 ∧ rA = (None, A) ∧ rB.1 = Some a ∨ 0 < less ∧ rA.1 = Some b ∧ rB = (None, B).
Proof.
  intros P TA TB SA SB Hne OA EA OB EB RA RB rA rB less.
  destruct (pr_idA _ _ _ _ _ _ _ _ P) as [kA IA%identity_public%generate_public_len].
  destruct (pr_idB _ _ _ _ _ _ _ _ P) as [kB IB%identity_public%generate_public_len].
  assert (Hless : less ≠ 0) by (intros H0%memcmp_eq; [done|by rewrite IA, IB]).
  pose proof (memcmp_antisym (si_static_public (nd_static_identity A)) (si_static_public (nd_static_identity B))) as Hanti.
  fold less in Hanti. pose proof (pr_staticA _ _ _ _ _ _ _ _ P) as QA. pose proof (pr_staticB _ _ _ _ _ _ _ _ P) as QB.
  pose proof (pr_A _ _ _ _ _ _ _ _ P) as PA. pose proof (pr_B _ _ _ _ _ _ _ _ P) as PB. subst a b.
  destruct (Z.lt_total less 0) as [H|[H|H]]; [left|done|right]; (split; [done|]).
  - split; [apply (refuse_phase A pA srcA oA); [done..|by rewrite QA]|].
    destruct (commit_phase siphash alive B pB srcB oB nowB nowB' OB PB RB) as (hs&Hc&_); [|unfold rB; by rewrite Hc].
    intros _ _. rewrite QB. lia.
  - split; [|apply (refuse_phase B pB srcB oB); [done..|rewrite QB; lia]].
    destruct (commit_phase siphash alive A pA srcA oA nowA nowA' OA PA RA) as (hs&Hc&_); [|unfold rA; by rewrite Hc].
    intros _ _. rewrite QA. fold less. lia.
Qed.
End spec.

(** ** Examples with the toy primitives *)
#[local] Existing Instance toy_crypto.

(** The initiation of the device with key [n] to its peer [p] with key [k], and
    the device after it. *)
Definition toy_initiates (n p k : Z) : message_handshake_initiation * noise_device :=
  match create_initiation p (replicate 32 (n + 10)) 1700000000 123456789 [(600 + n, [])] toy_initiation_buffer
      (toy_device n p k) with
  | Some (Some m, wg) => (m, wg)
  | _ => (toy_initiation_buffer, toy_device n p k)
  end.

Definition toy_peer_after (n p k : Z) : noise_peer := default (toy_peer n k) (nd_peers (toy_initiates n p k).2 !! p).

Lemma toy_timestamps_ok : timestamps_ok (toy_device 5 1 3).
Proof.
  intros p t. unfold timestamp. cbn. destruct (decide (p = 1)) as [->|Hp].
  - rewrite lookup_singleton_eq. by intros [= <-].
  - by rewrite lookup_singleton_ne.
Qed.

Lemma initiation_replay_refused_witness :
  let m := (toy_initiates 3 2 5).1 in
  ∃ wg1, wg_noise_handshake_consume_initiation (λ _, 0) (λ _, true) m 1000000000 1000000000 [] (toy_device 5 1 3) =
    (Some 1, wg1) ∧
  let wg2 := foldl run_hsection wg1 [HClear 1; HSetPresharedKey 1 (zeros 32)] in
  wg_noise_handshake_consume_initiation (λ _, 0) (λ _, true) m 5000000000 5000000000 [] wg2 = (None, wg2).
Proof.
  intros m. destruct (wg_noise_handshake_consume_initiation (λ _, 0) (λ _, true) m 1000000000 1000000000 [] (toy_device 5 1 3))
    as [[p|] wg1] eqn:Hc; [|vm_compute in Hc; discriminate Hc].
  assert (p = 1) as -> by (vm_compute in Hc; by injection Hc). exists wg1. split; [done|]. intros wg2.
  destruct (initiation_open (λ _, 0) (λ _, true) m (toy_device 5 1 3)) as [o|] eqn:Ho; [|vm_compute in Ho; discriminate Ho].
  eapply (initiation_replay_refused (λ _, 0) (λ _, true) m 1000000000 1000000000 [] (toy_device 5 1 3) 1 wg1 o
    [HClear 1; HSetPresharedKey 1 (zeros 32)] m o);
    [apply toy_timestamps_ok|done|by repeat constructor|done|done|done|done| | |by rewrite memcmp_refl].
  - vm_compute in Hc. injection Hc as <-. vm_compute in Ho. injection Ho as <-. by vm_compute.
  - vm_compute in Ho. by injection Ho as <-.
Defined.

Lemma toy_paired_after :
  paired (λ _, 0) (λ _, true) (toy_initiates 3 2 5).2 (toy_initiates 5 1 3).2 1 2 (toy_peer_after 3 2 5) (toy_peer_after 5 1 3).
Proof.
  split; try by vm_compute.
  - exists (replicate 32 3), no_identity. by vm_compute.
  - exists (replicate 32 5), no_identity. by vm_compute.
Qed.

Lemma simultaneous_initiations_resolved_witness :
  (wg_noise_handshake_consume_initiation (λ _, 0) (λ _, true) (toy_initiates 5 1 3).1 1000000000 1000000000 []
    (toy_initiates 3 2 5).2).1 = None ∧
  (wg_noise_handshake_consume_initiation (λ _, 0) (λ _, true) (toy_initiates 3 2 5).1 1000000000 1000000000 []
    (toy_initiates 5 1 3).2).1 = Some 1.
Proof.
  destruct (initiation_open (λ _, 0) (λ _, true) (toy_initiates 5 1 3).1 (toy_initiates 3 2 5).2) as [oA|] eqn:HA;
    [|vm_compute in HA; discriminate HA].
  destruct (initiation_open (λ _, 0) (λ _, true) (toy_initiates 3 2 5).1 (toy_initiates 5 1 3).2) as [oB|] eqn:HB;
    [|vm_compute in HB; discriminate HB].
  destruct (simultaneous_initiations_resolved (λ _, 0) (λ _, true) _ _ _ _ _ _ (toy_initiates 5 1 3).1
    (toy_initiates 3 2 5).1 oA oB 1000000000 1000000000 1000000000 1000000000 toy_paired_after)
    as [(_&H1&H2)|(H&_)];
    [vm_compute; reflexivity..|by vm_compute|exact HA| |exact HB| | | | |].
  1,3: vm_compute in HA; injection HA as <-; vm_compute; reflexivity.
  1,2: vm_compute in HB; injection HB as <-; vm_compute; reflexivity.
  - split; [by rewrite H1|exact H2].
  - vm_compute in H. discriminate H.
Defined.
