(* ===== verification/PrevQueue.v ===== *)
(** * The packet queue of a peer (kernel/queueing.c)

    A linked queue through the [prev] pointers of the packets, with many producers
    and one consumer and without locks.  Every access to shared memory is a step:
    a producer reserves a place in the count, clears its packet's pointer,
    exchanges the head and then links its packet to the one that was the head; the
    consumer walks the links behind the tail and, when it has reached the last
    packet, appends the stub node again.  Memory is taken to be sequentially
    consistent.

    The theorem shows that under all interleavings the queue delivers the packets
    in the order of the exchanges, without loss or duplication, that its count is
    bounded and exact, and that nobody writes to a packet that has been handed
    out. *)
From stdpp Require Import prelude list gmap.
From S2P Require Import Prelude Skb.

#[local] Open Scope Z_scope.

(** A node is a packet or the stub. *)
Abbreviation node := (option Z).
Abbreviation STUB := (None : option Z).

(** The fields of the queue with the [prev] pointers of the nodes; a pointer that
    is absent is null. *)
Record prev_queue := mk_queue {
  q_next : gmap node node;
  q_head : node;
  q_tail : node;
  q_peeked : option Z;
  q_count : Z;
}.

#[export] Instance eta_prev_queue : Settable prev_queue := λ q,
  mk_queue (q_next q) (q_head q) (q_tail q) (q_peeked q) (q_count q).

Definition wg_prev_queue_init : prev_queue := mk_queue ∅ STUB STUB None 0.

(** ** Where a thread is

    A producer between the statements of [wg_prev_queue_enqueue], and the consumer
    between those of [wg_prev_queue_dequeue], with their local variables. *)
Inductive producer :=
  | PReserved (skb : Z)
  | PCleared (skb : Z)
  | PSwapped (old : node) (skb : Z).

Inductive consumer :=
  | CIdle
  | CNext (tail : node)
  | CHead (tail : node)
  | CClear (tail : node)
  | CSwap (tail : node)
  | CLink (tail old : node)
  | CReload (tail : node)
  | CDec (tail : node).

(** The queue with its threads; [qw_in] and [qw_out] are the packets that have
    been exchanged into the queue and those that have been taken out. *)
Record qworld := mk_qworld {
  qw_queue : prev_queue;
  qw_producers : gmap Z producer;
  qw_consumer : consumer;
  qw_in : list Z;
  qw_out : list Z;
}.

#[export] Instance eta_qworld : Settable qworld := λ w,
  mk_qworld (qw_queue w) (qw_producers w) (qw_consumer w) (qw_in w) (qw_out w).

(** ** The statements *)
Definition write_next (n : node) (v : option node) (q : prev_queue) : prev_queue :=
  q{{ q_next := match v with Some m => <[n := m]> (q_next q) | None => delete n (q_next q) end }}.

(** The producer [t]: entering with a packet, and its next statement. *)
Definition produce (t skb : Z) (w : qworld) : qworld :=
  let q := qw_queue w in
  if q_count q =? MAX_QUEUED_PACKETS then w
  else w{{ qw_queue := q{{ q_count ::= Z.add 1 }}; qw_producers ::= <[t := PReserved skb]> }}.

Definition producer_step (t : Z) (w : qworld) : qworld :=
  match qw_producers w !! t with
  | None => w
  | Some (PReserved skb) =>
      w{{ qw_queue ::= write_next (Some skb) None; qw_producers ::= <[t := PCleared skb]> }}
  | Some (PCleared skb) =>
      let old := q_head (qw_queue w) in
      w{{ qw_queue ::= λ q, q{{ q_head := Some skb }}; qw_producers ::= <[t := PSwapped old skb]>;
          qw_in ::= λ l, l ++ [skb] }}
  | Some (PSwapped old skb) =>
      w{{ qw_queue ::= write_next old (Some (Some skb)); qw_producers ::= delete t }}
  end.

(** The consumer takes [tail], behind which is [next]. *)
Definition take_tail (tail next : node) (w : qworld) : qworld :=
  w{{ qw_queue ::= λ q, q{{ q_tail := next }}; qw_consumer := CDec tail;
      qw_out ::= λ l, l ++ match tail with Some skb => [skb] | None => [] end }}.

(** The next statement of [wg_prev_queue_dequeue], which is entered from [CIdle];
    the second component is the returned packet, when it returns. *)
Definition dequeue_step (w : qworld) : qworld * option (option Z) :=
  let q := qw_queue w in
  match qw_consumer w with
  | CIdle =>
      let tail := q_tail q in
      match tail, q_next q !! tail with
      | None, None => (w, Some None)
      | None, Some next => (w{{ qw_queue := q{{ q_tail := next }}; qw_consumer := CNext next }}, None)
      | Some _, Some next => (take_tail tail next w, None)
      | Some _, None => (w{{ qw_consumer := CHead tail }}, None)
      end
  | CNext tail =>
      match q_next q !! tail with
      | Some next => (take_tail tail next w, None)
      | None => (w{{ qw_consumer := CHead tail }}, None)
      end
  | CHead tail =>
      if bool_decide (tail = q_head q) then (w{{ qw_consumer := CClear tail }}, None)
      else (w{{ qw_consumer := CIdle }}, Some None)
  | CClear tail => (w{{ qw_queue := write_next STUB None q; qw_consumer := CSwap tail }}, None)
  | CSwap tail => (w{{ qw_queue := q{{ q_head := STUB }}; qw_consumer := CLink tail (q_head q) }}, None)
  | CLink tail old => (w{{ qw_queue := write_next old (Some STUB) q; qw_consumer := CReload tail }}, None)
  | CReload tail =>
      match q_next q !! tail with
      | Some next => (take_tail tail next w, None)
      | None => (w{{ qw_consumer := CIdle }}, Some None)
      end
  | CDec tail => (w{{ qw_queue := q{{ q_count ::= λ n, n - 1 }}; qw_consumer := CIdle }}, Some tail)
  end.

(** [wg_prev_queue_peek], through which the consumer dequeues. *)
Definition consumer_step (w : qworld) : qworld * option (option Z) :=
  match qw_consumer w, q_peeked (qw_queue w) with
  | CIdle, Some skb => (w, Some (Some skb))
  | _, _ =>
      let '(w, ret) := dequeue_step w in
      match ret with
      | Some r => (w{{ qw_queue ::= λ q, q{{ q_peeked := r }} }}, Some r)
      | None => (w, None)
      end
  end.

Definition wg_prev_queue_drop_peeked (w : qworld) : qworld := w{{ qw_queue ::= λ q, q{{ q_peeked := None }} }}.

(** ** Runs: any thread may make the next step.

    A packet enters only if it is neither in the queue nor on its way into it. *)
Inductive qop :=
  | QEnter (t skb : Z)
  | QProducer (t : Z)
  | QConsumer
  | QDrop.

Definition qstep (w : qworld) (o : qop) : qworld :=
  match o with
  | QEnter t skb => produce t skb w
  | QProducer t => producer_step t w
  | QConsumer => (consumer_step w).1
  | QDrop => match qw_consumer w with CIdle => wg_prev_queue_drop_peeked w | _ => w end
  end.

Definition qinit : qworld := mk_qworld wg_prev_queue_init ∅ CIdle [] [].

(** The packets in the queue. *)
Definition queued (w : qworld) : list Z := drop (length (qw_out w)) (qw_in w).

Definition carries (skb : Z) (p : producer) : Prop :=
  match p with PReserved s | PCleared s => s = skb | PSwapped _ _ => False end.

#[export] Instance carries_dec skb p : Decision (carries skb p).
Proof. destruct p; unfold carries; apply _. Defined.

Definition qop_ok (w : qworld) (o : qop) : Prop :=
  match o with
  | QEnter t skb => qw_producers w !! t = None ∧ (skb ∉ queued w) ∧ map_Forall (λ _ p, ¬ carries skb p) (qw_producers w)
  | _ => True
  end.

Fixpoint qops_ok (w : qworld) (os : list qop) : Prop :=
  match os with [] => True | o :: os => qop_ok w o ∧ qops_ok (qstep w o) os end.

#[export] Instance qop_ok_dec w o : Decision (qop_ok w o).
Proof. destruct o; unfold qop_ok; apply _. Defined.

#[export] Instance qops_ok_dec w os : Decision (qops_ok w os).
Proof. revert w. induction os as [|o os IH]; intros w; cbn; apply _. Defined.

(** ** Chains

    [l] is the chain of nodes from the tail to the head [h].  A link is written, or
    it is pending: [P o a b] says that the thread [o] is about to write [b] into
    [a]. *)
Record chain (next : gmap node node) (P : option Z → node → node → Prop) (l : list node) (h : node) : Prop := {
  c_nodup : NoDup l;
  c_last : last l = Some h;
  c_links : ∀ i a b, l !! i = Some a → l !! S i = Some b →
    next !! a = Some b ∧ (∀ o c, ¬ P o a c) ∨ next !! a = None ∧ ∃ o, P o a b;
  c_end : next !! h = None ∧ ∀ o c, ¬ P o h c;
  c_pend : ∀ o a b, P o a b → ∃ i, l !! i = Some a ∧ l !! S i = Some b;
  c_own : ∀ o o' a b b', P o a b → P o' a b' → o = o';
}.

Lemma chain_ext next P P' l h : (∀ o a b, P' o a b ↔ P o a b) → chain next P l h → chain next P' l h.
Proof.
  intros HP [H1 H2 H3 H4 H5 H6]. split; [done|done| | | |].
  - intros i a b Ha Hb. setoid_rewrite HP. by apply (H3 i).
  - setoid_rewrite HP. done.
  - intros o a b. rewrite HP. apply H5.
  - intros o o' a b b'. rewrite !HP. apply H6.
Qed.

Lemma chain_in next P l h : chain next P l h → h ∈ l.
Proof. intros [_ Hl _ _ _ _]. apply last_Some in Hl as [l' ->]. set_solver. Qed.

Lemma chain_pend_in next P l h o a b : chain next P l h → P o a b → a ∈ l ∧ b ∈ l.
Proof. intros Hc HP. destruct (c_pend _ _ _ _ Hc o a b HP) as (i&?%list_elem_of_lookup_2&?%list_elem_of_lookup_2). done. Qed.

Lemma chain_clear next P l h n : chain next P l h → n ∉ l → chain (delete n next) P l h.
Proof.
  intros Hc Hn. pose proof Hc as [H1 H2 H3 H4 H5 H6]. split; try done.
  - intros i a b Ha Hb. rewrite lookup_delete_ne; [by apply (H3 i)|]. intros ->. by apply list_elem_of_lookup_2 in Ha.
  - rewrite lookup_delete_ne; [done|]. intros ->. by apply Hn, (chain_in _ _ _ _ Hc).
Qed.

Lemma chain_append next P l h n o :
  chain next P l h → n ∉ l → next !! n = None → (∀ a b, ¬ P o a b) →
  chain next (λ o' a b, P o' a b ∨ o' = o ∧ a = h ∧ b = n) (l ++ [n]) n.
Proof.
  intros Hc Hn Hnext Ho. pose proof Hc as [H1 H2 H3 [H4 H4'] H5 H6]. pose proof (chain_in _ _ _ _ Hc) as Hh.
  destruct (proj1 (last_Some _ _) H2) as [l0 Hl0]. split.
  - apply NoDup_app. split_and!; [done|set_solver|apply NoDup_singleton].
  - apply last_snoc.
  - intros i a b Ha Hb. destruct (decide (S i < length l)%nat) as [Hi|Hi].
    + rewrite lookup_app_l in Ha, Hb by lia. assert (a ≠ h) as Hah.
      { intros ->. assert (i = length l0) as ->.
        { apply (NoDup_lookup l _ _ h H1 Ha). by rewrite Hl0, lookup_app_r, Nat.sub_diag by lia. }
        rewrite Hl0, length_app in Hi. cbn in Hi. lia. }
      destruct (H3 i a b Ha Hb) as [[? HP]|[? [o' ?]]]; [left|right; eauto].
      split; [done|]. intros o' c [?|(_&?&_)]; [by eapply HP|done].
    + assert (S i = length l) as Hi'.
      { apply lookup_lt_Some in Hb. rewrite length_app in Hb. cbn in Hb. lia. }
      rewrite lookup_app_l in Ha by lia. rewrite lookup_app_r, Hi', Nat.sub_diag in Hb by lia. injection Hb as <-.
      assert (a = h) as ->.
      { rewrite last_lookup, <- Hi' in H2. cbn in H2. congruence. }
      right. split; [done|]. exists o. by right.
  - split; [done|]. intros o' c [HP|(_&->&_)]; [|done]. by apply (chain_pend_in _ _ _ _ _ _ _ Hc) in HP as [? _].
  - intros o' a b [HP|(->&->&->)].
    + destruct (H5 o' a b HP) as (i&Ha&Hb). exists i. by rewrite !lookup_app_l by (eapply lookup_lt_Some; done).
    + exists (length l0). rewrite Hl0, <- app_assoc. split; [by rewrite lookup_app_r, Nat.sub_diag by lia|].
      rewrite lookup_app_r by lia. by replace (S (length l0) - length l0)%nat with 1%nat by lia.
  - intros o1 o2 a b b' [HP|(?&?&?)] [HP'|(?&?&?)]; subst; [by eapply H6|by apply H4' in HP|by apply H4' in HP'|done].
Qed.

Lemma chain_link next P l h o a b :
  chain next P l h → P o a b → (∀ a' b', P o a' b' → a' = a ∧ b' = b) →
  chain (<[a := b]> next) (λ o' a' b', P o' a' b' ∧ o' ≠ o) l h.
Proof.
  intros Hc HP Ho. pose proof Hc as [H1 H2 H3 [H4 H4'] H5 H6]. split; [done|done| | | |].
  - intros i a' b' Ha Hb. destruct (decide (a' = a)) as [->|Hne].
    + left. rewrite lookup_insert_eq. destruct (H5 o a b HP) as (j&Ja&Jb).
      assert (i = j) as -> by (by apply (NoDup_lookup l _ _ a)). split; [congruence|].
      intros o' c [HP' Hno]. by apply Hno, (H6 o' o a c b).
    + rewrite lookup_insert_ne by done. destruct (H3 i a' b' Ha Hb) as [[? HP']|[? [o' HP']]]; [left|right].
      * split; [done|]. intros o' c [? _]. by eapply HP'.
      * split; [done|]. exists o'. split; [done|]. intros ->. by apply Ho in HP' as [? _].
  - split; [|intros o' c [HP' _]; by eapply H4']. rewrite lookup_insert_ne; [done|]. intros ->. by eapply H4'.
  - intros o' a' b' [HP' _]. by eapply H5.
  - intros o1 o2 a' b1 b2 [HP1 _] [HP2 _]. by eapply H6.
Qed.

Lemma chain_next next P a l h b : chain next P (a :: l) h → next !! a = Some b → ∃ l', l = b :: l'.
Proof.
  intros [H1 H2 H3 [H4 _] H5 H6] Hn. destruct l as [|c l]; [cbn in H2; congruence|]. exists l. f_equal.
  destruct (H3 0%nat a c eq_refl eq_refl) as [[? _]|[? _]]; congruence.
Qed.

Lemma chain_pop next P a b l h : chain next P (a :: b :: l) h → next !! a = Some b → chain next P (b :: l) h.
Proof.
  intros [H1 H2 H3 H4 H5 H6] Hn. split; [by apply NoDup_cons in H1 as [_ ?]|done| |done| |done].
  - intros i a' b' Ha Hb. by apply (H3 (S i)).
  - intros o a' b' HP. destruct (H5 o a' b' HP) as ([|i]&Ha&Hb); [|by exists i].
    cbn in Ha. injection Ha as ->. destruct (H3 0%nat a' b eq_refl eq_refl) as [[_ HP']|[? _]]; [by apply HP' in HP|congruence].
Qed.

Lemma chain_single next P a l : chain next P (a :: l) a → l = [].
Proof.
  intros [H1 H2 _ _ _ _]. destruct l as [|b l]; [done|]. apply NoDup_cons in H1 as [H1 _]. destruct H1.
  rewrite last_cons_cons in H2. apply last_Some in H2 as [l' ->]. set_solver.
Qed.

(** ** Invariant *)
Definition pend_by (w : qworld) (o : option Z) (a b : node) : Prop :=
  match o with
  | Some t => ∃ skb, qw_producers w !! t = Some (PSwapped a skb) ∧ b = Some skb
  | None => ∃ tail, qw_consumer w = CLink tail a ∧ b = STUB
  end.

Definition packets (l : list node) : list Z := omap id l.

Definition is_carrying (p : producer) : bool := match p with PSwapped _ _ => false | _ => true end.

(** The producers that have a place in the count and no packet in the queue yet. *)
Definition reserved (m : gmap Z producer) : nat := size (filter (λ kv, is_carrying kv.2 = true) m).

Definition in_decrement (c : consumer) : Z := match c with CDec _ => 1 | _ => 0 end.

Definition consumer_ok (c : consumer) (q : prev_queue) (l : list node) : Prop :=
  match c with
  | CIdle => True
  | CNext t | CHead t | CLink t _ | CReload t => q_tail q = t ∧ is_Some t
  | CClear t => q_tail q = t ∧ is_Some t ∧ STUB ∉ l
  | CSwap t => q_tail q = t ∧ is_Some t ∧ (STUB ∉ l) ∧ q_next q !! STUB = None
  | CDec t => is_Some t
  end.

Record qinv (w : qworld) (l : list node) : Prop := {
  v_chain : chain (q_next (qw_queue w)) (pend_by w) l (q_head (qw_queue w));
  v_tail : head l = Some (q_tail (qw_queue w));
  v_carry : ∀ t p skb, qw_producers w !! t = Some p → carries skb p →
    (Some skb ∉ l) ∧ ∀ t' p', qw_producers w !! t' = Some p' → carries skb p' → t' = t;
  v_cleared : ∀ t skb, qw_producers w !! t = Some (PCleared skb) → q_next (qw_queue w) !! Some skb = None;
  v_hist : qw_in w = qw_out w ++ packets l;
  v_count : q_count (qw_queue w) = zlen (packets l) + Z.of_nat (reserved (qw_producers w)) + in_decrement (qw_consumer w);
  v_bound : q_count (qw_queue w) <= MAX_QUEUED_PACKETS;
  v_cons : consumer_ok (qw_consumer w) (qw_queue w) l;
}.

Lemma packets_app l l' : packets (l ++ l') = packets l ++ packets l'.
Proof. apply omap_app. Qed.

Lemma elem_of_packets skb l : skb ∈ packets l ↔ Some skb ∈ l.
Proof. unfold packets. rewrite list_elem_of_omap. split; [intros (x&?&Hx); cbn in Hx; by subst x|by exists (Some skb)]. Qed.

Lemma reserved_fresh m t p :
  m !! t = None → reserved (<[t := p]> m) = ((if is_carrying p then 1 else 0) + reserved m)%nat.
Proof.
  intros Ht. unfold reserved. destruct (is_carrying p) eqn:Hp.
  - rewrite map_filter_insert_True by done. rewrite map_size_insert_None; [done|].
    apply map_lookup_filter_None. by left.
  - rewrite map_filter_insert_False by (cbn; congruence). by rewrite delete_id.
Qed.

Lemma reserved_known m t p0 :
  m !! t = Some p0 → reserved m = ((if is_carrying p0 then 1 else 0) + reserved (delete t m))%nat.
Proof.
  intros Ht. rewrite <- (reserved_fresh (delete t m) t p0) by apply lookup_delete_eq.
  by rewrite insert_delete_id.
Qed.

Lemma reserved_insert m t p p0 :
  m !! t = Some p0 →
  (reserved (<[t := p]> m) + (if is_carrying p0 then 1 else 0) = reserved m + (if is_carrying p then 1 else 0))%nat.
Proof.
  intros Ht. rewrite (reserved_known m t p0) by done. rewrite <- insert_delete_eq, reserved_fresh by apply lookup_delete_eq.
  lia.
Qed.

(** ** The producers *)
Lemma queued_packets w l : qinv w l → queued w = packets l.
Proof. intros Hi. unfold queued. rewrite (v_hist _ _ Hi). by rewrite drop_app_length. Qed.

(** The queue as another thread sees it: only threads and counters change. *)
Lemma consumer_ok_ext c q q' l l' :
  consumer_ok c q l → q_tail q' = q_tail q → (∀ n, n ∈ l' → n ∈ l ∨ is_Some n) →
  (q_next q !! STUB = None → q_next q' !! STUB = None) → consumer_ok c q' l'.
Proof.
  intros Hc Ht Hl Hn. assert (HS : STUB ∉ l → STUB ∉ l').
  { intros HS HS'. destruct (Hl _ HS') as [?|[x [=]]]. done. }
  destruct c; cbn in *; rewrite ?Ht; naive_solver.
Qed.

Lemma enter_ok w l t skb : qinv w l → qop_ok w (QEnter t skb) → qinv (produce t skb w) l.
Proof.
  intros Hi (Ht&Hq&Hc). rewrite (queued_packets w l Hi), elem_of_packets in Hq. unfold produce.
  destruct (Z.eqb_spec (q_count (qw_queue w)) MAX_QUEUED_PACKETS) as [Hm|Hm]; [done|].
  destruct Hi as [V1 V2 V3 V4 V5 V6 V7 V8]. split; cbn.
  - eapply chain_ext, V1. intros [t'|] a b; [|done]. cbn. destruct (decide (t' = t)) as [->|Hne].
    + rewrite lookup_insert_eq, Ht. naive_solver.
    + by rewrite lookup_insert_ne.
  - done.
  - intros t' p skb' Hp Hcarry. split.
    + apply lookup_insert_Some in Hp as [[<- <-]|[Hne Hp]]; [cbn in Hcarry; by subst|by eapply V3].
    + intros t2 p2 Hp2 Hc2. apply lookup_insert_Some in Hp as [[<- <-]|[Hne Hp]]; apply lookup_insert_Some in Hp2 as [[<- <-]|[Hne2 Hp2]].
      * done.
      * cbn in Hcarry. subst. by destruct (Hc t2 p2).
      * cbn in Hc2. subst. by destruct (Hc t' p).
      * by eapply V3.
  - intros t' skb' [[_ [=]]|[_ ?]]%lookup_insert_Some. by eapply V4.
  - done.
  - rewrite reserved_fresh by done. cbn [is_carrying]. lia.
  - lia.
  - done.
Qed.

(** What holds of the packets of the other threads when thread [t] goes on. *)
Lemma carry_others w l (l' : list node) t p0 p1 :
  qinv w l → qw_producers w !! t = Some p0 → (∀ skb, carries skb p1 → carries skb p0) →
  (∀ skb, Some skb ∈ l' → Some skb ∈ l ∨ carries skb p0 ∧ ¬ carries skb p1) →
  ∀ t' p skb, <[t := p1]> (qw_producers w) !! t' = Some p → carries skb p →
    (Some skb ∉ l') ∧ ∀ t'' p', <[t := p1]> (qw_producers w) !! t'' = Some p' → carries skb p' → t'' = t'.
Proof.
  intros Hi Ht Hp1 Hl t' p skb Hp Hc.
  assert (Hback : ∀ t'' p', <[t := p1]> (qw_producers w) !! t'' = Some p' → carries skb p' →
    ∃ q, qw_producers w !! t'' = Some q ∧ carries skb q).
  { intros t'' p' [[<- <-]|[_ ?]]%lookup_insert_Some Hc'; eauto. }
  destruct (Hback _ _ Hp Hc) as (q&Hq&Hcq). destruct (v_carry _ _ Hi t' q skb Hq Hcq) as [Hnl Hu]. split.
  - intros [?|[Hc0 Hc1]]%Hl; [done|]. assert (t = t') as -> by (by eapply Hu). rewrite lookup_insert_eq in Hp. by injection Hp as <-.
  - intros t'' p' Hp' Hc'. destruct (Hback _ _ Hp' Hc') as (q'&Hq'&Hcq'). by eapply Hu.
Qed.

Lemma packet_clear_ok w l t skb : qinv w l → qw_producers w !! t = Some (PReserved skb) → qinv (producer_step t w) l.
Proof.
  intros Hi Ht. unfold producer_step. rewrite Ht. pose proof Hi as [V1 V2 V3 V4 V5 V6 V7 V8].
  destruct (V3 t _ skb Ht eq_refl) as [Hl _]. split; cbn.
  - apply chain_clear; [|done]. eapply chain_ext, V1. intros [t'|] a b; [|done]. cbn.
    destruct (decide (t' = t)) as [->|Hne]; [rewrite lookup_insert_eq, Ht; naive_solver|by rewrite lookup_insert_ne].
  - done.
  - apply (carry_others w l l t (PReserved skb)); [done|done|by intros|by left].
  - intros t' skb' [[_ [= ->]]|[_ Hp]]%lookup_insert_Some; [apply lookup_delete_eq|].
    cbn. rewrite lookup_delete_None. right. by eapply V4.
  - done.
  - pose proof (reserved_insert _ t (PCleared skb) _ Ht) as Hr. cbn in *. rewrite V6. lia.
  - done.
  - eapply consumer_ok_ext; [done|done|by left|]. intros Hn. cbn. rewrite lookup_delete_None. by right.
Qed.

Lemma swap_ok w l t skb :
  qinv w l → qw_producers w !! t = Some (PCleared skb) → qinv (producer_step t w) (l ++ [Some skb]).
Proof.
  intros Hi Ht. unfold producer_step. rewrite Ht. pose proof Hi as [V1 V2 V3 V4 V5 V6 V7 V8].
  destruct (V3 t _ skb Ht eq_refl) as [Hl _]. split; cbn.
  - eapply chain_ext, (chain_append _ _ _ _ (Some skb) (Some t) V1 Hl (V4 _ _ Ht)); [|intros a b (?&?&_); congruence].
    intros [t'|] a b; [|cbn; naive_solver]. cbn.
    destruct (decide (t' = t)) as [->|Hne]; [rewrite lookup_insert_eq, Ht; naive_solver|rewrite lookup_insert_ne by done; naive_solver].
  - by destruct l.
  - apply (carry_others w l _ t (PCleared skb)); [done|done|by intros|]. intros skb' [?|Hin]%elem_of_app; [by left|right].
    apply list_elem_of_singleton in Hin. injection Hin as ->. split; [done|by intros []].
  - intros t' skb' [[_ [=]]|[_ Hp]]%lookup_insert_Some. by eapply V4.
  - by rewrite V5, packets_app, app_assoc.
  - pose proof (reserved_insert _ t (PSwapped (q_head (qw_queue w)) skb) _ Ht) as Hr. cbn in Hr.
    rewrite packets_app, zlen_app. change (zlen (packets [Some skb])) with 1. cbn. rewrite V6. lia.
  - done.
  - eapply consumer_ok_ext; [done|done| |done]. intros n [?|Hn%list_elem_of_singleton]%elem_of_app; [by left|right; subst; by eexists].
Qed.

Lemma link_ok w l t old skb : qinv w l → qw_producers w !! t = Some (PSwapped old skb) → qinv (producer_step t w) l.
Proof.
  intros Hi Ht. unfold producer_step. rewrite Ht. pose proof Hi as [V1 V2 V3 V4 V5 V6 V7 V8].
  assert (HP : pend_by w (Some t) old (Some skb)) by (by exists skb).
  destruct (chain_pend_in _ _ _ _ _ _ _ V1 HP) as [Hold _].
  split; cbn.
  - eapply chain_ext, (chain_link _ _ _ _ (Some t) old (Some skb) V1 HP); [|intros a b (?&?&->); split; congruence].
    intros [t'|] a b; cbn; [|naive_solver]. setoid_rewrite lookup_delete_Some. naive_solver.
  - done.
  - intros t' p skb' [Hne Hp]%lookup_delete_Some Hc. destruct (V3 t' p skb' Hp Hc) as [? Hu]. split; [done|].
    intros t2 p2 [_ Hp2]%lookup_delete_Some. by apply Hu.
  - intros t' skb' [Hne Hp]%lookup_delete_Some. cbn. rewrite lookup_insert_ne; [by eapply V4|].
    intros ->. by destruct (V3 t' _ skb' Hp eq_refl).
  - done.
  - pose proof (reserved_known _ t _ Ht) as Hr. cbn in *. rewrite V6. lia.
  - done.
  - destruct (qw_consumer w); cbn in *; try done. destruct V8 as (?&?&HS&?). split_and!; try done.
    rewrite lookup_insert_ne; [done|]. by intros ->.
Qed.

(** ** The consumer *)
Definition linking (c : consumer) : bool := match c with CLink _ _ => true | _ => false end.

(** The consumer goes on without touching the queue. *)
Lemma local_ok w l c :
  qinv w l → linking (qw_consumer w) = false → linking c = false → in_decrement c = in_decrement (qw_consumer w) →
  consumer_ok c (qw_queue w) l → qinv (w{{ qw_consumer := c }}) l.
Proof.
  intros [V1 V2 V3 V4 V5 V6 V7 V8] Hl Hl' Hu Hc. split; cbn; try done; [|by rewrite Hu].
  eapply chain_ext, V1. intros [t|] a b; [done|]. cbn.
  split; intros (tail&Heq&_); [by rewrite Heq in Hl'|by rewrite Heq in Hl].
Qed.

(** The tail leaves the chain. *)
Lemma pop_ok w l tail next c out :
  qinv w l → linking (qw_consumer w) = false → linking c = false → q_tail (qw_queue w) = tail →
  q_next (qw_queue w) !! tail = Some next →
  consumer_ok c ((qw_queue w){{ q_tail := next }}) (drop 1 l) →
  out = packets [tail] → in_decrement c = in_decrement (qw_consumer w) + zlen out →
  qinv (w{{ qw_queue ::= λ q, q{{ q_tail := next }}; qw_consumer := c; qw_out ::= λ o, o ++ out }}) (drop 1 l).
Proof.
  intros [V1 V2 V3 V4 V5 V6 V7 V8] Hl Hl' Ht Hn Hc -> Hu.
  destruct l as [|a l]; [done|]. cbn in V2. injection V2 as V2. rewrite <- V2 in Ht. subst tail.
  destruct (chain_next _ _ _ _ _ _ V1 Hn) as [l' ->]. cbn [drop] in *.
  assert (Hp : packets (a :: next :: l') = packets [a] ++ packets (next :: l')) by (by rewrite <- packets_app).
  assert (Hcount : q_count (qw_queue w) =
    zlen (packets (next :: l')) + Z.of_nat (reserved (qw_producers w)) + in_decrement c).
  { rewrite V6, Hp, zlen_app, Hu. lia. }
  split; cbn.
  - eapply chain_ext, (chain_pop _ _ _ _ _ _ V1 Hn). intros [t|] x y; [done|]. cbn.
    split; intros (tail&Heq&_); [by rewrite Heq in Hl'|by rewrite Heq in Hl].
  - done.
  - intros t p skb Hp' Hc'. destruct (V3 t p skb Hp' Hc') as [H1 H2]. split; [|done]. intros Hin. apply H1. by right.
  - done.
  - by rewrite V5, Hp, app_assoc.
  - exact Hcount.
  - done.
  - done.
Qed.

Lemma take_ok w l tail next :
  qinv w l → linking (qw_consumer w) = false → in_decrement (qw_consumer w) = 0 → is_Some tail → q_tail (qw_queue w) = tail →
  q_next (qw_queue w) !! tail = Some next → qinv (take_tail tail next w) (drop 1 l).
Proof.
  intros Hi Hl Hu [skb ->] Ht Hn. apply (pop_ok w l (Some skb) next (CDec (Some skb)) [skb]); try done; [by eexists|by rewrite Hu].
Qed.

Lemma head_of_l w l : qinv w l → ∃ l', l = q_tail (qw_queue w) :: l'.
Proof. intros Hi. pose proof (v_tail _ _ Hi) as Ht. destruct l as [|a l]; [done|]. cbn in Ht. injection Ht as ->. by exists l. Qed.

(** The stub is appended again. *)
Lemma stub_clear_ok w l tail :
  qinv w l → qw_consumer w = CClear tail →
  qinv (w{{ qw_queue := write_next STUB None (qw_queue w); qw_consumer := CSwap tail }}) l.
Proof.
  intros [V1 V2 V3 V4 V5 V6 V7 V8] Hc. rewrite Hc in V6, V8. destruct V8 as (H1&H2&H3). split; cbn; try done.
  - apply chain_clear; [|done]. eapply chain_ext, V1. intros [t|] a b; [done|]. cbn. rewrite Hc. naive_solver.
  - intros t skb Ht. rewrite lookup_delete_None. right. by eapply V4.
  - split_and!; try done. apply lookup_delete_eq.
Qed.

Lemma stub_swap_ok w l tail :
  qinv w l → qw_consumer w = CSwap tail →
  qinv (w{{ qw_queue := (qw_queue w){{ q_head := STUB }}; qw_consumer := CLink tail (q_head (qw_queue w)) }}) (l ++ [STUB]).
Proof.
  intros [V1 V2 V3 V4 V5 V6 V7 V8] Hc. rewrite Hc in V6, V8. destruct V8 as (H1&H2&H3&H4). split; cbn; try done.
  - eapply chain_ext, (chain_append _ _ _ _ STUB None V1 H3 H4); [|intros a b (?&?&_); congruence].
    intros [t|] a b; cbn; [naive_solver|]. rewrite Hc. naive_solver.
  - by destruct l.
  - intros t p skb Hp Hs. destruct (V3 t p skb Hp Hs) as [? ?]. split; [|done].
    intros [?|Hin%list_elem_of_singleton]%elem_of_app; done.
  - rewrite V5, packets_app. cbn. by rewrite app_nil_r.
  - rewrite packets_app, zlen_app. change (zlen (packets [None])) with 0. cbn in V6. lia.
Qed.

Lemma stub_link_ok w l tail old :
  qinv w l → qw_consumer w = CLink tail old →
  qinv (w{{ qw_queue := write_next old (Some STUB) (qw_queue w); qw_consumer := CReload tail }}) l.
Proof.
  intros [V1 V2 V3 V4 V5 V6 V7 V8] Hc. rewrite Hc in V6, V8. assert (HP : pend_by w None old STUB) by (by exists tail).
  destruct (chain_pend_in _ _ _ _ _ _ _ V1 HP) as [Hold _]. split; cbn; try done.
  - eapply chain_ext, (chain_link _ _ _ _ None old STUB V1 HP); [|intros a b (?&?&->); split; congruence].
    intros [t|] a b; cbn; naive_solver.
  - intros t skb Ht. rewrite lookup_insert_ne; [by eapply V4|]. intros ->. by destruct (V3 t _ skb Ht eq_refl).
Qed.

Lemma dec_ok w l tail :
  qinv w l → qw_consumer w = CDec tail →
  qinv (w{{ qw_queue := (qw_queue w){{ q_count ::= λ n, n - 1 }}; qw_consumer := CIdle }}) l.
Proof.
  intros [V1 V2 V3 V4 V5 V6 V7 V8] Hc. rewrite Hc in V6. cbn [in_decrement] in V6. split; cbn; try done; [|lia|lia].
  eapply chain_ext, V1. intros [t|] a b; [done|]. cbn. rewrite Hc. naive_solver.
Qed.

(** The stub at the tail is passed. *)
Lemma pass_stub_ok w l next :
  qinv w l → qw_consumer w = CIdle → q_tail (qw_queue w) = STUB → q_next (qw_queue w) !! STUB = Some next →
  qinv (w{{ qw_queue := (qw_queue w){{ q_tail := next }}; qw_consumer := CNext next }}) (drop 1 l).
Proof.
  intros Hi Hcons Ht Hn.
  assert (w{{ qw_queue := (qw_queue w){{ q_tail := next }}; qw_consumer := CNext next }} =
    w{{ qw_queue ::= λ q, q{{ q_tail := next }}; qw_consumer := CNext next; qw_out ::= λ o, o ++ [] }}) as ->.
  { destruct w as [q ps c i o]. unfold set. cbn. by rewrite app_nil_r. }
  apply (pop_ok w l STUB next); rewrite ?Hcons; try done. split; [done|].
  destruct (head_of_l w l Hi) as [l0 ->]. rewrite Ht in *. pose proof (v_chain _ _ Hi) as Hch.
  destruct (chain_next _ _ _ _ _ _ Hch Hn) as [l' ->].
  destruct next; [by eexists|]. pose proof (c_nodup _ _ _ _ Hch) as [Hnd _]%NoDup_cons. set_solver.
Qed.

Lemma dequeue_ok w l : qinv w l → ∃ l', qinv (dequeue_step w).1 l'.
Proof.
  intros Hi. pose proof (v_cons _ _ Hi) as Hc. destruct (head_of_l w l Hi) as [l0 Hl].
  unfold dequeue_step. destruct (qw_consumer w) as [|tail|tail|tail|tail|tail old|tail|tail] eqn:Hcons.
  - destruct (q_tail (qw_queue w)) as [skb|] eqn:Ht; destruct (q_next (qw_queue w) !! _) as [next|] eqn:Hn; cbn [fst].
    + exists (drop 1 l). by apply take_ok; rewrite ?Hcons; try done; eexists.
    + exists l. by apply local_ok; rewrite ?Hcons.
    + exists (drop 1 l). by apply pass_stub_ok.
    + by exists l.
  - destruct Hc as [Ht Hs]. destruct (q_next (qw_queue w) !! tail) as [next|] eqn:Hn; cbn [fst].
    + exists (drop 1 l). by apply take_ok; rewrite ?Hcons.
    + exists l. by apply local_ok; rewrite ?Hcons.
  - destruct Hc as [Ht Hs]. case_bool_decide as Hh; cbn [fst]; exists l; apply local_ok; rewrite ?Hcons; try done.
    split_and!; [done|done|]. pose proof (v_chain _ _ Hi) as Hch. rewrite Hl, Ht, <- Hh in Hch.
    apply chain_single in Hch as ->. rewrite Hl, Ht. destruct Hs as [skb ->]. by intros ?%list_elem_of_singleton.
  - exists l. by apply stub_clear_ok.
  - exists (l ++ [STUB]). by apply stub_swap_ok.
  - exists l. by apply stub_link_ok.
  - destruct Hc as [Ht Hs]. destruct (q_next (qw_queue w) !! tail) as [next|] eqn:Hn; cbn [fst].
    + exists (drop 1 l). by apply take_ok; rewrite ?Hcons.
    + exists l. by apply local_ok; rewrite ?Hcons.
  - exists l. by eapply dec_ok.
Qed.

(** ** Runs *)
Lemma peek_ok w l r : qinv w l → qinv (w{{ qw_queue ::= λ q, q{{ q_peeked := r }} }}) l.
Proof. intros [V1 V2 V3 V4 V5 V6 V7 V8]. by split. Qed.

Lemma consumer_step_ok w l : qinv w l → ∃ l', qinv (consumer_step w).1 l'.
Proof.
  intros Hi. destruct (dequeue_ok w l Hi) as [l' Hi']. unfold consumer_step.
  assert (Hd : ∃ l', qinv (let '(w, ret) := dequeue_step w in match ret with
      | Some r => (w{{ qw_queue ::= λ q, q{{ q_peeked := r }} }}, Some r) | None => (w, None) end).1 l').
  { destruct (dequeue_step w) as [w' [r|]]; cbn in *; eauto using peek_ok. }
  destruct (qw_consumer w), (q_peeked (qw_queue w)); cbn [fst]; eauto.
Qed.

Lemma qstep_ok w l o : qinv w l → qop_ok w o → ∃ l', qinv (qstep w o) l'.
Proof.
  intros Hi Ho. destruct o as [t skb|t| |]; cbn [qstep].
  - eauto using enter_ok.
  - unfold producer_step. destruct (qw_producers w !! t) as [[skb|skb|old skb]|] eqn:Ht; [..|by eauto].
    + pose proof (packet_clear_ok w l t skb Hi Ht) as H. unfold producer_step in H. rewrite Ht in H. eauto.
    + pose proof (swap_ok w l t skb Hi Ht) as H. unfold producer_step in H. rewrite Ht in H. eauto.
    + pose proof (link_ok w l t old skb Hi Ht) as H. unfold producer_step in H. rewrite Ht in H. eauto.
  - by eapply consumer_step_ok.
  - destruct (qw_consumer w); eauto using peek_ok.
Qed.

Lemma qinv_init : qinv qinit [STUB].
Proof.
  split; try done.
  - split.
    + apply NoDup_singleton.
    + done.
    + by intros [|i] a b.
    + split; [done|]. intros [t|] c; cbn; [by intros (?&?&_)|by intros (?&[=]&_)].
    + intros [t|] a b; cbn; [by intros (?&?&_)|by intros (?&[=]&_)].
    + intros [t|] o' a b b'; cbn; [by intros (?&?&_)|by intros (?&[=]&_)].
Qed.

(** What the consumer gets is the last packet taken out. *)
Record delivered (w : qworld) : Prop := {
  d_idle : qw_consumer w ≠ CIdle → q_peeked (qw_queue w) = None;
  d_dec : ∀ t, qw_consumer w = CDec t → last (qw_out w) = t;
  d_peeked : ∀ skb, q_peeked (qw_queue w) = Some skb → last (qw_out w) = Some skb;
}.

Lemma take_delivered tail next w : is_Some tail → q_peeked (qw_queue w) = None → delivered (take_tail tail next w).
Proof.
  intros [skb ->] Hp. split; cbn; [by rewrite Hp| |by rewrite Hp]. intros t [= <-]. apply last_snoc.
Qed.

Lemma consumer_delivered w l : qinv w l → delivered w → delivered (consumer_step w).1.
Proof.
  intros Hi Hd. pose proof Hd as [D1 D2 D3]. pose proof (v_cons _ _ Hi) as Hc. unfold consumer_step, dequeue_step.
  destruct (qw_consumer w) as [|tail|tail|tail|tail|tail old|tail|tail] eqn:Hcons; [|specialize (D1 ltac:(done))..].
  - destruct (q_peeked (qw_queue w)) as [skb|] eqn:Hp; [done|].
    destruct (q_tail (qw_queue w)) as [skb|], (q_next (qw_queue w) !! _) as [next|]; cbn [fst].
    + by apply take_delivered; [eexists|].
    + split; cbn; by rewrite ?Hp.
    + split; cbn; by rewrite ?Hp.
    + split; cbn; by rewrite ?Hcons.
  - destruct Hc. destruct (q_next (qw_queue w) !! tail) as [next|]; cbn [fst]; [by apply take_delivered|].
    split; cbn; by rewrite ?D1.
  - case_bool_decide; cbn [fst]; split; cbn; by rewrite ?D1.
  - split; cbn; by rewrite ?D1.
  - split; cbn; by rewrite ?D1.
  - split; cbn; by rewrite ?D1.
  - destruct Hc. destruct (q_next (qw_queue w) !! tail) as [next|]; cbn [fst]; [by apply take_delivered|].
    split; cbn; by rewrite ?D1.
  - split; cbn; [done|done|]. intros skb ->. by apply D2.
Qed.

Lemma producer_delivered w w' :
  qw_consumer w' = qw_consumer w → q_peeked (qw_queue w') = q_peeked (qw_queue w) → qw_out w' = qw_out w →
  delivered w → delivered w'.
Proof. intros H1 H2 H3 [D1 D2 D3]. split; by rewrite ?H1, ?H2, ?H3. Qed.

Lemma qstep_delivered w l o : qinv w l → delivered w → delivered (qstep w o).
Proof.
  intros Hi Hd. destruct o as [t skb|t| |]; cbn [qstep].
  - eapply producer_delivered, Hd; unfold produce; by case_if.
  - eapply producer_delivered, Hd; unfold producer_step; by repeat case_match.
  - by eapply consumer_delivered.
  - destruct (qw_consumer w) eqn:Hcons; [|done..]. split; cbn; [by rewrite Hcons|by rewrite Hcons|done].
Qed.

Lemma run_ok w l os : qinv w l → delivered w → qops_ok w os → ∃ l', qinv (foldl qstep w os) l' ∧ delivered (foldl qstep w os).
Proof.
  revert w l. induction os as [|o os IH]; intros w l Hi Hd Hos; [by eauto|]. destruct Hos as [Ho Hos].
  destruct (qstep_ok w l o Hi Ho) as [l' Hi']. eapply IH; [done|by eapply qstep_delivered|done].
Qed.

(** The consumer runs alone. *)
Fixpoint solo (n : nat) (w : qworld) : option (option Z) :=
  match n with
  | O => None
  | S n => match consumer_step w with (w, None) => solo n w | (_, r) => r end
  end.

Lemma chain_linked next P a b l h : chain next P (a :: b :: l) h → (∀ o x y, ¬ P o x y) → next !! a = Some b.
Proof. intros Hc HP. destruct (c_links _ _ _ _ Hc 0%nat a b eq_refl eq_refl) as [[? _]|[_ [o ?]]]; [done|by apply HP in H]. Qed.

(** With the tail a packet, and with the tail the stub. *)
Lemma solo_last w n s :
  qw_consumer w = CHead (Some s) → q_peeked (qw_queue w) = None → q_head (qw_queue w) = Some s →
  solo (6 + n) w = Some (Some s).
Proof.
  destruct w as [[next head tail peeked count] ps c i o]. cbn. intros -> -> ->.
  cbn. rewrite bool_decide_eq_true_2 by done. cbn. by rewrite lookup_insert_eq.
Qed.

Lemma solo_packet w n s l :
  qinv w (Some s :: l) → (qw_consumer w = CIdle ∨ qw_consumer w = CNext (Some s)) → q_peeked (qw_queue w) = None →
  (∀ o x y, ¬ pend_by w o x y) → solo (7 + n) w = Some (Some s).
Proof.
  intros Hi Hc Hp HP. pose proof (v_chain _ _ Hi) as Hch. pose proof (v_tail _ _ Hi) as [= Ht]. destruct l as [|b l].
  - pose proof (c_last _ _ _ _ Hch) as [= Hh]. destruct (c_end _ _ _ _ Hch) as [He _]. rewrite <- Hh in He.
    assert (consumer_step w = (w{{ qw_consumer := CHead (Some s) }}, None)) as Hs.
    { unfold consumer_step, dequeue_step. rewrite Hp. destruct Hc as [-> | ->]; rewrite <- ?Ht, He; done. }
    change (7 + n)%nat with (S (6 + n)). cbn [solo]. rewrite Hs. by apply solo_last.
  - pose proof (chain_linked _ _ _ _ _ _ Hch HP) as Hn.
    assert (consumer_step w = (take_tail (Some s) b w, None)) as Hs.
    { unfold consumer_step, dequeue_step. rewrite Hp. destruct Hc as [-> | ->]; rewrite <- ?Ht, Hn; done. }
    change (7 + n)%nat with (S (S (5 + n))). cbn [solo]. rewrite Hs. by destruct (q_peeked (qw_queue w)).
Qed.

Lemma solo_ok w l :
  qinv w l → qw_consumer w = CIdle → q_peeked (qw_queue w) = None → (∀ t old skb, qw_producers w !! t ≠ Some (PSwapped old skb)) →
  solo 8 w = Some (head (packets l)).
Proof.
  intros Hi Hc Hp Hprod.
  assert (HP : ∀ o x y, ¬ pend_by w o x y).
  { intros [t|] x y; cbn; [intros (skb&?&_); by eapply Hprod|rewrite Hc; by intros (?&[=]&_)]. }
  pose proof (v_chain _ _ Hi) as Hch. pose proof (v_tail _ _ Hi) as Ht. destruct l as [|[s|] l]; [done| |].
  - apply (solo_packet w 1 s l); [done|by left|done|done].
  - injection Ht as Ht. destruct l as [|b l].
    + pose proof (c_last _ _ _ _ Hch) as [= Hh]. destruct (c_end _ _ _ _ Hch) as [He _]. rewrite <- Hh in He.
      cbn [solo]. unfold consumer_step, dequeue_step. by rewrite Hc, Hp, <- Ht, He.
    + pose proof (chain_linked _ _ _ _ _ _ Hch HP) as Hn.
      assert (consumer_step w = (w{{ qw_queue := (qw_queue w){{ q_tail := b }}; qw_consumer := CNext b }}, None)) as Hs.
      { unfold consumer_step, dequeue_step. by rewrite Hc, Hp, <- Ht, Hn. }
      pose proof (pass_stub_ok w _ b Hi Hc (eq_sym Ht) Hn) as Hi'. cbn [drop] in Hi'.
      destruct (v_cons _ _ Hi') as [_ [s ->]]. change 8%nat with (S (7 + 0)). cbn [solo]. rewrite Hs.
      apply (solo_packet _ 0 s l Hi'); [by right|done|]. intros [t|] x y; cbn; [|by intros (?&[=]&_)].
      intros (skb&?&_). by eapply Hprod.
Qed.

(** C14: the packet queue is first-in first-out for any number of producers.
    Whatever steps the threads have made: the packets taken out are those
    exchanged in first, and the rest is in the queue; the count is the packets in
    the queue plus the places producers have reserved plus the packet being handed
    out, and at most [MAX_QUEUED_PACKETS]; the packet the consumer gets is the last
    one taken out; a producer about to write a link writes into the stub or into a
    packet that still is in the queue.  And when no producer is between exchange
    and link, a consumer with nothing peeked that runs alone gets the oldest packet
    within eight steps, or nothing if the queue is empty. *)
Theorem prev_queue_fifo (os : list qop) :
  qops_ok qinit os →
  let w := foldl qstep qinit os in
  let q := qw_queue w in
  qw_in w = qw_out w ++ queued w ∧
  q_count q = zlen (queued w) + Z.of_nat (reserved (qw_producers w)) + in_decrement (qw_consumer w) ∧
  0 <= q_count q <= MAX_QUEUED_PACKETS ∧
  (∀ r, (consumer_step w).2 = Some (Some r) → last (qw_out w) = Some r) ∧
  (∀ t old skb, qw_producers w !! t = Some (PSwapped old skb) → old = STUB ∨ ∃ p, old = Some p ∧ p ∈ queued w) ∧
  (qw_consumer w = CIdle → q_peeked q = None → (∀ t old skb, qw_producers w !! t ≠ Some (PSwapped old skb)) →
   solo 8 w = Some (head (queued w))).
Proof.
  intros Hok w q. destruct (run_ok qinit _ os qinv_init) as (l&Hi&Hd); [by split|done|]. fold w in Hi, Hd. subst q. clearbody w.
  rewrite (queued_packets w l Hi). pose proof (v_count _ _ Hi) as Hcount. split_and!.
  - apply (v_hist _ _ Hi).
  - done.
  - rewrite Hcount. pose proof (zlen_nonneg (packets l)). destruct (qw_consumer w); cbn; lia.
  - apply (v_bound _ _ Hi).
  - intros r. unfold consumer_step, dequeue_step. destruct Hd as [D1 D2 D3].
    destruct (qw_consumer w) eqn:Hc; destruct (q_peeked (qw_queue w)) eqn:Hp; repeat case_match; intros Hr; cbn in Hr; simplify_eq; eauto.
  - intros t old skb Ht. destruct old as [p|]; [right|by left]. exists p. split; [done|]. apply elem_of_packets.
    by destruct (chain_pend_in _ _ _ _ (Some t) (Some p) (Some skb) (v_chain _ _ Hi)); [exists skb|].
  - intros Hc Hp Hprod. by apply solo_ok.
Qed.

Definition sample_steps : list qop :=
  [QEnter 1 100; QProducer 1; QEnter 2 200; QProducer 2; QProducer 2; QProducer 1; QConsumer; QProducer 2; QProducer 1].

Lemma prev_queue_fifo_witness :
  let w := foldl qstep qinit sample_steps in
  qw_in w = [200; 100] ∧ qw_out w = [] ∧ q_count (qw_queue w) = 2 ∧ solo 8 w = Some (head (queued w)) ∧
  head (queued w) = Some 200.
Proof.
  destruct (prev_queue_fifo sample_steps) as (_&_&_&_&_&H).
  - by_evaluation.
  - split_and!; [by vm_compute..|apply H|by vm_compute].
    + by vm_compute.
    + by vm_compute.
    + intros t old skb. vm_compute. by destruct t.
Defined.
