(* ===== verification/DataPath.v ===== *)
(** * Data packets (kernel/send.c, kernel/receive.c)

    Sending: the staged packets of a peer get nonces of its current session, are
    padded and encrypted.  Receiving: the session is found by the index in the
    message, the message is decrypted, its counter checked against the replay
    window, and the packet is handed to the network stack if its source address is
    one of the peer's.  The queues between these stages are those of PrevQueue.v;
    here a packet passes them one after the other.

    The timers, the statistics, and the endpoint code that a packet calls
    (Endpoint.v) are not part of the state; the endpoint is a result. *)
From stdpp Require Import prelude list gmap.
From S2P Require Import Prelude Skb Net FakeHeaders RxHeader.
From S2P Require Import AllowedIps PeerLookup Crypto Replay Noise Keypairs Handshake.

#[local] Open Scope Z_scope.

Definition REJECT_AFTER_TIME := 180.
Definition REKEY_AFTER_TIME := 120.
Definition REKEY_AFTER_MESSAGES := 2 ^ 60.
Definition KEEPALIVE_TIMEOUT := 10.
Definition IP_MF := 0x2000.
Definition IP_OFFSET := 0x1fff.

(** [ALIGN] on 32-bit numbers for a power of two. *)
Definition ALIGN (x a : Z) : Z := Z.land (u32 (x + (a - 1))) (Z.lnot (a - 1)).

(** ** What the kernel does to buffers

    [skb_cow_head] gives the buffer a private header with room in front,
    [skb_checksum_help] completes a checksum left to the device, [skb_cow_data]
    and [skb_to_sgvec] can fail; [ip_tunnel_ecn_encap] and [INET_ECN_decapsulate]
    carry congestion marks between outer and inner header.  [NET_SKB_PAD] is a
    constant of the kernel's configuration. *)
Class SkbCrypt := {
  NET_SKB_PAD : Z;
  skb_cow_head : Z → sk_buff → option sk_buff;
  skb_checksum_help : sk_buff → option sk_buff;
  skb_cow_data : sk_buff → bool;
  skb_to_sgvec : sk_buff → bool;
  ip_tunnel_ecn_encap : sk_buff → Z;
  INET_ECN_decapsulate : Z → sk_buff → sk_buff;
}.

Section datapath.
Context {C : Crypto} {T : IpTunnel} {S : SkbCrypt}.

(** ** Sending *)
Definition calculate_skb_padding (skb : sk_buff) : Z :=
  let last_unit := skb_len skb in
  let mtu := cb_mtu (PACKET_CB skb) in
  if mtu =? 0 then u32 (ALIGN last_unit MESSAGE_PADDING_MULTIPLE - last_unit)
  else
    let last_unit := if mtu <? last_unit then last_unit mod mtu else last_unit in
    let padded_size := Z.min mtu (ALIGN last_unit MESSAGE_PADDING_MULTIPLE) in
    u32 (padded_size - last_unit).

Definition DATA_PACKET_HEAD_ROOM : Z :=
  ALIGN (sizeof_message_data + (Z.max sizeof_iphdr sizeof_ipv6hdr + sizeof_udphdr + NET_SKB_PAD)) 4.

(** The header of a data message. *)
Definition message_data_header (key_idx counter : Z) : list Z :=
  le_bytes 4 MESSAGE_DATA ++ le_bytes 4 key_idx ++ le_bytes 8 counter.

Definition encrypt_packet (skb : sk_buff) (keypair : noise_keypair) : option sk_buff :=
  let padding_len := calculate_skb_padding skb in
  skb ← skb_cow_head DATA_PACKET_HEAD_ROOM skb;
  skb ← skb_checksum_help skb;
  if negb (skb_cow_data skb) then None else
  let plaintext := skb_data skb ++ replicate (Z.to_nat padding_len) 0 in
  let nonce := cb_nonce (PACKET_CB skb) in
  let skb := skb_push skb sizeof_message_data in
  if negb (skb_to_sgvec skb) then None else
  Some (skb{{ skb_data := message_data_header (kp_remote_index keypair) nonce ++
                chacha20poly1305_encrypt (sk_key (kp_sending keypair)) nonce [] plaintext }}).

Definition wg_ipv4_get_fraginfo (skb : sk_buff) : option (Z * Z) :=
  if negb (skb_protocol skb =? ETH_P_IP) then None
  else if skb_len skb <? sizeof_iphdr then None
  else
    let iph := skb_at skb (skb_network_header skb) in
    let frag_off := be_val (field 6 2 iph) in
    if Z.land frag_off (Z.lor IP_MF IP_OFFSET) =? 0 then None
    else Some (be_val (field 4 2 iph), frag_off).

(** The fields of the control block that [wg_packet_send_staged_packets] sets. *)
Definition stage_packet (transport_tcp : bool) (nonce : Z) (skb : sk_buff) : sk_buff :=
  let '(id, off) :=
    if transport_tcp && (skb_protocol skb =? ETH_P_IP)
    then default (0, 0) (wg_ipv4_get_fraginfo skb) else (0, 0) in
  let ds := ip_tunnel_ecn_encap skb in
  skb{{ PACKET_CB ::= λ cb, cb{{ cb_ds := ds; cb_nonce := nonce; cb_frag_id := id; cb_frag_off := off }} }}.

(** The walk that assigns nonces: the counter after it, and the packets, unless
    the nonces are used up. *)
Fixpoint assign_nonces (transport_tcp : bool) (counter : Z) (packets : list sk_buff) : Z * option (list sk_buff) :=
  match packets with
  | [] => (counter, Some [])
  | skb :: packets =>
      let nonce := counter in
      let counter := u64 (counter + 1) in
      if REJECT_AFTER_MESSAGES <=? nonce then (counter, None)
      else
        let '(counter, r) := assign_nonces transport_tcp counter packets in
        (counter, cons (stage_packet transport_tcp nonce skb) <$> r)
  end.

Inductive staged :=
  | StagedNothing
  | StagedSent (keypair : Z) (packets : list sk_buff)
  | StagedKept.

Definition set_keypair (k : Z) (f : noise_keypair → noise_keypair) (st : kstore) : kstore :=
  st{{ kt_heap ::= alter f k }}.

(** What becomes of the staged packets, and the sessions after it. *)
Definition wg_packet_send_staged_packets (transport_tcp : bool) (now : Z) (packets : list sk_buff)
    (ks : noise_keypairs) (st : kstore) : staged * kstore :=
  match packets with
  | [] => (StagedNothing, st)
  | _ =>
      match wg_noise_keypair_get (ks_current_keypair ks) st with
      | (None, st) => (StagedKept, st)
      | (Some k, st) =>
          match kt_heap st !! k with
          | None => (StagedKept, st)
          | Some kp =>
              if negb (sk_is_valid (kp_sending kp)) then (StagedKept, wg_noise_keypair_put (Some k) false st)
              else if wg_birthdate_has_expired (sk_birthdate (kp_sending kp)) REJECT_AFTER_TIME now then
                (StagedKept, wg_noise_keypair_put (Some k) false
                   (set_keypair k (λ kp, kp{{ kp_sending ::= λ s, s{{ sk_is_valid := false }} }}) st))
              else
                let '(counter, r) := assign_nonces transport_tcp (kp_sending_counter kp) packets in
                let st := set_keypair k (λ kp, kp{{ kp_sending_counter := counter }}) st in
                match r with
                | Some packets => (StagedSent k packets, st)
                | None =>
                    (StagedKept, wg_noise_keypair_put (Some k) false
                       (set_keypair k (λ kp, kp{{ kp_sending ::= λ s, s{{ sk_is_valid := false }} }}) st))
                end
          end
      end
  end.

(** [wg_reset_packet] forgets what the outer headers said; the network header is
    now where the data starts. *)
Definition wg_reset_packet (skb : sk_buff) : sk_buff :=
  skb_reset_transport_header (skb_reset_network_header (skb{{ skb_protocol := 0; skb_iif := 0 }})).

(** [wg_packet_encrypt_worker] on one list: all packets, or none. *)
Definition encrypt_list (keypair : noise_keypair) (packets : list sk_buff) : option (list sk_buff) :=
  mapM (λ skb, wg_reset_packet <$> encrypt_packet skb keypair) packets.

(** [keep_key_fresh] of send.c and of receive.c: whether to ask for a new
    handshake. *)
Definition keep_key_fresh_sending (now : Z) (current : option noise_keypair) : bool :=
  match current with
  | None => false
  | Some kp =>
      sk_is_valid (kp_sending kp) &&
      ((REKEY_AFTER_MESSAGES <? kp_sending_counter kp) ||
       (kp_i_am_the_initiator kp && wg_birthdate_has_expired (sk_birthdate (kp_sending kp)) REKEY_AFTER_TIME now))
  end.

Definition keep_key_fresh_receiving (now : Z) (sent_lastminute_handshake : bool) (current : option noise_keypair) : bool :=
  match current with
  | None => false
  | Some kp =>
      negb sent_lastminute_handshake && sk_is_valid (kp_sending kp) && kp_i_am_the_initiator kp &&
      wg_birthdate_has_expired (sk_birthdate (kp_sending kp)) (REJECT_AFTER_TIME - KEEPALIVE_TIMEOUT - REKEY_TIMEOUT) now
  end.

(** ** Receiving

    [decrypt_packet] marks a session it finds unusable.  The packet keeps the
    outer headers in front of its data. *)
Definition decrypt_packet (now : Z) (skb : sk_buff) (keypair : noise_keypair) : option sk_buff * noise_keypair :=
  if negb (sk_is_valid (kp_receiving keypair)) ||
     wg_birthdate_has_expired (sk_birthdate (kp_receiving keypair)) REJECT_AFTER_TIME now ||
     (REJECT_AFTER_MESSAGES <=? rc_counter (kp_receiving_counter keypair))
  then (None, keypair{{ kp_receiving ::= λ s, s{{ sk_is_valid := false }} }})
  else
    let nonce := le_val (field 8 8 (skb_data skb)) in
    let skb := skb{{ PACKET_CB ::= λ cb, cb{{ cb_nonce := nonce }} }} in
    let skb := skb_pull skb sizeof_message_data in
    if negb (skb_cow_data skb) then (None, keypair)
    else if negb (skb_to_sgvec skb) then (None, keypair)
    else
      match chacha20poly1305_decrypt (sk_key (kp_receiving keypair)) nonce [] (skb_data skb) with
      | None => (None, keypair)
      | Some plaintext => (Some (skb{{ skb_data := plaintext }}), keypair)
      end.

(** What [wg_packet_consume_data_done] does with a packet. *)
Inductive rx_verdict :=
  | RxKeepalive
  | RxDelivered (skb : sk_buff)
  | RxDishonestSize
  | RxDishonestType
  | RxDishonestPeer.

Definition ip_version (skb : sk_buff) : Z := Z.shiftr (nth 0 (skb_data skb) 0) 4.

Definition inspect_packet (allowed : allowedips) (peer : Z) (skb : sk_buff) : rx_verdict :=
  if skb_len skb =? 0 then RxKeepalive
  else if negb ((sizeof_iphdr <=? skb_len skb) &&
                ((ip_version skb =? 4) || (ip_version skb =? 6) && (sizeof_ipv6hdr <=? skb_len skb)))
  then RxDishonestType
  else
    let skb := skb{{ skb_protocol := ip_tunnel_parse_protocol skb }} in
    let trim len skb :=
      if skb_len skb <? len then RxDishonestSize
      else
        let skb := skb_trim skb len in
        if bool_decide (wg_allowedips_lookup_src allowed skb = Some peer) then RxDelivered skb else RxDishonestPeer in
    if skb_protocol skb =? ETH_P_IP then
      let len := be_val (field 2 2 (skb_data skb)) in
      if len <? sizeof_iphdr then RxDishonestSize
      else trim len (INET_ECN_decapsulate (cb_ds (PACKET_CB skb)) skb)
    else if skb_protocol skb =? ETH_P_IPV6 then
      let len := be_val (field 4 2 (skb_data skb)) + sizeof_ipv6hdr in
      trim len (INET_ECN_decapsulate (cb_ds (PACKET_CB skb)) skb)
    else RxDishonestType.

(** A device with its allowed addresses. *)
Record data_device := mk_data_device {
  dd_noise : noise_device;
  dd_allowed : allowedips;
}.

#[export] Instance eta_data_device : Settable data_device := λ d, mk_data_device (dd_noise d) (dd_allowed d).

Definition set_store (f : kstore → kstore) (d : data_device) : data_device :=
  d{{ dd_noise ::= λ n, n{{ nd_store ::= f }} }}.

Definition dd_store (d : data_device) : kstore := nd_store (dd_noise d).

(** [wg_packet_consume_data_done]: the session may be confirmed by the packet. *)
Definition wg_packet_consume_data_done (peer k : Z) (skb : sk_buff) (d : data_device) : rx_verdict * data_device :=
  let d :=
    match nd_peers (dd_noise d) !! peer with
    | None => d
    | Some p =>
        let '(_, (ks, st)) := wg_noise_received_with_keypair (np_keypairs p) (np_keypairs p) k (dd_store d) in
        (d{{ dd_noise ::= set_peer peer (p{{ np_keypairs := ks }}) }}){{ dd_noise ::= λ n, n{{ nd_store := st }} }}
    end in
  (inspect_packet (dd_allowed d) peer skb, d).

(** One round of [wg_packet_rx_poll] on a decrypted packet: the endpoint the peer
    is given and the verdict. *)
Definition rx_packet (peer k : Z) (skb : sk_buff) (d : data_device) : option (endpoint * rx_verdict) * data_device :=
  match kt_heap (dd_store d) !! k with
  | None => (None, d)
  | Some kp =>
      let '(ok, rc) := counter_validate (kp_receiving_counter kp) (cb_nonce (PACKET_CB skb)) in
      let d := set_store (set_keypair k (λ kp, kp{{ kp_receiving_counter := rc }})) d in
      if negb ok then (None, d)
      else
        match wg_socket_endpoint_from_skb skb with
        | Err _ => (None, d)
        | Ok ep =>
            let '(v, d) := wg_packet_consume_data_done peer k (wg_reset_packet skb) d in (Some (ep, v), d)
        end
  end.

(** [wg_packet_consume_data] and the stages behind it: [queued] is what the
    queues answer. *)
Definition receive_data (alive : Z → bool) (now : Z) (queued : bool) (skb : sk_buff) (d : data_device)
    : option (endpoint * rx_verdict) * data_device :=
  let idx := le_val (field 4 4 (skb_data skb)) in
  match wg_index_hashtable_lookup alive INDEX_HASHTABLE_KEYPAIR idx (kt_index (dd_store d)) with
  | Some (EntKeypair peer k) =>
      match wg_noise_keypair_get (Some k) (dd_store d) with
      | (None, _) => (None, d)
      | (Some _, st) =>
          let d := set_store (λ _, st) d in
          let put := set_store (wg_noise_keypair_put (Some k) false) in
          match nd_peers (dd_noise d) !! peer with
          | None => (None, put d)
          | Some p =>
              if np_is_dead p || negb queued then (None, put d)
              else
                match kt_heap (dd_store d) !! k with
                | None => (None, d)
                | Some kp =>
                    let '(r, kp) := decrypt_packet now skb kp in
                    let d := set_store (set_keypair k (λ _, kp)) d in
                    match r with
                    | None => (None, put d)
                    | Some skb => let '(v, d) := rx_packet peer k skb d in (v, put d)
                    end
                end
          end
      end
  | _ => (None, d)
  end.
End datapath.
