(* ===== verification/Nonces.v ===== *)
(** * Nonces are never used twice (kernel/send.c, kernel/noise.c)

    Over all interleavings of the sections on sessions (Keypairs.v) with the
    assignment of nonces to staged packets (DataPath.v): no session ever gives the
    same nonce to two packets.  A session is identified by its number, which is
    new for every session. *)
From stdpp Require Import prelude list gmap.
From S2P Require Import Prelude Skb Net FakeHeaders RxHeader.
From S2P Require Import AllowedIps PeerLookup Crypto Replay Noise Keypairs Handshake DataPath.

#[local] Open Scope Z_scope.

Section nonces.
Context {C : Crypto} {T : IpTunnel} {S : SkbCrypt}.

Inductive dop :=
  | DKey (o : kop)
  | DSend (peer : Z) (transport_tcp : bool) (now : Z) (packets : list sk_buff).

(** The sessions, and the nonces given out so far with the session's number.
    The packets sent hold a reference to the session. *)
Abbreviation dworld := (kworld * list (Z * Z))%type.

Definition session_id (st : kstore) (k : Z) : Z := default 0 (kp_internal_id <$> kt_heap st !! k).

Definition dstep (x : dworld) (o : dop) : dworld :=
  let '(w, log) := x in
  match o with
  | DKey o => (kstep w o, log)
  | DSend p tcp now packets =>
      match wg_packet_send_staged_packets tcp now packets (slots w p) (kw_store w) with
      | (StagedSent k packets, st) =>
          (w{{ kw_store := st; kw_held ::= cons k }},
           log ++ ((λ skb, (session_id st k, cb_nonce (PACKET_CB skb))) <$> packets))
      | (_, st) => (w{{ kw_store := st }}, log)
      end
  end.

(** ** Sessions keep their number and their counter *)
Definition same_session (kp kp' : noise_keypair) : Prop :=
  kp_internal_id kp' = kp_internal_id kp ∧ kp_sending_counter kp' = kp_sending_counter kp ∧
  kp_receiving_counter kp' = kp_receiving_counter kp ∧
  (sk_is_valid (kp_sending kp') = true → sk_is_valid (kp_sending kp) = true).

Definition preserves (st st' : kstore) : Prop :=
  kt_counter st' = kt_counter st ∧
  ∀ k kp', kt_heap st' !! k = Some kp' → ∃ kp, kt_heap st !! k = Some kp ∧ same_session kp kp'.

Lemma preserves_refl st : preserves st st.
Proof. split; [done|]. intros k kp Hk. exists kp. done. Qed.

Lemma preserves_trans st1 st2 st3 : preserves st1 st2 → preserves st2 st3 → preserves st1 st3.
Proof.
  intros [C1 H1] [C2 H2]. split; [congruence|]. intros k kp3 Hk.
  destruct (H2 k kp3 Hk) as (kp2&Hk2&I2&S2&R2&V2). destruct (H1 k kp2 Hk2) as (kp1&Hk1&I1&S1&R1&V1).
  exists kp1. split; [done|]. split_and!; [congruence|congruence|congruence|auto].
Qed.

(** A change of the index table or of the list of sessions to be freed. *)
Lemma preserves_heap st st' : kt_counter st' = kt_counter st → kt_heap st' = kt_heap st → preserves st st'.
Proof. intros Hc Hh. split; [done|]. rewrite Hh. intros k kp Hk. by exists kp. Qed.

Lemma preserves_insert st st' k kp kp' :
  kt_counter st' = kt_counter st → kt_heap st !! k = Some kp → kt_heap st' = <[k := kp']> (kt_heap st) →
  same_session kp kp' → preserves st st'.
Proof.
  intros Hc Hk Hh Hs. split; [done|]. rewrite Hh. intros j kj [[<- <-]|[_ Hj]]%lookup_insert_Some; [by exists kp|by exists kj].
Qed.

Lemma preserves_alter st k f : (∀ kp, same_session kp (f kp)) → preserves st (set_keypair k f st).
Proof.
  intros Hf. destruct (kt_heap st !! k) as [kp|] eqn:Hk.
  - apply (preserves_insert st _ k kp (f kp)); [done|done| |done]. cbn. by apply alter_alt_Some.
  - apply preserves_heap; [done|]. cbn. by rewrite alter_alt, Hk.
Qed.

Lemma put_keeps o u st : preserves st (wg_noise_keypair_put o u st).
Proof.
  unfold wg_noise_keypair_put. destruct o as [k|]; [|apply preserves_refl].
  destruct (kt_heap st !! k) as [kp|] eqn:Hk; [|apply preserves_refl].
  apply (preserves_insert _ _ k kp (kp{{ kp_refcount := kp_refcount kp - 1 }})); [|done| |done]; destruct u; by case_if.
Qed.

Lemma get_keeps o st : preserves st (wg_noise_keypair_get o st).2.
Proof.
  unfold wg_noise_keypair_get. destruct o as [k|]; [|apply preserves_refl].
  destruct (kt_heap st !! k) as [kp|] eqn:Hk; [|apply preserves_refl]. case_if; [apply preserves_refl|].
  by apply (preserves_insert _ _ k kp (kp{{ kp_refcount ::= Z.add 1 }})).
Qed.

Lemma add_keeps_sessions ks k ini st : preserves st (add_new_keypair ks k ini st).2.
Proof.
  unfold add_new_keypair. destruct ini; [destruct (ks_next_keypair ks)|]; cbn;
    eauto using preserves_trans, put_keeps.
Qed.

Lemma expire_keeps ks st : preserves st (expire_keypairs ks st).
Proof.
  assert (H : ∀ o st, preserves st (expire_sending o st)).
  { intros [k|] st'; [|apply preserves_refl]. by apply (preserves_alter st' k). }
  unfold expire_keypairs. eauto using preserves_trans.
Qed.

Lemma delete_keeps st st' k : kt_counter st' = kt_counter st → kt_heap st' = delete k (kt_heap st) → preserves st st'.
Proof. intros Hc Hh. split; [done|]. rewrite Hh. intros j kj [_ Hj]%lookup_delete_Some. by exists kj. Qed.

Lemma grace_keeps st l : preserves st ((foldr keypair_free_rcu st l){{ kt_rcu := [] }}).
Proof.
  apply preserves_trans with (foldr keypair_free_rcu st l); [|by apply preserves_heap].
  induction l as [|k l IH]; [apply preserves_refl|]. cbn. eapply preserves_trans, delete_keeps; done.
Qed.

(** The creation of a session. *)
Definition creates (st st' : kstore) : Prop :=
  kt_counter st' = u64 (kt_counter st + 1) ∧
  ∃ k kp, kt_heap st' = <[k := kp]> (kt_heap st) ∧ kp_internal_id kp = u64 (kt_counter st + 1) ∧
    kp_sending_counter kp = 0 ∧ kp_receiving_counter kp = replay_init.

Lemma create_creates k p ini ri ck now st : creates st (session_create (Some k) p ini ri ck now st).2.
Proof.
  unfold session_create, keypair_create. destruct (derive_keys ck now). cbn. split; [done|].
  eexists k, _. split; [cbn; apply alter_insert_eq|done].
Qed.

(** Every section keeps the sessions or creates one. *)
Lemma kstep_sessions w o :
  preserves (kw_store w) (kw_store (kstep w o)) ∨
  ∃ st, creates (kw_store w) st ∧ preserves st (kw_store (kstep w o)).
Proof.
  destruct o as [p alloc dead ini ri ck now|p|p|p|p k|i|p|k|p i|p|]; cbn [kstep].
  - destruct (kw_begin w !! p); [left; apply preserves_refl|]. destruct alloc as [k|]; [|left; apply preserves_refl].
    pose proof (create_creates k p ini ri ck now (kw_store w)) as Hc.
    destruct (session_create (Some k) p ini ri ck now (kw_store w)) as [[k'|] st] eqn:Hs; right; exists st; (split; [done|]);
      [|apply preserves_refl].
    unfold session_install. destruct dead; cbn; [by apply (delete_keeps _ _ k')|apply add_keeps_sessions].
  - left. destruct (kw_begin w !! p); [|apply preserves_refl]. cbn. unfold session_hash.
    destruct (wg_index_hashtable_replace _ _ _). by apply preserves_heap.
  - left. cbn. eauto 10 using preserves_trans, put_keeps.
  - left. apply expire_keeps.
  - left. cbn. unfold received_locked. case_match; cbn; [apply preserves_refl|apply put_keeps].
  - left. destruct (wg_index_hashtable_lookup _ _ _ _) as [[]|]; [apply preserves_refl|apply get_keeps|apply preserves_refl].
  - left. apply get_keeps.
  - left. case_bool_decide; [apply put_keeps|apply preserves_refl].
  - left. destruct (wg_index_hashtable_insert _ _ _) as [[]|]; by apply preserves_heap.
  - left. by apply preserves_heap.
  - left. case_bool_decide; [apply grace_keeps|apply preserves_refl].
Qed.

(** ** Invariant *)
Record ninv (st : kstore) (log : list (Z * Z)) : Prop := {
  ni_counter : 0 <= kt_counter st;
  ni_ids : ∀ k kp, kt_heap st !! k = Some kp → 1 <= kp_internal_id kp <= kt_counter st;
  ni_distinct : ∀ k k' kp kp', kt_heap st !! k = Some kp → kt_heap st !! k' = Some kp' →
    kp_internal_id kp = kp_internal_id kp' → k = k';
  ni_range : ∀ k kp, kt_heap st !! k = Some kp → 0 <= kp_sending_counter kp ∧
    (sk_is_valid (kp_sending kp) = true → kp_sending_counter kp <= REJECT_AFTER_MESSAGES);
  ni_log : ∀ id n, (id, n) ∈ log → id <= kt_counter st ∧ 0 <= n < REJECT_AFTER_MESSAGES;
  ni_used : ∀ id n k kp, (id, n) ∈ log → kt_heap st !! k = Some kp → kp_internal_id kp = id → n < kp_sending_counter kp;
  ni_nodup : NoDup log;
}.

Lemma ninv_keeps st st' log : preserves st st' → ninv st log → ninv st' log.
Proof.
  intros [Hc Hk] [N1 N2 N3 N4 N5 N6 N7]. split; rewrite ?Hc; try done.
  - intros k kp' Hkp. destruct (Hk k kp' Hkp) as (kp&H&I&_). rewrite I. by eapply N2.
  - intros k k' kp kp' H1 H2 He. destruct (Hk k kp H1) as (q&G1&I1&_), (Hk k' kp' H2) as (q'&G2&I2&_).
    apply (N3 k k' q q'); [done|done|congruence].
  - intros k kp' Hkp. destruct (Hk k kp' Hkp) as (kp&H&_&Hs&_&Hv). rewrite Hs. destruct (N4 k kp H). auto.
  - intros id n k kp' Hin Hkp Hid. destruct (Hk k kp' Hkp) as (kp&H&I&Hs&_). rewrite Hs. apply (N6 id n k kp); congruence.
Qed.

Lemma ninv_creates st st' log : creates st st' → kt_counter st + 1 < 2 ^ 64 → ninv st log → ninv st' log.
Proof.
  intros (Hc&k0&kp0&Hh&Hid&Hs&_) Hb [N1 N2 N3 N4 N5 N6 N7].
  assert (Hu : u64 (kt_counter st + 1) = kt_counter st + 1) by (unfold u64, wrap; rewrite Z.mod_small; lia).
  rewrite Hu in Hc, Hid. split; rewrite ?Hc, ?Hh; try done.
  - lia.
  - intros k kp [[<- <-]|[_ Hk]]%lookup_insert_Some; [lia|]. specialize (N2 k kp Hk). lia.
  - intros k k' kp kp' [[<- <-]|[_ Hk]]%lookup_insert_Some [[<- <-]|[_ Hk']]%lookup_insert_Some He; [done| | |by eapply N3].
    + specialize (N2 k' kp' Hk'). lia.
    + specialize (N2 k kp Hk). lia.
  - intros k kp [[<- <-]|[_ Hk]]%lookup_insert_Some; [|by eapply N4]. rewrite Hs. split; [lia|]. intros _.
    change REJECT_AFTER_MESSAGES with (2 ^ 64 - 8130). lia.
  - intros id n Hin. destruct (N5 id n Hin). lia.
  - intros id n k kp Hin [[<- <-]|[_ Hk]]%lookup_insert_Some He; [|by eapply N6]. destruct (N5 id n Hin). lia.
Qed.

(** ** Assigning nonces *)
Lemma assign_spec tcp c l :
  0 <= c <= REJECT_AFTER_MESSAGES →
  match assign_nonces tcp c l with
  | (c', Some ps) => c' = c + zlen l ∧ c' <= REJECT_AFTER_MESSAGES ∧
      (λ skb, cb_nonce (PACKET_CB skb)) <$> ps = seqZ c (zlen l)
  | (c', None) => c <= c'
  end.
Proof.
  assert (HR : REJECT_AFTER_MESSAGES = 2 ^ 64 - 8130) by done.
  revert c. induction l as [|skb l IH]; intros c Hc; cbn [assign_nonces]; [change (zlen (@nil sk_buff)) with 0; split_and!; [lia|lia|done]|].
  assert (Hu : u64 (c + 1) = c + 1) by (unfold u64, wrap; rewrite Z.mod_small; lia). rewrite Hu, zlen_cons.
  destruct (Z.leb_spec REJECT_AFTER_MESSAGES c); [lia|]. specialize (IH (c + 1) ltac:(lia)).
  destruct (assign_nonces tcp (c + 1) l) as [c' [ps|]]; cbn; [|lia]. destruct IH as (->&Hle&Hn).
  split_and!; [lia|done|]. rewrite (seqZ_cons c) by (pose proof (zlen_nonneg l); lia). f_equal.
  - unfold stage_packet. by case_match.
  - rewrite Hn. f_equal; lia.
Qed.

(** A session advances its counter over the nonces [c] to [c'] it gives out. *)
Lemma ninv_advance st st' log k kp kp' c' new :
  ninv st log → kt_heap st !! k = Some kp → kt_counter st' = kt_counter st → kt_heap st' = <[k := kp']> (kt_heap st) →
  kp_internal_id kp' = kp_internal_id kp → kp_sending_counter kp' = c' → kp_sending_counter kp <= c' →
  (sk_is_valid (kp_sending kp') = true → c' <= REJECT_AFTER_MESSAGES) →
  NoDup new → (∀ n, n ∈ new → kp_sending_counter kp <= n < c' ∧ n < REJECT_AFTER_MESSAGES) →
  ninv st' (log ++ ((λ n, (kp_internal_id kp, n)) <$> new)).
Proof.
  intros [N1 N2 N3 N4 N5 N6 N7] Hk Hc Hh Hid Hs Hle Hv Hnd Hnew.
  assert (Hold : ∀ j kj, kt_heap st' !! j = Some kj → ∃ q, kt_heap st !! j = Some q ∧ kp_internal_id kj = kp_internal_id q ∧
    kp_sending_counter q <= kp_sending_counter kj).
  { intros j kj. rewrite Hh. intros [[<- <-]|[_ Hj]]%lookup_insert_Some; [exists kp; split_and!; [done|done|lia]|].
    exists kj. split_and!; [done|done|lia]. }
  split; rewrite ?Hc.
  - done.
  - intros j kj Hj. destruct (Hold j kj Hj) as (q&Hq&->&_). by eapply N2.
  - intros j j' kj kj' Hj Hj' He. destruct (Hold j kj Hj) as (q&Hq&I1&_), (Hold j' kj' Hj') as (q'&Hq'&I2&_).
    apply (N3 j j' q q'); [done|done|congruence].
  - intros j kj. rewrite Hh. intros [[<- <-]|[_ Hj]]%lookup_insert_Some; [|by eapply N4]. destruct (N4 k kp Hk). rewrite Hs. split; [lia|done].
  - intros id n [Hin|Hin]%elem_of_app; [by apply N5|]. apply list_elem_of_fmap in Hin as (m&[= -> ->]&Hm).
    destruct (Hnew m Hm). destruct (N4 k kp Hk). destruct (N2 k kp Hk). lia.
  - intros id n j kj [Hin|Hin]%elem_of_app Hj He.
    + destruct (Hold j kj Hj) as (q&Hq&I&Hsc). pose proof (N6 id n j q Hin Hq ltac:(congruence)). lia.
    + apply list_elem_of_fmap in Hin as (m&[= -> ->]&Hm). destruct (Hold j kj Hj) as (q&Hq&I&Hsc).
      assert (j = k) as -> by (apply (N3 j k q kp); [done|done|congruence]).
      rewrite Hh, lookup_insert_eq in Hj. injection Hj as <-. destruct (Hnew m Hm). lia.
  - apply NoDup_app. split_and!; [done| |].
    + intros [id n] Hin (m&[= -> ->]&Hm)%list_elem_of_fmap. pose proof (N6 _ _ k kp Hin Hk eq_refl). destruct (Hnew m Hm). lia.
    + apply NoDup_fmap_2; [|done]. by intros n m [= ->].
Qed.

Lemma preserves_get_Some o st k st' kp' :
  wg_noise_keypair_get o st = (Some k, st') → kt_heap st' !! k = Some kp' →
  ∃ kp, kt_heap st !! k = Some kp ∧ same_session kp kp'.
Proof. intros Hg Hk. destruct (get_keeps o st) as [_ H]. rewrite Hg in H. by apply H. Qed.

Lemma ninv_send tcp now l ks st log :
  ninv st log →
  match wg_packet_send_staged_packets tcp now l ks st with
  | (StagedSent k ps, st') => ninv st' (log ++ ((λ skb, (session_id st' k, cb_nonce (PACKET_CB skb))) <$> ps))
  | (_, st') => ninv st' log
  end.
Proof.
  intros Hn. unfold wg_packet_send_staged_packets. destruct l as [|skb0 l0] eqn:Hl; [done|]. rewrite <- Hl. clear Hl skb0 l0.
  pose proof (get_keeps (ks_current_keypair ks) st) as Hg. destruct (wg_noise_keypair_get _ st) as [[k|] st1]; cbn in Hg;
    pose proof (ninv_keeps _ _ _ Hg Hn) as Hn1; [|done]. clear Hn Hg st.
  destruct (kt_heap st1 !! k) as [kp|] eqn:Hk; [|done].
  destruct (sk_is_valid (kp_sending kp)) eqn:Hv; cbn [negb]; [|eapply ninv_keeps; [apply put_keeps|done]].
  destruct (wg_birthdate_has_expired _ _ _).
  { eapply ninv_keeps; [|done]. eapply preserves_trans; [|apply put_keeps]. by apply preserves_alter. }
  destruct (ni_range _ _ Hn1 k kp Hk) as [H0 HR]. specialize (HR Hv).
  pose proof (assign_spec tcp (kp_sending_counter kp) l ltac:(lia)) as Ha.
  destruct (assign_nonces tcp (kp_sending_counter kp) l) as [c' [ps|]].
  - destruct Ha as (Hc&Hle&Hps). pose proof (zlen_nonneg l). set (st' := set_keypair k _ st1).
    assert (Hh : kt_heap st' = <[k := kp{{ kp_sending_counter := c' }}]> (kt_heap st1)) by (by apply alter_alt_Some).
    assert (Hid : session_id st' k = kp_internal_id kp) by (unfold session_id; by rewrite Hh, lookup_insert_eq).
    replace ((λ skb, (session_id st' k, cb_nonce (PACKET_CB skb))) <$> ps)
      with ((λ n, (kp_internal_id kp, n)) <$> ((λ skb, cb_nonce (PACKET_CB skb)) <$> ps))
      by (rewrite Hid, <- list_fmap_compose; done).
    rewrite Hps. eapply (ninv_advance st1 st' log k kp _ c'); try done; [lia| |].
    + apply NoDup_seqZ.
    + intros n Hin%elem_of_seqZ. lia.
  - set (st' := set_keypair k _ _).
    assert (Hh : kt_heap st' = <[k := kp{{ kp_sending_counter := c'; kp_sending ::= λ s, s{{ sk_is_valid := false }} }}]> (kt_heap st1)).
    { unfold st', set_keypair. cbn. rewrite (alter_alt_Some _ _ k kp Hk), alter_insert_eq. done. }
    eapply ninv_keeps; [apply put_keeps|]. rewrite <- (app_nil_r log).
    eapply (ninv_advance st1 st' log k kp _ c' []); try done; [apply NoDup_nil_2|by intros n ?%elem_of_nil].
Qed.

Lemma send_counter tcp now l ks st : kt_counter (wg_packet_send_staged_packets tcp now l ks st).2 = kt_counter st.
Proof.
  assert (Hput : ∀ o u st, kt_counter (wg_noise_keypair_put o u st) = kt_counter st) by (intros o u st'; apply put_keeps).
  unfold wg_packet_send_staged_packets. destruct l as [|skb l]; [done|].
  destruct (get_keeps (ks_current_keypair ks) st) as [Hg _].
  destruct (wg_noise_keypair_get _ st) as [[k|] st1]; [|done]. cbn [snd] in Hg.
  destruct (kt_heap st1 !! k) as [kp|]; [|done]. destruct (negb _); [cbn [snd]; by rewrite Hput|].
  destruct (wg_birthdate_has_expired _ _ _); [cbn [snd]; by rewrite Hput|].
  destruct (assign_nonces _ _ _) as [c [ps|]]; cbn [snd]; [done|by rewrite Hput].
Qed.

Lemma dstep_ok x o :
  ninv (kw_store x.1) x.2 → kt_counter (kw_store x.1) + 1 < 2 ^ 64 →
  ninv (kw_store (dstep x o).1) (dstep x o).2 ∧
  kt_counter (kw_store (dstep x o).1) <= kt_counter (kw_store x.1) + 1.
Proof.
  destruct x as [w log]. cbn [fst snd]. intros Hn Hb. destruct o as [o|p tcp now l]; cbn [dstep].
  - cbn [fst snd]. destruct (kstep_sessions w o) as [Hk|(st&Hc&Hk)].
    + split; [by eapply ninv_keeps|]. destruct Hk as [-> _]. lia.
    + split; [by eapply ninv_keeps, ninv_creates|]. destruct Hk as [-> _], Hc as [-> _].
      pose proof (ni_counter _ _ Hn). unfold u64, wrap. rewrite Z.mod_small by lia. lia.
  - pose proof (ninv_send tcp now l (slots w p) (kw_store w) log Hn) as Hs.
    pose proof (send_counter tcp now l (slots w p) (kw_store w)) as Hc.
    destruct (wg_packet_send_staged_packets _ _ _ _ _) as [[|k ps|] st]; cbn in *; (split; [done|lia]).
Qed.

Lemma run_nonces_ok x os :
  ninv (kw_store x.1) x.2 → kt_counter (kw_store x.1) + zlen os < 2 ^ 64 →
  ninv (kw_store (foldl dstep x os).1) (foldl dstep x os).2.
Proof.
  revert x. induction os as [|o os IH]; intros x Hn Hb; [done|]. rewrite zlen_cons in Hb. pose proof (zlen_nonneg os).
  destruct (dstep_ok x o Hn ltac:(lia)) as [Hn' Hc]. apply IH; [done|lia].
Qed.

End nonces.

#[local] Existing Instance toy_crypto.

(** Buffers that need no work, for examples. *)
Definition plain_skb : SkbCrypt := {|
  NET_SKB_PAD := 64;
  skb_cow_head n s := Some (s{{ skb_head := replicate (Z.to_nat n) 0 }});
  skb_checksum_help s := Some s;
  skb_cow_data s := true;
  skb_to_sgvec s := true;
  ip_tunnel_ecn_encap s := 0;
  INET_ECN_decapsulate ds s := s;
|}.

Definition a_packet : sk_buff := mk_sk_buff [] (replicate 40 69) 0 0 0 ETH_P_IP 0 packet_cb_zero.

Definition some_sends : list dop :=
  [DKey (KHandshakeInsert 1 500); DKey (KAdd 1 (Some 10) false true 77 (replicate 32 5) 1000); DKey (KHash 1);
   DSend 1 true 2000 [a_packet; a_packet]; DSend 1 true 3000 [a_packet]; DKey (KHandshakeInsert 1 501);
   DKey (KAdd 1 (Some 11) false true 78 (replicate 32 6) 4000); DKey (KHash 1); DSend 1 false 5000 [a_packet]].

