(* ===== verification/Timers.v ===== *)
(** * Timers of a peer (kernel/timers.c, kernel/send.c)

    The five timers of a peer, their callbacks, and the functions of the send and
    receive paths that start and stop them.  What those paths do otherwise is in
    DataPath.v and Handshake.v; here it is an argument whether a message could be
    created, whether there is a session to send with, and so on.

    Time is counted in jiffies, and the coarse boot-time clock that dates
    handshakes advances with them.  A timer that is due runs before time passes. *)
From stdpp Require Import prelude list.
From S2P Require Import Prelude Skb Net FakeHeaders RxHeader PeerLookup Crypto Replay Noise Keypairs Handshake DataPath.

#[local] Open Scope Z_scope.

Definition MAX_TIMER_HANDSHAKES := 90 / REKEY_TIMEOUT.

(** What happens to a peer, as far as the timers are concerned. *)
Inductive timer_event :=
  | EvDataSent | EvDataReceived | EvSent | EvReceived
  | EvInitiated | EvComplete | EvDerived | EvTraversal
  | EvKeepalive | EvInitiation | EvGaveUp | EvZero | EvDown.

#[export] Instance timer_event_eq_dec : EqDecision timer_event.
Proof. solve_decision. Defined.

(** A pending timer has the time it is due.  [pt_trace] is the history, newest
    first, with times; the code has no such thing. *)
Record peer_timers := mk_peer_timers {
  pt_retransmit_handshake : option Z;
  pt_send_keepalive : option Z;
  pt_new_handshake : option Z;
  pt_zero_key_material : option Z;
  pt_persistent_keepalive : option Z;
  pt_handshake_attempts : Z;
  pt_need_another_keepalive : bool;
  pt_sent_lastminute_handshake : bool;
  pt_last_sent_handshake : Z;
  pt_persistent_keepalive_interval : Z;
  pt_running : bool;
  pt_is_dead : bool;
  pt_transmit_handshake_work : bool;
  pt_clear_peer_work : bool;
  pt_staged_packet_queue : list sk_buff;
  pt_trace : list (Z * timer_event);
}.

#[export] Instance eta_peer_timers : Settable peer_timers := λ p,
  mk_peer_timers (pt_retransmit_handshake p) (pt_send_keepalive p) (pt_new_handshake p) (pt_zero_key_material p)
    (pt_persistent_keepalive p) (pt_handshake_attempts p) (pt_need_another_keepalive p) (pt_sent_lastminute_handshake p)
    (pt_last_sent_handshake p) (pt_persistent_keepalive_interval p) (pt_running p) (pt_is_dead p)
    (pt_transmit_handshake_work p) (pt_clear_peer_work p) (pt_staged_packet_queue p) (pt_trace p).

#[local] Create HintDb timers.

Section timers.
Context (HZ : Z).

Definition REKEY_TIMEOUT_JITTER_MAX_JIFFIES := HZ / 3.

(** The coarse clock. *)
Definition coarse_ns (jiffies : Z) : Z := jiffies * (NSEC_PER_SEC / HZ).

Definition armable (p : peer_timers) : bool := pt_running p && negb (pt_is_dead p).

Definition note (e : timer_event) (jiffies : Z) (p : peer_timers) : peer_timers :=
  if armable p then p{{ pt_trace ::= cons (jiffies, e) }} else p.

Definition mod_peer_timer (timer : option Z → peer_timers → peer_timers) (expires : Z) (p : peer_timers) : peer_timers :=
  if armable p then timer (Some expires) p else p.

Definition retransmit_handshake (t : option Z) (p : peer_timers) := p{{ pt_retransmit_handshake := t }}.
Definition send_keepalive (t : option Z) (p : peer_timers) := p{{ pt_send_keepalive := t }}.
Definition new_handshake (t : option Z) (p : peer_timers) := p{{ pt_new_handshake := t }}.
Definition zero_key_material (t : option Z) (p : peer_timers) := p{{ pt_zero_key_material := t }}.
Definition persistent_keepalive (t : option Z) (p : peer_timers) := p{{ pt_persistent_keepalive := t }}.

(** ** What the send and receive paths call *)
Definition wg_timers_data_sent (jiffies random : Z) (p : peer_timers) : peer_timers :=
  let p := note EvDataSent jiffies p in
  match pt_new_handshake p with
  | None => mod_peer_timer new_handshake (jiffies + (KEEPALIVE_TIMEOUT + REKEY_TIMEOUT) * HZ + random) p
  | Some _ => p
  end.

Definition wg_timers_data_received (jiffies : Z) (p : peer_timers) : peer_timers :=
  let p := note EvDataReceived jiffies p in
  if pt_running p then
    match pt_send_keepalive p with
    | None => mod_peer_timer send_keepalive (jiffies + KEEPALIVE_TIMEOUT * HZ) p
    | Some _ => p{{ pt_need_another_keepalive := true }}
    end
  else p.

Definition wg_timers_any_authenticated_packet_sent (jiffies : Z) (p : peer_timers) : peer_timers :=
  send_keepalive None (note EvSent jiffies p).

Definition wg_timers_any_authenticated_packet_received (jiffies : Z) (p : peer_timers) : peer_timers :=
  new_handshake None (note EvReceived jiffies p).

Definition wg_timers_handshake_initiated (jiffies random : Z) (p : peer_timers) : peer_timers :=
  mod_peer_timer retransmit_handshake (jiffies + REKEY_TIMEOUT * HZ + random) (note EvInitiated jiffies p).

Definition wg_timers_handshake_complete (jiffies : Z) (p : peer_timers) : peer_timers :=
  (retransmit_handshake None (note EvComplete jiffies p)){{ pt_handshake_attempts := 0; pt_sent_lastminute_handshake := false }}.

Definition wg_timers_session_derived (jiffies : Z) (p : peer_timers) : peer_timers :=
  mod_peer_timer zero_key_material (jiffies + REJECT_AFTER_TIME * 3 * HZ) (note EvDerived jiffies p).

Definition wg_timers_any_authenticated_packet_traversal (jiffies : Z) (p : peer_timers) : peer_timers :=
  if pt_persistent_keepalive_interval p =? 0 then p
  else mod_peer_timer persistent_keepalive (jiffies + pt_persistent_keepalive_interval p * HZ) (note EvTraversal jiffies p).

Definition wg_timers_init (p : peer_timers) : peer_timers :=
  p{{ pt_retransmit_handshake := None; pt_send_keepalive := None; pt_new_handshake := None;
      pt_zero_key_material := None; pt_persistent_keepalive := None;
      pt_handshake_attempts := 0; pt_sent_lastminute_handshake := false; pt_need_another_keepalive := false }}.

Definition wg_timers_stop (p : peer_timers) : peer_timers :=
  p{{ pt_retransmit_handshake := None; pt_send_keepalive := None; pt_new_handshake := None;
      pt_zero_key_material := None; pt_persistent_keepalive := None; pt_clear_peer_work := false }}.

(** ** Sending

    [key] says whether the current session can take the staged packets. *)
Definition wg_packet_send_queued_handshake_initiation (is_retry : bool) (jiffies : Z) (p : peer_timers) : peer_timers :=
  let p := note EvInitiation jiffies p in
  let p := if is_retry then p else p{{ pt_handshake_attempts := 0 }} in
  if negb (wg_birthdate_has_expired (pt_last_sent_handshake p) REKEY_TIMEOUT (coarse_ns jiffies)) || pt_is_dead p
  then p else p{{ pt_transmit_handshake_work := true }}.

(** [create] says whether the initiation could be created. *)
Definition wg_packet_send_handshake_initiation (create : bool) (jiffies random : Z) (p : peer_timers) : peer_timers :=
  if negb (wg_birthdate_has_expired (pt_last_sent_handshake p) REKEY_TIMEOUT (coarse_ns jiffies)) then p
  else
    let p := p{{ pt_last_sent_handshake := coarse_ns jiffies }} in
    if negb create then p
    else
      let p := wg_timers_any_authenticated_packet_traversal jiffies p in
      let p := wg_timers_any_authenticated_packet_sent jiffies p in
      let p := p{{ pt_last_sent_handshake := coarse_ns jiffies }} in
      wg_timers_handshake_initiated jiffies random p.

Definition wg_packet_handshake_send_worker (create : bool) (jiffies random : Z) (p : peer_timers) : peer_timers :=
  wg_packet_send_handshake_initiation create jiffies random (p{{ pt_transmit_handshake_work := false }}).

Definition wg_packet_purge_staged_packets (p : peer_timers) : peer_timers := p{{ pt_staged_packet_queue := [] }}.

Definition send_staged_packets (key : bool) (jiffies : Z) (p : peer_timers) : peer_timers :=
  match pt_staged_packet_queue p with
  | [] => p
  | _ => if key then p{{ pt_staged_packet_queue := [] }} else wg_packet_send_queued_handshake_initiation false jiffies p
  end.

(** [keepalive] is the new packet, unless it cannot be allocated. *)
Definition wg_packet_send_keepalive (keepalive : option sk_buff) (key : bool) (jiffies : Z) (p : peer_timers) : peer_timers :=
  let p := note EvKeepalive jiffies p in
  match pt_staged_packet_queue p, keepalive with
  | [], None => p
  | [], Some skb => send_staged_packets key jiffies (p{{ pt_staged_packet_queue := [skb] }})
  | _, _ => send_staged_packets key jiffies p
  end.

(** The packets a user sends join the staged ones, of which the oldest go if there
    are too many. *)
Definition stage_user_packets (packets : list sk_buff) (p : peer_timers) : peer_timers :=
  let q := pt_staged_packet_queue p in
  p{{ pt_staged_packet_queue := zdrop (zlen q - MAX_STAGED_PACKETS) q ++ packets }}.

(** [stale] is what [keep_key_fresh] finds. *)
Definition wg_packet_create_data_done (data_sent stale : bool) (jiffies random : Z) (p : peer_timers) : peer_timers :=
  let p := wg_timers_any_authenticated_packet_traversal jiffies p in
  let p := wg_timers_any_authenticated_packet_sent jiffies p in
  let p := if data_sent then wg_timers_data_sent jiffies random p else p in
  if stale then wg_packet_send_queued_handshake_initiation false jiffies p else p.

Definition wg_packet_send_handshake_response (create begin : bool) (jiffies : Z) (p : peer_timers) : peer_timers :=
  let p := p{{ pt_last_sent_handshake := coarse_ns jiffies }} in
  if create && begin then
    let p := wg_timers_session_derived jiffies p in
    let p := wg_timers_any_authenticated_packet_traversal jiffies p in
    let p := wg_timers_any_authenticated_packet_sent jiffies p in
    p{{ pt_last_sent_handshake := coarse_ns jiffies }}
  else p.

(** ** Receiving *)
Definition initiation_received (create begin : bool) (jiffies : Z) (p : peer_timers) : peer_timers :=
  let p := wg_packet_send_handshake_response create begin jiffies p in
  wg_timers_any_authenticated_packet_traversal jiffies (wg_timers_any_authenticated_packet_received jiffies p).

Definition response_received (begin : bool) (keepalive : option sk_buff) (key : bool) (jiffies : Z) (p : peer_timers) : peer_timers :=
  let p := if begin then
             let p := wg_timers_session_derived jiffies p in
             let p := wg_timers_handshake_complete jiffies p in
             wg_packet_send_keepalive keepalive key jiffies p
           else p in
  wg_timers_any_authenticated_packet_traversal jiffies (wg_timers_any_authenticated_packet_received jiffies p).

(** [confirmed] when the packet confirms a session, [stale] what [keep_key_fresh]
    finds. *)
Definition packet_received (confirmed key stale data : bool) (jiffies : Z) (p : peer_timers) : peer_timers :=
  let p := if confirmed then send_staged_packets key jiffies (wg_timers_handshake_complete jiffies p) else p in
  let p := if negb (pt_sent_lastminute_handshake p) && stale
           then wg_packet_send_queued_handshake_initiation false jiffies (p{{ pt_sent_lastminute_handshake := true }}) else p in
  let p := wg_timers_any_authenticated_packet_received jiffies p in
  let p := wg_timers_any_authenticated_packet_traversal jiffies p in
  if data then wg_timers_data_received jiffies p else p.

(** ** The callbacks *)
Definition wg_expired_retransmit_handshake (jiffies : Z) (p : peer_timers) : peer_timers :=
  if MAX_TIMER_HANDSHAKES <? pt_handshake_attempts p then
    let p := note EvGaveUp jiffies p in
    let p := send_keepalive None p in
    let p := wg_packet_purge_staged_packets p in
    match pt_zero_key_material p with
    | None => mod_peer_timer zero_key_material (jiffies + REJECT_AFTER_TIME * 3 * HZ) p
    | Some _ => p
    end
  else
    wg_packet_send_queued_handshake_initiation true jiffies (p{{ pt_handshake_attempts ::= λ n, n + 1 }}).

Definition wg_expired_send_keepalive (keepalive : option sk_buff) (key : bool) (jiffies : Z) (p : peer_timers) : peer_timers :=
  let p := wg_packet_send_keepalive keepalive key jiffies p in
  if pt_need_another_keepalive p then
    mod_peer_timer send_keepalive (jiffies + KEEPALIVE_TIMEOUT * HZ) (p{{ pt_need_another_keepalive := false }})
  else p.

Definition wg_expired_new_handshake (jiffies : Z) (p : peer_timers) : peer_timers :=
  wg_packet_send_queued_handshake_initiation false jiffies p.

Definition wg_expired_zero_key_material (jiffies : Z) (p : peer_timers) : peer_timers :=
  let p := note EvZero jiffies p in
  if pt_is_dead p then p else p{{ pt_clear_peer_work := true }}.

Definition wg_queued_expired_zero_key_material (p : peer_timers) : peer_timers := p{{ pt_clear_peer_work := false }}.

Definition wg_expired_send_persistent_keepalive (keepalive : option sk_buff) (key : bool) (jiffies : Z) (p : peer_timers) : peer_timers :=
  if pt_persistent_keepalive_interval p =? 0 then p else wg_packet_send_keepalive keepalive key jiffies p.

(** ** Runs

    [TTick] waits for the timers that are due. *)
Inductive timer_op :=
  | TTick
  | TExpireRetransmit
  | TExpireKeepalive (keepalive : option sk_buff) (key : bool)
  | TExpireNewHandshake
  | TExpireZero
  | TExpirePersistent (keepalive : option sk_buff) (key : bool)
  | TClearWork
  | TSendWork (create : bool) (random : Z)
  | TXmit (packets : list sk_buff) (key : bool)
  | TKeepalive (keepalive : option sk_buff) (key : bool)
  | TDataDone (data_sent stale : bool) (random : Z)
  | TInitiationReceived (create begin : bool)
  | TResponseReceived (begin : bool) (keepalive : option sk_buff) (key : bool)
  | TPacketReceived (confirmed key stale data : bool)
  | TDown | TStop | TUp | TKill.

Definition due (jiffies : Z) (t : option Z) : bool := match t with Some e => e <=? jiffies | None => false end.

Definition any_due (jiffies : Z) (p : peer_timers) : bool :=
  due jiffies (pt_retransmit_handshake p) || due jiffies (pt_send_keepalive p) || due jiffies (pt_new_handshake p) ||
  due jiffies (pt_zero_key_material p) || due jiffies (pt_persistent_keepalive p).

Definition timer_step (w : Z * peer_timers) (o : timer_op) : Z * peer_timers :=
  let '(j, p) := w in
  match o with
  | TTick => if any_due j p then w else (j + 1, p)
  | TExpireRetransmit =>
      if due j (pt_retransmit_handshake p) then (j, wg_expired_retransmit_handshake j (retransmit_handshake None p)) else w
  | TExpireKeepalive ka key =>
      if due j (pt_send_keepalive p) then (j, wg_expired_send_keepalive ka key j (send_keepalive None p)) else w
  | TExpireNewHandshake =>
      if due j (pt_new_handshake p) then (j, wg_expired_new_handshake j (new_handshake None p)) else w
  | TExpireZero =>
      if due j (pt_zero_key_material p) then (j, wg_expired_zero_key_material j (zero_key_material None p)) else w
  | TExpirePersistent ka key =>
      if due j (pt_persistent_keepalive p)
      then (j, wg_expired_send_persistent_keepalive ka key j (persistent_keepalive None p)) else w
  | TClearWork => if pt_clear_peer_work p then (j, wg_queued_expired_zero_key_material p) else w
  | TSendWork create random =>
      if pt_transmit_handshake_work p then (j, wg_packet_handshake_send_worker create j random p) else w
  | TXmit packets key => (j, send_staged_packets key j (stage_user_packets packets p))
  | TKeepalive ka key => (j, wg_packet_send_keepalive ka key j p)
  | TDataDone data stale random => (j, wg_packet_create_data_done data stale j random p)
  | TInitiationReceived create begin => (j, initiation_received create begin j p)
  | TResponseReceived begin ka key => (j, response_received begin ka key j p)
  | TPacketReceived confirmed key stale data => (j, packet_received confirmed key stale data j p)
  | TDown => (j, (note EvDown j p){{ pt_running := false }})
  | TStop => if pt_running p then w
             else (j, (wg_timers_stop (wg_packet_purge_staged_packets p)){{ pt_last_sent_handshake := wg_noise_reset_last_sent_handshake (coarse_ns j) }})
  | TUp => (j, p{{ pt_running := true }})
  | TKill => (j, (note EvDown j p){{ pt_is_dead := true }})
  end.

(** The random part of a delay is below its limit. *)
Definition timer_op_ok (o : timer_op) : Prop :=
  match o with
  | TSendWork _ random | TDataDone _ _ random => 0 <= random <= REKEY_TIMEOUT_JITTER_MAX_JIFFIES
  | _ => True
  end.

(** ** Waiting

    The time of the oldest, or of the latest, event of one kind since the last event
    of another. *)
Fixpoint oldest (start stop : timer_event → bool) (trace : list (Z * timer_event)) : option Z :=
  match trace with
  | [] => None
  | (a, e) :: trace =>
      if stop e then None
      else if start e then Some (default a (oldest start stop trace)) else oldest start stop trace
  end.

Fixpoint latest (start stop : timer_event → bool) (trace : list (Z * timer_event)) : option Z :=
  match trace with
  | [] => None
  | (a, e) :: trace => if start e then Some a else if stop e then None else latest start stop trace
  end.

(** Data came in and nothing went out. *)
Definition unanswered (p : peer_timers) : option Z :=
  oldest (λ e, match e with EvDataReceived => true | _ => false end)
         (λ e, match e with EvSent | EvKeepalive | EvGaveUp | EvDown => true | _ => false end) (pt_trace p).

(** Data went out and nothing came in. *)
Definition unheard (p : peer_timers) : option Z :=
  oldest (λ e, match e with EvDataSent => true | _ => false end)
         (λ e, match e with EvReceived | EvInitiation | EvDown => true | _ => false end) (pt_trace p).

(** An initiation was sent, there are keys, or there was traffic. *)
Definition initiated (p : peer_timers) : option Z :=
  latest (λ e, match e with EvInitiated => true | _ => false end)
         (λ e, match e with EvComplete | EvInitiation | EvGaveUp | EvDown => true | _ => false end) (pt_trace p).
Definition keyed (p : peer_timers) : option Z :=
  latest (λ e, match e with EvDerived | EvGaveUp => true | _ => false end)
         (λ e, match e with EvZero | EvDown => true | _ => false end) (pt_trace p).
Definition active (p : peer_timers) : option Z :=
  latest (λ e, match e with EvTraversal => true | _ => false end)
         (λ e, match e with EvKeepalive | EvDown => true | _ => false end) (pt_trace p).

(** A timer is pending and due in time. *)
Definition held (since timer : option Z) (delay : Z) : Prop :=
  ∀ a, since = Some a → ∃ e, timer = Some e ∧ e <= a + delay.

Definition within (timer : option Z) (jiffies delay : Z) : Prop := ∀ e, timer = Some e → jiffies <= e <= jiffies + delay.

Record timers_inv (j : Z) (p : peer_timers) : Prop := {
  ti_unanswered : held (unanswered p) (pt_send_keepalive p) (KEEPALIVE_TIMEOUT * HZ);
  ti_unheard : held (unheard p) (pt_new_handshake p) ((KEEPALIVE_TIMEOUT + REKEY_TIMEOUT) * HZ + REKEY_TIMEOUT_JITTER_MAX_JIFFIES);
  ti_initiated : held (initiated p) (pt_retransmit_handshake p) (REKEY_TIMEOUT * HZ + REKEY_TIMEOUT_JITTER_MAX_JIFFIES);
  ti_keyed : held (keyed p) (pt_zero_key_material p) (REJECT_AFTER_TIME * 3 * HZ);
  ti_active : pt_persistent_keepalive_interval p ≠ 0 →
    held (active p) (pt_persistent_keepalive p) (pt_persistent_keepalive_interval p * HZ);
  ti_quiet : armable p = false → unanswered p = None ∧ unheard p = None ∧ initiated p = None ∧ keyed p = None ∧ active p = None;
  ti_keepalive : within (pt_send_keepalive p) j (KEEPALIVE_TIMEOUT * HZ);
  ti_new : within (pt_new_handshake p) j ((KEEPALIVE_TIMEOUT + REKEY_TIMEOUT) * HZ + REKEY_TIMEOUT_JITTER_MAX_JIFFIES);
  ti_retransmit : within (pt_retransmit_handshake p) j (REKEY_TIMEOUT * HZ + REKEY_TIMEOUT_JITTER_MAX_JIFFIES);
  ti_zero : within (pt_zero_key_material p) j (REJECT_AFTER_TIME * 3 * HZ);
  ti_persistent : within (pt_persistent_keepalive p) j (pt_persistent_keepalive_interval p * HZ);
  ti_interval : 0 <= pt_persistent_keepalive_interval p;
  ti_attempts : 0 <= pt_handshake_attempts p <= MAX_TIMER_HANDSHAKES + 1;
}.

Hypothesis HHZ : 0 < HZ.

Lemma jitter_nonneg : 0 <= REKEY_TIMEOUT_JITTER_MAX_JIFFIES.
Proof. unfold REKEY_TIMEOUT_JITTER_MAX_JIFFIES. apply Z.div_pos; lia. Qed.

Lemma held_none t d : held None t d.
Proof. by intros a. Qed.

Lemma held_quiet w t d : w = None → held w t d.
Proof. intros ->. apply held_none. Qed.

Lemma within_none j d : within None j d.
Proof. by intros a. Qed.

(** A timer set now for the delay. *)
Lemma held_now j e d : e <= j + d → held (Some j) (Some e) d.
Proof. intros He a [= <-]. by exists e. Qed.

Lemma within_now j e d : j <= e <= j + d → within (Some e) j d.
Proof. by intros He ? [= <-]. Qed.

(** A wait that starts now while the timer is pending already, and one that starts
    it. *)
Lemma held_pending j e d w : within (Some e) j d → held w (Some e) d → held (Some (default j w)) (Some e) d.
Proof.
  intros Hw Hh a [= <-]. destruct w as [b|]; [by apply Hh|]. exists e. split; [done|]. by destruct (Hw e eq_refl).
Qed.

Lemma held_not_pending j e d w : e <= j + d → held w None d → held (Some (default j w)) (Some e) d.
Proof. intros He Hh a [= <-]. destruct w as [b|]; [by destruct (Hh b eq_refl) as (?&?&_)|]. by exists e. Qed.

#[local] Hint Resolve held_none within_none held_now within_now held_pending held_not_pending : timers.

Ltac timer_lia :=
  pose proof jitter_nonneg; unfold KEEPALIVE_TIMEOUT, REKEY_TIMEOUT, REJECT_AFTER_TIME in *; lia.

#[local] Hint Extern 2 (_ <= _) => timer_lia : timers.
#[local] Hint Extern 2 (_ <= _ <= _) => timer_lia : timers.

Lemma note_on e j p : armable p = true → note e j p = p{{ pt_trace ::= cons (j, e) }}.
Proof. unfold note. by intros ->. Qed.

Lemma note_off e j p : armable p = false → note e j p = p.
Proof. unfold note. by intros ->. Qed.

Lemma mod_on timer e p : armable p = true → mod_peer_timer timer e p = timer (Some e) p.
Proof. unfold mod_peer_timer. by intros ->. Qed.

Lemma mod_off timer e p : armable p = false → mod_peer_timer timer e p = p.
Proof. unfold mod_peer_timer. by intros ->. Qed.

(** The clauses of the invariant for a state whose trace and timers are known. *)
Ltac timer_clauses Hinv :=
  destruct Hinv; split; try assumption; cbn in *;
  repeat match goal with H : pt_send_keepalive _ = _ |- _ => rewrite H in * | H : pt_new_handshake _ = _ |- _ => rewrite H in *
                       | H : pt_zero_key_material _ = _ |- _ => rewrite H in * end;
  auto with timers;
  try match goal with
      | Hon : armable ?p = true |- armable _ = false → _ =>
          let Hq := fresh in intros Hq; change (armable p = false) in Hq; congruence
      end.

Lemma inv_data_sent j random p :
  timers_inv j p → 0 <= random <= REKEY_TIMEOUT_JITTER_MAX_JIFFIES → timers_inv j (wg_timers_data_sent j random p).
Proof.
  intros Hinv Hr. unfold wg_timers_data_sent. destruct (armable p) eqn:Ha.
  - rewrite note_on by done. change (pt_new_handshake (set pt_trace _ p)) with (pt_new_handshake p).
    destruct (pt_new_handshake p) as [e|] eqn:Hn; [|rewrite mod_on by done]; timer_clauses Hinv.
  - rewrite note_off, mod_off by done. by destruct (pt_new_handshake p).
Qed.

Lemma inv_data_received j p : timers_inv j p → timers_inv j (wg_timers_data_received j p).
Proof.
  intros Hinv. unfold wg_timers_data_received. destruct (armable p) eqn:Ha.
  - assert (Hrun : pt_running p = true) by (unfold armable in Ha; by destruct (pt_running p)).
    rewrite note_on by done. change (pt_running (set pt_trace _ p)) with (pt_running p). rewrite Hrun.
    change (pt_send_keepalive (set pt_trace _ p)) with (pt_send_keepalive p).
    destruct (pt_send_keepalive p) as [e|] eqn:Hn; [|rewrite mod_on by done]; timer_clauses Hinv.
  - rewrite note_off, mod_off by done. destruct (pt_running p); [|done]. destruct (pt_send_keepalive p); [|done]. by destruct Hinv.
Qed.

Lemma inv_any_sent j p : timers_inv j p → timers_inv j (wg_timers_any_authenticated_packet_sent j p).
Proof.
  intros Hinv. unfold wg_timers_any_authenticated_packet_sent, send_keepalive. destruct (armable p) eqn:Ha.
  - rewrite note_on by done. timer_clauses Hinv.
  - rewrite note_off by done. destruct (ti_quiet _ _ Hinv Ha) as (E&_). timer_clauses Hinv; by apply held_quiet.
Qed.

Lemma inv_any_received j p : timers_inv j p → timers_inv j (wg_timers_any_authenticated_packet_received j p).
Proof.
  intros Hinv. unfold wg_timers_any_authenticated_packet_received, new_handshake. destruct (armable p) eqn:Ha.
  - rewrite note_on by done. timer_clauses Hinv.
  - rewrite note_off by done. destruct (ti_quiet _ _ Hinv Ha) as (_&E&_). timer_clauses Hinv; by apply held_quiet.
Qed.

Lemma inv_initiated j random p :
  timers_inv j p → 0 <= random <= REKEY_TIMEOUT_JITTER_MAX_JIFFIES → timers_inv j (wg_timers_handshake_initiated j random p).
Proof.
  intros Hinv Hr. unfold wg_timers_handshake_initiated, retransmit_handshake. destruct (armable p) eqn:Ha.
  - rewrite note_on, mod_on by done. timer_clauses Hinv.
  - by rewrite note_off, mod_off.
Qed.

Lemma inv_complete j p : timers_inv j p → timers_inv j (wg_timers_handshake_complete j p).
Proof.
  intros Hinv. unfold wg_timers_handshake_complete, retransmit_handshake. destruct (armable p) eqn:Ha.
  - rewrite note_on by done. timer_clauses Hinv.
  - rewrite note_off by done. destruct (ti_quiet _ _ Hinv Ha) as (_&_&E&_). timer_clauses Hinv; by apply held_quiet.
Qed.

Lemma inv_derived j p : timers_inv j p → timers_inv j (wg_timers_session_derived j p).
Proof.
  intros Hinv. unfold wg_timers_session_derived, zero_key_material. destruct (armable p) eqn:Ha.
  - rewrite note_on, mod_on by done. timer_clauses Hinv.
  - by rewrite note_off, mod_off.
Qed.

Lemma inv_traversal j p : timers_inv j p → timers_inv j (wg_timers_any_authenticated_packet_traversal j p).
Proof.
  intros Hinv. unfold wg_timers_any_authenticated_packet_traversal, persistent_keepalive.
  destruct (Z.eqb_spec (pt_persistent_keepalive_interval p) 0); [done|]. destruct (armable p) eqn:Ha.
  - rewrite note_on, mod_on by done. timer_clauses Hinv.
  - by rewrite note_off, mod_off.
Qed.

#[local] Hint Resolve inv_data_sent inv_data_received inv_any_sent inv_any_received inv_initiated inv_complete inv_derived
  inv_traversal : timers.

(** Fields the invariant does not speak of. *)
Lemma inv_queue_work j p b : timers_inv j p → timers_inv j (p{{ pt_transmit_handshake_work := b }}).
Proof. intros Hinv. timer_clauses Hinv. Qed.

Lemma inv_last_sent j p t : timers_inv j p → timers_inv j (p{{ pt_last_sent_handshake := t }}).
Proof. intros Hinv. timer_clauses Hinv. Qed.

Lemma inv_staged j p q : timers_inv j p → timers_inv j (p{{ pt_staged_packet_queue := q }}).
Proof. intros Hinv. timer_clauses Hinv. Qed.

Lemma inv_lastminute j p b : timers_inv j p → timers_inv j (p{{ pt_sent_lastminute_handshake := b }}).
Proof. intros Hinv. timer_clauses Hinv. Qed.

Lemma inv_need_another j p b : timers_inv j p → timers_inv j (p{{ pt_need_another_keepalive := b }}).
Proof. intros Hinv. timer_clauses Hinv. Qed.

Lemma inv_clear_work j p b : timers_inv j p → timers_inv j (p{{ pt_clear_peer_work := b }}).
Proof. intros Hinv. timer_clauses Hinv. Qed.

Lemma inv_attempts j p n : timers_inv j p → 0 <= n <= MAX_TIMER_HANDSHAKES + 1 → timers_inv j (p{{ pt_handshake_attempts := n }}).
Proof. intros Hinv Hn. timer_clauses Hinv. Qed.

#[local] Hint Resolve inv_queue_work inv_last_sent inv_staged inv_lastminute inv_need_another inv_clear_work : timers.

(** Asking for an initiation ends the wait of the timers that ask for one, so they
    may have been removed before. *)
Lemma inv_note_initiation j p :
  timers_inv j p →
  timers_inv j (note EvInitiation j p) ∧ timers_inv j (note EvInitiation j (new_handshake None p)) ∧
  timers_inv j (note EvInitiation j (retransmit_handshake None p)).
Proof.
  intros Hinv. unfold new_handshake, retransmit_handshake. destruct (armable p) eqn:Ha.
  - rewrite !note_on by done. split_and!; timer_clauses Hinv.
  - rewrite !note_off by done. destruct (ti_quiet _ _ Hinv Ha) as (_&E1&E2&_).
    split_and!; timer_clauses Hinv; by apply held_quiet.
Qed.

Lemma inv_queue_rest (is_retry : bool) j p :
  timers_inv j (note EvInitiation j p) → timers_inv j (wg_packet_send_queued_handshake_initiation is_retry j p).
Proof.
  intros Hinv. unfold wg_packet_send_queued_handshake_initiation. set (q := note EvInitiation j p) in *. cbn zeta.
  assert (Hq : timers_inv j (if is_retry then q else q{{ pt_handshake_attempts := 0 }})).
  { destruct is_retry; [done|]. apply inv_attempts; [done|]. by vm_compute. }
  case_if; auto with timers.
Qed.

Lemma inv_queue is_retry j p : timers_inv j p → timers_inv j (wg_packet_send_queued_handshake_initiation is_retry j p).
Proof. intros Hinv. by apply inv_queue_rest, inv_note_initiation. Qed.

#[local] Hint Resolve inv_queue : timers.

Lemma inv_send_staged key j p : timers_inv j p → timers_inv j (send_staged_packets key j p).
Proof. intros Hinv. unfold send_staged_packets. destruct (pt_staged_packet_queue p), key; auto with timers. Qed.

#[local] Hint Resolve inv_send_staged : timers.

(** Likewise for keepalives. *)
Lemma inv_note_keepalive j p :
  timers_inv j p →
  timers_inv j (note EvKeepalive j p) ∧ timers_inv j (note EvKeepalive j (send_keepalive None p)) ∧
  timers_inv j (note EvKeepalive j (persistent_keepalive None p)).
Proof.
  intros Hinv. unfold send_keepalive, persistent_keepalive. destruct (armable p) eqn:Ha.
  - rewrite !note_on by done. split_and!; timer_clauses Hinv.
  - rewrite !note_off by done. destruct (ti_quiet _ _ Hinv Ha) as (E1&_&_&_&E2).
    split_and!; timer_clauses Hinv; intros; by apply held_quiet.
Qed.

Lemma inv_keepalive_rest ka key j p :
  timers_inv j (note EvKeepalive j p) → timers_inv j (wg_packet_send_keepalive ka key j p).
Proof.
  intros Hinv. unfold wg_packet_send_keepalive. set (q := note EvKeepalive j p) in *. cbn zeta.
  destruct (pt_staged_packet_queue q), ka; auto with timers.
Qed.

Lemma inv_send_keepalive ka key j p : timers_inv j p → timers_inv j (wg_packet_send_keepalive ka key j p).
Proof. intros Hinv. by apply inv_keepalive_rest, inv_note_keepalive. Qed.

#[local] Hint Resolve inv_send_keepalive : timers.

(** ** Every step keeps the invariant *)
Lemma inv_retransmit j p :
  timers_inv j p → timers_inv j (wg_expired_retransmit_handshake j (retransmit_handshake None p)).
Proof.
  intros Hinv. unfold wg_expired_retransmit_handshake.
  change (pt_handshake_attempts (retransmit_handshake None p)) with (pt_handshake_attempts p).
  destruct (Z.ltb_spec MAX_TIMER_HANDSHAKES (pt_handshake_attempts p)).
  - unfold send_keepalive, wg_packet_purge_staged_packets, retransmit_handshake. destruct (armable p) eqn:Ha.
    + rewrite note_on by done. cbn [pt_zero_key_material].
      match goal with |- context [match ?t with Some _ => _ | None => _ end] => change t with (pt_zero_key_material p) end.
      destruct (pt_zero_key_material p) as [e|] eqn:Hz; [|rewrite mod_on by done; unfold zero_key_material]; timer_clauses Hinv.
      all: intros a [= <-]; exists e; split; [done|]; by destruct (ti_zero0 e eq_refl).
    + rewrite note_off, mod_off by done. destruct (ti_quiet _ _ Hinv Ha) as (E1&_&E2&_).
      match goal with |- context [match ?t with Some _ => _ | None => _ end] => destruct t end; timer_clauses Hinv; by apply held_quiet.
  - apply inv_queue_rest. set (q := p{{ pt_handshake_attempts ::= λ n, n + 1 }}).
    change ((retransmit_handshake None p){{ pt_handshake_attempts ::= λ n, n + 1 }}) with (retransmit_handshake None q).
    apply inv_note_initiation. apply (inv_attempts j p (pt_handshake_attempts p + 1) Hinv). pose proof (ti_attempts _ _ Hinv). lia.
Qed.

Lemma inv_zero j p : timers_inv j p → timers_inv j (wg_expired_zero_key_material j (zero_key_material None p)).
Proof.
  intros Hinv. unfold wg_expired_zero_key_material, zero_key_material. cbn zeta. destruct (armable p) eqn:Ha.
  - rewrite note_on by done. case_if; timer_clauses Hinv.
  - rewrite note_off by done. destruct (ti_quiet _ _ Hinv Ha) as (_&_&_&E&_). case_if; timer_clauses Hinv; by apply held_quiet.
Qed.

Lemma unanswered_queue is_retry j p :
  unanswered (wg_packet_send_queued_handshake_initiation is_retry j p) = unanswered p.
Proof.
  unfold wg_packet_send_queued_handshake_initiation, note. cbn zeta.
  destruct is_retry, (armable p); case_if; done.
Qed.

Lemma unanswered_send_staged key j p : unanswered (send_staged_packets key j p) = unanswered p.
Proof. unfold send_staged_packets. destruct (pt_staged_packet_queue p), key; [done..|]. apply unanswered_queue. Qed.

Lemma unanswered_keepalive ka key j p :
  (armable p = false → unanswered p = None) → unanswered (wg_packet_send_keepalive ka key j p) = None.
Proof.
  intros Hq. assert (Hn : unanswered (note EvKeepalive j p) = None).
  { destruct (armable p) eqn:Ha; [by rewrite note_on|]. rewrite note_off by done. by apply Hq. }
  unfold wg_packet_send_keepalive. cbn zeta. set (q := note EvKeepalive j p) in *. clearbody q.
  destruct (pt_staged_packet_queue q), ka; rewrite ?unanswered_send_staged; done.
Qed.

Lemma inv_expired_keepalive ka key j p :
  timers_inv j p → timers_inv j (wg_expired_send_keepalive ka key j (send_keepalive None p)).
Proof.
  intros Hinv. unfold wg_expired_send_keepalive.
  assert (Hk : timers_inv j (wg_packet_send_keepalive ka key j (send_keepalive None p))) by (by apply inv_keepalive_rest, inv_note_keepalive).
  assert (Hu : unanswered (wg_packet_send_keepalive ka key j (send_keepalive None p)) = None)
    by (apply unanswered_keepalive; exact (λ Ha, proj1 (ti_quiet _ _ Hinv Ha))).
  set (q := wg_packet_send_keepalive ka key j (send_keepalive None p)) in *. clearbody q. cbn zeta.
  case_if; [|done]. destruct (armable q) eqn:Ha; [|rewrite mod_off by done; auto with timers].
  rewrite mod_on by done. unfold send_keepalive. clear Hinv. timer_clauses Hk. by apply held_quiet.
Qed.

Lemma inv_expired_persistent ka key j p :
  timers_inv j p → timers_inv j (wg_expired_send_persistent_keepalive ka key j (persistent_keepalive None p)).
Proof.
  intros Hinv. unfold wg_expired_send_persistent_keepalive.
  change (pt_persistent_keepalive_interval (persistent_keepalive None p)) with (pt_persistent_keepalive_interval p).
  destruct (Z.eqb_spec (pt_persistent_keepalive_interval p) 0) as [Hz|].
  - unfold persistent_keepalive. timer_clauses Hinv; by intros [].
  - by apply inv_keepalive_rest, inv_note_keepalive.
Qed.

Lemma inv_create_data_done data stale j random p :
  timers_inv j p → 0 <= random <= REKEY_TIMEOUT_JITTER_MAX_JIFFIES → timers_inv j (wg_packet_create_data_done data stale j random p).
Proof. intros Hinv Hr. unfold wg_packet_create_data_done. destruct data, stale; auto with timers. Qed.

Lemma inv_packet_received confirmed key stale data j p :
  timers_inv j p → timers_inv j (packet_received confirmed key stale data j p).
Proof.
  intros Hinv. unfold packet_received. set (p1 := if confirmed then _ else p).
  assert (H1 : timers_inv j p1) by (destruct confirmed; subst p1; auto with timers). clearbody p1. cbn zeta.
  set (p2 := if negb _ && stale then _ else p1).
  assert (H2 : timers_inv j p2) by (subst p2; case_if; auto with timers). clearbody p2. destruct data; auto with timers.
Qed.

Lemma inv_send_initiation create j random p :
  timers_inv j p → 0 <= random <= REKEY_TIMEOUT_JITTER_MAX_JIFFIES → timers_inv j (wg_packet_send_handshake_initiation create j random p).
Proof. intros Hinv Hr. unfold wg_packet_send_handshake_initiation. case_if; [done|]. destruct create; cbn [negb]; auto 10 with timers. Qed.

Lemma inv_response_sent create begin j p : timers_inv j p → timers_inv j (wg_packet_send_handshake_response create begin j p).
Proof. intros Hinv. unfold wg_packet_send_handshake_response. destruct (create && begin); auto 10 with timers. Qed.

#[local] Hint Resolve inv_response_sent inv_send_initiation : timers.

(** Going down ends all waits, and nothing starts one until the device is up. *)
Lemma inv_down j p : timers_inv j p → timers_inv j ((note EvDown j p){{ pt_running := false }}).
Proof.
  intros Hinv. destruct (armable p) eqn:Ha; [rewrite note_on by done|rewrite note_off by done];
    [|pose proof (ti_quiet _ _ Hinv Ha)]; timer_clauses Hinv.
Qed.

Lemma inv_kill j p : timers_inv j p → timers_inv j ((note EvDown j p){{ pt_is_dead := true }}).
Proof.
  intros Hinv. destruct (armable p) eqn:Ha; [rewrite note_on by done|rewrite note_off by done];
    [|pose proof (ti_quiet _ _ Hinv Ha)]; timer_clauses Hinv.
Qed.

Lemma inv_stop j p t :
  timers_inv j p → pt_running p = false →
  timers_inv j ((wg_timers_stop (wg_packet_purge_staged_packets p)){{ pt_last_sent_handshake := t }}).
Proof.
  intros Hinv Hr. assert (Ha : armable p = false) by (unfold armable; by rewrite Hr).
  destruct (ti_quiet _ _ Hinv Ha) as (E1&E2&E3&E4&E5). timer_clauses Hinv; intros; by apply held_quiet.
Qed.

Lemma inv_up j p : timers_inv j p → timers_inv j (p{{ pt_running := true }}).
Proof.
  intros Hinv. pose proof (ti_quiet _ _ Hinv) as Hq. timer_clauses Hinv. intros Ha. apply Hq. unfold armable in *. cbn in Ha.
  rewrite Ha. apply andb_false_r.
Qed.

Lemma inv_tick j p : timers_inv j p → any_due j p = false → timers_inv (j + 1) p.
Proof.
  intros Hinv Hdue. unfold any_due in Hdue. rewrite !orb_false_iff in Hdue. destruct Hdue as [[[[D1 D2] D3] D4] D5].
  assert (Hw : ∀ t d, within t j d → due j t = false → within t (j + 1) d).
  { intros t d Ht Hd e ->. cbn in Hd. apply Z.leb_gt in Hd. specialize (Ht e eq_refl). lia. }
  destruct Hinv. split; auto.
Qed.

#[local] Hint Resolve inv_down inv_kill inv_stop inv_up inv_tick inv_zero inv_retransmit inv_expired_keepalive
  inv_expired_persistent inv_create_data_done inv_packet_received : timers.

Lemma timer_step_inv w o : timers_inv w.1 w.2 → timer_op_ok o → timers_inv (timer_step w o).1 (timer_step w o).2.
Proof.
  destruct w as [j p]. cbn [fst snd]. intros Hinv Hok.
  destruct o; cbn [timer_step timer_op_ok] in *; try case_if; cbn [fst snd]; auto with timers.
  - by apply inv_queue_rest, inv_note_initiation.
  - unfold wg_queued_expired_zero_key_material. auto with timers.
  - unfold wg_packet_handshake_send_worker. auto with timers.
  - unfold stage_user_packets. auto with timers.
  - unfold initiation_received. auto with timers.
  - unfold response_received. destruct begin; auto 10 with timers.
Qed.

Lemma timer_run_inv w os :
  timers_inv w.1 w.2 → Forall timer_op_ok os → timers_inv (foldl timer_step w os).1 (foldl timer_step w os).2.
Proof.
  revert w. induction os as [|o os IH]; intros w Hinv Hok; [done|]. apply Forall_cons in Hok as [Ho Hok].
  apply IH; [by apply timer_step_inv|done].
Qed.

(** A pending timer is not overdue, so a wait it belongs to is not too long. *)
Lemma held_within since t j d d' : held since t d → within t j d' → ∀ a, since = Some a → j <= a + d.
Proof. intros Hh Hw a Ha. destruct (Hh a Ha) as (e&->&He). destruct (Hw e eq_refl). lia. Qed.

(** A peer whose timers have been set up, before anything happened. *)
Definition fresh_peer (interval last_sent : Z) (running : bool) : peer_timers :=
  wg_timers_init (mk_peer_timers None None None None None 0 false false last_sent interval running false false false [] []).

Lemma fresh_inv j interval last_sent running : 0 <= interval → timers_inv j (fresh_peer interval last_sent running).
Proof. intros Hi. split; first [exact (held_none _ _)|exact (within_none _ _)|intros _; exact (held_none _ _)|done|by vm_compute]. Qed.

End timers.

(** Data comes in, and time stops when the keepalive is due. *)
Definition some_silence : list timer_op := TPacketReceived false true false true :: replicate 150 TTick.

