(* ===== verification/DataPathSpec.v ===== *)
(** * What is delivered, and how often (kernel/receive.c)

    A packet that reaches the network stack was encrypted with the session of a
    peer and comes from an address of that peer; and no message of a session counts
    twice, whatever else happens to the sessions in between. *)
From stdpp Require Import prelude list gmap.
From S2P Require Import Prelude Skb Net FakeHeaders RxHeader.
From S2P Require Import AllowedIps AllowedIpsTable PeerLookup Crypto Replay Noise Keypairs Handshake DataPath Nonces.

#[local] Open Scope Z_scope.

Section spec.
Context {C : Crypto} {T : IpTunnel} {S : SkbCrypt}.

(** ** The counters of received messages

    Sessions of [st'] are sessions of [st] with their numbers and windows. *)
Definition rkeeps (st st' : kstore) : Prop :=
  kt_counter st' = kt_counter st ∧
  ∀ k kp', kt_heap st' !! k = Some kp' → ∃ kp, kt_heap st !! k = Some kp ∧
    kp_internal_id kp' = kp_internal_id kp ∧ kp_receiving_counter kp' = kp_receiving_counter kp.

Lemma keeps_rkeeps st st' : preserves st st' → rkeeps st st'.
Proof. intros [Hc Hk]. split; [done|]. intros k kp' H. destruct (Hk k kp' H) as (kp&?&?&?&?&?). by exists kp. Qed.

Lemma rkeeps_refl st : rkeeps st st.
Proof. apply keeps_rkeeps, preserves_refl. Qed.

Lemma rkeeps_trans st1 st2 st3 : rkeeps st1 st2 → rkeeps st2 st3 → rkeeps st1 st3.
Proof.
  intros [C1 H1] [C2 H2]. split; [congruence|]. intros k kp3 Hk.
  destruct (H2 k kp3 Hk) as (kp2&Hk2&I2&R2). destruct (H1 k kp2 Hk2) as (kp1&Hk1&I1&R1). exists kp1. split_and!; congruence.
Qed.

Lemma rkeeps_alter st k f :
  (∀ kp, kt_heap st !! k = Some kp → kp_internal_id (f kp) = kp_internal_id kp ∧ kp_receiving_counter (f kp) = kp_receiving_counter kp) →
  rkeeps st (set_keypair k f st).
Proof.
  intros Hf. split; [done|]. intros j kj. cbn. rewrite lookup_alter_Some. intros [(<-&q&Hq&->)|[_ Hj]]; [|by exists kj].
  exists q. split; [done|]. by apply Hf.
Qed.

Lemma set_keypair_ext st k f g :
  (∀ kp, kt_heap st !! k = Some kp → f kp = g kp) → set_keypair k f st = set_keypair k g st.
Proof.
  intros Hfg. assert (He : alter f k (kt_heap st) = alter g k (kt_heap st)); [|unfold set_keypair, set; cbn; by rewrite He].
  apply map_eq. intros j. destruct (decide (j = k)) as [->|Hne]; [|by rewrite !lookup_alter_ne by congruence].
  rewrite !lookup_alter_eq. destruct (kt_heap st !! k) eqn:Hk; [|done]. cbn. f_equal. by apply Hfg.
Qed.

(** The session [k] has seen the counter [n]. *)
Definition validated (k n : Z) (st : kstore) : kstore :=
  set_keypair k (λ kp, kp{{ kp_receiving_counter ::= λ rc, (counter_validate rc n).2 }}) st.

Definition the_counter (skb : sk_buff) : Z := le_val (field 8 8 (skb_data skb)).
Definition the_index (skb : sk_buff) : Z := le_val (field 4 4 (skb_data skb)).

Lemma consume_rkeeps peer k skb d :
  rkeeps (dd_store d) (dd_store (wg_packet_consume_data_done peer k skb d).2) ∧
  dd_allowed (wg_packet_consume_data_done peer k skb d).2 = dd_allowed d ∧
  (wg_packet_consume_data_done peer k skb d).1 = inspect_packet (dd_allowed d) peer skb.
Proof.
  unfold wg_packet_consume_data_done. destruct (nd_peers (dd_noise d) !! peer) as [p|]; [|split; [apply rkeeps_refl|done]].
  unfold wg_noise_received_with_keypair, received_locked.
  repeat case_match; simplify_eq; (split; [|done]); cbn; first [apply rkeeps_refl|apply keeps_rkeeps, put_keeps].
Qed.

Lemma rx_packet_effect peer k skb d :
  let n := cb_nonce (PACKET_CB skb) in
  let '(r, d') := rx_packet peer k skb d in
  (r = None ∧ rkeeps (dd_store d) (dd_store d')) ∨
  rkeeps (validated k n (dd_store d)) (dd_store d') ∧
  ∀ ep v, r = Some (ep, v) → ∃ kp, kt_heap (dd_store d) !! k = Some kp ∧
    (counter_validate (kp_receiving_counter kp) n).1 = true ∧ wg_socket_endpoint_from_skb skb = Ok ep ∧
    v = inspect_packet (dd_allowed d) peer (wg_reset_packet skb).
Proof.
  intros n. unfold rx_packet. destruct (kt_heap (dd_store d) !! k) as [kp|] eqn:Hk; [|left; split; [done|apply rkeeps_refl]].
  fold n. destruct (counter_validate (kp_receiving_counter kp) n) as [ok rc] eqn:Hcv.
  set (d1 := set_store _ d). assert (Hd1 : dd_store d1 = validated k n (dd_store d)).
  { apply (set_keypair_ext (dd_store d)). intros q Hq. assert (q = kp) as -> by congruence.
    unfold set. cbn. by rewrite Hcv. }
  assert (Ha : dd_allowed d1 = dd_allowed d) by done. clearbody d1. destruct ok; cbn [negb].
  2: { right. rewrite Hd1. split; [apply rkeeps_refl|done]. }
  destruct (wg_socket_endpoint_from_skb skb) as [ep|e] eqn:Hep.
  2: { right. rewrite Hd1. split; [apply rkeeps_refl|done]. }
  destruct (consume_rkeeps peer k (wg_reset_packet skb) d1) as (Hc&_&Hv).
  destruct (wg_packet_consume_data_done _ _ _ _) as [v d2]. cbn [fst snd] in *. right. rewrite <- Hd1. split; [done|].
  intros ep' v' [= <- <-]. exists kp. rewrite Hv, Ha, Hcv. split_and!; reflexivity.
Qed.

Lemma pull_data s n : skb_data (skb_pull s n) = if skb_len s <? n then skb_data s else zdrop n (skb_data s).
Proof. unfold skb_pull. by case_if. Qed.

Lemma pull_cb s n : PACKET_CB (skb_pull s n) = PACKET_CB s.
Proof. unfold skb_pull. by case_if. Qed.

Lemma decrypt_session now skb kp :
  same_session kp (decrypt_packet now skb kp).2.
Proof. unfold decrypt_packet. repeat case_match; done. Qed.

Lemma decrypt_ok now skb kp skb' kp' :
  decrypt_packet now skb kp = (Some skb', kp') →
  kp' = kp ∧ cb_nonce (PACKET_CB skb') = the_counter skb ∧
  sk_is_valid (kp_receiving kp) = true ∧
  wg_birthdate_has_expired (sk_birthdate (kp_receiving kp)) REJECT_AFTER_TIME now = false ∧
  chacha20poly1305_decrypt (sk_key (kp_receiving kp)) (the_counter skb) [] (skb_data (skb_pull skb sizeof_message_data))
    = Some (skb_data skb').
Proof.
  unfold decrypt_packet. destruct (negb _ || _ || _) eqn:Hg; [done|]. simpl_guards.
  destruct (negb (skb_cow_data _)); [done|]. destruct (negb (skb_to_sgvec _)); [done|].
  destruct (chacha20poly1305_decrypt _ _ _ _) as [pl|] eqn:Hd; [|done]. intros [= <- <-].
  destruct Hg as [[Hv He] _]. rewrite pull_data in Hd. split_and!; [done| |done|done|rewrite pull_data; exact Hd].
  transitivity (cb_nonce (PACKET_CB (skb_pull (skb{{ PACKET_CB ::= λ cb, cb{{ cb_nonce := the_counter skb }} }}) sizeof_message_data)));
    [done|by rewrite pull_cb].
Qed.

Lemma get_same k st k' st' kp' :
  wg_noise_keypair_get (Some k) st = (Some k', st') → kt_heap st' !! k = Some kp' →
  ∃ kp, kt_heap st !! k = Some kp ∧ kp_receiving kp' = kp_receiving kp ∧ kp_receiving_counter kp' = kp_receiving_counter kp.
Proof.
  unfold wg_noise_keypair_get. destruct (kt_heap st !! k) as [kp|] eqn:Hk; [|done]. case_if; [done|].
  intros [= <- <-]. cbn. rewrite lookup_insert_eq. intros [= <-]. by exists kp.
Qed.

Lemma validated_rkeeps k n st st' : rkeeps st st' → rkeeps (validated k n st) (validated k n st').
Proof.
  intros [Hc Hk]. split; [done|]. intros j kj. cbn. rewrite lookup_alter_Some. intros [(<-&q&Hq&->)|[Hne Hj]].
  - destruct (Hk k q Hq) as (p&Hp&HI&HR). eexists. rewrite lookup_alter_eq, Hp. split; [done|]. cbn. by rewrite HR.
  - destruct (Hk j kj Hj) as (p&Hp&HI&HR). exists p. by rewrite lookup_alter_ne.
Qed.

(** What becomes of the sessions when a message arrives: nothing that matters
    here, or the session it names has seen its counter. *)
Lemma receive_effect alive now queued skb d :
  let n := the_counter skb in
  let '(r, d') := receive_data alive now queued skb d in
  (r = None ∧ rkeeps (dd_store d) (dd_store d')) ∨
  ∃ peer k kp, wg_index_hashtable_lookup alive INDEX_HASHTABLE_KEYPAIR (the_index skb) (kt_index (dd_store d)) = Some (EntKeypair peer k) ∧
    kt_heap (dd_store d) !! k = Some kp ∧ rkeeps (validated k n (dd_store d)) (dd_store d') ∧
    ∀ ep v, r = Some (ep, v) → (counter_validate (kp_receiving_counter kp) n).1 = true ∧
      sk_is_valid (kp_receiving kp) = true ∧
      wg_birthdate_has_expired (sk_birthdate (kp_receiving kp)) REJECT_AFTER_TIME now = false ∧
      ∃ inner, chacha20poly1305_decrypt (sk_key (kp_receiving kp)) n [] (skb_data (skb_pull skb sizeof_message_data)) = Some (skb_data inner) ∧
        wg_socket_endpoint_from_skb inner = Ok ep ∧ v = inspect_packet (dd_allowed d) peer (wg_reset_packet inner).
Proof.
  intros n. unfold receive_data.
  assert (Hput : ∀ k d, rkeeps (dd_store d) (dd_store (set_store (wg_noise_keypair_put (Some k) false) d)))
    by (intros k' d0; apply keeps_rkeeps, put_keeps).
  destruct (wg_index_hashtable_lookup _ _ _ _) as [[p0|peer k]|] eqn:Hl; [left; split; [done|apply rkeeps_refl]| |left; split; [done|apply rkeeps_refl]].
  destruct (wg_noise_keypair_get (Some k) (dd_store d)) as [[k'|] st] eqn:Hg; [|left; split; [done|apply rkeeps_refl]].
  set (d1 := set_store (λ _, st) d).
  assert (Hd1 : rkeeps (dd_store d) (dd_store d1)).
  { pose proof (get_keeps (Some k) (dd_store d)) as Hk. rewrite Hg in Hk. by apply keeps_rkeeps. }
  assert (Hst : dd_store d1 = st) by done. assert (Ha1 : dd_allowed d1 = dd_allowed d) by done.
  destruct (nd_peers (dd_noise d1) !! peer) as [p|]; [|left; split; [done|eapply rkeeps_trans; [done|apply Hput]]].
  destruct (np_is_dead p || negb queued); [left; split; [done|eapply rkeeps_trans; [done|apply Hput]]|].
  destruct (kt_heap (dd_store d1) !! k) as [kp1|] eqn:Hk1; [|by left].
  destruct (get_same k (dd_store d) k' st kp1 Hg) as (kp&Hk&HR&HC); [by rewrite <- Hst|].
  assert (Hd2 : rkeeps (dd_store d1) (dd_store (set_store (set_keypair k (λ _, (decrypt_packet now skb kp1).2)) d1))).
  { apply (rkeeps_alter (dd_store d1)). intros q Hq. assert (q = kp1) as -> by congruence. by destruct (decrypt_session now skb kp1) as (?&_&?&_). }
  destruct (decrypt_packet now skb kp1) as [[inner|] kp2] eqn:Hdec; cbn [fst snd] in Hd2;
    [|left; split; [done|eauto using rkeeps_trans]].
  set (d2 := set_store _ d1) in *. assert (Ha2 : dd_allowed d2 = dd_allowed d) by done.
  apply decrypt_ok in Hdec as (->&Hn&Hv&He&Hpl).
  assert (Hk2 : kt_heap (dd_store d2) !! k = Some kp1) 
    by (change (alter (λ _, kp1) k (kt_heap (dd_store d1)) !! k = Some kp1); by rewrite lookup_alter_eq, Hk1).
  clearbody d2. pose proof (rx_packet_effect peer k inner d2) as Hrx. cbn zeta in Hrx. rewrite Hn in Hrx. fold n in Hrx.
  destruct (rx_packet peer k inner d2) as [r d3]. destruct Hrx as [[-> Hd3]|[Hd3 Hr]]; [left; split; [done|eauto using rkeeps_trans]|].
  right. exists peer, k, kp. split_and!; [done|done| |].
  - eapply rkeeps_trans; [|apply Hput]. eapply rkeeps_trans; [|done]. apply validated_rkeeps. by eapply rkeeps_trans.
  - intros ep v ->. destruct (Hr ep v eq_refl) as (q&Hq&Hcv&Hep&->). assert (q = kp1) as -> by congruence.
    rewrite <- HC, <- HR, <- Ha2. split_and!; [done|done|done|]. by exists inner.
Qed.

(** ** Runs

    Messages arrive between the sections on sessions and the assignments of
    nonces; the device may change in every other way.  The log holds the session
    and the counter of every message that was accepted. *)
Definition accepted_message (alive : Z → bool) (skb : sk_buff) (d : data_device) (r : option (endpoint * rx_verdict)) : list (Z * Z) :=
  match r, wg_index_hashtable_lookup alive INDEX_HASHTABLE_KEYPAIR (the_index skb) (kt_index (dd_store d)) with
  | Some _, Some (EntKeypair _ k) => [(session_id (dd_store d) k, the_counter skb)]
  | _, _ => []
  end.

Inductive rx_run : nat → data_device → list (Z * Z) → Prop :=
  | rx_start d : dd_store d = kw_store kinit → rx_run 0 d []
  | rx_message i d log alive now queued skb r d' :
      rx_run i d log → Forall is_byte (skb_data skb) →
      receive_data alive now queued skb d = (r, d') →
      rx_run (i + 1) d' (log ++ accepted_message alive skb d r)
  | rx_section i d log w o d' :
      rx_run i d log → kw_store w = dd_store d → dd_store d' = kw_store (kstep w o) → rx_run (i + 1) d' log
  | rx_send i d log tcp now packets ks d' :
      rx_run i d log → dd_store d' = (wg_packet_send_staged_packets tcp now packets ks (dd_store d)).2 → rx_run (i + 1) d' log.

Record rinv (st : kstore) (log : list (Z * Z)) : Prop := {
  ri_counter : 0 <= kt_counter st;
  ri_ids : ∀ k kp, kt_heap st !! k = Some kp → 1 <= kp_internal_id kp <= kt_counter st;
  ri_distinct : ∀ k k' kp kp', kt_heap st !! k = Some kp → kt_heap st !! k' = Some kp' →
    kp_internal_id kp = kp_internal_id kp' → k = k';
  ri_log : ∀ id n, (id, n) ∈ log → id <= kt_counter st;
  ri_seen : ∀ k kp, kt_heap st !! k = Some kp → ∃ seen, represents seen (kp_receiving_counter kp) ∧
    ∀ n, (kp_internal_id kp, n) ∈ log → n ∈ seen;
  ri_nodup : NoDup log;
}.

Lemma rinv_rkeeps st st' log : rkeeps st st' → rinv st log → rinv st' log.
Proof.
  intros [Hc Hk] [N1 N2 N3 N4 N5 N6]. split; rewrite ?Hc; try done.
  - intros k kp' Hkp. destruct (Hk k kp' Hkp) as (kp&H&I&_). rewrite I. by eapply N2.
  - intros k k' kp kp' H1 H2 He. destruct (Hk k kp H1) as (q&G1&I1&_), (Hk k' kp' H2) as (q'&G2&I2&_).
    apply (N3 k k' q q'); [done|done|congruence].
  - intros k kp' Hkp. destruct (Hk k kp' Hkp) as (kp&H&I&->). rewrite I. by apply (N5 k kp).
Qed.

Lemma rinv_creates st st' log : creates st st' → kt_counter st + 1 < 2 ^ 64 → rinv st log → rinv st' log.
Proof.
  intros (Hc&k0&kp0&Hh&Hid&_&Hr) Hb [N1 N2 N3 N4 N5 N6].
  assert (Hu : u64 (kt_counter st + 1) = kt_counter st + 1) by (unfold u64, wrap; rewrite Z.mod_small; lia).
  rewrite Hu in Hc, Hid. split; rewrite ?Hc, ?Hh; try done.
  - lia.
  - intros k kp [[<- <-]|[_ Hk]]%lookup_insert_Some; [lia|]. specialize (N2 k kp Hk). lia.
  - intros k k' kp kp' [[<- <-]|[_ Hk]]%lookup_insert_Some [[<- <-]|[_ Hk']]%lookup_insert_Some He; [done| | |by eapply N3].
    + specialize (N2 k' kp' Hk'). lia.
    + specialize (N2 k kp Hk). lia.
  - intros id n Hin. specialize (N4 id n Hin). lia.
  - intros k kp [[<- <-]|[_ Hk]]%lookup_insert_Some; [|by eapply N5]. rewrite Hr. exists ∅. split; [apply represents_init|].
    intros n Hin. specialize (N4 _ n Hin). lia.
Qed.

Lemma spec_validate_cases seen n :
  (∀ m, m ∈ seen → m ∈ (spec_validate seen n).2) ∧
  ((spec_validate seen n).1 = true → (n ∉ seen) ∧ n ∈ (spec_validate seen n).2).
Proof.
  unfold spec_validate. case_if; cbn [fst snd]; (split; [set_solver|]); [|done]. intros _.
  rewrite !andb_true_iff in *. destruct_and!. case_bool_decide; [|done]. split; [done|set_solver].
Qed.

(** A session sees a counter; the counter is logged when it is new. *)
Lemma rinv_validated st log k kp n new :
  rinv st log → kt_heap st !! k = Some kp → 0 <= n < 2 ^ 64 →
  (new = [] ∨ new = [(kp_internal_id kp, n)] ∧ (counter_validate (kp_receiving_counter kp) n).1 = true) →
  rinv (validated k n st) (log ++ new).
Proof.
  intros [N1 N2 N3 N4 N5 N6] Hk Hn Hnew. destruct (N5 k kp Hk) as (seen&Hrep&Hseen).
  destruct (counter_validate_ok seen _ n Hrep Hn) as [Hok Hrep']. destruct (spec_validate_cases seen n) as [Hsub Hacc].
  assert (Hold : ∀ j kj, kt_heap (validated k n st) !! j = Some kj → ∃ q, kt_heap st !! j = Some q ∧ kp_internal_id kj = kp_internal_id q).
  { intros j kj. cbn. rewrite lookup_alter_Some. intros [(<-&q&Hq&->)|[_ Hj]]; [by exists q|by exists kj]. }
  assert (Hin : ∀ id m, (id, m) ∈ new → id = kp_internal_id kp ∧ m = n ∧ (n ∉ seen) ∧ n ∈ (spec_validate seen n).2).
  { destruct Hnew as [->|[-> Ht]]; intros id m Hm; [by apply elem_of_nil in Hm|]. apply list_elem_of_singleton in Hm as [= -> ->].
    rewrite Hok in Ht. by destruct (Hacc Ht). }
  split.
  - done.
  - intros j kj Hj. destruct (Hold j kj Hj) as (q&Hq&->). by apply (N2 j q).
  - intros j j' kj kj' Hj Hj' He. destruct (Hold j kj Hj) as (q&Hq&I1), (Hold j' kj' Hj') as (q'&Hq'&I2).
    apply (N3 j j' q q'); [done|done|congruence].
  - intros id m [Hm|Hm]%elem_of_app; [by eapply N4|]. destruct (Hin id m Hm) as (->&_). apply (N2 k kp Hk).
  - intros j kj. cbn. rewrite lookup_alter_Some. intros [(<-&q&Hq&->)|[Hne Hj]].
    + assert (q = kp) as -> by congruence. exists (spec_validate seen n).2. split; [done|].
      intros m [Hm|Hm]%elem_of_app; [by apply Hsub, Hseen|]. by destruct (Hin _ m Hm) as (_&->&_&?).
    + destruct (N5 j kj Hj) as (s&Hs&Hss). exists s. split; [done|]. intros m [Hm|Hm]%elem_of_app; [by apply Hss|].
      destruct (Hin _ m Hm) as (Hid&_). by destruct (Hne (N3 k j kp kj Hk Hj (eq_sym Hid))).
  - apply NoDup_app. split_and!; [done| |].
    + intros [id m] Hm Hm'. destruct (Hin id m Hm') as (->&->&Hno&_). by apply Hno, Hseen.
    + destruct Hnew as [->|[-> _]]; [apply NoDup_nil_2|apply NoDup_singleton].
Qed.

Lemma send_rkeeps tcp now l ks st : rkeeps st (wg_packet_send_staged_packets tcp now l ks st).2.
Proof.
  unfold wg_packet_send_staged_packets. destruct l as [|skb l]; [apply rkeeps_refl|].
  pose proof (keeps_rkeeps _ _ (get_keeps (ks_current_keypair ks) st)) as Hg.
  destruct (wg_noise_keypair_get _ st) as [[k|] st1]; cbn [snd] in Hg; [|done]. eapply rkeeps_trans; [exact Hg|].
  destruct (kt_heap st1 !! k) as [kp|]; [|apply rkeeps_refl].
  assert (Hput : ∀ st st', rkeeps st st' → rkeeps st (wg_noise_keypair_put (Some k) false st'))
    by (intros s s' H; eapply rkeeps_trans; [exact H|apply keeps_rkeeps, put_keeps]).
  destruct (negb _); [apply Hput, rkeeps_refl|].
  destruct (wg_birthdate_has_expired _ _ _); [by apply Hput, rkeeps_alter|].
  destruct (assign_nonces _ _ _) as [c [ps|]]; cbn [snd]; [by apply rkeeps_alter|].
  apply Hput. eapply rkeeps_trans; by apply rkeeps_alter.
Qed.

Lemma counter_range skb : Forall is_byte (skb_data skb) → 0 <= the_counter skb < 2 ^ 64.
Proof.
  intros Hb. unfold the_counter. set (l := field 8 8 (skb_data skb)).
  assert (Hl : Forall is_byte l) by (by apply Forall_take, Forall_drop).
  assert (zlen l <= 8) by (unfold l, field; rewrite zlen_ztake_min; lia).
  pose proof (le_val_range l Hl) as Hr. pose proof (Z.pow_le_mono_r 2 (8 * zlen l) 64 ltac:(lia) ltac:(lia)). lia.
Qed.

Lemma receive_rinv alive now queued skb d r d' log :
  rinv (dd_store d) log → Forall is_byte (skb_data skb) → receive_data alive now queued skb d = (r, d') →
  rinv (dd_store d') (log ++ accepted_message alive skb d r) ∧ kt_counter (dd_store d') = kt_counter (dd_store d).
Proof.
  intros Hi Hb Hr. pose proof (receive_effect alive now queued skb d) as He. cbn zeta in He. rewrite Hr in He.
  destruct He as [[-> Hk]|(peer&k&kp&Hl&Hk&Hkeep&Hok)].
  - cbn. rewrite app_nil_r. split; [by eapply rinv_rkeeps|apply Hk].
  - split; [|apply Hkeep]. eapply rinv_rkeeps; [exact Hkeep|]. eapply rinv_validated; [done|done|by apply counter_range|].
    unfold accepted_message. destruct r as [[ep v]|]; [right|by left]. rewrite Hl. unfold session_id. rewrite Hk. cbn.
    destruct (Hok ep v eq_refl) as [Hc _]. done.
Qed.

Lemma rx_run_rinv i d log :
  rx_run i d log → Z.of_nat i < 2 ^ 64 → rinv (dd_store d) log ∧ kt_counter (dd_store d) <= Z.of_nat i.
Proof.
  induction 1 as [d Hd|i d log alive now queued skb r d' Hrun IH Hb Hr|i d log w o d' Hrun IH Hw Hd'|i d log tcp now l ks d' Hrun IH Hd'];
    intros Hi; [rewrite Hd; split; [|done]|destruct (IH ltac:(lia)) as [Hinv Hc]..].
  - split; try done; [by intros id n ?%elem_of_nil|apply NoDup_nil_2].
  - destruct (receive_rinv _ _ _ _ _ _ _ _ Hinv Hb Hr) as [Hinv' ->]. split; [done|lia].
  - rewrite Hd'. rewrite <- Hw in Hinv, Hc. destruct (kstep_sessions w o) as [Hk|(st&Hcr&Hk)].
    + split; [by eapply rinv_rkeeps; [apply keeps_rkeeps|]|]. destruct Hk as [-> _]. lia.
    + split; [eapply rinv_rkeeps; [by apply keeps_rkeeps|]; eapply rinv_creates; [done|lia|done]|].
      destruct Hk as [-> _], Hcr as [-> _]. pose proof (ri_counter _ _ Hinv). unfold u64, wrap. rewrite Z.mod_small by lia. lia.
  - rewrite Hd'. pose proof (send_rkeeps tcp now l ks (dd_store d)) as Hk. split; [by eapply rinv_rkeeps|]. destruct Hk as [-> _]. lia.
Qed.

Lemma inspect_delivered allowed peer skb out :
  inspect_packet allowed peer skb = RxDelivered out → wg_allowedips_lookup_src allowed out = Some peer.
Proof. unfold inspect_packet. repeat case_if; try done; case_bool_decide; try done; by intros [= <-]. Qed.

End spec.

(** ** Examples: a device with a session, and a message of that session *)
#[local] Existing Instances toy_crypto plain_skb version_tunnel.

Definition example_sections : list kop :=
  [KHandshakeInsert 1 500; KAdd 1 (Some 10) false true 77 (replicate 32 5) 1000; KHash 1].

Definition example_world (n : nat) : kworld := foldl kstep kinit (take n example_sections).

Definition example_allowed : allowedips :=
  default wg_allowedips_init (snd <$> exec_all true [Insert true true 32 [10;0;0;0] 8 1] wg_allowedips_init).

Definition example_device (n : nat) : data_device :=
  mk_data_device
    (mk_noise_device (toy_identity 3) true
       {[ 1 := mk_noise_peer (wg_noise_handshake_init (toy_identity 3) (replicate 32 5) None) (slots (example_world n) 1) false 0 ]}
       ∅ (kw_store (example_world n)))
    example_allowed.

Definition example_packet : list Z := [69;0;0;40] ++ replicate 8 0 ++ [10;0;0;7] ++ [10;0;0;1] ++ replicate 20 9.

(** The other end of the session. *)
Definition example_sender : noise_keypair :=
  let '(first, second) := derive_keys (replicate 32 5) 1000 in mk_keypair 1 second 0 first replay_init 500 false 1 1.

Definition example_skb : sk_buff := mk_sk_buff [] example_packet 64 0 0 ETH_P_IP 0 packet_cb_zero.

Definition example_message : sk_buff :=
  mk_sk_buff ([69;0;0;100] ++ replicate 8 0 ++ [192;0;2;1] ++ [192;0;2;2] ++ [200;100;50;60;0;0;0;0])
    (default [] (skb_data <$> encrypt_packet example_skb example_sender)) 64 0 20 ETH_P_IP 7 packet_cb_zero.

Lemma example_run : rx_run 3 (example_device 3) [].
Proof.
  assert (H0 : rx_run 0 (example_device 0) []) by (by apply rx_start).
  assert (H1 : rx_run 1 (example_device 1) []) by (by eapply (rx_section 0 _ [] (example_world 0) (KHandshakeInsert 1 500))).
  assert (H2 : rx_run 2 (example_device 2) [])
    by (by eapply (rx_section 1 _ [] (example_world 1) (KAdd 1 (Some 10) false true 77 (replicate 32 5) 1000))).
  by eapply (rx_section 2 _ [] (example_world 2) (KHash 1)).
Qed.

