(* ===== verification/DataRoundtrip.v ===== *)
(** * The way of a packet between two peers (kernel/send.c, kernel/receive.c)

    What [encrypt_packet] makes of a packet at one end comes out of the receive
    path at the other end as the packet, its padding removed, when the two ends
    share a session. *)
From stdpp Require Import prelude list gmap.
From S2P Require Import Prelude Skb Net FakeHeaders RxHeader.
From S2P Require Import AllowedIps AllowedIpsTable PeerLookup Crypto Replay Noise Keypairs Handshake DataPath Nonces DataPathSpec.

#[local] Open Scope Z_scope.

(** ** What the kernel promises about buffers *)
Class SkbCryptOk (S : SkbCrypt) : Prop := {
  cow_head_ok n s s' : skb_cow_head n s = Some s' →
    skb_data s' = skb_data s ∧ PACKET_CB s' = PACKET_CB s ∧ n <= skb_headroom s';
  checksum_help_ok s s' : skb_checksum_help s = Some s' →
    skb_len s' = skb_len s ∧ PACKET_CB s' = PACKET_CB s ∧ skb_headroom s' = skb_headroom s;
  decapsulate_unmarked ds s : Z.land ds 3 ≠ 3 → INET_ECN_decapsulate ds s = s;
}.

Section roundtrip.
Context {C : Crypto} {COk : CryptoOk C} {T : IpTunnel} {TOk : IpTunnelOk T} {S : SkbCrypt} {SOk : SkbCryptOk S}.

(** An IP packet that says its length, and the peer its source address belongs to. *)
Definition ip_packet (v : Z) (p : list Z) : Prop :=
  Z.shiftr (nth 0 p 0) 4 = v ∧
  (v = 4 ∧ sizeof_iphdr <= zlen p ∧ be_val (field 2 2 p) = zlen p ∨
   v = 6 ∧ sizeof_ipv6hdr <= zlen p ∧ be_val (field 4 2 p) + sizeof_ipv6hdr = zlen p).

Definition source_peer (allowed : allowedips) (v : Z) (p : list Z) : option Z :=
  if v =? 4 then lookup (root4 allowed) 32 (field 12 4 p) else lookup (root6 allowed) 128 (field 8 16 p).

Lemma field_front off n p q : 0 <= off → 0 <= n → off + n <= zlen p → field off n (p ++ q) = field off n p.
Proof.
  intros Ho Hn Hl. unfold field. rewrite zdrop_app_le by lia. apply ztake_app_le. rewrite zlen_zdrop; lia.
Qed.

Lemma reset_at s o : 0 <= o → skb_network_header s = skb_headroom s → skb_at s (skb_network_header s + o) = zdrop o (skb_data s).
Proof.
  intros Ho ->. unfold skb_at, skb_headroom. rewrite <- zdrop_zdrop by (done || apply zlen_nonneg). by rewrite zdrop_app_length.
Qed.

Lemma nth_0_app (p q : list Z) : 0 < zlen p → nth 0 (p ++ q) 0 = nth 0 p 0.
Proof. by destruct p. Qed.

Definition eth_proto (v : Z) : Z := if v =? 4 then ETH_P_IP else ETH_P_IPV6.

Lemma trim_padding s p pad : skb_data s = p ++ pad → skb_data (skb_trim s (zlen p)) = p.
Proof.
  intros Hd. unfold skb_trim, skb_len. rewrite Hd, zlen_app. destruct (Z.ltb_spec (zlen p) (zlen p + zlen pad)); cbn.
  - by apply ztake_app_length.
  - destruct pad; [by rewrite Hd, app_nil_r|]. rewrite zlen_cons in *. pose proof (zlen_nonneg pad). lia.
Qed.

Lemma lookup_src_ip allowed s v p :
  (v = 4 ∨ v = 6) → skb_network_header s = skb_headroom s → skb_data s = p → skb_protocol s = eth_proto v →
  wg_allowedips_lookup_src allowed s = source_peer allowed v p.
Proof.
  intros Hv Hnh <- Hp. unfold wg_allowedips_lookup_src, source_peer. rewrite Hp, !reset_at by (done || lia).
  by destruct Hv as [-> | ->].
Qed.

(** What [wg_packet_consume_data_done] does once it knows the length. *)
Lemma trim_and_route allowed peer s v p pad :
  (v = 4 ∨ v = 6) → skb_network_header s = skb_headroom s → skb_data s = p ++ pad → skb_protocol s = eth_proto v →
  source_peer allowed v p = Some peer →
  ∃ out, (if skb_len s <? zlen p then RxDishonestSize
          else if bool_decide (wg_allowedips_lookup_src allowed (skb_trim s (zlen p)) = Some peer)
               then RxDelivered (skb_trim s (zlen p)) else RxDishonestPeer) = RxDelivered out ∧ skb_data out = p.
Proof.
  intros Hv Hnh Hd Hp Hsrc. exists (skb_trim s (zlen p)). split; [|by eapply trim_padding].
  rewrite (proj2 (Z.ltb_ge _ _)) by (unfold skb_len; rewrite Hd, zlen_app; pose proof (zlen_nonneg pad); lia).
  rewrite (lookup_src_ip allowed _ v p), bool_decide_eq_true_2; try done; [| |];
    [unfold skb_trim; by case_if|by eapply trim_padding|unfold skb_trim; by case_if].
Qed.

(** The packet is found behind its padding. *)
Lemma inspect_ip allowed peer s v p pad :
  skb_network_header s = skb_headroom s → skb_data s = p ++ pad → ip_packet v p →
  Z.land (cb_ds (PACKET_CB s)) 3 ≠ 3 → source_peer allowed v p = Some peer →
  ∃ out, inspect_packet allowed peer s = RxDelivered out ∧ skb_data out = p.
Proof.
  intros Hnh Hd [Hv Hp] Hds Hsrc. pose proof (zlen_nonneg pad). change sizeof_iphdr with 20 in Hp. change sizeof_ipv6hdr with 40 in Hp.
  assert (Hl : skb_len s = zlen p + zlen pad) by (unfold skb_len; rewrite Hd; apply zlen_app).
  assert (Hver : ip_version s = v) by (unfold ip_version; rewrite Hd, nth_0_app by lia; done).
  unfold inspect_packet. rewrite Hver, Hl. change sizeof_iphdr with 20. change sizeof_ipv6hdr with 40.
  rewrite (proj2 (Z.eqb_neq _ 0)), (proj2 (Z.leb_le 20 _)) by lia.
  assert (Hat : skb_at s (skb_network_header s) = p ++ pad)
    by (rewrite <- Hd, <- (Z.add_0_r (skb_network_header s)); by apply reset_at).
  assert (Hp0 : ∃ b r, p ++ pad = b :: r ∧ nth 0 p 0 = b).
  { destruct p as [|b r]; [change (zlen (@nil Z)) with 0 in Hp; lia|by exists b, (r ++ pad)]. }
  destruct Hp0 as (b&r&Hbr&Hb). rewrite Hb in Hv. rewrite Hbr in Hat. 
  assert (Hnn : 0 <= skb_network_header s) by (rewrite Hnh; apply zlen_nonneg).
  assert (Hlb : zlen (b :: r) = zlen p + zlen pad) by (rewrite <- Hbr; apply zlen_app).
  assert (Hpar : ip_tunnel_parse_protocol s = eth_proto v).
  { destruct Hp as [(->&?&_)|(->&?&_)]; [eapply parse_protocol_v4|eapply parse_protocol_v6]; try done;
      [change sizeof_iphdr with 20|change sizeof_ipv6hdr with 40]; lia. }
  rewrite Hpar, decapsulate_unmarked by done.
  set (s1 := s{{ skb_protocol := eth_proto v }}).
  pose proof (trim_and_route allowed peer s1 v p pad) as Hroute. change (skb_protocol s1) with (eth_proto v) in *.
  change (skb_data s1) with (skb_data s). rewrite Hd.
  destruct Hp as [(->&Hmin&Hlen)|(->&Hmin&Hlen)]; cbn [eth_proto Z.eqb Pos.eqb].
  - cbn [orb andb negb]. change (ETH_P_IP =? ETH_P_IP) with true. cbv iota. rewrite field_front, Hlen by lia.
    rewrite (proj2 (Z.ltb_ge _ _)) by lia. apply Hroute; auto.
  - rewrite (proj2 (Z.leb_le 40 _)) by lia. cbn [orb andb negb]. change (ETH_P_IPV6 =? ETH_P_IP) with false.
    change (ETH_P_IPV6 =? ETH_P_IPV6) with true. cbv iota. rewrite field_front, Hlen by lia. apply Hroute; auto.
Qed.


(** A packet without data gets no padding. *)
Lemma padding_empty skb : skb_len skb = 0 → 0 <= cb_mtu (PACKET_CB skb) → calculate_skb_padding skb = 0.
Proof.
  intros Hl Hm. unfold calculate_skb_padding. rewrite Hl. case_if; [done|].
  rewrite (proj2 (Z.ltb_ge _ 0)) by lia. change (ALIGN 0 MESSAGE_PADDING_MULTIPLE) with 0. by rewrite Z.min_r by lia.
Qed.

(** ** The message *)
Lemma encrypted_shape skb kp m :
  encrypt_packet skb kp = Some m →
  ∃ s1 s2, skb_cow_head DATA_PACKET_HEAD_ROOM skb = Some s1 ∧ skb_checksum_help s1 = Some s2 ∧
    skb_data m = message_data_header (kp_remote_index kp) (cb_nonce (PACKET_CB skb)) ++
      chacha20poly1305_encrypt (sk_key (kp_sending kp)) (cb_nonce (PACKET_CB skb)) []
        (skb_data s2 ++ replicate (Z.to_nat (calculate_skb_padding skb)) 0).
Proof.
  unfold encrypt_packet. destruct (skb_cow_head _ skb) as [s1|] eqn:H1; [|done]. cbn [mbind option_bind].
  destruct (skb_checksum_help s1) as [s2|] eqn:H2; [|done]. cbn [mbind option_bind].
  destruct (negb _); [done|]. destruct (negb _); [done|]. intros [= <-].
  apply cow_head_ok in H1 as (_&Hc1&_) . pose proof (checksum_help_ok _ _ H2) as (_&Hc2&_).
  exists s1, s2. rewrite Hc2, Hc1 in *. done.
Qed.

Lemma data_fields idx n body :
  0 <= idx < 2 ^ 32 → 0 <= n < 2 ^ 64 →
  le_val (field 4 4 (message_data_header idx n ++ body)) = idx ∧
  le_val (field 8 8 (message_data_header idx n ++ body)) = n ∧
  zdrop sizeof_message_data (message_data_header idx n ++ body) = body.
Proof.
  intros Hi Hn. unfold message_data_header. rewrite <- !app_assoc. split_and!.
  - rewrite field_app by done. rewrite field_here by done. by apply le_bytes_val.
  - rewrite !field_app by done. rewrite field_here by done. by apply le_bytes_val.
  - by rewrite !app_assoc, zdrop_app_length.
Qed.

(** ** The endpoint is read from the headers in front of the message *)
Definition headers_in_front (s : sk_buff) : Prop :=
  0 <= skb_network_header s ∧ 0 <= skb_transport_header s ∧
  skb_network_header s + (if skb_protocol s =? ETH_P_IP then sizeof_iphdr else sizeof_ipv6hdr) <= skb_headroom s ∧
  skb_transport_header s + sizeof_udphdr <= skb_headroom s.

Lemma read_front (h x y : list Z) off o n :
  0 <= off → 0 <= o → 0 <= n → off + o + n <= zlen h →
  ztake n (zdrop o (zdrop off (h ++ x))) = ztake n (zdrop o (zdrop off (h ++ y))).
Proof.
  intros Hf Ho Hn Hl. assert (H : ∀ z, ztake n (zdrop o (zdrop off (h ++ z))) = ztake n (zdrop o (zdrop off h)));
    [|by rewrite !H]. intros z. rewrite !zdrop_zdrop, zdrop_app_le by lia. apply ztake_app_le. rewrite zlen_zdrop; lia.
Qed.

Lemma endpoint_in_front s s' x :
  headers_in_front s → skb_head s' = skb_head s ++ x → skb_network_header s' = skb_network_header s →
  skb_transport_header s' = skb_transport_header s → skb_protocol s' = skb_protocol s → skb_iif s' = skb_iif s →
  wg_socket_endpoint_from_skb s' = wg_socket_endpoint_from_skb s.
Proof.
  intros (Hn&Ht&Hnh&Hth) Hh N T0 P I. unfold skb_headroom in *. change sizeof_udphdr with 8 in *.
  unfold wg_socket_endpoint_from_skb, skb_at. rewrite Hh, N, T0, P, I, <- !app_assoc.
  rewrite <- (zdrop_0 (zdrop (skb_transport_header s) _)), (read_front (skb_head s) _ (skb_data s)) by lia.
  rewrite zdrop_0.
  change sizeof_iphdr with 20 in *. change sizeof_ipv6hdr with 40 in *.
  destruct (skb_protocol s =? ETH_P_IP); [by rewrite !(read_front (skb_head s) (x ++ _) (skb_data s)) by lia|].
  destruct (skb_protocol s =? ETH_P_IPV6); [|done]. by rewrite !(read_front (skb_head s) (x ++ _) (skb_data s)) by lia.
Qed.

(** ** The receiver's side *)
Record receives_from (alive : Z → bool) (now n : Z) (kpA : noise_keypair) (d : data_device) (peer k : Z) (kpB : noise_keypair) : Prop := {
  rf_index : wg_index_hashtable_lookup alive INDEX_HASHTABLE_KEYPAIR (kp_remote_index kpA) (kt_index (dd_store d)) = Some (EntKeypair peer k);
  rf_session : kt_heap (dd_store d) !! k = Some kpB;
  rf_referenced : kp_refcount kpB ≠ 0;
  rf_peer : ∃ p, nd_peers (dd_noise d) !! peer = Some p ∧ np_is_dead p = false;
  rf_key : sk_key (kp_receiving kpB) = sk_key (kp_sending kpA);
  rf_valid : sk_is_valid (kp_receiving kpB) = true;
  rf_fresh : wg_birthdate_has_expired (sk_birthdate (kp_receiving kpB)) REJECT_AFTER_TIME now = false;
  rf_limit : rc_counter (kp_receiving_counter kpB) < REJECT_AFTER_MESSAGES;
  rf_counter : (counter_validate (kp_receiving_counter kpB) n).1 = true;
}.

(** Decryption of a message of the session. *)
Lemma decrypt_message alive now n kpA kpB d peer k rx body pl :
  receives_from alive now n kpA d peer k kpB → 0 <= n < 2 ^ 64 → 0 <= kp_remote_index kpA < 2 ^ 32 →
  (∀ s, skb_cow_data s = true) → (∀ s, skb_to_sgvec s = true) →
  skb_data rx = message_data_header (kp_remote_index kpA) n ++ body →
  chacha20poly1305_decrypt (sk_key (kp_sending kpA)) n [] body = Some pl →
  ∃ inner, ∀ kp, kp_receiving kp = kp_receiving kpB → kp_receiving_counter kp = kp_receiving_counter kpB →
    decrypt_packet now rx kp = (Some inner, kp) ∧
    skb_data inner = pl ∧ PACKET_CB inner = (PACKET_CB rx){{ cb_nonce := n }} ∧
    skb_head inner = skb_head rx ++ ztake sizeof_message_data (skb_data rx) ∧
    skb_network_header inner = skb_network_header rx ∧ skb_transport_header inner = skb_transport_header rx ∧
    skb_protocol inner = skb_protocol rx ∧ skb_iif inner = skb_iif rx.
Proof.
  intros [_ _ _ _ Hkey Hval Hfr Hlim _] Hn Hi Hcow Hsg Hd Hdec.
  destruct (data_fields (kp_remote_index kpA) n body Hi Hn) as (_&Hcnt&Hbody).
  assert (Hlen : (skb_len rx <? sizeof_message_data) = false).
  { apply Z.ltb_ge. unfold skb_len. rewrite Hd, zlen_app. change (zlen (message_data_header _ _)) with 16.
    pose proof (zlen_nonneg body). change sizeof_message_data with 16. lia. }
  eexists. intros kp HR HC. unfold decrypt_packet. rewrite HR, HC, Hval, Hfr, (proj2 (Z.leb_gt _ _) Hlim). cbn [negb orb].
  rewrite Hcow, Hsg. cbn [negb]. rewrite Hd, Hcnt.
  unfold skb_pull. change (skb_len (set PACKET_CB _ rx)) with (skb_len rx). rewrite Hlen. cbn -[zdrop ztake].
  rewrite Hd, Hbody, Hkey, Hdec. split_and!; reflexivity.
Qed.

Lemma rx_accepts peer k inner d kp ep :
  kt_heap (dd_store d) !! k = Some kp → (counter_validate (kp_receiving_counter kp) (cb_nonce (PACKET_CB inner))).1 = true →
  wg_socket_endpoint_from_skb inner = Ok ep →
  (rx_packet peer k inner d).1 = Some (ep, inspect_packet (dd_allowed d) peer (wg_reset_packet inner)).
Proof.
  intros Hk Hc Hep. unfold rx_packet. rewrite Hk. destruct (counter_validate _ _) as [ok rc]. cbn in Hc. rewrite Hc. cbn [negb].
  rewrite Hep. set (d1 := set_store _ d). destruct (consume_rkeeps peer k (wg_reset_packet inner) d1) as (_&_&Hv).
  destruct (wg_packet_consume_data_done _ _ _ _) as [v d2]. cbn in *. by rewrite Hv.
Qed.

(** The message passes the index table, the queues and decryption. *)
Lemma receive_reaches_rx alive now n kpA kpB d peer k rx inner :
  receives_from alive now n kpA d peer k kpB → the_index rx = kp_remote_index kpA →
  (∀ kp, kp_receiving kp = kp_receiving kpB → kp_receiving_counter kp = kp_receiving_counter kpB →
    decrypt_packet now rx kp = (Some inner, kp)) →
  ∃ d1, (receive_data alive now true rx d).1 = (rx_packet peer k inner d1).1 ∧ dd_allowed d1 = dd_allowed d ∧
    ∃ kp, kt_heap (dd_store d1) !! k = Some kp ∧ kp_receiving_counter kp = kp_receiving_counter kpB.
Proof.
  intros [Hl Hk Href (p&Hp&Hdead) _ _ _ _ _] Hidx Hdec. unfold receive_data. fold (the_index rx). rewrite Hidx, Hl.
  unfold wg_noise_keypair_get. rewrite Hk, (proj2 (Z.eqb_neq _ 0) Href).
  change (nd_peers (dd_noise (set_store ?f d))) with (nd_peers (dd_noise d)). rewrite Hp, Hdead. cbn [negb orb].
  set (d0 := set_store _ d). set (kp1 := kpB{{ kp_refcount ::= Z.add 1 }}).
  assert (Hk0 : kt_heap (dd_store d0) !! k = Some kp1) by (cbn; apply lookup_insert_eq). rewrite Hk0, Hdec by done.
  set (d1 := set_store _ d0). exists d1. split_and!; [by destruct (rx_packet _ _ _ _)|done|].
  exists kp1. split; [|done]. change (alter (λ _, kp1) k (kt_heap (dd_store d0)) !! k = Some kp1). by rewrite lookup_alter_eq, Hk0.
Qed.

End roundtrip.

#[local] Existing Instances toy_crypto toy_crypto_ok version_tunnel version_tunnel_ok plain_skb.

#[export] Instance plain_skb_ok : SkbCryptOk plain_skb.
Proof.
  split.
  - intros n s s' [= <-]. split_and!; [done|done|]. unfold skb_headroom, zlen. cbn. rewrite length_replicate. lia.
  - intros s s' [= <-]. done.
  - done.
Qed.

