(* ===== verification/Encoding.v ===== *)
(** * Keys as text (tools/encoding.c)

    The constant-time base64 and hexadecimal conversions of keys.  There are no
    branches or tables in them: characters are selected by masks that come from the
    sign of differences.  The theorems show that they are the usual encodings.

    A character is a [char] of the C language as a number; where the code converts
    it to [uint8_t] the conversion is written out.  An [int] that fits is not
    reduced; the largest value is below 2^25. *)
From stdpp Require Import prelude list.
From S2P Require Import Prelude.

#[local] Open Scope Z_scope.

Definition WG_KEY_LEN := 32.
Definition WG_KEY_LEN_BASE64 := (WG_KEY_LEN + 2) / 3 * 4 + 1.
Definition WG_KEY_LEN_HEX := WG_KEY_LEN * 2 + 1.

(** ** Base64 *)
Definition encode_char (input : Z) : Z :=
  input + 65
  + Z.land (Z.shiftr (25 - input) 8) 6
  - Z.land (Z.shiftr (51 - input) 8) 75
  - Z.land (Z.shiftr (61 - input) 8) 15
  + Z.land (Z.shiftr (62 - input) 8) 3.

Definition encode_base64 (s0 s1 s2 : Z) : list Z :=
  encode_char <$>
    [Z.land (Z.shiftr s0 2) 63; Z.land (Z.lor (Z.shiftl s0 4) (Z.shiftr s1 4)) 63;
     Z.land (Z.lor (Z.shiftl s1 2) (Z.shiftr s2 6)) 63; Z.land s2 63].

(** The bytes in groups of three; the last group has two, and its last character
    is replaced. *)
Fixpoint base64_groups (key : list Z) : list Z :=
  match key with
  | s0 :: s1 :: s2 :: key => encode_base64 s0 s1 s2 ++ base64_groups key
  | [s0; s1] => take 3 (encode_base64 s0 s1 0) ++ [61]
  | _ => []
  end.

(** The text without its terminating zero. *)
Definition key_to_base64 (key : list Z) : list Z := base64_groups key.

Definition decode_char (c : Z) : Z :=
  -1
  + Z.land (Z.shiftr (Z.land ((65 - 1) - c) (c - (90 + 1))) 8) (c - 64)
  + Z.land (Z.shiftr (Z.land ((97 - 1) - c) (c - (122 + 1))) 8) (c - 70)
  + Z.land (Z.shiftr (Z.land ((48 - 1) - c) (c - (57 + 1))) 8) (c + 5)
  + Z.land (Z.shiftr (Z.land ((43 - 1) - c) (c - (43 + 1))) 8) 63
  + Z.land (Z.shiftr (Z.land ((47 - 1) - c) (c - (47 + 1))) 8) 64.

Definition decode_base64 (c0 c1 c2 c3 : Z) : Z :=
  Z.lor (Z.lor (Z.lor (Z.lor 0 (Z.shiftl (decode_char c0) 18)) (Z.shiftl (decode_char c1) 12))
    (Z.shiftl (decode_char c2) 6)) (Z.shiftl (decode_char c3) 0).

(** [(uint32_t)val >> 31] *)
Definition sign_bit (val : Z) : Z := Z.shiftr (u32 val) 31.

(** The loop over the groups: the accumulated errors and the key. *)
Fixpoint decode_groups (ret : Z) (base64 : list Z) : Z * list Z :=
  match base64 with
  | [c0; c1; c2; _] =>
      let val := decode_base64 c0 c1 c2 65 in
      (u8 (Z.lor ret (Z.lor (sign_bit val) (Z.land val 0xff))),
       [Z.land (Z.shiftr val 16) 0xff; Z.land (Z.shiftr val 8) 0xff])
  | c0 :: c1 :: c2 :: c3 :: base64 =>
      let val := decode_base64 c0 c1 c2 c3 in
      let '(ret, key) := decode_groups (u8 (Z.lor ret (sign_bit val))) base64 in
      (ret, Z.land (Z.shiftr val 16) 0xff :: Z.land (Z.shiftr val 8) 0xff :: Z.land val 0xff :: key)
  | _ => (ret, [])
  end.

(** What the caller learns: the key, or that the text is not one. *)
Definition key_from_base64 (base64 : list Z) : option (list Z) :=
  if negb (zlen base64 =? WG_KEY_LEN_BASE64 - 1) || negb (nth (Z.to_nat (WG_KEY_LEN_BASE64 - 2)) base64 0 =? 61)
  then None
  else
    let '(ret, key) := decode_groups 0 base64 in
    if Z.land 1 (Z.shiftr (ret - 1) 8) =? 0 then None else Some key.

(** ** Hexadecimal *)
Definition hex_digit (d : Z) : Z := u8 (u32 (87 + d + Z.land (Z.shiftr (u32 (d - 10)) 8) (u32 (Z.lnot 38)))).

Definition key_to_hex (key : list Z) : list Z :=
  key ≫= λ b, [hex_digit (Z.shiftr b 4); hex_digit (Z.land b 0xf)].

(** One character: whether it is wrong, and its value. *)
Definition hex_char (ch : Z) : Z * Z :=
  let c := u8 ch in
  let c_num := u8 (Z.lxor c 48) in
  let c_num0 := u8 (Z.shiftr (u32 (c_num - 10)) 8) in
  let c_alpha := u8 (u32 (Z.land c (u32 (Z.lnot 32)) - 55)) in
  let c_alpha0 := u8 (Z.shiftr (Z.lxor (u32 (c_alpha - 10)) (u32 (c_alpha - 16))) 8) in
  (u8 (Z.shiftr (Z.lor c_num0 c_alpha0 - 1) 8),
   u8 (Z.lor (Z.land c_num0 c_num) (Z.land c_alpha0 c_alpha))).

Fixpoint hex_pairs (ret : Z) (hex : list Z) : Z * list Z :=
  match hex with
  | c0 :: c1 :: hex =>
      let '(e0, v0) := hex_char c0 in
      let c_acc := u8 (v0 * 16) in
      let '(e1, v1) := hex_char c1 in
      let '(ret, key) := hex_pairs (u8 (Z.lor (u8 (Z.lor ret e0)) e1)) hex in
      (ret, u8 (Z.lor c_acc v1) :: key)
  | _ => (ret, [])
  end.

Definition key_from_hex (hex : list Z) : option (list Z) :=
  if negb (zlen hex =? WG_KEY_LEN_HEX - 1) then None
  else
    let '(ret, key) := hex_pairs 0 hex in
    if Z.land 1 (Z.shiftr (ret - 1) 8) =? 0 then None else Some key.

Definition key_is_zero (key : list Z) : bool :=
  let acc := foldl (λ acc b, u8 (Z.lor acc b)) 0 key in
  negb (Z.land 1 (Z.shiftr (acc - 1) 8) =? 0).

(** ** Facts about characters, by trying all of them *)
Definition is_char (c : Z) : Prop := -128 <= c < 128.

Lemma decode_encode_char d : 0 <= d < 64 → decode_char (encode_char d) = d ∧ is_char (encode_char d).
Proof. apply (all_in_range (λ d, decode_char (encode_char d) = d ∧ -128 <= encode_char d < 128) 0 64). by vm_compute. Qed.

Lemma encode_decode_char c :
  is_char c → decode_char c = -1 ∨ 0 <= decode_char c < 64 ∧ encode_char (decode_char c) = c.
Proof.
  intros Hc. apply (all_in_range (λ c, decode_char c = -1 ∨ 0 <= decode_char c < 64 ∧ encode_char (decode_char c) = c) (-128) 256);
    [by vm_compute|unfold is_char in Hc; lia].
Qed.

(** Upper-case digits are accepted too. *)
Definition lower (c : Z) : Z := if (65 <=? c) && (c <=? 70) then c + 32 else c.

Lemma hex_char_cases c :
  is_char c →
  hex_char c = (255, 0) ∧ Forall (λ v, hex_digit v ≠ lower c) (seqZ 0 16) ∨
  (hex_char c).1 = 0 ∧ 0 <= (hex_char c).2 < 16 ∧ hex_digit (hex_char c).2 = lower c.
Proof.
  intros Hc. apply (all_in_range (λ c, hex_char c = (255, 0) ∧ Forall (λ v, hex_digit v ≠ lower c) (seqZ 0 16) ∨
    (hex_char c).1 = 0 ∧ 0 <= (hex_char c).2 < 16 ∧ hex_digit (hex_char c).2 = lower c) (-128) 256);
    [by vm_compute|unfold is_char in Hc; lia].
Qed.

Lemma hex_digit_inj v w : 0 <= v < 16 → 0 <= w < 16 → hex_digit v = hex_digit w → v = w.
Proof.
  intros Hv Hw. revert w Hw. apply (all_in_range (λ w, hex_digit v = hex_digit w → v = w) 0 16).
  apply bool_decide_eq_true. revert v Hv.
  apply (all_in_range (λ v, Forall (λ w, hex_digit v = hex_digit w → v = w) (seqZ 0 16)) 0 16). by vm_compute.
Qed.

(** ** One group of four characters *)
Definition sextets (d0 d1 d2 d3 : Z) : Z := d0 * 2 ^ 18 + d1 * 2 ^ 12 + d2 * 2 ^ 6 + d3.

Definition digit_ok (c : Z) : Prop := 0 <= decode_char c < 64 ∧ encode_char (decode_char c) = c.

Lemma decode_valid c0 c1 c2 c3 :
  digit_ok c0 → digit_ok c1 → digit_ok c2 → digit_ok c3 →
  decode_base64 c0 c1 c2 c3 = sextets (decode_char c0) (decode_char c1) (decode_char c2) (decode_char c3).
Proof.
  intros [H0 _] [H1 _] [H2 _] [H3 _]. unfold decode_base64, sextets. rewrite Z.lor_0_l, Z.shiftl_0_r.
  rewrite (lor_shiftl_add _ (Z.shiftl (decode_char c1) 12)) by (rewrite ?Z.shiftl_mul_pow2; lia).
  rewrite !Z.shiftl_mul_pow2 by lia.
  replace (decode_char c0 * 2 ^ 18 + decode_char c1 * 2 ^ 12) with (Z.shiftl (decode_char c0 * 64 + decode_char c1) 12)
    by (rewrite Z.shiftl_mul_pow2; lia).
  rewrite lor_shiftl_add by lia.
  replace ((decode_char c0 * 64 + decode_char c1) * 2 ^ 12 + decode_char c2 * 2 ^ 6)
    with (Z.shiftl (decode_char c0 * 4096 + decode_char c1 * 64 + decode_char c2) 6) by (rewrite Z.shiftl_mul_pow2; lia).
  rewrite lor_shiftl_add by lia. rewrite ?Z.shiftl_mul_pow2; lia.
Qed.

Lemma sign_bit_testbit val : sign_bit val = Z.b2z (Z.testbit val 31).
Proof.
  unfold sign_bit, u32, wrap. apply Z.bits_inj'. intros i Hi. rewrite Z.shiftr_spec by done. destruct (decide (i = 0)) as [->|Hne].
  - rewrite Z.mod_pow2_bits_low by lia. change (0 + 31) with 31. by destruct (Z.testbit val 31).
  - rewrite Z.mod_pow2_bits_high by lia. destruct (Z.testbit val 31); cbn; symmetry; [|apply Z.bits_0].
    change 1 with (2 ^ 0). apply Z.pow2_bits_false. lia.
Qed.

Lemma decode_invalid c0 c1 c2 c3 :
  is_char c0 → is_char c1 → is_char c2 → is_char c3 →
  digit_ok c0 ∧ digit_ok c1 ∧ digit_ok c2 ∧ digit_ok c3 ∨ sign_bit (decode_base64 c0 c1 c2 c3) = 1.
Proof.
  assert (Hbit : ∀ c k, is_char c → 0 <= k <= 18 → digit_ok c ∨ Z.testbit (Z.shiftl (decode_char c) k) 31 = true).
  { intros c k Hc Hk. destruct (encode_decode_char c Hc) as [H|H]; [right|by left]. rewrite Z.shiftl_spec, H by done.
    apply Z.bits_m1. lia. }
  intros H0 H1 H2 H3. rewrite sign_bit_testbit. unfold decode_base64. rewrite !Z.lor_spec, Z.bits_0.
  destruct (Hbit c0 18 H0 ltac:(lia)) as [?| ->]; [|by right].
  destruct (Hbit c1 12 H1 ltac:(lia)) as [?| ->]; [|right; by rewrite orb_true_r].
  destruct (Hbit c2 6 H2 ltac:(lia)) as [?| ->]; [|right; by rewrite !orb_true_r].
  destruct (Hbit c3 0 H3 ltac:(lia)) as [?| ->]; [by left|right; by rewrite !orb_true_r].
Qed.

Lemma sign_valid c0 c1 c2 c3 :
  digit_ok c0 → digit_ok c1 → digit_ok c2 → digit_ok c3 → sign_bit (decode_base64 c0 c1 c2 c3) = 0.
Proof.
  intros H0 H1 H2 H3. rewrite decode_valid by done. destruct H0 as [H0 _], H1 as [H1 _], H2 as [H2 _], H3 as [H3 _].
  unfold sign_bit, u32, wrap, sextets. rewrite Z.mod_small, Z.shiftr_div_pow2 by lia. apply Z.div_small. lia.
Qed.

(** What the groups of bytes and of sextets have to do with each other. *)
Lemma byte_shift b : 0 <= b < 256 →
  Z.land (Z.shiftr b 2) 63 = b / 4 ∧ Z.land b 63 = b mod 64 ∧ Z.land b 0xff = b.
Proof.
  intros Hb. change 63 with (Z.ones 6). change 0xff with (Z.ones 8). rewrite !Z.land_ones, Z.shiftr_div_pow2 by lia.
  change (2 ^ 2) with 4. change (2 ^ 6) with 64. split_and!; div_mod_lia.
Qed.

Lemma mix_sextet a b n k :
  0 <= a < 256 → 0 <= b < 256 → (n = 4 ∧ k = 4 ∨ n = 2 ∧ k = 6) →
  Z.land (Z.lor (Z.shiftl a n) (Z.shiftr b k)) 63 = (a * 2 ^ n) mod 64 + b / 2 ^ k.
Proof.
  intros Ha Hb Hnk. change 63 with (Z.ones 6).
  rewrite Z.shiftr_div_pow2, lor_shiftl_add, Z.land_ones by (destruct Hnk as [[-> ->]|[-> ->]]; cbn; div_mod_lia).
  destruct Hnk as [[-> ->]|[-> ->]]; cbn; div_mod_lia.
Qed.

Lemma encode_sextets s0 s1 s2 :
  is_byte s0 → is_byte s1 → is_byte s2 →
  encode_base64 s0 s1 s2 = [encode_char (s0 / 4); encode_char ((s0 * 16) mod 64 + s1 / 16);
    encode_char ((s1 * 4) mod 64 + s2 / 64); encode_char (s2 mod 64)].
Proof.
  intros H0 H1 H2. unfold encode_base64. rewrite (mix_sextet s0 s1 4 4), (mix_sextet s1 s2 2 6) by (auto || done).
  destruct (byte_shift s0 H0) as (->&_&_), (byte_shift s2 H2) as (_&->&_). done.
Qed.

Definition val_bytes (val : Z) : Z * Z * Z :=
  (Z.land (Z.shiftr val 16) 0xff, Z.land (Z.shiftr val 8) 0xff, Z.land val 0xff).

Lemma val_bytes_eq val : val_bytes val = ((val / 65536) mod 256, (val / 256) mod 256, val mod 256).
Proof. unfold val_bytes. change 0xff with (Z.ones 8). by rewrite !Z.land_ones, !Z.shiftr_div_pow2 by lia. Qed.

Lemma digit_ok_encode d : 0 <= d < 64 → digit_ok (encode_char d) ∧ decode_char (encode_char d) = d.
Proof. intros Hd. destruct (decode_encode_char d Hd) as [H _]. unfold digit_ok. by rewrite H. Qed.

Lemma group_roundtrip s0 s1 s2 :
  is_byte s0 → is_byte s1 → is_byte s2 →
  ∃ c0 c1 c2 c3, encode_base64 s0 s1 s2 = [c0; c1; c2; c3] ∧
    (digit_ok c0 ∧ digit_ok c1 ∧ digit_ok c2 ∧ digit_ok c3) ∧
    val_bytes (decode_base64 c0 c1 c2 c3) = (s0, s1, s2) ∧ (s2 = 0 → c3 = 65).
Proof.
  intros H0 H1 H2. rewrite encode_sextets by done. unfold is_byte in *.
  destruct (digit_ok_encode (s0 / 4)) as [O0 D0]; [div_mod_lia|].
  destruct (digit_ok_encode ((s0 * 16) mod 64 + s1 / 16)) as [O1 D1]; [div_mod_lia|].
  destruct (digit_ok_encode ((s1 * 4) mod 64 + s2 / 64)) as [O2 D2]; [div_mod_lia|].
  destruct (digit_ok_encode (s2 mod 64)) as [O3 D3]; [div_mod_lia|].
  eexists _, _, _, _. split; [done|]. split; [done|]. split; [|by intros ->].
  rewrite decode_valid, D0, D1, D2, D3, val_bytes_eq by done. unfold sextets. f_equal; [f_equal|]; div_mod_lia.
Qed.

Lemma group_inverse c0 c1 c2 c3 :
  digit_ok c0 → digit_ok c1 → digit_ok c2 → digit_ok c3 →
  ∃ s0 s1 s2, val_bytes (decode_base64 c0 c1 c2 c3) = (s0, s1, s2) ∧ (is_byte s0 ∧ is_byte s1 ∧ is_byte s2) ∧
    encode_base64 s0 s1 s2 = [c0; c1; c2; c3].
Proof.
  intros O0 O1 O2 O3. rewrite decode_valid, val_bytes_eq by done. destruct O0 as [H0 E0], O1 as [H1 E1], O2 as [H2 E2], O3 as [H3 E3].
  revert E0 E1 E2 E3 H0 H1 H2 H3. generalize (decode_char c0) (decode_char c1) (decode_char c2) (decode_char c3).
  intros d0 d1 d2 d3 <- <- <- <- H0 H1 H2 H3. eexists _, _, _. split; [done|].
  assert (Hb : ∀ z, is_byte (z mod 256)) by (intros z; apply Z.mod_pos_bound; lia). split; [done|].
  rewrite encode_sextets by done. unfold sextets. clear Hb. do 3 (f_equal; [f_equal; div_mod_lia|]). do 2 f_equal. div_mod_lia.
Qed.

(** ** The loops *)
Lemma u8_lor a b : is_byte a → is_byte b → u8 (Z.lor a b) = Z.lor a b ∧ is_byte (Z.lor a b) ∧ (Z.lor a b = 0 ↔ a = 0 ∧ b = 0).
Proof.
  intros Ha Hb. pose proof (lor_range 8 a b ltac:(lia) Ha Hb). split; [by apply wrap_small|]. split; [done|]. apply Z.lor_eq_0_iff.
Qed.

Lemma sign_bit_byte val : is_byte (sign_bit val).
Proof. rewrite sign_bit_testbit. by destruct (Z.testbit val 31). Qed.

Lemma land_ff val : Z.land val 0xff = val mod 256.
Proof. change 0xff with (Z.ones 8). by rewrite Z.land_ones. Qed.

Definition decoded (n : nat) (ret : Z) (text : list Z) : Prop :=
  let '(r, key) := decode_groups ret text in
  is_byte r ∧ (r = 0 → ret = 0 ∧ Forall is_byte key ∧ length key = n ∧ base64_groups key = text).

Lemma decode_last ret c0 c1 c2 :
  is_byte ret → is_char c0 → is_char c1 → is_char c2 → decoded 2 ret [c0; c1; c2; 61].
Proof.
  intros Hret H0 H1 H2. unfold decoded. cbn [decode_groups]. set (val := decode_base64 c0 c1 c2 65).
  assert (Hl : is_byte (Z.land val 0xff)) by (rewrite land_ff; by apply Z.mod_pos_bound).
  destruct (u8_lor (sign_bit val) (Z.land val 0xff) (sign_bit_byte val) Hl) as (_&Hb&Hz).
  destruct (u8_lor ret _ Hret Hb) as (->&Hb'&Hz'). split; [done|]. intros [-> [Hs Hv]%Hz]%Hz'. split; [done|].
  destruct (decode_invalid c0 c1 c2 65 H0 H1 H2) as [(O0&O1&O2&O3)|Hbad]; [done| |unfold val in Hs; lia].
  destruct (group_inverse c0 c1 c2 65 O0 O1 O2 O3) as (s0&s1&s2&[= <- <- E2]&(B0&B1&_)&Henc).
  fold val in E2, B0, B1, Henc. rewrite Hv in E2. subst s2. split; [by rewrite !Forall_cons, Forall_nil|]. split; [done|].
  cbn [base64_groups]. by rewrite Henc.
Qed.

Lemma decode_step n ret c0 c1 c2 c3 c4 text :
  is_byte ret → is_char c0 → is_char c1 → is_char c2 → is_char c3 →
  (∀ ret, is_byte ret → decoded n ret (c4 :: text)) → decoded (3 + n) ret (c0 :: c1 :: c2 :: c3 :: c4 :: text).
Proof.
  intros Hret H0 H1 H2 H3 IH. unfold decoded. set (val := decode_base64 c0 c1 c2 c3).
  destruct (u8_lor ret (sign_bit val) Hret (sign_bit_byte val)) as (Hu&Hb&Hz).
  assert (Heq : decode_groups ret (c0 :: c1 :: c2 :: c3 :: c4 :: text) =
    let '(r, key) := decode_groups (Z.lor ret (sign_bit val)) (c4 :: text) in
    (r, Z.land (Z.shiftr val 16) 0xff :: Z.land (Z.shiftr val 8) 0xff :: Z.land val 0xff :: key)) by (rewrite <- Hu; reflexivity).
  rewrite Heq. specialize (IH _ Hb). unfold decoded in IH. destruct (decode_groups _ (c4 :: text)) as [r key].
  destruct IH as [Hr IH]. split; [done|]. intros Hr0. destruct (IH Hr0) as ([-> Hs]%Hz&Hk&Hlen&Hg). split; [done|].
  destruct (decode_invalid c0 c1 c2 c3 H0 H1 H2 H3) as [(O0&O1&O2&O3)|Hbad]; [|unfold val in Hs; lia].
  destruct (group_inverse c0 c1 c2 c3 O0 O1 O2 O3) as (s0&s1&s2&[= <- <- <-]&(B0&B1&B2)&Henc).
  fold val in B0, B1, B2, Henc. split; [by rewrite !Forall_cons|]. split; [cbn; lia|]. cbn [base64_groups]. by rewrite Henc, Hg.
Qed.

Lemma decode_groups_decoded n ret text :
  length text = (4 * S n)%nat → Forall is_char text → last text = Some 61 → is_byte ret → decoded (3 * n + 2) ret text.
Proof.
  revert ret text. induction n as [|n IH]; intros ret text Hlen Hch Hlast Hret.
  - destruct text as [|c0 [|c1 [|c2 [|c3 [|]]]]]; try done. injection Hlast as ->.
    rewrite !Forall_cons in Hch. destruct Hch as (?&?&?&_). by apply decode_last.
  - destruct text as [|c0 [|c1 [|c2 [|c3 [|c4 text]]]]]; cbn in Hlen; try lia.
    rewrite !(Forall_cons _ _ (_ :: _)) in Hch. destruct Hch as (?&?&?&?&?).
    replace (3 * S n + 2)%nat with (3 + (3 * n + 2))%nat by lia. apply decode_step; try done.
    intros r Hr. apply IH; [cbn; lia|done|done|done].
Qed.

Lemma groups_decode n key :
  length key = (3 * n + 2)%nat → Forall is_byte key →
  decode_groups 0 (base64_groups key) = (0, key) ∧ length (base64_groups key) = (4 * S n)%nat ∧
  last (base64_groups key) = Some 61.
Proof.
  revert key. induction n as [|n IH]; intros key Hlen Hb.
  - destruct key as [|s0 [|s1 [|]]]; try done. rewrite !Forall_cons in Hb. destruct Hb as (B0&B1&_).
    destruct (group_roundtrip s0 s1 0 B0 B1) as (c0&c1&c2&c3&E&(O0&O1&O2&O3)&Hv&Hc); [done|]. rewrite (Hc eq_refl) in *.
    cbn [base64_groups]. rewrite E. cbn [take app decode_groups]. rewrite sign_valid by done. injection Hv as -> -> ->.
    split_and!; done.
  - destruct key as [|s0 [|s1 [|s2 key]]]; cbn in Hlen; try lia. rewrite !Forall_cons in Hb. destruct Hb as (B0&B1&B2&Hb).
    destruct (IH key) as (Hd&Hl&Hlast); [lia|done|].
    destruct (group_roundtrip s0 s1 s2 B0 B1 B2) as (c0&c1&c2&c3&E&(O0&O1&O2&O3)&Hv&_).
    cbn [base64_groups]. rewrite E. destruct (base64_groups key) as [|c4 text]; [done|]. cbn [app]. split_and!.
    + injection Hv as E0 E1 E2. transitivity (let '(r, key) := decode_groups (u8 (Z.lor 0 (sign_bit (decode_base64 c0 c1 c2 c3)))) (c4 :: text) in
        (r, Z.land (Z.shiftr (decode_base64 c0 c1 c2 c3) 16) 0xff :: Z.land (Z.shiftr (decode_base64 c0 c1 c2 c3) 8) 0xff ::
            Z.land (decode_base64 c0 c1 c2 c3) 0xff :: key)); [reflexivity|].
      rewrite sign_valid, E0, E1, E2 by done. change (u8 (Z.lor 0 0)) with 0. by rewrite Hd.
    + cbn in *. lia.
    + done.
Qed.

Lemma accepts ret : is_byte ret → (Z.land 1 (Z.shiftr (ret - 1) 8) =? 0) = negb (ret =? 0).
Proof. apply (all_in_range (λ ret, (Z.land 1 (Z.shiftr (ret - 1) 8) =? 0) = negb (ret =? 0)) 0 256). by vm_compute. Qed.

Lemma base64_exact text key :
  Forall is_char text →
  key_from_base64 text = Some key ↔ Forall is_byte key ∧ zlen key = WG_KEY_LEN ∧ text = key_to_base64 key.
Proof.
  intros Hch. unfold key_from_base64, key_to_base64. change (WG_KEY_LEN_BASE64 - 1) with 44. change (WG_KEY_LEN_BASE64 - 2) with 43.
  change WG_KEY_LEN with 32. split.
  - destruct (Z.eqb_spec (zlen text) 44) as [Hl|]; [|done]. destruct (Z.eqb_spec (nth (Z.to_nat 43) text 0) 61) as [He|]; [|done].
    assert (Hlen : length text = (4 * S 10)%nat) by (unfold zlen in Hl; lia).
    pose proof (decode_groups_decoded 10 0 text Hlen Hch) as Hd. unfold decoded in Hd. cbn [negb orb].
    destruct (decode_groups 0 text) as [r k]. destruct Hd as [Hr Hk].
    + rewrite last_lookup, Hlen. rewrite nth_lookup in He. change (pred (4 * 11)) with 43%nat. change (Z.to_nat 43) with 43%nat in He.
      destruct (text !! 43%nat) as [c|]; [by rewrite <- He|done].
    + done.
    + rewrite accepts by done. destruct (Z.eqb_spec r 0) as [->|]; [|done]. intros [= <-].
      destruct (Hk eq_refl) as (_&Hb&Hkl&Hg). split_and!; [done|unfold zlen; lia|done].
  - intros (Hb&Hl&->). destruct (groups_decode 10 key) as (Hd&Hlen&Hlast); [unfold zlen in Hl; lia|done|].
    rewrite (proj2 (Z.eqb_eq _ _)) by (unfold zlen; lia). rewrite last_lookup, Hlen in Hlast.
    rewrite nth_lookup. change (Z.to_nat 43) with (pred (4 * 11)). rewrite Hlast. cbn [default negb orb Z.eqb Pos.eqb]. by rewrite Hd.
Qed.

(** ** Hexadecimal *)
Lemma hex_char_iff c v : is_char c → 0 <= v < 16 → hex_char c = (0, v) ↔ hex_digit v = lower c.
Proof.
  intros Hc Hv. destruct (hex_char_cases c Hc) as [[E Hno]|(E1&E2&E3)].
  - rewrite E. split; [done|]. rewrite Forall_forall in Hno. intros H. destruct (Hno v); [apply elem_of_seqZ; lia|done].
  - destruct (hex_char c) as [e w]. cbn in *. subst e. split; [by intros [= ->]|]. intros H.
    f_equal. apply hex_digit_inj; [done|done|congruence].
Qed.

Lemma nibbles h l : 0 <= h < 16 → 0 <= l < 16 →
  u8 (Z.lor (u8 (h * 16)) l) = h * 16 + l ∧ Z.shiftr (h * 16 + l) 4 = h ∧ Z.land (h * 16 + l) 0xf = l.
Proof.
  intros Hh Hl. assert (Hu : u8 (h * 16) = Z.shiftl h 4) by (unfold u8; rewrite wrap_small, Z.shiftl_mul_pow2; lia).
  rewrite Hu, lor_shiftl_add by lia. change 0xf with (Z.ones 4). rewrite Z.land_ones, Z.shiftr_div_pow2 by lia.
  change (2 ^ 4) with 16. split_and!; [apply wrap_small; lia|div_mod_lia|div_mod_lia].
Qed.

Lemma byte_nibbles b : is_byte b → 0 <= Z.shiftr b 4 < 16 ∧ 0 <= Z.land b 0xf < 16 ∧ b = Z.shiftr b 4 * 16 + Z.land b 0xf.
Proof.
  unfold is_byte. intros Hb. change 0xf with (Z.ones 4). rewrite Z.land_ones, Z.shiftr_div_pow2 by lia.
  change (2 ^ 4) with 16. split_and!; div_mod_lia.
Qed.

Lemma hex_pairs_spec n ret text key :
  length text = (2 * n)%nat → Forall is_char text → is_byte ret →
  is_byte (hex_pairs ret text).1 ∧
  (hex_pairs ret text = (0, key) ↔ ret = 0 ∧ Forall is_byte key ∧ length key = n ∧ lower <$> text = key_to_hex key).
Proof.
  revert ret text key. induction n as [|n IH]; intros ret text key Hlen Hch Hret.
  { destruct text; [|done]. cbn. split; [done|]. split; [intros [= -> <-]; split_and!; done|]. intros (->&_&Hk&_). by destruct key. }
  destruct text as [|c0 [|c1 text]]; cbn in Hlen; try lia. rewrite !Forall_cons in Hch. destruct Hch as (H0&H1&Hch).
  cbn [hex_pairs]. destruct (hex_char c0) as [e0 v0] eqn:E0, (hex_char c1) as [e1 v1] eqn:E1.
  assert (B0 : is_byte e0 ∧ (e0 = 0 → 0 <= v0 < 16)).
  { destruct (hex_char_cases c0 H0) as [[E _]|(?&?&_)]; rewrite E0 in *; cbn in *; [by injection E as -> ->|by subst]. }
  assert (B1 : is_byte e1 ∧ (e1 = 0 → 0 <= v1 < 16)).
  { destruct (hex_char_cases c1 H1) as [[E _]|(?&?&_)]; rewrite E1 in *; cbn in *; [by injection E as -> ->|by subst]. }
  destruct B0 as [B0 V0], B1 as [B1 V1]. destruct (u8_lor ret e0 Hret B0) as (->&Hb&Hz), (u8_lor _ e1 Hb B1) as (->&Hb'&Hz').
  set (ret' := Z.lor (Z.lor ret e0) e1) in *. assert (Hret' : ret' = 0 ↔ ret = 0 ∧ e0 = 0 ∧ e1 = 0) by (rewrite Hz', Hz; tauto).
  destruct (hex_pairs ret' text) as [r k] eqn:Hp. destruct (IH ret' text [] ltac:(lia) Hch Hb') as [Hr _]. rewrite Hp in Hr.
  split; [done|]. split.
  - intros [= -> <-]. destruct (IH ret' text k ltac:(lia) Hch Hb') as [_ [Hk _]].
    destruct (Hk Hp) as ((->&->&->)%Hret'&Hbk&Hlk&Ht). specialize (V0 eq_refl). specialize (V1 eq_refl).
    destruct (nibbles v0 v1 V0 V1) as (->&Eh&El). split_and!; [done|apply Forall_cons; split; [unfold is_byte; lia|done]|cbn; lia|].
    cbn [key_to_hex mbind list_bind]. rewrite Eh, El. cbn. f_equal; [symmetry; by apply hex_char_iff|].
    f_equal; [symmetry; by apply hex_char_iff|exact Ht].
  - intros (->&Hbk&Hlk&Ht). destruct key as [|b key]; [done|]. apply Forall_cons in Hbk as [Hbb Hbk].
    destruct (byte_nibbles b Hbb) as (Hh&Hl&Heq). cbn in Ht. injection Ht as T0 T1 Ht.
    symmetry in T0, T1. apply (hex_char_iff c0 _ H0 Hh) in T0. apply (hex_char_iff c1 _ H1 Hl) in T1.
    rewrite T0 in E0. rewrite T1 in E1. injection E0 as <- <-. injection E1 as <- <-.
    destruct (IH ret' text key ltac:(lia) Hch Hb') as [_ [_ Hk]]. rewrite Hp in Hk.
    destruct (nibbles _ _ Hh Hl) as (->&_). rewrite <- Heq.
    assert (E : (r, k) = (0, key)) by (apply Hk; split_and!; [by apply Hret'|done|cbn in Hlk; lia|exact Ht]). by injection E as -> ->.
Qed.

Lemma hex_exact text key :
  Forall is_char text →
  key_from_hex text = Some key ↔ Forall is_byte key ∧ zlen key = WG_KEY_LEN ∧ lower <$> text = key_to_hex key.
Proof.
  intros Hch. unfold key_from_hex. change (WG_KEY_LEN_HEX - 1) with 64. change WG_KEY_LEN with 32.
  assert (Hkl : ∀ l, length (key_to_hex l) = (2 * length l)%nat) 
    by (induction l as [|b l IH]; [done|]; unfold key_to_hex in *; rewrite bind_cons, length_app, IH; cbn [length]; lia).
  destruct (Z.eqb_spec (zlen text) 64) as [Hl|Hne]; cbn [negb].
  - destruct (hex_pairs_spec 32 0 text key) as [Hr Hk]; [unfold zlen in Hl; lia|done|done|].
    transitivity (hex_pairs 0 text = (0, key)); [|rewrite Hk; unfold zlen; naive_solver lia].
    destruct (hex_pairs 0 text) as [r k]. cbn in Hr. rewrite accepts by done.
    destruct (Z.eqb_spec r 0) as [->|]; cbn [negb]; naive_solver.
  - split; [done|]. intros (_&Hz&Ht). apply (f_equal length) in Ht. rewrite length_fmap, Hkl in Ht. unfold zlen in *. lia.
Qed.

(** C40: keys as text.  A text is accepted as a base64 key exactly when it is the
    encoding of a key of 32 bytes, and that key is the result; it is accepted as a
    hexadecimal key exactly when it is the encoding of a key up to the case of its
    digits.  So every key survives both round trips, no other text is accepted,
    and the bits that do not belong to the key have to be zero. *)
Theorem key_text_exact (text key : list Z) :
  Forall is_char text →
  (key_from_base64 text = Some key ↔ Forall is_byte key ∧ zlen key = WG_KEY_LEN ∧ text = key_to_base64 key) ∧
  (key_from_hex text = Some key ↔ Forall is_byte key ∧ zlen key = WG_KEY_LEN ∧ lower <$> text = key_to_hex key).
Proof. intros Hch. split; [by apply base64_exact|by apply hex_exact]. Qed.

Lemma key_text_exact_witness :
  key_from_base64 (key_to_base64 (seqZ 0 32)) = Some (seqZ 0 32) ∧
  key_from_hex (key_to_hex (seqZ 200 32)) = Some (seqZ 200 32) ∧
  key_from_base64 (<[42%nat := 57]> (key_to_base64 (seqZ 0 32))) = None.
Proof.
  split_and!; [| |by vm_compute].
  - apply (key_text_exact (key_to_base64 (seqZ 0 32)) (seqZ 0 32)); [by_evaluation|]. by_evaluation.
  - apply (key_text_exact (key_to_hex (seqZ 200 32)) (seqZ 200 32)); [by_evaluation|]. by_evaluation.
Defined.

(** The test for a key of zeros does not stop early, and is right. *)
Lemma key_is_zero_spec key : Forall is_byte key → key_is_zero key = bool_decide (Forall (λ b, b = 0) key).
Proof.
  intros Hb. unfold key_is_zero.
  assert (H : ∀ acc, is_byte acc → is_byte (foldl (λ acc b, u8 (Z.lor acc b)) acc key) ∧
    (foldl (λ acc b, u8 (Z.lor acc b)) acc key = 0 ↔ acc = 0 ∧ Forall (λ b, b = 0) key)).
  { induction Hb as [|b key Hb _ IH]; intros acc Hacc; cbn [foldl]; [rewrite Forall_nil; tauto|].
    destruct (u8_lor acc b Hacc Hb) as (->&Hl&Hz). destruct (IH _ Hl) as [H1 H2]. split; [done|]. rewrite H2, Hz, Forall_cons. tauto. }
  destruct (H 0 ltac:(done)) as [H1 H2]. rewrite accepts, negb_involutive by done. apply eq_bool_prop_intro.
  rewrite bool_decide_spec, Is_true_true, Z.eqb_eq, H2. tauto.
Qed.
