(* ===== verification/Field25519.v ===== *)
(** * The field of Curve25519 and the function X25519

    The reference the two implementations of curve25519.c are compared with: the
    Montgomery ladder of RFC 7748 over the integers modulo [2^255 - 19].  That this
    number is prime is proved here, because one implementation takes one step more
    than the reference and ends with another representative of the same point. *)
From stdpp Require Import prelude list.
From Stdlib Require Import ZArith Lia Znumtheory Zpow_facts Zmod.
From S2P Require Import Prelude.

#[local] Open Scope Z_scope.

Definition p25519 : Z := 2 ^ 255 - 19.

(** ** Congruence *)
Definition eqp (a b : Z) : Prop := a mod p25519 = b mod p25519.
Declare Scope field_scope.
Infix "≡p" := eqp (at level 70) : field_scope.
#[local] Open Scope field_scope.

#[export] Instance eqp_equiv : Equivalence eqp.
Proof. split; unfold eqp; intros ?; congruence. Qed.

#[export] Instance eqp_add : Proper (eqp ==> eqp ==> eqp) Z.add.
Proof. intros a a' Ha b b' Hb. unfold eqp in *. by rewrite Z.add_mod, Ha, Hb, <- Z.add_mod. Qed.

#[export] Instance eqp_sub : Proper (eqp ==> eqp ==> eqp) Z.sub.
Proof. intros a a' Ha b b' Hb. unfold eqp in *. by rewrite Zminus_mod, Ha, Hb, <- Zminus_mod. Qed.

#[export] Instance eqp_mul : Proper (eqp ==> eqp ==> eqp) Z.mul.
Proof. intros a a' Ha b b' Hb. unfold eqp in *. by rewrite Z.mul_mod, Ha, Hb, <- Z.mul_mod. Qed.

#[export] Instance eqp_pow : Proper (eqp ==> (=) ==> eqp) Z.pow.
Proof.
  intros a a' Ha n ? <-. destruct (Z_le_dec 0 n) as [Hn|]; [|by rewrite !Z.pow_neg_r by lia].
  revert n Hn. apply natlike_ind; [done|]. intros n Hn IH.
  by rewrite !Z.pow_succ_r, IH, Ha by done.
Qed.

Lemma eqp_mod a : a mod p25519 ≡p a.
Proof. apply Z.mod_mod. done. Qed.

(** A congruence from the multiple of the modulus. *)
Lemma eqp_multiple k a b : a = b + k * p25519 → a ≡p b.
Proof. intros ->. apply Z.mod_add. done. Qed.

(** ** Primality, by Pocklington's criterion *)
Lemma pow_mod_1 b n k : 1 < n → 0 <= k → b mod n = 1 → b ^ k mod n = 1.
Proof. intros Hn Hk Hb. rewrite <- Z.mod_pow_l, Hb, Z.pow_1_l by lia. apply Z.mod_1_l. lia. Qed.

Lemma smallest_divisor n : 1 < n → ∃ r, Z.prime r ∧ (r | n) ∧ (r = n ∨ r * r <= n).
Proof.
  intros Hn. assert (0 <= n) as H0 by lia. revert n H0 Hn.
  refine (Z_lt_induction _ _). intros n IH Hn.
  destruct (prime_dec n) as [Hp|Hp]; [exists n; rewrite prime_alt; eauto using Z.divide_refl|].
  destruct (not_prime_divide n Hn Hp) as (d & Hd & k & Hk).
  assert (1 < k < n) by nia.
  destruct (Z.min_spec d k) as [[Hle Hmin]|[Hle Hmin]].
  - destruct (IH d) as (r & Hr & Hrd & Hor); [lia..|]. exists r. pose proof (Z.prime_ge_2 r Hr).
    assert (r <= d) by (apply Z.divide_pos_le; lia || done).
    split_and!; [done|by apply Z.divide_trans with d; [|exists k]|right; nia].
  - destruct (IH k) as (r & Hr & Hrd & Hor); [lia..|]. exists r. pose proof (Z.prime_ge_2 r Hr).
    assert (r <= k) by (apply Z.divide_pos_le; lia || done).
    split_and!; [done|apply Z.divide_trans with k; [done|exists d; lia]|right; nia].
Qed.

(** If [a] has an order divisible by the prime [q] modulo every divisor of [n], a
    prime divisor of [n] is one more than a multiple of [q]. *)
Lemma pocklington_factor n a q m r :
  1 < n → n - 1 = q * m → Z.prime q → 0 <= m →
  a ^ (n - 1) mod n = 1 → Z.gcd (a ^ m - 1) n = 1 →
  Z.prime r → (r | n) → (q | r - 1).
Proof.
  intros Hn Hqm Hq Hm Ha Hg Hr Hrn. pose proof (Z.prime_ge_2 r Hr). pose proof (Z.prime_ge_2 q Hq).
  assert (∀ x, x mod n = 1 → x mod r = 1) as Hdown.
  { intros x Hx. destruct Hrn as [c ->]. rewrite (Z.div_mod x (c * r)), Hx by lia.
    replace (c * r * (x / (c * r)) + 1) with (1 + (c * (x / (c * r))) * r) by lia.
    rewrite Z.mod_add by lia. apply Z.mod_1_l. lia. }
  set (b := a ^ m). assert (b ^ q mod r = 1) as Hbq.
  { unfold b. rewrite <- Z.pow_mul_r, (Z.mul_comm m), <- Hqm by lia. auto. }
  destruct (Z.BoolSpec_divide_nz q (r - 1)) as [|Hno]; [lia|done|exfalso].
  assert (Z.gcd q (r - 1) = 1) as Hc by (apply Z.coprime_prime_l; auto).
  assert (b mod r ≠ 0) as Hb0.
  { intros Hz. rewrite <- Z.mod_pow_l, Hz, Z.pow_0_l, Z.mod_0_l in Hbq by lia. lia. }
  assert (b ^ (r - 1) mod r = 1) as Hfer by (by apply Z.fermat_nz).
  destruct (Z.gcd_bezout q (r - 1) 1 Hc) as (u & v & Huv).
  assert (b mod r = 1) as Hb1.
  { (* u' q = 1 + k (r - 1) with both factors positive *)
    set (k := Z.abs u + Z.abs v). pose proof (Z.abs_nonneg u). pose proof (Z.abs_nonneg v).
    assert (0 <= u + k * (r - 1)) by (unfold k; nia). assert (0 <= k * q - v) by (unfold k; nia).
    assert ((b ^ q) ^ (u + k * (r - 1)) mod r = 1) as Hu by (apply pow_mod_1; [lia|assumption..]).
    assert ((b ^ (r - 1)) ^ (k * q - v) mod r = 1) as Hv by (apply pow_mod_1; [lia|assumption..]).
    rewrite <- Z.pow_mul_r in Hu, Hv by lia.
    replace (q * (u + k * (r - 1))) with (u * q + v * (r - 1) + (r - 1) * (k * q - v)) in Hu by ring.
    rewrite Huv in Hu.
    rewrite Z.pow_add_r, Z.pow_1_r in Hu by (try apply Z.mul_nonneg_nonneg; lia).
    rewrite Z.mul_mod, Hv, Z.mul_1_r, Z.mod_mod in Hu by lia. done. }
  assert ((r | Z.gcd (b - 1) n)) as Hrg.
  { apply Z.gcd_greatest; [|done]. apply Z.mod_divide; [lia|].
    rewrite Zminus_mod, Hb1, (Z.mod_1_l r), Z.sub_diag by lia. apply Z.mod_0_l. lia. }
  unfold b in Hrg. rewrite Hg in Hrg. apply Z.divide_1_r_nonneg in Hrg; lia.
Qed.

(** The test with one prime factor [q] of [n - 1]. *)
Definition pocklington_check (n a q : Z) : bool :=
  let b := Zpow_mod a ((n - 1) / q) n in
  (1 <? n) && ((n - 1) mod q =? 0) && (Zpow_mod b q n =? 1) && (Z.gcd (b - 1) n =? 1).

Lemma pocklington_check_factor n a q r :
  Z.prime q → pocklington_check n a q = true → Z.prime r → (r | n) → (q | r - 1).
Proof.
  intros Hq Hc Hr Hrn. unfold pocklington_check in Hc. simpl_guards. destruct Hc as [[[Hn Hd] Ha] Hg].
  pose proof (Z.prime_ge_2 q Hq). rewrite !Zpow_mod_correct in * by lia.
  assert (n - 1 = q * ((n - 1) / q)) as Heq by (apply Z.div_exact; lia).
  assert (0 <= (n - 1) / q) by (apply Z.div_pos; lia).
  apply (pocklington_factor n a q ((n - 1) / q) r); try done.
  - by rewrite Heq at 1; rewrite (Z.mul_comm q), Z.pow_mul_r, <- Z.mod_pow_l by lia.
  - etransitivity; [|exact Hg]. rewrite !(Z.gcd_comm _ n), <- !(Z.gcd_mod _ n) by lia.
    by rewrite Zminus_mod_idemp_l.
Qed.

(** [n] is prime when every prime divisor is one more than a multiple of a number
    above its root. *)
Lemma pocklington n f :
  1 < n → n < f * f → 0 <= f → (∀ r, Z.prime r → (r | n) → (f | r - 1)) → Z.prime n.
Proof.
  intros Hn Hf H0 Hdiv. destruct (smallest_divisor n Hn) as (r & Hr & Hrn & [->|Hsq]); [done|exfalso].
  pose proof (Z.prime_ge_2 r Hr). specialize (Hdiv r Hr Hrn). apply Z.divide_pos_le in Hdiv; [nia|lia].
Qed.

Lemma pocklington1 n a q :
  Z.prime q → pocklington_check n a q = true → (1 <? n) && (n <? q * q) = true → Z.prime n.
Proof.
  intros Hq Hc Hn. simpl_guards. pose proof (Z.prime_ge_2 q Hq).
  apply (pocklington n q); eauto using pocklington_check_factor with lia.
Qed.

Lemma pocklington2 n a q1 q2 :
  Z.prime q1 → Z.prime q2 → pocklington_check n a q1 = true → pocklington_check n a q2 = true →
  (1 <? n) && negb (q1 =? q2) && (n <? (q1 * q2) * (q1 * q2)) = true → Z.prime n.
Proof.
  intros H1 H2 Hc1 Hc2 Hn. simpl_guards. destruct Hn as [[Hn Hne] Hbig].
  pose proof (Z.prime_ge_2 _ H1). pose proof (Z.prime_ge_2 _ H2).
  apply (pocklington n (q1 * q2)); [done..|nia|]. intros r Hr Hrn.
  destruct (pocklington_check_factor n a q1 r) as [k Hk]; [done..|].
  pose proof (pocklington_check_factor n a q2 r H2 Hc2 Hr Hrn) as Hq2. rewrite Hk in *.
  assert ((q2 | k)) as [j ->]; [|exists j; lia].
  apply (Z.gauss q2 q1); [by rewrite Z.mul_comm|]. apply Z.coprime_prime_l; [done|].
  intros Hdd%Z.divide_prime_prime; [lia|done..].
Qed.

Definition trial_division (n : Z) : bool :=
  (1 <? n) && forallb (λ d, negb (n mod d =? 0)) (seqZ 2 (Z.sqrt n - 1)).

Lemma trial_division_prime n : trial_division n = true → Z.prime n.
Proof.
  intros H. unfold trial_division in H. apply andb_true_iff in H as [Hn H]. apply Z.ltb_lt in Hn.
  destruct (smallest_divisor n Hn) as (r & Hr & Hrn & [->|Hsq]); [done|exfalso].
  pose proof (Z.prime_ge_2 r Hr). rewrite forallb_forall in H.
  assert (r <= Z.sqrt n) by (apply Z.sqrt_le_square; lia).
  specialize (H r). rewrite <- list_elem_of_In, elem_of_seqZ in H. specialize (H ltac:(lia)).
  apply Z.mod_divide in Hrn; [|lia]. rewrite Hrn in H. done.
Qed.

Lemma prime_p25519 : Z.prime p25519.
Proof.
  assert (∀ n, trial_division n = true → Z.prime n) as Hsmall by apply trial_division_prime.
  assert (Z.prime 1919519569386763) as H1.
  { apply (pocklington2 _ 2 8574133 127); [apply Hsmall| |..]; [|apply Hsmall|..]; by vm_compute. }
  assert (Z.prime 75445702479781427272750846543864801) as H2.
  { apply (pocklington2 _ 7 1919519569386763 75707); [done|apply Hsmall|..]; by vm_compute. }
  assert (Z.prime 31757755568855353) as H3.
  { apply (pocklington2 _ 2 430751 4153); [apply Hsmall| |..]; [|apply Hsmall|..]; by vm_compute. }
  assert (Z.prime 74058212732561358302231226437062788676166966415465897661863160754340907) as H4.
  { apply (pocklington2 _ 2 75445702479781427272750846543864801 31757755568855353); [done..| | |]; by vm_compute. }
  apply (pocklington1 _ 2 74058212732561358302231226437062788676166966415465897661863160754340907); [done|..]; by vm_compute.
Qed.

(** ** The function X25519 (RFC 7748, section 5) *)
Definition fadd (a b : Z) : Z := (a + b) mod p25519.
Definition fsub (a b : Z) : Z := (a - b) mod p25519.
Definition fmult (a b : Z) : Z := (a * b) mod p25519.

Definition a24 : Z := 121665.

Definition ladder_step (x1 : Z) (P2 P3 : Z * Z) : (Z * Z) * (Z * Z) :=
  let '(x2, z2) := P2 in
  let '(x3, z3) := P3 in
  let A := fadd x2 z2 in
  let AA := fmult A A in
  let B := fsub x2 z2 in
  let BB := fmult B B in
  let E := fsub AA BB in
  let C := fadd x3 z3 in
  let D := fsub x3 z3 in
  let DA := fmult D A in
  let CB := fmult C B in
  let S := fadd DA CB in
  let T := fsub DA CB in
  ((fmult AA BB, fmult E (fadd AA (fmult a24 E))), (fmult S S, fmult x1 (fmult T T))).

Definition cswap {A} (swap : bool) (PQ : A * A) : A * A := if swap then (PQ.2, PQ.1) else PQ.

(** The loop over the bits below [t]; an exchange is put off until the next bit. *)
Fixpoint ladder_loop (t : nat) (k x1 : Z) (swap : bool) (PQ : (Z * Z) * (Z * Z)) : (Z * Z) * (Z * Z) :=
  match t with
  | O => cswap swap PQ
  | S t =>
      let k_t := Z.testbit k (Z.of_nat t) in
      let '(P2, P3) := cswap (xorb swap k_t) PQ in
      ladder_loop t k x1 k_t (ladder_step x1 P2 P3)
  end.

Definition finv (z : Z) : Z := Zpow_mod z (p25519 - 2) p25519.

Definition affine (P : Z * Z) : Z := fmult P.1 (finv P.2).

Definition decode_scalar (k : list Z) : Z := 2 ^ 254 + 8 * (le_val k mod 2 ^ 254 / 8).
Definition decode_u (u : list Z) : Z := le_val u mod 2 ^ 255.

Definition x25519 (k u : list Z) : list Z :=
  let x1 := decode_u u in
  le_bytes 32 (affine (ladder_loop 255 (decode_scalar k) x1 false ((1, 0), (x1, 1))).1).

(** ** Facts about the ladder *)
Lemma finv_pow z : finv z ≡p z ^ (p25519 - 2).
Proof. unfold finv. rewrite Zpow_mod_correct by done. apply eqp_mod. Qed.

Lemma fadd_eqp a b a' b' : a ≡p a' → b ≡p b' → fadd a b ≡p a' + b'.
Proof. unfold fadd. by rewrite eqp_mod; intros -> ->. Qed.

Lemma fsub_eqp a b a' b' : a ≡p a' → b ≡p b' → fsub a b ≡p a' - b'.
Proof. unfold fsub. by rewrite eqp_mod; intros -> ->. Qed.

Lemma fmult_eqp a b a' b' : a ≡p a' → b ≡p b' → fmult a b ≡p a' * b'.
Proof. unfold fmult. by rewrite eqp_mod; intros -> ->. Qed.

Lemma eqp_refl a : a ≡p a.
Proof. done. Qed.

Create HintDb field discriminated.
#[export] Hint Resolve fadd_eqp fsub_eqp fmult_eqp eqp_refl : field.

(** Points whose coordinates are congruent. *)
Definition eqpt (P Q : Z * Z) : Prop := P.1 ≡p Q.1 ∧ P.2 ≡p Q.2.

(** The step, without the reductions. *)
Definition double_xz (P : Z * Z) : Z * Z :=
  let AA := (P.1 + P.2) * (P.1 + P.2) in
  let BB := (P.1 - P.2) * (P.1 - P.2) in
  (AA * BB, (AA - BB) * (AA + a24 * (AA - BB))).

Definition add_xz (x1 : Z) (P Q : Z * Z) : Z * Z :=
  let DA := (Q.1 - Q.2) * (P.1 + P.2) in
  let CB := (Q.1 + Q.2) * (P.1 - P.2) in
  ((DA + CB) * (DA + CB), x1 * ((DA - CB) * (DA - CB))).

Lemma ladder_step_spec x1 P Q :
  eqpt (ladder_step x1 P Q).1 (double_xz P) ∧ eqpt (ladder_step x1 P Q).2 (add_xz x1 P Q).
Proof.
  destruct P as [x2 z2], Q as [x3 z3]. unfold ladder_step, eqpt, double_xz, add_xz. cbn [fst snd].
  auto 12 with field.
Qed.

(** The ladder with the exchanges undone after each step. *)
Definition ladder_bit (x1 : Z) (b : bool) (PQ : (Z * Z) * (Z * Z)) : (Z * Z) * (Z * Z) :=
  let '(P, Q) := cswap b PQ in cswap b (ladder_step x1 P Q).

Fixpoint ladder_bits (t : nat) (k x1 : Z) (PQ : (Z * Z) * (Z * Z)) : (Z * Z) * (Z * Z) :=
  match t with
  | O => PQ
  | S t => ladder_bits t k x1 (ladder_bit x1 (Z.testbit k (Z.of_nat t)) PQ)
  end.

Lemma ladder_loop_bits t k x1 swap PQ : ladder_loop t k x1 swap PQ = ladder_bits t k x1 (cswap swap PQ).
Proof.
  revert swap PQ. induction t as [|t IH]; intros swap PQ; [done|]. cbn [ladder_loop ladder_bits].
  replace (cswap (xorb swap (Z.testbit k (Z.of_nat t))) PQ)
    with (cswap (Z.testbit k (Z.of_nat t)) (cswap swap PQ)).
  - unfold ladder_bit. destruct (cswap (Z.testbit k (Z.of_nat t)) (cswap swap PQ)). apply IH.
  - by destruct PQ, swap, (Z.testbit k (Z.of_nat t)).
Qed.

(** A relation between points that both halves of a step keep is kept by the
    ladder. *)
Lemma ladder_bits_rel (R : Z * Z → Z * Z → Prop) x1 :
  (∀ P P' Q Q', R P P' → R Q Q' →
    R (ladder_step x1 P Q).1 (ladder_step x1 P' Q').1 ∧ R (ladder_step x1 P Q).2 (ladder_step x1 P' Q').2) →
  ∀ t k PQ PQ', R PQ.1 PQ'.1 → R PQ.2 PQ'.2 →
  R (ladder_bits t k x1 PQ).1 (ladder_bits t k x1 PQ').1 ∧ R (ladder_bits t k x1 PQ).2 (ladder_bits t k x1 PQ').2.
Proof.
  intros Hstep t k. induction t as [|t IH]; intros [P Q] [P' Q'] HP HQ; [done|].
  cbn [ladder_bits]. cbn [fst snd] in HP, HQ.
  apply IH; unfold ladder_bit, cswap; destruct (Z.testbit k (Z.of_nat t)); cbn [fst snd]; by apply Hstep.
Qed.

(** Two representatives of a projective point. *)
Definition same_point (P Q : Z * Z) : Prop :=
  ∃ c, ~ c ≡p 0 ∧ Q.1 ≡p c * P.1 ∧ Q.2 ≡p c * P.2.

Lemma eqp_0_mul a b : a * b ≡p 0 → a ≡p 0 ∨ b ≡p 0.
Proof.
  unfold eqp. rewrite Z.mod_0_l by done. intros H%Z.mod_divide; [|done].
  destruct (proj1 (Z.divide_prime_mul a b p25519 prime_p25519) H) as [Hd|Hd];
    apply Z.mod_divide in Hd; eauto; done.
Qed.

Lemma eqp_fermat c : ~ c ≡p 0 → c ^ (p25519 - 1) ≡p 1.
Proof.
  intros Hc. unfold eqp. rewrite Z.fermat_nz; [done|apply prime_p25519|]. intros H. apply Hc.
  unfold eqp. by rewrite H.
Qed.

Lemma same_point_step x1 P P' Q Q' :
  same_point P P' → same_point Q Q' →
  same_point (ladder_step x1 P Q).1 (ladder_step x1 P' Q').1 ∧
  same_point (ladder_step x1 P Q).2 (ladder_step x1 P' Q').2.
Proof.
  intros (c & Hc & Hx & Hz) (d & Hd & Hx' & Hz').
  destruct (ladder_step_spec x1 P Q) as [[H1 H2] [H3 H4]], (ladder_step_spec x1 P' Q') as [[H1' H2'] [H3' H4']].
  unfold double_xz, add_xz in *. cbn [fst snd] in *. split.
  - exists (c * c * (c * c)). split; [by intros [[]%eqp_0_mul|[]%eqp_0_mul]%eqp_0_mul|].
    rewrite H1', H2', H1, H2, Hx, Hz. split; apply eq_subrelation; try apply _; ring.
  - exists (c * c * (d * d)). split; [by intros [[]%eqp_0_mul|[]%eqp_0_mul]%eqp_0_mul|].
    rewrite H3', H4', H3, H4, Hx, Hz, Hx', Hz'. split; apply eq_subrelation; try apply _; ring.
Qed.

Lemma affine_pow P : affine P ≡p P.1 * P.2 ^ (p25519 - 2).
Proof. unfold affine, fmult. by rewrite eqp_mod, finv_pow. Qed.

Lemma affine_range P : affine P mod p25519 = affine P.
Proof. apply Z.mod_mod. done. Qed.

Lemma affine_same P Q : same_point P Q → affine P = affine Q.
Proof.
  intros (c & Hc & Hx & Hz). rewrite <- (affine_range P), <- (affine_range Q). change (affine P ≡p affine Q).
  rewrite !affine_pow, Hx, Hz, Z.pow_mul_l.
  transitivity (c ^ (p25519 - 1) * (P.1 * P.2 ^ (p25519 - 2))); [by rewrite eqp_fermat, Z.mul_1_l|].
  replace (p25519 - 1) with (Z.succ (p25519 - 2)) by lia. rewrite Z.pow_succ_r by done.
  apply eq_subrelation; [apply _|ring].
Qed.

(** For the point 0 every result is 0. *)
Lemma affine_zero P : P.1 * P.2 ≡p 0 → affine P = 0.
Proof.
  intros H. rewrite <- (affine_range P). change 0 with (0 mod p25519). change (affine P ≡p 0).
  rewrite affine_pow.
  replace (p25519 - 2) with (Z.succ (p25519 - 3)) by lia.
  rewrite Z.pow_succ_r, Z.mul_assoc, H by done. done.
Qed.

Lemma ladder_zero t k x1 PQ :
  x1 ≡p 0 → PQ.1.1 * PQ.1.2 ≡p 0 → PQ.2.1 * PQ.2.2 ≡p 0 → affine (ladder_bits t k x1 PQ).1 = 0.
Proof.
  intros Hx1 H1 H2. apply affine_zero.
  apply (ladder_bits_rel (λ P _, P.1 * P.2 ≡p 0) x1) with (PQ' := PQ); [|done..].
  intros P _ Q _ HP HQ. destruct (ladder_step_spec x1 P Q) as [[E1 E2] [E3 E4]].
  unfold double_xz, add_xz in *. cbn [fst snd] in *. rewrite E1, E2, E3, E4, Hx1. split; [|by rewrite Z.mul_0_l, Z.mul_0_r].
  transitivity (4 * (P.1 * P.2) * ((P.1 + P.2) * (P.1 + P.2) * ((P.1 - P.2) * (P.1 - P.2))
    * ((P.1 + P.2) * (P.1 + P.2) + a24 * ((P.1 + P.2) * (P.1 + P.2) - (P.1 - P.2) * (P.1 - P.2))))).
  - apply eq_subrelation; [apply _|ring].
  - by rewrite HP, Z.mul_0_r, Z.mul_0_l.
Qed.

(** A step for a leading zero bit leads to the same result. *)
Lemma ladder_leading_zero t k x1 :
  Z.testbit k (Z.of_nat t) = false →
  affine (ladder_bits (S t) k x1 ((1, 0), (x1, 1))).1 = affine (ladder_bits t k x1 ((1, 0), (x1, 1))).1.
Proof.
  intros Hbit. destruct (decide (x1 mod p25519 = 0 mod p25519)) as [Hz|Hnz].
  { rewrite !ladder_zero; cbn [fst snd]; rewrite ?Z.mul_0_r, ?Z.mul_1_r; done. }
  cbn [ladder_bits]. rewrite Hbit. symmetry. apply affine_same.
  apply (ladder_bits_rel same_point x1); [apply same_point_step|..]; unfold ladder_bit, cswap; cbn [fst snd];
    destruct (ladder_step_spec x1 (1, 0) (x1, 1)) as [[E1 E2] [E3 E4]]; unfold double_xz, add_xz in *; cbn [fst snd] in *.
  - exists 1. split; [by vm_compute|]. rewrite E1, E2. by split.
  - exists (4 * x1). split; [by intros [H|H]%eqp_0_mul; [vm_compute in H|]|]. rewrite E3, E4. cbn [fst snd].
    split; apply eq_subrelation; try apply _; ring.
Qed.

(** The coordinates computed by the loop with [t] bits only matter modulo the prime. *)
Lemma affine_eqpt P Q : eqpt P Q → affine P = affine Q.
Proof.
  intros [Hx Hz]. rewrite <- (affine_range P), <- (affine_range Q). change (affine P ≡p affine Q).
  by rewrite !affine_pow, Hx, Hz.
Qed.

Lemma x25519_bits k u :
  x25519 k u = le_bytes 32 (affine (ladder_bits 256 (decode_scalar k) (decode_u u) ((1, 0), (decode_u u, 1))).1).
Proof.
  unfold x25519. rewrite ladder_loop_bits. cbn [cswap]. rewrite (ladder_leading_zero 255); [done|].
  apply (testbit_above 255); [|lia]. unfold decode_scalar.
  pose proof (Z.mod_pos_bound (le_val k) (2 ^ 254)). div_mod_lia.
Qed.
