(* ===== verification/Curve25519.v ===== *)
(** * Curve25519 on 64-bit machines (tools/curve25519.c, curve25519-hacl64.h)

    The tool derives public keys with its own implementation of the function
    X25519.  A field element is five limbs of 51 bits in 64-bit words, with
    products in 128-bit words; the model keeps every operation at its width.  The
    buffers that C passes by pointer are the values that go in and come out: no
    function reads a buffer it has overwritten. *)
From stdpp Require Import prelude list.
From Stdlib Require Import ZArith Lia.
From S2P Require Import Prelude.

#[local] Open Scope Z_scope.

Definition CURVE25519_KEY_SIZE := 32.

Definition u128 (z : Z) : Z := wrap 128 z.

(** The arrays [u64[5]] and [u128[5]]. *)
Record limbs := Limbs { l0 : Z; l1 : Z; l2 : Z; l3 : Z; l4 : Z }.

Definition low51 : Z := 0x7ffffffffffff.

Definition u64_eq_mask (a b : Z) : Z :=
  let x := Z.lxor a b in
  let minus_x := u64 (u64 (Z.lnot x) + 1) in
  let x_or_minus_x := Z.lor x minus_x in
  let xnx := Z.shiftr x_or_minus_x 63 in
  u64 (xnx - 1).

Definition u64_gte_mask (a b : Z) : Z :=
  let x_xor_y := Z.lxor a b in
  let x_sub_y := u64 (a - b) in
  let x_sub_y_xor_y := Z.lxor x_sub_y b in
  let q := Z.lor x_xor_y x_sub_y_xor_y in
  let x_xor_q := Z.lxor a q in
  let x_xor_q_ := Z.shiftr x_xor_q 63 in
  u64 (x_xor_q_ - 1).

Definition modulo_carry_top (b : limbs) : limbs :=
  let b4_ := Z.land (l4 b) low51 in
  let b0_ := u64 (l0 b + u64 (19 * Z.shiftr (l4 b) 51)) in
  Limbs b0_ (l1 b) (l2 b) (l3 b) b4_.

(** ** Products *)
Definition fproduct_copy_from_wide_ (input : limbs) : limbs :=
  Limbs (u64 (l0 input)) (u64 (l1 input)) (u64 (l2 input)) (u64 (l3 input)) (u64 (l4 input)).

Definition fproduct_sum_scalar_multiplication_ (output input : limbs) (s : Z) : limbs :=
  Limbs (u128 (l0 output + u128 (l0 input * s))) (u128 (l1 output + u128 (l1 input * s)))
    (u128 (l2 output + u128 (l2 input * s))) (u128 (l3 output + u128 (l3 input * s)))
    (u128 (l4 output + u128 (l4 input * s))).

(** One step: what stays in [tmp[ctr]], and the new [tmp[ctr + 1]]. *)
Definition carry_wide (tctr tctrp1 : Z) : Z * Z :=
  (Z.land (u64 tctr) low51, u128 (tctrp1 + Z.shiftr tctr 51)).

Definition fproduct_carry_wide_ (tmp : limbs) : limbs :=
  let '(t0, t1) := carry_wide (l0 tmp) (l1 tmp) in
  let '(t1, t2) := carry_wide t1 (l2 tmp) in
  let '(t2, t3) := carry_wide t2 (l3 tmp) in
  let '(t3, t4) := carry_wide t3 (l4 tmp) in
  Limbs t0 t1 t2 t3 t4.

Definition fmul_shift_reduce (output : limbs) : limbs :=
  Limbs (u64 (19 * l4 output)) (l0 output) (l1 output) (l2 output) (l3 output).

Definition fmul_mul_shift_reduce_ (output input input21 : limbs) : limbs :=
  let output := fproduct_sum_scalar_multiplication_ output input (l0 input21) in
  let input := fmul_shift_reduce input in
  let output := fproduct_sum_scalar_multiplication_ output input (l1 input21) in
  let input := fmul_shift_reduce input in
  let output := fproduct_sum_scalar_multiplication_ output input (l2 input21) in
  let input := fmul_shift_reduce input in
  let output := fproduct_sum_scalar_multiplication_ output input (l3 input21) in
  let input := fmul_shift_reduce input in
  fproduct_sum_scalar_multiplication_ output input (l4 input21).

(** The end of a product: the carries, the reduction of the top limb, and the
    copy into 64-bit words. *)
Definition reduce_wide (t : limbs) : limbs :=
  let t := fproduct_carry_wide_ t in
  let b4_ := Z.land (l4 t) low51 in
  let b0_ := u128 (l0 t + u128 (19 * u64 (Z.shiftr (l4 t) 51))) in
  fproduct_copy_from_wide_ (Limbs b0_ (l1 t) (l2 t) (l3 t) b4_).

Definition carry_first (output : limbs) : limbs :=
  let i0_ := Z.land (l0 output) low51 in
  let i1_ := u64 (l1 output + Z.shiftr (l0 output) 51) in
  Limbs i0_ i1_ (l2 output) (l3 output) (l4 output).

Definition fmul_fmul (input input21 : limbs) : limbs :=
  let t := fmul_mul_shift_reduce_ (Limbs 0 0 0 0 0) input input21 in
  carry_first (reduce_wide t).

Definition fsquare_fsquare__ (output : limbs) : limbs :=
  let '(Limbs r0 r1 r2 r3 r4) := output in
  let d0 := u64 (r0 * 2) in
  let d1 := u64 (r1 * 2) in
  let d2 := u64 (u64 (r2 * 2) * 19) in
  let d419 := u64 (r4 * 19) in
  let d4 := u64 (d419 * 2) in
  let s0 := u128 (u128 (u128 (r0 * r0) + u128 (d4 * r1)) + u128 (d2 * r3)) in
  let s1 := u128 (u128 (u128 (d0 * r1) + u128 (d4 * r2)) + u128 (u64 (r3 * 19) * r3)) in
  let s2 := u128 (u128 (u128 (d0 * r2) + u128 (r1 * r1)) + u128 (d4 * r3)) in
  let s3 := u128 (u128 (u128 (d0 * r3) + u128 (d1 * r2)) + u128 (r4 * d419)) in
  let s4 := u128 (u128 (u128 (d0 * r4) + u128 (d1 * r3)) + u128 (r2 * r2)) in
  Limbs s0 s1 s2 s3 s4.

Definition fsquare_fsquare_ (output : limbs) : limbs :=
  carry_first (reduce_wide (fsquare_fsquare__ output)).

(** The loop squares once before it counts. *)
Definition fsquare_fsquare_times (input : limbs) (count1 : Z) : limbs :=
  Nat.iter (Z.to_nat (count1 - 1)) fsquare_fsquare_ (fsquare_fsquare_ input).

Definition crecip_crecip (z : limbs) : limbs :=
  let a := fsquare_fsquare_times z 1 in
  let t0 := fsquare_fsquare_times a 2 in
  let b := fmul_fmul t0 z in
  let a := fmul_fmul b a in
  let t0 := fsquare_fsquare_times a 1 in
  let b := fmul_fmul t0 b in
  let t0 := fsquare_fsquare_times b 5 in
  let b := fmul_fmul t0 b in
  let t0 := fsquare_fsquare_times b 10 in
  let c := fmul_fmul t0 b in
  let t0 := fsquare_fsquare_times c 20 in
  let t0 := fmul_fmul t0 c in
  let t0 := fsquare_fsquare_times t0 10 in
  let b := fmul_fmul t0 b in
  let t0 := fsquare_fsquare_times b 50 in
  let c := fmul_fmul t0 b in
  let t0 := fsquare_fsquare_times c 100 in
  let t0 := fmul_fmul t0 c in
  let t0 := fsquare_fsquare_times t0 50 in
  let t0 := fmul_fmul t0 b in
  let t0 := fsquare_fsquare_times t0 5 in
  fmul_fmul t0 a.

(** ** Sums *)
Definition fsum (a b : limbs) : limbs :=
  Limbs (u64 (l0 a + l0 b)) (u64 (l1 a + l1 b)) (u64 (l2 a + l2 b)) (u64 (l3 a + l3 b))
    (u64 (l4 a + l4 b)).

(** [a] becomes [b - a]. *)
Definition fdifference (a b : limbs) : limbs :=
  Limbs (u64 (u64 (l0 b + 0x3fffffffffff68) - l0 a)) (u64 (u64 (l1 b + 0x3ffffffffffff8) - l1 a))
    (u64 (u64 (l2 b + 0x3ffffffffffff8) - l2 a)) (u64 (u64 (l3 b + 0x3ffffffffffff8) - l3 a))
    (u64 (u64 (l4 b + 0x3ffffffffffff8) - l4 a)).

Definition fscalar (b : limbs) (s : Z) : limbs :=
  reduce_wide (Limbs (u128 (l0 b * s)) (u128 (l1 b * s)) (u128 (l2 b * s)) (u128 (l3 b * s))
    (u128 (l4 b * s))).

(** ** The ladder

    A point is the array [u64[10]]: the limbs of X and of Z. *)
Definition point : Type := limbs * limbs.

(** The two words after a step of the exchange. *)
Definition point_swap_conditional_step (ai bi swap1 : Z) : Z * Z :=
  let x := Z.land swap1 (Z.lxor ai bi) in
  (Z.lxor ai x, Z.lxor bi x).

Definition point_swap_conditional5 (a b : limbs) (swap1 : Z) : limbs * limbs :=
  let '(a4, b4) := point_swap_conditional_step (l4 a) (l4 b) swap1 in
  let '(a3, b3) := point_swap_conditional_step (l3 a) (l3 b) swap1 in
  let '(a2, b2) := point_swap_conditional_step (l2 a) (l2 b) swap1 in
  let '(a1, b1) := point_swap_conditional_step (l1 a) (l1 b) swap1 in
  let '(a0, b0) := point_swap_conditional_step (l0 a) (l0 b) swap1 in
  (Limbs a0 a1 a2 a3 a4, Limbs b0 b1 b2 b3 b4).

Definition point_swap_conditional (a b : point) (iswap : Z) : point * point :=
  let swap1 := u64 (0 - iswap) in
  let '(ax, bx) := point_swap_conditional5 a.1 b.1 swap1 in
  let '(az, bz) := point_swap_conditional5 a.2 b.2 swap1 in
  ((ax, az), (bx, bz)).

(** The points [pp] and [ppq] made of [p] and [pq]. *)
Definition addanddouble_fmonty (p pq : point) (qx : limbs) : point * point :=
  let '(x, z) := p in
  let '(xprime, zprime) := pq in
  let origx := x in
  let x := fsum x z in
  let z := fdifference z origx in
  let origxprime := xprime in
  let xprime := fsum xprime zprime in
  let zprime := fdifference zprime origxprime in
  let xxprime := fmul_fmul xprime z in
  let zzprime := fmul_fmul x zprime in
  let origxprime := xxprime in
  let xxprime := fsum xxprime zzprime in
  let zzprime := fdifference zzprime origxprime in
  let x3 := fsquare_fsquare_times xxprime 1 in
  let zzzprime := fsquare_fsquare_times zzprime 1 in
  let z3 := fmul_fmul zzzprime qx in
  let xx := fsquare_fsquare_times x 1 in
  let zz := fsquare_fsquare_times z 1 in
  let x2 := fmul_fmul xx zz in
  let zz := fdifference zz xx in
  let scalar := 121665 in
  let zzz := fscalar zz scalar in
  let zzz := fsum zzz xx in
  let z2 := fmul_fmul zzz zz in
  ((x2, z2), (x3, z3)).

Definition ladder_smallloop_cmult_small_loop_step (nq nqpq : point) (qx : limbs) (byt : Z) : point * point :=
  let bit0 := Z.shiftr byt 7 in
  let '(nq, nqpq) := point_swap_conditional nq nqpq bit0 in
  let '(nq2, nqpq2) := addanddouble_fmonty nq nqpq qx in
  let bit := Z.shiftr byt 7 in
  point_swap_conditional nq2 nqpq2 bit.

Definition ladder_smallloop_cmult_small_loop_double_step (nq nqpq : point) (qx : limbs) (byt : Z)
    : point * point :=
  let '(nq2, nqpq2) := ladder_smallloop_cmult_small_loop_step nq nqpq qx byt in
  let byt1 := u8 (Z.shiftl byt 1) in
  ladder_smallloop_cmult_small_loop_step nq2 nqpq2 qx byt1.

Fixpoint ladder_smallloop_cmult_small_loop (i : nat) (nq nqpq : point) (qx : limbs) (byt : Z) : point * point :=
  match i with
  | O => (nq, nqpq)
  | S i =>
      let '(nq, nqpq) := ladder_smallloop_cmult_small_loop_double_step nq nqpq qx byt in
      ladder_smallloop_cmult_small_loop i nq nqpq qx (u8 (Z.shiftl byt 2))
  end.

Fixpoint ladder_bigloop_cmult_big_loop (i : nat) (n1 : list Z) (nq nqpq : point) (qx : limbs) : point * point :=
  match i with
  | O => (nq, nqpq)
  | S i =>
      let byte := nth i n1 0 in
      let '(nq, nqpq) := ladder_smallloop_cmult_small_loop 4 nq nqpq qx byte in
      ladder_bigloop_cmult_big_loop i n1 nq nqpq qx
  end.

Definition limbs_0 : limbs := Limbs 0 0 0 0 0.
Definition limbs_1 : limbs := Limbs 1 0 0 0 0.

Definition ladder_cmult (n1 : list Z) (q : point) : point :=
  (ladder_bigloop_cmult_big_loop 32 n1 (limbs_1, limbs_0) q q.1).1.

(** ** Bytes *)
Definition get_unaligned_le64 (a : list Z) : Z := le_val (ztake 8 a).
Definition put_unaligned_le64 (s : Z) : list Z := le_bytes 8 s.

Definition format_fexpand (input : list Z) : limbs :=
  let i0 := get_unaligned_le64 input in
  let i1 := get_unaligned_le64 (zdrop 6 input) in
  let i2 := get_unaligned_le64 (zdrop 12 input) in
  let i3 := get_unaligned_le64 (zdrop 19 input) in
  let i4 := get_unaligned_le64 (zdrop 24 input) in
  Limbs (Z.land i0 low51) (Z.land (Z.shiftr i1 3) low51) (Z.land (Z.shiftr i2 6) low51)
    (Z.land (Z.shiftr i3 1) low51) (Z.land (Z.shiftr i4 12) low51).

Definition format_fcontract_first_carry_pass (input : limbs) : limbs :=
  let '(Limbs t0 t1 t2 t3 t4) := input in
  let t1_ := u64 (t1 + Z.shiftr t0 51) in
  let t0_ := Z.land t0 low51 in
  let t2_ := u64 (t2 + Z.shiftr t1_ 51) in
  let t1__ := Z.land t1_ low51 in
  let t3_ := u64 (t3 + Z.shiftr t2_ 51) in
  let t2__ := Z.land t2_ low51 in
  let t4_ := u64 (t4 + Z.shiftr t3_ 51) in
  let t3__ := Z.land t3_ low51 in
  Limbs t0_ t1__ t2__ t3__ t4_.

Definition format_fcontract_first_carry_full (input : limbs) : limbs :=
  modulo_carry_top (format_fcontract_first_carry_pass input).

(** The second pass is the same code again. *)
Definition format_fcontract_second_carry_pass (input : limbs) : limbs :=
  format_fcontract_first_carry_pass input.

Definition format_fcontract_second_carry_full (input : limbs) : limbs :=
  carry_first (modulo_carry_top (format_fcontract_second_carry_pass input)).

Definition format_fcontract_trim (input : limbs) : limbs :=
  let '(Limbs a0 a1 a2 a3 a4) := input in
  let mask0 := u64_gte_mask a0 0x7ffffffffffed in
  let mask1 := u64_eq_mask a1 0x7ffffffffffff in
  let mask2 := u64_eq_mask a2 0x7ffffffffffff in
  let mask3 := u64_eq_mask a3 0x7ffffffffffff in
  let mask4 := u64_eq_mask a4 0x7ffffffffffff in
  let mask := Z.land (Z.land (Z.land (Z.land mask0 mask1) mask2) mask3) mask4 in
  Limbs (u64 (a0 - Z.land 0x7ffffffffffed mask)) (u64 (a1 - Z.land 0x7ffffffffffff mask))
    (u64 (a2 - Z.land 0x7ffffffffffff mask)) (u64 (a3 - Z.land 0x7ffffffffffff mask))
    (u64 (a4 - Z.land 0x7ffffffffffff mask)).

Definition format_fcontract_store (input : limbs) : list Z :=
  let '(Limbs t0 t1 t2 t3 t4) := input in
  let o0 := Z.lor (u64 (Z.shiftl t1 51)) t0 in
  let o1 := Z.lor (u64 (Z.shiftl t2 38)) (Z.shiftr t1 13) in
  let o2 := Z.lor (u64 (Z.shiftl t3 25)) (Z.shiftr t2 26) in
  let o3 := Z.lor (u64 (Z.shiftl t4 12)) (Z.shiftr t3 39) in
  put_unaligned_le64 o0 ++ put_unaligned_le64 o1 ++ put_unaligned_le64 o2 ++ put_unaligned_le64 o3.

Definition format_fcontract (input : limbs) : list Z :=
  format_fcontract_store (format_fcontract_trim
    (format_fcontract_second_carry_full (format_fcontract_first_carry_full input))).

Definition format_scalar_of_point (point : point) : list Z :=
  let '(x, z) := point in
  let zmone := crecip_crecip z in
  let sc := fmul_fmul x zmone in
  format_fcontract sc.

Definition clamp_secret (secret : list Z) : list Z :=
  let secret := <[0%nat := Z.land (nth 0 secret 0) 248]> secret in
  <[31%nat := Z.lor (Z.land (nth 31 secret 0) 127) 64]> secret.

Definition curve25519_generic (secret basepoint : list Z) : list Z :=
  let q := (format_fexpand basepoint, limbs_1) in
  let e := clamp_secret secret in
  format_scalar_of_point (ladder_cmult e q).

(** [curve25519_generate_public] of the tool. *)
Definition tool_public_key (secret : list Z) : list Z :=
  curve25519_generic secret (9 :: repeat 0 31).
