(* ===== verification/Fiat32.v ===== *)
(** * Curve25519 on 32-bit machines (tools/curve25519-fiat32.h)

    The implementation for compilers without a 128-bit type.  A field element is
    ten limbs of 26 and 25 bits in 32-bit words, with products in 64-bit words;
    [x_i] are the names of the generated code.  Every operation is kept at its
    width. *)
From stdpp Require Import prelude list.
From Stdlib Require Import ZArith Lia.
From S2P Require Import Prelude Curve25519.

#[local] Open Scope Z_scope.

(** The types [fe] and [fe_loose]; also ten 64-bit columns of a product. *)
Record fe := Fe {
  v0 : Z; v1 : Z; v2 : Z; v3 : Z; v4 : Z; v5 : Z; v6 : Z; v7 : Z; v8 : Z; v9 : Z
}.

(** Arithmetic on 64-bit words. *)
Declare Scope word_scope.
Notation "a ⊗ b" := (u64 (a * b)) (at level 40, left associativity) : word_scope.
Notation "a ⊕ b" := (u64 (a + b)) (at level 50, left associativity) : word_scope.
#[local] Open Scope word_scope.

Definition get_unaligned_le32 (a : list Z) : Z := le_val (ztake 4 a).

Definition low (w x : Z) : Z := Z.land x (Z.ones w).

Definition fe_frombytes (s : list Z) : fe :=
  let a0 := get_unaligned_le32 s in
  let a1 := get_unaligned_le32 (zdrop 4 s) in
  let a2 := get_unaligned_le32 (zdrop 8 s) in
  let a3 := get_unaligned_le32 (zdrop 12 s) in
  let a4 := get_unaligned_le32 (zdrop 16 s) in
  let a5 := get_unaligned_le32 (zdrop 20 s) in
  let a6 := get_unaligned_le32 (zdrop 24 s) in
  let a7 := get_unaligned_le32 (zdrop 28 s) in
  Fe (low 26 a0)
    (Z.lor (Z.shiftr a0 26) (u32 (Z.shiftl (low 19 a1) 6)))
    (Z.lor (Z.shiftr a1 19) (u32 (Z.shiftl (low 13 a2) 13)))
    (Z.lor (Z.shiftr a2 13) (u32 (Z.shiftl (low 6 a3) 19)))
    (Z.shiftr a3 6)
    (low 25 a4)
    (Z.lor (Z.shiftr a4 25) (u32 (Z.shiftl (low 19 a5) 7)))
    (Z.lor (Z.shiftr a5 19) (u32 (Z.shiftl (low 12 a6) 13)))
    (Z.lor (Z.shiftr a6 12) (u32 (Z.shiftl (low 6 a7) 20)))
    (low 25 (Z.shiftr a7 6)).

(** ** The canonical form

    [addcarryx_u25] and [addcarryx_u26], [subborrow_u25] and [subborrow_u26] for
    the two widths: the carry and the low bits. *)
Definition addcarryx (w c a b : Z) : Z * Z :=
  let x := u32 (u32 (a + b) + c) in
  (low 1 (Z.shiftr x w), low w x).

Definition subborrow (w c a b : Z) : Z * Z :=
  let x := u32 (u32 (a - b) - c) in
  (Z.shiftr x 31, low w x).

Definition cmovznz32 (t z nz : Z) : Z :=
  let t := if t =? 0 then 0 else u32 (-1) in
  Z.lor (Z.land t nz) (Z.land (u32 (Z.lnot t)) z).

Definition fe_freeze (in1 : fe) : fe :=
  let '(Fe x2 x4 x6 x8 x10 x12 x14 x16 x18 x17) := in1 in
  let '(x21, x20) := subborrow 26 0 x2 0x3ffffed in
  let '(x24, x23) := subborrow 25 x21 x4 0x1ffffff in
  let '(x27, x26) := subborrow 26 x24 x6 0x3ffffff in
  let '(x30, x29) := subborrow 25 x27 x8 0x1ffffff in
  let '(x33, x32) := subborrow 26 x30 x10 0x3ffffff in
  let '(x36, x35) := subborrow 25 x33 x12 0x1ffffff in
  let '(x39, x38) := subborrow 26 x36 x14 0x3ffffff in
  let '(x42, x41) := subborrow 25 x39 x16 0x1ffffff in
  let '(x45, x44) := subborrow 26 x42 x18 0x3ffffff in
  let '(x48, x47) := subborrow 25 x45 x17 0x1ffffff in
  let x49 := cmovznz32 x48 0 0xffffffff in
  let '(x53, x52) := addcarryx 26 0 x20 (Z.land x49 0x3ffffed) in
  let '(x57, x56) := addcarryx 25 x53 x23 (Z.land x49 0x1ffffff) in
  let '(x61, x60) := addcarryx 26 x57 x26 (Z.land x49 0x3ffffff) in
  let '(x65, x64) := addcarryx 25 x61 x29 (Z.land x49 0x1ffffff) in
  let '(x69, x68) := addcarryx 26 x65 x32 (Z.land x49 0x3ffffff) in
  let '(x73, x72) := addcarryx 25 x69 x35 (Z.land x49 0x1ffffff) in
  let '(x77, x76) := addcarryx 26 x73 x38 (Z.land x49 0x3ffffff) in
  let '(x81, x80) := addcarryx 25 x77 x41 (Z.land x49 0x1ffffff) in
  let '(x85, x84) := addcarryx 26 x81 x44 (Z.land x49 0x3ffffff) in
  let '(_, x88) := addcarryx 25 x85 x47 (Z.land x49 0x1ffffff) in
  Fe x52 x56 x60 x64 x68 x72 x76 x80 x84 x88.

Definition fe_tobytes (f : fe) : list Z :=
  let '(Fe h0 h1 h2 h3 h4 h5 h6 h7 h8 h9) := fe_freeze f in
  u8 <$>
    [h0; Z.shiftr h0 8; Z.shiftr h0 16; Z.lor (Z.shiftr h0 24) (u32 (Z.shiftl h1 2));
     Z.shiftr h1 6; Z.shiftr h1 14; Z.lor (Z.shiftr h1 22) (u32 (Z.shiftl h2 3));
     Z.shiftr h2 5; Z.shiftr h2 13; Z.lor (Z.shiftr h2 21) (u32 (Z.shiftl h3 5));
     Z.shiftr h3 3; Z.shiftr h3 11; Z.lor (Z.shiftr h3 19) (u32 (Z.shiftl h4 6));
     Z.shiftr h4 2; Z.shiftr h4 10; Z.shiftr h4 18;
     h5; Z.shiftr h5 8; Z.shiftr h5 16; Z.lor (Z.shiftr h5 24) (u32 (Z.shiftl h6 1));
     Z.shiftr h6 7; Z.shiftr h6 15; Z.lor (Z.shiftr h6 23) (u32 (Z.shiftl h7 3));
     Z.shiftr h7 5; Z.shiftr h7 13; Z.lor (Z.shiftr h7 21) (u32 (Z.shiftl h8 4));
     Z.shiftr h8 4; Z.shiftr h8 12; Z.lor (Z.shiftr h8 20) (u32 (Z.shiftl h9 6));
     Z.shiftr h9 2; Z.shiftr h9 10; Z.shiftr h9 18].

Definition fe_0 : fe := Fe 0 0 0 0 0 0 0 0 0 0.
Definition fe_1 : fe := Fe 1 0 0 0 0 0 0 0 0 0.

(** ** Sums *)
Definition fe_add_impl (in1 in2 : fe) : fe :=
  Fe (u32 (v0 in1 + v0 in2)) (u32 (v1 in1 + v1 in2)) (u32 (v2 in1 + v2 in2)) (u32 (v3 in1 + v3 in2))
    (u32 (v4 in1 + v4 in2)) (u32 (v5 in1 + v5 in2)) (u32 (v6 in1 + v6 in2)) (u32 (v7 in1 + v7 in2))
    (u32 (v8 in1 + v8 in2)) (u32 (v9 in1 + v9 in2)).

Definition fe_sub_impl (in1 in2 : fe) : fe :=
  Fe (u32 (u32 (0x7ffffda + v0 in1) - v0 in2)) (u32 (u32 (0x3fffffe + v1 in1) - v1 in2))
    (u32 (u32 (0x7fffffe + v2 in1) - v2 in2)) (u32 (u32 (0x3fffffe + v3 in1) - v3 in2))
    (u32 (u32 (0x7fffffe + v4 in1) - v4 in2)) (u32 (u32 (0x3fffffe + v5 in1) - v5 in2))
    (u32 (u32 (0x7fffffe + v6 in1) - v6 in2)) (u32 (u32 (0x3fffffe + v7 in1) - v7 in2))
    (u32 (u32 (0x7fffffe + v8 in1) - v8 in2)) (u32 (u32 (0x3fffffe + v9 in1) - v9 in2)).

(** ** Products

    A column [a] and the one ten limbs above, which counts 19 times: the triples of
    lines such as [x59], [x60], [x61]. *)
Definition fold_column (a b : Z) : Z :=
  let c := a ⊕ u64 (Z.shiftl b 4) in
  let c := c ⊕ u64 (Z.shiftl b 1) in
  c ⊕ b.

(** The columns of a product, lines [x40] to [x85]. *)
Definition fe_mul_columns (in1 in2 : fe) : fe :=
  let '(Fe x5 x7 x9 x11 x13 x15 x17 x19 x21 x20) := in1 in
  let '(Fe x23 x25 x27 x29 x31 x33 x35 x37 x39 x38) := in2 in
  let x40 := x23 ⊗ x5 in
  let x41 := (x23 ⊗ x7) ⊕ (x25 ⊗ x5) in
  let x42 := (((u32 (2 * x25)) ⊗ x7) ⊕ (x23 ⊗ x9)) ⊕ (x27 ⊗ x5) in
  let x43 := (((x25 ⊗ x9) ⊕ (x27 ⊗ x7)) ⊕ (x23 ⊗ x11)) ⊕ (x29 ⊗ x5) in
  let x44 := (((x27 ⊗ x9) ⊕ (2 ⊗ ((x25 ⊗ x11) ⊕ (x29 ⊗ x7)))) ⊕ (x23 ⊗ x13)) ⊕ (x31 ⊗ x5) in
  let x45 := (((((x27 ⊗ x11) ⊕ (x29 ⊗ x9)) ⊕ (x25 ⊗ x13)) ⊕ (x31 ⊗ x7)) ⊕ (x23 ⊗ x15)) ⊕ (x33 ⊗ x5) in
  let x46 := ((((2 ⊗ (((x29 ⊗ x11) ⊕ (x25 ⊗ x15)) ⊕ (x33 ⊗ x7))) ⊕ (x27 ⊗ x13)) ⊕ (x31 ⊗ x9)) ⊕ (x23 ⊗ x17))
      ⊕ (x35 ⊗ x5) in
  let x47 := (((((((x29 ⊗ x13) ⊕ (x31 ⊗ x11)) ⊕ (x27 ⊗ x15)) ⊕ (x33 ⊗ x9)) ⊕ (x25 ⊗ x17)) ⊕ (x35 ⊗ x7))
      ⊕ (x23 ⊗ x19)) ⊕ (x37 ⊗ x5) in
  let x48 := (((((x31 ⊗ x13) ⊕ (2 ⊗ ((((x29 ⊗ x15) ⊕ (x33 ⊗ x11)) ⊕ (x25 ⊗ x19)) ⊕ (x37 ⊗ x7)))) ⊕ (x27 ⊗ x17))
      ⊕ (x35 ⊗ x9)) ⊕ (x23 ⊗ x21)) ⊕ (x39 ⊗ x5) in
  let x49 := (((((((((x31 ⊗ x15) ⊕ (x33 ⊗ x13)) ⊕ (x29 ⊗ x17)) ⊕ (x35 ⊗ x11)) ⊕ (x27 ⊗ x19)) ⊕ (x37 ⊗ x9))
      ⊕ (x25 ⊗ x21)) ⊕ (x39 ⊗ x7)) ⊕ (x23 ⊗ x20)) ⊕ (x38 ⊗ x5) in
  let x50 := ((((2 ⊗ (((((x33 ⊗ x15) ⊕ (x29 ⊗ x19)) ⊕ (x37 ⊗ x11)) ⊕ (x25 ⊗ x20)) ⊕ (x38 ⊗ x7))) ⊕ (x31 ⊗ x17))
      ⊕ (x35 ⊗ x13)) ⊕ (x27 ⊗ x21)) ⊕ (x39 ⊗ x9) in
  let x51 := (((((((x33 ⊗ x17) ⊕ (x35 ⊗ x15)) ⊕ (x31 ⊗ x19)) ⊕ (x37 ⊗ x13)) ⊕ (x29 ⊗ x21)) ⊕ (x39 ⊗ x11))
      ⊕ (x27 ⊗ x20)) ⊕ (x38 ⊗ x9) in
  let x52 := (((x35 ⊗ x17) ⊕ (2 ⊗ ((((x33 ⊗ x19) ⊕ (x37 ⊗ x15)) ⊕ (x29 ⊗ x20)) ⊕ (x38 ⊗ x11)))) ⊕ (x31 ⊗ x21))
      ⊕ (x39 ⊗ x13) in
  let x53 := (((((x35 ⊗ x19) ⊕ (x37 ⊗ x17)) ⊕ (x33 ⊗ x21)) ⊕ (x39 ⊗ x15)) ⊕ (x31 ⊗ x20)) ⊕ (x38 ⊗ x13) in
  let x54 := ((2 ⊗ (((x37 ⊗ x19) ⊕ (x33 ⊗ x20)) ⊕ (x38 ⊗ x15))) ⊕ (x35 ⊗ x21)) ⊕ (x39 ⊗ x17) in
  let x55 := (((x37 ⊗ x21) ⊕ (x39 ⊗ x19)) ⊕ (x35 ⊗ x20)) ⊕ (x38 ⊗ x17) in
  let x56 := (x39 ⊗ x21) ⊕ (2 ⊗ ((x37 ⊗ x20) ⊕ (x38 ⊗ x19))) in
  let x57 := (x39 ⊗ x20) ⊕ (x38 ⊗ x21) in
  let x58 := (u32 (2 * x38)) ⊗ x20 in
  Fe (fold_column x40 x50) (fold_column x41 x51) (fold_column x42 x52) (fold_column x43 x53)
    (fold_column x44 x54) (fold_column x45 x55) (fold_column x46 x56) (fold_column x47 x57)
    (fold_column x48 x58) x49.

(** The columns of a square, lines [x19] to [x64]. *)
Definition fe_sqr_columns (in1 : fe) : fe :=
  let '(Fe x2 x4 x6 x8 x10 x12 x14 x16 x18 x17) := in1 in
  let x19 := x2 ⊗ x2 in
  let x20 := (u32 (2 * x2)) ⊗ x4 in
  let x21 := 2 ⊗ ((x4 ⊗ x4) ⊕ (x2 ⊗ x6)) in
  let x22 := 2 ⊗ ((x4 ⊗ x6) ⊕ (x2 ⊗ x8)) in
  let x23 := ((x6 ⊗ x6) ⊕ ((u32 (4 * x4)) ⊗ x8)) ⊕ ((u32 (2 * x2)) ⊗ x10) in
  let x24 := 2 ⊗ (((x6 ⊗ x8) ⊕ (x4 ⊗ x10)) ⊕ (x2 ⊗ x12)) in
  let x25 := 2 ⊗ ((((x8 ⊗ x8) ⊕ (x6 ⊗ x10)) ⊕ (x2 ⊗ x14)) ⊕ ((u32 (2 * x4)) ⊗ x12)) in
  let x26 := 2 ⊗ ((((x8 ⊗ x10) ⊕ (x6 ⊗ x12)) ⊕ (x4 ⊗ x14)) ⊕ (x2 ⊗ x16)) in
  let x27 := (x10 ⊗ x10) ⊕ (2 ⊗ (((x6 ⊗ x14) ⊕ (x2 ⊗ x18)) ⊕ (2 ⊗ ((x4 ⊗ x16) ⊕ (x8 ⊗ x12))))) in
  let x28 := 2 ⊗ (((((x10 ⊗ x12) ⊕ (x8 ⊗ x14)) ⊕ (x6 ⊗ x16)) ⊕ (x4 ⊗ x18)) ⊕ (x2 ⊗ x17)) in
  let x29 := 2 ⊗ ((((x12 ⊗ x12) ⊕ (x10 ⊗ x14)) ⊕ (x6 ⊗ x18)) ⊕ (2 ⊗ ((x8 ⊗ x16) ⊕ (x4 ⊗ x17)))) in
  let x30 := 2 ⊗ ((((x12 ⊗ x14) ⊕ (x10 ⊗ x16)) ⊕ (x8 ⊗ x18)) ⊕ (x6 ⊗ x17)) in
  let x31 := (x14 ⊗ x14) ⊕ (2 ⊗ ((x10 ⊗ x18) ⊕ (2 ⊗ ((x12 ⊗ x16) ⊕ (x8 ⊗ x17))))) in
  let x32 := 2 ⊗ (((x14 ⊗ x16) ⊕ (x12 ⊗ x18)) ⊕ (x10 ⊗ x17)) in
  let x33 := 2 ⊗ (((x16 ⊗ x16) ⊕ (x14 ⊗ x18)) ⊕ ((u32 (2 * x12)) ⊗ x17)) in
  let x34 := 2 ⊗ ((x16 ⊗ x18) ⊕ (x14 ⊗ x17)) in
  let x35 := (x18 ⊗ x18) ⊕ ((u32 (4 * x16)) ⊗ x17) in
  let x36 := (u32 (2 * x18)) ⊗ x17 in
  let x37 := (u32 (2 * x17)) ⊗ x17 in
  Fe (fold_column x19 x29) (fold_column x20 x30) (fold_column x21 x31) (fold_column x22 x32)
    (fold_column x23 x33) (fold_column x24 x34) (fold_column x25 x35) (fold_column x26 x36)
    (fold_column x27 x37) x28.

(** The carries that end each product: lines [x86] to [x120] of [fe_mul_impl], and
    the same lines of the others. *)
Definition fe_carry (t : fe) : fe :=
  let '(Fe x85 x82 x79 x76 x73 x70 x67 x64 x61 x49) := t in
  let x86 := Z.shiftr x85 26 in
  let x87 := low 26 (u32 x85) in
  let x88 := x86 ⊕ x82 in
  let x89 := Z.shiftr x88 25 in
  let x90 := low 25 (u32 x88) in
  let x91 := x89 ⊕ x79 in
  let x92 := Z.shiftr x91 26 in
  let x93 := low 26 (u32 x91) in
  let x94 := x92 ⊕ x76 in
  let x95 := Z.shiftr x94 25 in
  let x96 := low 25 (u32 x94) in
  let x97 := x95 ⊕ x73 in
  let x98 := Z.shiftr x97 26 in
  let x99 := low 26 (u32 x97) in
  let x100 := x98 ⊕ x70 in
  let x101 := Z.shiftr x100 25 in
  let x102 := low 25 (u32 x100) in
  let x103 := x101 ⊕ x67 in
  let x104 := Z.shiftr x103 26 in
  let x105 := low 26 (u32 x103) in
  let x106 := x104 ⊕ x64 in
  let x107 := Z.shiftr x106 25 in
  let x108 := low 25 (u32 x106) in
  let x109 := x107 ⊕ x61 in
  let x110 := Z.shiftr x109 26 in
  let x111 := low 26 (u32 x109) in
  let x112 := x110 ⊕ x49 in
  let x113 := Z.shiftr x112 25 in
  let x114 := low 25 (u32 x112) in
  let x115 := x87 ⊕ (19 ⊗ x113) in
  let x116 := u32 (Z.shiftr x115 26) in
  let x117 := low 26 (u32 x115) in
  let x118 := u32 (x116 + x90) in
  let x119 := Z.shiftr x118 25 in
  let x120 := low 25 x118 in
  Fe x117 x120 (u32 (x119 + x93)) x96 x99 x102 x105 x108 x111 x114.

Definition fe_mul_impl (in1 in2 : fe) : fe := fe_carry (fe_mul_columns in1 in2).

Definition fe_sqr_impl (in1 : fe) : fe := fe_carry (fe_sqr_columns in1).

(** The code of the product again, for the second factor 121666. *)
Definition fe_mul_121666_impl (in1 : fe) : fe :=
  fe_carry (fe_mul_columns in1 (Fe 121666 0 0 0 0 0 0 0 0 0)).

(** ** The inverse

    A square followed by the loop [for (i = 1; i < n; ++i)] of further squares. *)
Definition fe_sq_times (f : fe) (n : Z) : fe := Nat.iter (Z.to_nat (n - 1)) fe_sqr_impl (fe_sqr_impl f).

Definition fe_loose_invert (z : fe) : fe :=
  let t0 := fe_sqr_impl z in
  let t1 := fe_sq_times t0 2 in
  let t1 := fe_mul_impl z t1 in
  let t0 := fe_mul_impl t0 t1 in
  let t2 := fe_sqr_impl t0 in
  let t1 := fe_mul_impl t1 t2 in
  let t2 := fe_sq_times t1 5 in
  let t1 := fe_mul_impl t2 t1 in
  let t2 := fe_sq_times t1 10 in
  let t2 := fe_mul_impl t2 t1 in
  let t3 := fe_sq_times t2 20 in
  let t2 := fe_mul_impl t3 t2 in
  let t2 := fe_sq_times t2 10 in
  let t1 := fe_mul_impl t2 t1 in
  let t2 := fe_sq_times t1 50 in
  let t2 := fe_mul_impl t2 t1 in
  let t3 := fe_sq_times t2 100 in
  let t2 := fe_mul_impl t3 t2 in
  let t2 := fe_sq_times t2 50 in
  let t1 := fe_mul_impl t2 t1 in
  let t1 := fe_sq_times t1 5 in
  fe_mul_impl t1 t0.

(** ** The ladder *)
Definition cswap_word (b f g : Z) : Z * Z :=
  let x := Z.lxor f g in
  let x := Z.land x b in
  (Z.lxor f x, Z.lxor g x).

Definition fe_cswap (f g : fe) (b : Z) : fe * fe :=
  let b := u32 (0 - b) in
  let '(f0, g0) := cswap_word b (v0 f) (v0 g) in
  let '(f1, g1) := cswap_word b (v1 f) (v1 g) in
  let '(f2, g2) := cswap_word b (v2 f) (v2 g) in
  let '(f3, g3) := cswap_word b (v3 f) (v3 g) in
  let '(f4, g4) := cswap_word b (v4 f) (v4 g) in
  let '(f5, g5) := cswap_word b (v5 f) (v5 g) in
  let '(f6, g6) := cswap_word b (v6 f) (v6 g) in
  let '(f7, g7) := cswap_word b (v7 f) (v7 g) in
  let '(f8, g8) := cswap_word b (v8 f) (v8 g) in
  let '(f9, g9) := cswap_word b (v9 f) (v9 g) in
  (Fe f0 f1 f2 f3 f4 f5 f6 f7 f8 f9, Fe g0 g1 g2 g3 g4 g5 g6 g7 g8 g9).

(** The body of the loop after the exchange. *)
Definition ladder_body (x1 x2 z2 x3 z3 : fe) : (fe * fe) * (fe * fe) :=
  let tmp0l := fe_sub_impl x3 z3 in
  let tmp1l := fe_sub_impl x2 z2 in
  let x2l := fe_add_impl x2 z2 in
  let z2l := fe_add_impl x3 z3 in
  let z3 := fe_mul_impl tmp0l x2l in
  let z2 := fe_mul_impl z2l tmp1l in
  let tmp0 := fe_sqr_impl tmp1l in
  let tmp1 := fe_sqr_impl x2l in
  let x3l := fe_add_impl z3 z2 in
  let z2l := fe_sub_impl z3 z2 in
  let x2 := fe_mul_impl tmp1 tmp0 in
  let tmp1l := fe_sub_impl tmp1 tmp0 in
  let z2 := fe_sqr_impl z2l in
  let z3 := fe_mul_121666_impl tmp1l in
  let x3 := fe_sqr_impl x3l in
  let tmp0l := fe_add_impl tmp0 z3 in
  let z3 := fe_mul_impl x1 z2 in
  let z2 := fe_mul_impl tmp1l tmp0l in
  ((x2, z2), (x3, z3)).

(** Both exchanges of a round. *)
Definition cswap_points (swap : Z) (PQ : (fe * fe) * (fe * fe)) : (fe * fe) * (fe * fe) :=
  let '((x2, z2), (x3, z3)) := PQ in
  let '(x2, x3) := fe_cswap x2 x3 swap in
  let '(z2, z3) := fe_cswap z2 z3 swap in
  ((x2, z2), (x3, z3)).

(** The loop from [pos - 1] down to 0. *)
Fixpoint ladder_rounds (pos : nat) (e : list Z) (x1 : fe) (swap : Z) (PQ : (fe * fe) * (fe * fe))
    : (fe * fe) * (fe * fe) :=
  match pos with
  | O => cswap_points swap PQ
  | S pos =>
      let b := Z.land 1 (Z.shiftr (nth (pos / 8) e 0) (Z.land (Z.of_nat pos) 7)) in
      let swap := Z.lxor swap b in
      let '((x2, z2), (x3, z3)) := cswap_points swap PQ in
      let swap := b in
      ladder_rounds pos e x1 swap (ladder_body x1 x2 z2 x3 z3)
  end.

(** [curve25519_generic] of this implementation. *)
Definition curve25519_generic32 (scalar point : list Z) : list Z :=
  let e := clamp_secret scalar in
  let x1 := fe_frombytes point in
  let '((x2, z2), _) := ladder_rounds 255 e x1 0 ((fe_1, fe_0), (x1, fe_1)) in
  let z2 := fe_loose_invert z2 in
  let x2 := fe_mul_impl x2 z2 in
  fe_tobytes x2.
