(* ===== verification/Curve25519Spec.v ===== *)
(** * The implementation computes X25519

    Each operation on limbs is shown to stay within its words and to compute the
    operation of the field on the numbers the limbs stand for; the ladder then
    follows the reference step by step. *)
From stdpp Require Import prelude list.
From Stdlib Require Import ZArith Lia.
From S2P Require Import Prelude Field25519 Curve25519.

#[local] Open Scope Z_scope.
#[local] Open Scope field_scope.

(** ** Numbers and bounds *)
Definition val (f : limbs) : Z :=
  l0 f + 2 ^ 51 * l1 f + 2 ^ 102 * l2 f + 2 ^ 153 * l3 f + 2 ^ 204 * l4 f.

Definition bounded (B f : limbs) : Prop :=
  0 <= l0 f <= l0 B ∧ 0 <= l1 f <= l1 B ∧ 0 <= l2 f <= l2 B ∧ 0 <= l3 f <= l3 B ∧ 0 <= l4 f <= l4 B.

Definition all_limbs (b : Z) : limbs := Limbs b b b b b.

(** What a product, and what a sum or difference of products leaves. *)
Definition tight : limbs → Prop := bounded (all_limbs (2 ^ 51 + 2 ^ 30)).
Definition loose : limbs → Prop := bounded (all_limbs (2 ^ 54 + 2 ^ 51 + 2 ^ 30)).

Lemma bounded_weaken B C f :
  bounded B f → l0 B <= l0 C → l1 B <= l1 C → l2 B <= l2 C → l3 B <= l3 C → l4 B <= l4 C → bounded C f.
Proof. unfold bounded. lia. Qed.

Lemma tight_loose f : tight f → loose f.
Proof. intros H. apply (bounded_weaken _ _ f H); done. Qed.
#[export] Hint Resolve tight_loose : field.

(** ** Words *)
Lemma land_low51 x : Z.land x low51 = x mod 2 ^ 51.
Proof. apply (Z.land_ones x 51). done. Qed.

Lemma low51_u64 x : u64 x mod 2 ^ 51 = x mod 2 ^ 51.
Proof.
  unfold u64, wrap. change (2 ^ 64) with (2 ^ 51 * 2 ^ 13). rewrite Z.rem_mul_r by done.
  rewrite Z.mul_comm, Z.mod_add, Z.mod_mod; done.
Qed.

Lemma shiftr_div x n : 0 <= n → Z.shiftr x n = x / 2 ^ n.
Proof. apply Z.shiftr_div_pow2. Qed.

Lemma u64_small x : 0 <= x < 2 ^ 64 → u64 x = x.
Proof. apply wrap_small. Qed.

Lemma u128_small x : 0 <= x < 2 ^ 128 → u128 x = x.
Proof. apply wrap_small. Qed.

Lemma mul_bound a b A B : 0 <= a <= A → 0 <= b <= B → 0 <= a * b <= A * B.
Proof. nia. Qed.

Lemma div_bound a A n : 0 < n → 0 <= a <= A → 0 <= a / n <= A / n.
Proof. intros. split; [apply Z.div_pos; lia|apply Z.div_le_mono; lia]. Qed.

(** ** Products *)
Lemma accumulate o i s B C S :
  0 <= o <= B → 0 <= i <= C → 0 <= s <= S → B + C * S < 2 ^ 128 →
  u128 (o + u128 (i * s)) = o + i * s ∧ 0 <= o + i * s <= B + C * S.
Proof.
  intros Ho Hi Hs Hb. pose proof (mul_bound i s C S Hi Hs). rewrite (u128_small (i * s)) by lia.
  rewrite u128_small by lia. lia.
Qed.

(** The bounds after a row of the product has been added. *)
Definition row_bound (B C : limbs) (S : Z) : limbs :=
  Limbs (l0 B + l0 C * S) (l1 B + l1 C * S) (l2 B + l2 C * S) (l3 B + l3 C * S) (l4 B + l4 C * S).

Definition fits (w : Z) (B : limbs) : bool :=
  (l0 B <? 2 ^ w) && (l1 B <? 2 ^ w) && (l2 B <? 2 ^ w) && (l3 B <? 2 ^ w) && (l4 B <? 2 ^ w).

Lemma row_spec B C S out inp s :
  bounded B out → bounded C inp → 0 <= s <= S → fits 128 (row_bound B C S) = true →
  bounded (row_bound B C S) (fproduct_sum_scalar_multiplication_ out inp s) ∧
  val (fproduct_sum_scalar_multiplication_ out inp s) = val out + s * val inp.
Proof.
  intros (?&?&?&?&?) (?&?&?&?&?) Hs Hf. unfold fits in Hf. simpl_guards. cbn [row_bound l0 l1 l2 l3 l4] in Hf.
  unfold fproduct_sum_scalar_multiplication_, bounded, val. cbn [row_bound l0 l1 l2 l3 l4].
  destruct (accumulate (l0 out) (l0 inp) s (l0 B) (l0 C) S) as [-> ?]; [tauto..|].
  destruct (accumulate (l1 out) (l1 inp) s (l1 B) (l1 C) S) as [-> ?]; [tauto..|].
  destruct (accumulate (l2 out) (l2 inp) s (l2 B) (l2 C) S) as [-> ?]; [tauto..|].
  destruct (accumulate (l3 out) (l3 inp) s (l3 B) (l3 C) S) as [-> ?]; [tauto..|].
  destruct (accumulate (l4 out) (l4 inp) s (l4 B) (l4 C) S) as [-> ?]; [tauto..|].
  split; [tauto|ring].
Qed.

Definition shift_bound (B : limbs) : limbs := Limbs (19 * l4 B) (l0 B) (l1 B) (l2 B) (l3 B).

Lemma shift_reduce_spec B f :
  bounded B f → 19 * l4 B < 2 ^ 64 →
  bounded (shift_bound B) (fmul_shift_reduce f) ∧ val (fmul_shift_reduce f) ≡p 2 ^ 51 * val f.
Proof.
  intros (?&?&?&?&?) Hb. unfold fmul_shift_reduce, bounded, val. cbn [shift_bound l0 l1 l2 l3 l4].
  rewrite u64_small by lia. split; [lia|]. apply (eqp_multiple (- l4 f)). unfold p25519. lia.
Qed.

(** The bounds under which the end of a product is right. *)
Definition reducible (B : limbs) : bool :=
  fits 126 B && (2 ^ 51 + 19 * ((l4 B + 2 ^ 76) / 2 ^ 51) <? 2 ^ 64).

Lemma product_spec a b :
  loose a → loose b →
  ∃ B, bounded B (fmul_mul_shift_reduce_ limbs_0 a b) ∧ reducible B = true ∧
    val (fmul_mul_shift_reduce_ limbs_0 a b) ≡p val a * val b.
Proof.
  intros Ha Hb. pose proof Hb as (H0 & H1 & H2 & H3 & H4). cbn [all_limbs l0 l1 l2 l3 l4] in *.
  set (L := 2 ^ 54 + 2 ^ 51 + 2 ^ 30) in *.
  assert (bounded limbs_0 limbs_0) as Hz by done.
  destruct (row_spec _ _ _ _ _ _ Hz Ha H0) as [Hr0 V0]; [by vm_compute|].
  destruct (shift_reduce_spec _ _ Ha) as [Hs1 W1]; [by vm_compute|].
  destruct (row_spec _ _ _ _ _ _ Hr0 Hs1 H1) as [Hr1 V1]; [by vm_compute|].
  destruct (shift_reduce_spec _ _ Hs1) as [Hs2 W2]; [by vm_compute|].
  destruct (row_spec _ _ _ _ _ _ Hr1 Hs2 H2) as [Hr2 V2]; [by vm_compute|].
  destruct (shift_reduce_spec _ _ Hs2) as [Hs3 W3]; [by vm_compute|].
  destruct (row_spec _ _ _ _ _ _ Hr2 Hs3 H3) as [Hr3 V3]; [by vm_compute|].
  destruct (shift_reduce_spec _ _ Hs3) as [Hs4 W4]; [by vm_compute|].
  destruct (row_spec _ _ _ _ _ _ Hr3 Hs4 H4) as [Hr4 V4]; [by vm_compute|].
  eexists. split; [exact Hr4|]. split; [by vm_compute|].
  unfold fmul_mul_shift_reduce_. cbv zeta. rewrite V4, V3, V2, V1, V0, W4, W3, W2, W1.
  apply eq_subrelation; [apply _|]. unfold val. cbn [limbs_0 l0 l1 l2 l3 l4]. ring.
Qed.

Lemma div_below t C n : 0 < n → 0 <= t <= C * n → 0 <= t / n <= C.
Proof. intros Hn Ht. rewrite <- (Z.div_mul C n) by lia. apply div_bound; lia. Qed.

Lemma carry_wide_spec t u C U :
  0 <= t <= C * 2 ^ 51 → 0 <= u <= U → U + C < 2 ^ 128 →
  carry_wide t u = (t mod 2 ^ 51, u + t / 2 ^ 51) ∧ 0 <= u + t / 2 ^ 51 <= U + C.
Proof.
  intros Ht Hu Hb. unfold carry_wide. pose proof (div_below t C (2 ^ 51) eq_refl Ht).
  rewrite land_low51, low51_u64, shiftr_div by done. rewrite u128_small by lia. split; [done|lia].
Qed.

Lemma reduce_wide_spec B t :
  bounded B t → reducible B = true →
  bounded (Limbs (2 ^ 51 + 19 * ((l4 B + 2 ^ 76) / 2 ^ 51)) (2 ^ 51 - 1) (2 ^ 51 - 1) (2 ^ 51 - 1) (2 ^ 51 - 1))
    (reduce_wide t) ∧
  val (reduce_wide t) ≡p val t.
Proof.
  intros (?&?&?&?&?) Hr. unfold reducible, fits in Hr. simpl_guards.
  unfold reduce_wide, fproduct_carry_wide_.
  destruct (carry_wide_spec (l0 t) (l1 t) (2 ^ 76) (2 ^ 126)) as [-> ?]; [lia..|].
  set (t1 := l1 t + l0 t / 2 ^ 51) in *.
  destruct (carry_wide_spec t1 (l2 t) (2 ^ 76) (2 ^ 126)) as [-> ?]; [lia..|].
  set (t2 := l2 t + t1 / 2 ^ 51) in *.
  destruct (carry_wide_spec t2 (l3 t) (2 ^ 76) (2 ^ 126)) as [-> ?]; [lia..|].
  set (t3 := l3 t + t2 / 2 ^ 51) in *.
  destruct (carry_wide_spec t3 (l4 t) (2 ^ 76) (l4 B)) as [-> ?]; [lia..|].
  set (t4 := l4 t + t3 / 2 ^ 51) in *.
  assert (0 <= t4 / 2 ^ 51 <= (l4 B + 2 ^ 76) / 2 ^ 51) by (apply div_bound; lia). cbn [l0 l1 l2 l3 l4].
  rewrite land_low51, shiftr_div, (u64_small (t4 / 2 ^ 51)) by lia.
  pose proof (Z.mod_pos_bound (l0 t) (2 ^ 51)). pose proof (Z.mod_pos_bound t1 (2 ^ 51)). pose proof (Z.mod_pos_bound t2 (2 ^ 51)).
  pose proof (Z.mod_pos_bound t3 (2 ^ 51)). pose proof (Z.mod_pos_bound t4 (2 ^ 51)).
  rewrite (u128_small (19 * (t4 / 2 ^ 51))), u128_small by lia.
  unfold fproduct_copy_from_wide_, bounded, val. cbn [l0 l1 l2 l3 l4]. rewrite !u64_small by lia.
  split; [lia|]. apply (eqp_multiple (- (t4 / 2 ^ 51))).
  pose proof (Z.div_mod (l0 t) (2 ^ 51)). pose proof (Z.div_mod t1 (2 ^ 51)). pose proof (Z.div_mod t2 (2 ^ 51)).
  pose proof (Z.div_mod t3 (2 ^ 51)). pose proof (Z.div_mod t4 (2 ^ 51)). unfold p25519. lia.
Qed.

Lemma carry_first_spec f :
  bounded (Limbs (2 ^ 64 - 1) (2 ^ 51 - 1) (2 ^ 51 - 1) (2 ^ 51 - 1) (2 ^ 51 - 1)) f →
  tight (carry_first f) ∧ val (carry_first f) = val f.
Proof.
  intros (?&?&?&?&?). cbn [l0 l1 l2 l3 l4] in *. unfold carry_first, tight, bounded, val. cbn [all_limbs l0 l1 l2 l3 l4].
  pose proof (div_below (l0 f) (2 ^ 13) (2 ^ 51) eq_refl ltac:(lia)).
  pose proof (Z.mod_pos_bound (l0 f) (2 ^ 51) eq_refl). pose proof (Z.div_mod (l0 f) (2 ^ 51) ltac:(done)).
  rewrite land_low51, shiftr_div by done. rewrite u64_small by lia. lia.
Qed.

(** The end of every product. *)
Lemma finish_product B t :
  bounded B t → reducible B = true →
  tight (carry_first (reduce_wide t)) ∧ val (carry_first (reduce_wide t)) ≡p val t.
Proof.
  intros Ht Hr. destruct (reduce_wide_spec B t Ht Hr) as [Hb Hv].
  destruct (carry_first_spec (reduce_wide t)) as [? ->]; [|done].
  apply (bounded_weaken _ _ _ Hb); cbn [l0 l1 l2 l3 l4]; try lia. unfold reducible in Hr. simpl_guards. lia.
Qed.

Lemma fmul_spec a b :
  loose a → loose b → tight (fmul_fmul a b) ∧ val (fmul_fmul a b) ≡p val a * val b.
Proof.
  intros Ha Hb. destruct (product_spec a b Ha Hb) as (B & HB & Hr & Hv).
  destruct (finish_product B _ HB Hr) as [? Hw]. split; [done|]. etransitivity; [exact Hw|exact Hv].
Qed.

Lemma sum3 a b c d e f A B C D E F :
  0 <= a <= A → 0 <= b <= B → 0 <= c <= C → 0 <= d <= D → 0 <= e <= E → 0 <= f <= F →
  A * B + C * D + E * F < 2 ^ 128 →
  u128 (u128 (u128 (a * b) + u128 (c * d)) + u128 (e * f)) = a * b + c * d + e * f ∧
  0 <= a * b + c * d + e * f <= A * B + C * D + E * F.
Proof.
  intros Ha Hb Hc Hd He Hf Hs. pose proof (mul_bound a b A B Ha Hb). pose proof (mul_bound c d C D Hc Hd).
  pose proof (mul_bound e f E F He Hf). rewrite (u128_small (a * b)), (u128_small (c * d)), (u128_small (e * f)) by lia.
  rewrite (u128_small (a * b + c * d)), u128_small by lia. lia.
Qed.

Lemma square_spec r :
  loose r →
  ∃ B, bounded B (fsquare_fsquare__ r) ∧ reducible B = true ∧ val (fsquare_fsquare__ r) ≡p val r * val r.
Proof.
  destruct r as [r0 r1 r2 r3 r4]. intros (H0 & H1 & H2 & H3 & H4). cbn [all_limbs l0 l1 l2 l3 l4] in *.
  set (L := 2 ^ 54 + 2 ^ 51 + 2 ^ 30) in *. assert (L < 2 ^ 55) by done.
  unfold fsquare_fsquare__. rewrite (u64_small (r0 * 2)), (u64_small (r1 * 2)), (u64_small (r2 * 2)), (u64_small (r2 * 2 * 19)),
    (u64_small (r4 * 19)), (u64_small (r4 * 19 * 2)), (u64_small (r3 * 19)) by lia.
  assert (0 <= r4 * 19 * 2 <= 38 * L) by lia. assert (0 <= r2 * 2 * 19 <= 38 * L) by lia.
  assert (0 <= r3 * 19 <= 19 * L) by lia. assert (0 <= r4 * 19 <= 19 * L) by lia.
  assert (0 <= r0 * 2 <= 2 * L) by lia. assert (0 <= r1 * 2 <= 2 * L) by lia.
  destruct (sum3 r0 r0 (r4 * 19 * 2) r1 (r2 * 2 * 19) r3 L L (38 * L) L (38 * L) L) as [-> B0]; [done..|].
  destruct (sum3 (r0 * 2) r1 (r4 * 19 * 2) r2 (r3 * 19) r3 (2 * L) L (38 * L) L (19 * L) L) as [-> B1]; [done..|].
  destruct (sum3 (r0 * 2) r2 r1 r1 (r4 * 19 * 2) r3 (2 * L) L L L (38 * L) L) as [-> B2]; [done..|].
  destruct (sum3 (r0 * 2) r3 (r1 * 2) r2 r4 (r4 * 19) (2 * L) L (2 * L) L L (19 * L)) as [-> B3]; [done..|].
  destruct (sum3 (r0 * 2) r4 (r1 * 2) r3 r2 r2 (2 * L) L (2 * L) L L L) as [-> B4]; [done..|].
  exists (Limbs (L * L + 38 * L * L + 38 * L * L) (2 * L * L + 38 * L * L + 19 * L * L) (2 * L * L + L * L + 38 * L * L)
    (2 * L * L + 2 * L * L + L * (19 * L)) (2 * L * L + 2 * L * L + L * L)).
  split; [done|]. split; [by vm_compute|].
  apply (eqp_multiple (- (2 * r1 * r4 + 2 * r2 * r3 + 2 ^ 51 * (2 * r2 * r4 + r3 * r3) + 2 ^ 102 * (2 * r3 * r4)
    + 2 ^ 153 * (r4 * r4)))).
  unfold val, p25519. cbn [l0 l1 l2 l3 l4]. ring.
Qed.

Lemma fsquare_spec r :
  loose r → tight (fsquare_fsquare_ r) ∧ val (fsquare_fsquare_ r) ≡p val r * val r.
Proof.
  intros Hr. destruct (square_spec r Hr) as (B & HB & Hb & Hv).
  destruct (finish_product B _ HB Hb) as [? Hw]. split; [done|]. etransitivity; [exact Hw|exact Hv].
Qed.

(** Squaring [n] times. *)
Lemma fsquare_times_spec n r :
  1 <= n → loose r →
  tight (fsquare_fsquare_times r n) ∧ val (fsquare_fsquare_times r n) ≡p val r ^ (2 ^ n).
Proof.
  intros Hn Hr. unfold fsquare_fsquare_times. replace n with (1 + Z.of_nat (Z.to_nat (n - 1))) at 3 by lia.
  generalize (Z.to_nat (n - 1)) as m. induction m as [|m [IH1 IH2]].
  - destruct (fsquare_spec r Hr) as [? Hv]. split; [done|]. cbn [Nat.iter nat_rect]. rewrite Hv, <- Z.pow_2_r. done.
  - cbn [Nat.iter nat_rect]. fold (Nat.iter m fsquare_fsquare_ (fsquare_fsquare_ r)).
    destruct (fsquare_spec _ (tight_loose _ IH1)) as [? Hv]. split; [done|]. rewrite Hv, IH2.
    rewrite <- Z.pow_add_r by lia. replace (1 + Z.of_nat (S m)) with (Z.succ (1 + Z.of_nat m)) by lia.
    rewrite Z.pow_succ_r by lia. apply eq_subrelation; [apply _|]. f_equal. lia.
Qed.

(** ** Sums *)
Lemma fsum_spec a b : tight a → tight b → loose (fsum a b) ∧ val (fsum a b) = val a + val b.
Proof.
  intros (?&?&?&?&?) (?&?&?&?&?). cbn [all_limbs l0 l1 l2 l3 l4] in *.
  unfold fsum, loose, bounded, val. cbn [all_limbs l0 l1 l2 l3 l4]. rewrite !u64_small by lia. lia.
Qed.

Lemma fdifference_spec a b : tight a → tight b → loose (fdifference a b) ∧ val (fdifference a b) ≡p val b - val a.
Proof.
  intros (?&?&?&?&?) (?&?&?&?&?). cbn [all_limbs l0 l1 l2 l3 l4] in *.
  unfold fdifference, loose, bounded, val. cbn [all_limbs l0 l1 l2 l3 l4].
  rewrite !(u64_small (_ + _)) by lia. rewrite !u64_small by lia. split; [lia|].
  apply (eqp_multiple 8). unfold p25519. lia.
Qed.

Lemma fscalar_spec b s : loose b → 0 <= s <= a24 → tight (fscalar b s) ∧ val (fscalar b s) ≡p s * val b.
Proof.
  intros Hb Hs. pose proof Hb as (?&?&?&?&?). cbn [all_limbs l0 l1 l2 l3 l4] in *.
  set (L := 2 ^ 54 + 2 ^ 51 + 2 ^ 30) in *. unfold fscalar.
  assert (∀ x, 0 <= x <= L → 0 <= x * s <= L * a24) as Hm by (intros; by apply mul_bound).
  assert (L * a24 < 2 ^ 72) by done.
  rewrite !u128_small by (match goal with |- 0 <= ?x * s < _ => pose proof (Hm x) end; lia).
  destruct (reduce_wide_spec (all_limbs (L * a24)) (Limbs (l0 b * s) (l1 b * s) (l2 b * s) (l3 b * s) (l4 b * s)))
    as [Ht Hv]; [by split_and!; apply Hm|by vm_compute|].
  split; [by apply (bounded_weaken _ _ _ Ht)|]. rewrite Hv. unfold val. cbn [l0 l1 l2 l3 l4].
  apply eq_subrelation; [apply _|ring].
Qed.

(** ** The inverse *)
Definition power (z e : Z) (f : limbs) : Prop := 0 <= e ∧ tight f ∧ val f ≡p z ^ e.

Lemma power_mul z a b f g : power z a f → power z b g → power z (a + b) (fmul_fmul f g).
Proof.
  intros (Ha & Tf & Vf) (Hb & Tg & Vg). destruct (fmul_spec f g) as [? Hv]; [auto with field..|].
  split; [lia|]. split; [done|]. by rewrite Hv, Vf, Vg, Z.pow_add_r.
Qed.

Lemma power_square z a n f : power z a f → 1 <= n → power z (a * 2 ^ n) (fsquare_fsquare_times f n).
Proof.
  intros (Ha & Tf & Vf) Hn. destruct (fsquare_times_spec n f Hn) as [? Hv]; [auto with field|].
  split; [lia|]. split; [done|]. rewrite Hv, Vf, Z.pow_mul_r; done || lia.
Qed.

Ltac power_step :=
  lazymatch goal with
  | |- power ?z ?e (let x := ?v in @?k x) =>
      let H := fresh "Hp" in
      eassert (power z _ v) as H by (first [eapply power_square; [eassumption|done] | eapply power_mul; eassumption]);
      change (power z e (k v)); generalize dependent v; intros ? H; cbv beta
  end.

Lemma crecip_spec z : tight z → tight (crecip_crecip z) ∧ val (crecip_crecip z) ≡p val z ^ (p25519 - 2).
Proof.
  intros Hz. assert (power (val z) 1 z) as H1 by (by unfold power; rewrite Z.pow_1_r).
  enough (power (val z) (p25519 - 2) (crecip_crecip z)) by (unfold power in *; tauto).
  cbv beta delta [crecip_crecip]. do 21 power_step.
  match goal with |- power ?z ?e (fmul_fmul ?f ?g) => eassert (power z _ (fmul_fmul f g)) as H by (eapply power_mul; eassumption) end.
  exact H.
Qed.

(** ** The exchange *)
Lemma swap_step_spec a b (s : bool) :
  0 <= a < 2 ^ 64 → 0 <= b < 2 ^ 64 →
  point_swap_conditional_step a b (u64 (0 - Z.b2z s)) = if s then (b, a) else (a, b).
Proof.
  intros Ha Hb. unfold point_swap_conditional_step. destruct s.
  - change (u64 (0 - Z.b2z true)) with (Z.ones 64). rewrite Z.land_comm, Z.land_ones, Z.mod_small by (done || by apply lxor_range).
    f_equal; [|rewrite (Z.lxor_comm a b)]; by rewrite <- Z.lxor_assoc, Z.lxor_nilpotent, Z.lxor_0_l.
  - change (u64 (0 - Z.b2z false)) with 0. by rewrite Z.land_0_l, !Z.lxor_0_r.
Qed.

Lemma swap5_spec a b (s : bool) :
  tight a → tight b → point_swap_conditional5 a b (u64 (0 - Z.b2z s)) = if s then (b, a) else (a, b).
Proof.
  intros (?&?&?&?&?) (?&?&?&?&?). cbn [all_limbs l0 l1 l2 l3 l4] in *. unfold point_swap_conditional5.
  rewrite !swap_step_spec by lia. by destruct a, b, s.
Qed.

(** ** Points *)
Definition stands (f : limbs) (v : Z) : Prop := tight f ∧ val f ≡p v.
Definition stands_point (P : point) (Q : Z * Z) : Prop := stands P.1 Q.1 ∧ stands P.2 Q.2.

Lemma point_swap_spec P Q (s : bool) :
  tight P.1 ∧ tight P.2 → tight Q.1 ∧ tight Q.2 → point_swap_conditional P Q (Z.b2z s) = if s then (Q, P) else (P, Q).
Proof.
  intros [] []. unfold point_swap_conditional. rewrite !swap5_spec by done. by destruct P, Q, s.
Qed.

(** What sums and differences stand for; they can be factors but not terms. *)
Definition stands_wide (f : limbs) (v : Z) : Prop := loose f ∧ val f ≡p v.

Lemma stands_widen f v : stands f v → stands_wide f v.
Proof. intros []. split; auto with field. Qed.

Lemma stands_fmul f g v w : stands_wide f v → stands_wide g w → stands (fmul_fmul f g) (v * w).
Proof. intros [Hf Vf] [Hg Vg]. destruct (fmul_spec f g) as [? Hv]; [done..|]. split; [done|]. by rewrite Hv, Vf, Vg. Qed.

Lemma stands_square f v : stands_wide f v → stands (fsquare_fsquare_times f 1) (v * v).
Proof. intros [Hf Vf]. destruct (fsquare_spec f) as [? Hv]; [done|]. split; [done|]. cbn. by rewrite Hv, Vf. Qed.

Lemma stands_fsum f g v w : stands f v → stands g w → stands_wide (fsum f g) (v + w).
Proof. intros [Hf Vf] [Hg Vg]. destruct (fsum_spec f g) as [? Hv]; [done..|]. split; [done|]. by rewrite Hv, Vf, Vg. Qed.

Lemma stands_fdifference f g v w : stands f v → stands g w → stands_wide (fdifference f g) (w - v).
Proof. intros [Hf Vf] [Hg Vg]. destruct (fdifference_spec f g) as [? Hv]; [done..|]. split; [done|]. by rewrite Hv, Vf, Vg. Qed.

Lemma stands_fscalar f v : stands_wide f v → stands (fscalar f 121665) (a24 * v).
Proof. intros [Hf Vf]. destruct (fscalar_spec f 121665) as [? Hv]; [done..|]. split; [done|]. by rewrite Hv, Vf. Qed.

#[export] Hint Resolve stands_widen stands_fmul stands_square stands_fsum stands_fdifference stands_fscalar : field.

Lemma stands_eqp f v w : stands f v → w ≡p v → stands f w.
Proof. intros [? Hv] Hw. split; [done|]. by rewrite Hv, Hw. Qed.

(** Relation of the two points of the ladder. *)
Definition stands_pair (PQ : point * point) (pq : (Z * Z) * (Z * Z)) : Prop :=
  stands_point PQ.1 pq.1 ∧ stands_point PQ.2 pq.2.

Lemma addanddouble_spec P Q p q qx x1 :
  stands_point P p → stands_point Q q → stands qx x1 →
  stands_pair (addanddouble_fmonty P Q qx) (ladder_step x1 p q).
Proof.
  destruct P as [x z], Q as [x' z'], p as [x2 z2], q as [x3 z3]. intros [Hx Hz] [Hx' Hz'] Hq. cbn [fst snd] in *.
  destruct (ladder_step_spec x1 (x2, z2) (x3, z3)) as [[E1 E2] [E3 E4]]. unfold double_xz, add_xz in *.
  unfold addanddouble_fmonty. cbn [fst snd] in *.
  split; split; cbn [fst snd]; (eapply stands_eqp; [eauto 30 with field|]);
    (etransitivity; [eassumption|]); apply eq_subrelation; try apply _; ring.
Qed.

(** ** The loops *)
Lemma stands_cswap b PQ pq :
  stands_pair PQ pq →
  stands_pair (point_swap_conditional PQ.1 PQ.2 (Z.b2z b)) (cswap b pq).
Proof.
  intros [[[] []] [[] []]]. rewrite point_swap_spec by done. unfold cswap. by destruct PQ, b.
Qed.

Lemma byte_top_bit byt : is_byte byt → Z.shiftr byt 7 = Z.b2z (Z.testbit byt 7).
Proof.
  intros Hb. rewrite Z.testbit_spec', shiftr_div by done. unfold is_byte in Hb.
  symmetry. apply Z.mod_small. div_mod_lia.
Qed.

Lemma ladder_step_sim P Q pq qx x1 byt :
  is_byte byt → stands_pair (P, Q) pq → stands qx x1 →
  stands_pair (ladder_smallloop_cmult_small_loop_step P Q qx byt) (ladder_bit x1 (Z.testbit byt 7) pq).
Proof.
  intros Hb HPQ Hq. unfold ladder_smallloop_cmult_small_loop_step, ladder_bit. rewrite byte_top_bit by done.
  pose proof (stands_cswap (Z.testbit byt 7) _ _ HPQ) as Hs. cbn [fst snd] in Hs.
  destruct (point_swap_conditional P Q _) as [P' Q'], (cswap _ pq) as [p' q'].
  pose proof (addanddouble_spec P' Q' p' q' qx x1 (proj1 Hs) (proj2 Hs) Hq) as Ha.
  pose proof (stands_cswap (Z.testbit byt 7) _ _ Ha) as Hs'. destruct (addanddouble_fmonty P' Q' qx). exact Hs'.
Qed.

Lemma u8_shiftl_testbit b n i : 0 <= i < 8 → Z.testbit (u8 (Z.shiftl b n)) i = Z.testbit b (i - n).
Proof. intros Hi. unfold u8, wrap. rewrite Z.mod_pow2_bits_low by lia. apply Z.shiftl_spec. lia. Qed.

(** The bits of a byte, from the top. *)
Definition byte_bits (byt : Z) : list bool := (λ j, Z.testbit byt j) <$> [7; 6; 5; 4; 3; 2; 1; 0].

Lemma double_step_sim P Q pq qx x1 byt :
  is_byte byt → stands_pair (P, Q) pq → stands qx x1 →
  stands_pair (ladder_smallloop_cmult_small_loop_double_step P Q qx byt)
    (ladder_bit x1 (Z.testbit byt 6) (ladder_bit x1 (Z.testbit byt 7) pq)).
Proof.
  intros Hb HPQ Hq. unfold ladder_smallloop_cmult_small_loop_double_step.
  pose proof (ladder_step_sim P Q pq qx x1 byt Hb HPQ Hq) as H1.
  destruct (ladder_smallloop_cmult_small_loop_step P Q qx byt) as [P' Q'].
  pose proof (ladder_step_sim P' Q' _ qx x1 (u8 (Z.shiftl byt 1)) (is_byte_u8 _) H1 Hq) as H2.
  by rewrite u8_shiftl_testbit in H2.
Qed.

Lemma small_loop_sim P Q pq qx x1 byt :
  is_byte byt → stands_pair (P, Q) pq → stands qx x1 →
  stands_pair (ladder_smallloop_cmult_small_loop 4 P Q qx byt) (foldl (λ pq b, ladder_bit x1 b pq) pq (byte_bits byt)).
Proof.
  intros Hb HPQ Hq. cbn [ladder_smallloop_cmult_small_loop byte_bits fmap list_fmap foldl].
  pose proof (double_step_sim P Q pq qx x1 byt Hb HPQ Hq) as H1.
  destruct (ladder_smallloop_cmult_small_loop_double_step P Q qx byt) as [P1 Q1].
  pose proof (double_step_sim P1 Q1 _ qx x1 (u8 (Z.shiftl byt 2)) (is_byte_u8 _) H1 Hq) as H2.
  destruct (ladder_smallloop_cmult_small_loop_double_step P1 Q1 qx _) as [P2 Q2].
  pose proof (double_step_sim P2 Q2 _ qx x1 _ (is_byte_u8 (Z.shiftl (u8 (Z.shiftl byt 2)) 2)) H2 Hq) as H3.
  destruct (ladder_smallloop_cmult_small_loop_double_step P2 Q2 qx _) as [P3 Q3].
  pose proof (double_step_sim P3 Q3 _ qx x1 _ (is_byte_u8 (Z.shiftl (u8 (Z.shiftl (u8 (Z.shiftl byt 2)) 2)) 2)) H3 Hq) as H4.
  destruct (ladder_smallloop_cmult_small_loop_double_step P3 Q3 qx _) as [P4 Q4].
  rewrite !u8_shiftl_testbit in H4 by done. exact H4.
Qed.

Lemma ladder_bits_byte n k x1 pq :
  ladder_bits (8 + n) k x1 pq
  = ladder_bits n k x1 (foldl (λ pq b, ladder_bit x1 b pq) pq ((λ j, Z.testbit k (Z.of_nat n + j)) <$> [7; 6; 5; 4; 3; 2; 1; 0])).
Proof.
  cbn [Nat.add ladder_bits fmap list_fmap foldl].
  assert (∀ j, Z.of_nat n + Z.of_nat j = Z.of_nat (j + n)) as Hj by lia.
  by rewrite (Hj 7%nat : Z.of_nat n + 7 = _), (Hj 6%nat : Z.of_nat n + 6 = _), (Hj 5%nat : Z.of_nat n + 5 = _),
    (Hj 4%nat : Z.of_nat n + 4 = _), (Hj 3%nat : Z.of_nat n + 3 = _), (Hj 2%nat : Z.of_nat n + 2 = _),
    (Hj 1%nat : Z.of_nat n + 1 = _), (Hj 0%nat : Z.of_nat n + 0 = _).
Qed.

Lemma big_loop_sim n e P Q pq qx x1 :
  Forall is_byte e → stands_pair (P, Q) pq → stands qx x1 →
  stands_pair (ladder_bigloop_cmult_big_loop n e P Q qx) (ladder_bits (8 * n) (le_val e) x1 pq).
Proof.
  intros He HPQ Hq. revert P Q pq HPQ. induction n as [|n IH]; intros P Q pq HPQ; [exact HPQ|].
  replace (8 * S n)%nat with (8 + 8 * n)%nat by lia. rewrite ladder_bits_byte. cbn [ladder_bigloop_cmult_big_loop].
  assert (is_byte (nth n e 0)) as Hb.
  { destruct (nth_in_or_default n e 0) as [Hin| ->]; [|done]. by eapply Forall_forall; [exact He|apply list_elem_of_In]. }
  pose proof (small_loop_sim P Q pq qx x1 (nth n e 0) Hb HPQ Hq) as H1.
  destruct (ladder_smallloop_cmult_small_loop 4 P Q qx (nth n e 0)) as [P' Q']. apply IH.
  replace ((λ j, Z.testbit (le_val e) (Z.of_nat (8 * n) + j)) <$> [7; 6; 5; 4; 3; 2; 1; 0]) with (byte_bits (nth n e 0)); [done|].
  unfold byte_bits. cbn [fmap list_fmap]. replace (Z.of_nat (8 * n)) with (8 * Z.of_nat n) by lia.
  by rewrite !le_val_testbit.
Qed.

(** ** Masks *)
Lemma top_bit x : 0 <= x < 2 ^ 64 → Z.shiftr x 63 = Z.b2z (2 ^ 63 <=? x).
Proof. intros Hx. rewrite shiftr_div by done. destruct (Z.leb_spec (2 ^ 63) x); cbn [Z.b2z]; div_mod_lia. Qed.

Lemma top_testbit x : 0 <= x < 2 ^ 64 → Z.testbit x 63 = (2 ^ 63 <=? x).
Proof.
  intros Hx. pose proof (top_bit x Hx) as H. rewrite shiftr_div in H by done.
  rewrite Z.testbit_eqb by done. rewrite H. by destruct (2 ^ 63 <=? x).
Qed.

Definition mask_of (b : bool) : Z := if b then Z.ones 64 else 0.

Lemma eq_mask_spec a b : 0 <= a < 2 ^ 64 → 0 <= b < 2 ^ 64 → u64_eq_mask a b = mask_of (a =? b).
Proof.
  intros Ha Hb. unfold u64_eq_mask. pose proof (lxor_range 64 a b ltac:(done) Ha Hb) as Hx.
  destruct (Z.eqb_spec a b) as [->|Hne]; [by rewrite Z.lxor_nilpotent|].
  assert (Z.lxor a b ≠ 0) by (by rewrite Z.lxor_eq_0_iff). set (x := Z.lxor a b) in *.
  replace (u64 (u64 (Z.lnot x) + 1)) with (2 ^ 64 - x) by (unfold u64, wrap, Z.lnot; div_mod_lia).
  rewrite top_bit by (apply lor_range; lia). rewrite <- top_testbit by (apply lor_range; lia).
  rewrite Z.lor_spec, !top_testbit by lia.
  by replace ((2 ^ 63 <=? x) || (2 ^ 63 <=? 2 ^ 64 - x)) with true by lia.
Qed.

Lemma gte_mask_spec a b : 0 <= a < 2 ^ 64 → 0 <= b < 2 ^ 64 → u64_gte_mask a b = mask_of (b <=? a).
Proof.
  intros Ha Hb. unfold u64_gte_mask. assert (0 <= u64 (a - b) < 2 ^ 64) as Hs by (by apply wrap_range).
  assert (∀ x y, 0 <= x < 2 ^ 64 → 0 <= y < 2 ^ 64 → 0 <= Z.lxor x y < 2 ^ 64) as Hxor by (intros; by apply lxor_range).
  rewrite top_bit, <- top_testbit by (apply Hxor; [done|]; apply lor_range; [done|auto..]).
  rewrite Z.lxor_spec, Z.lor_spec, !Z.lxor_spec, !top_testbit by done.
  assert ((2 ^ 63 <=? u64 (a - b)) = if b <=? a then 2 ^ 63 <=? a - b else 2 ^ 63 <=? a - b + 2 ^ 64) as ->.
  { destruct (Z.leb_spec b a); f_equal; unfold u64, wrap; div_mod_lia. }
  destruct (Z.leb_spec b a), (Z.leb_spec (2 ^ 63) a), (Z.leb_spec (2 ^ 63) b); try lia;
    repeat match goal with |- context [2 ^ 63 <=? ?x] => destruct (Z.leb_spec (2 ^ 63) x) end; (lia || reflexivity).
Qed.

(** ** Results as bytes *)
Definition digits : limbs → Prop := bounded (all_limbs (2 ^ 51 - 1)).

(** A pass of carries: all limbs but the last become digits. *)
Lemma carry_pass_spec f :
  bounded (all_limbs (2 ^ 52)) f →
  let g := format_fcontract_first_carry_pass f in
  val g = val f ∧ bounded (Limbs (2 ^ 51 - 1) (2 ^ 51 - 1) (2 ^ 51 - 1) (2 ^ 51 - 1) (l4 f + 3)) g.
Proof.
  destruct f as [t0 t1 t2 t3 t4]. intros (?&?&?&?&?). cbn [all_limbs l0 l1 l2 l3 l4] in *.
  unfold format_fcontract_first_carry_pass. rewrite !land_low51, !shiftr_div by done.
  assert (∀ x, 0 <= x <= 3 * 2 ^ 51 → 0 <= x / 2 ^ 51 <= 3) as Hd by (intros; by apply div_below).
  pose proof (Hd t0 ltac:(lia)). rewrite (u64_small (t1 + _)) by lia. set (s1 := t1 + t0 / 2 ^ 51) in *.
  pose proof (Hd s1 ltac:(lia)). rewrite (u64_small (t2 + _)) by lia. set (s2 := t2 + s1 / 2 ^ 51) in *.
  pose proof (Hd s2 ltac:(lia)). rewrite (u64_small (t3 + _)) by lia. set (s3 := t3 + s2 / 2 ^ 51) in *.
  pose proof (Hd s3 ltac:(lia)). rewrite (u64_small (t4 + _)) by lia. cbv zeta.
  pose proof (Z.div_mod t0 (2 ^ 51) ltac:(done)). pose proof (Z.div_mod s1 (2 ^ 51) ltac:(done)).
  pose proof (Z.div_mod s2 (2 ^ 51) ltac:(done)). pose proof (Z.div_mod s3 (2 ^ 51) ltac:(done)).
  assert (∀ x, 0 <= x mod 2 ^ 51 < 2 ^ 51) as Hm by (intros; by apply Z.mod_pos_bound).
  pose proof (Hm t0). pose proof (Hm s1). pose proof (Hm s2). pose proof (Hm s3).
  unfold val, bounded. cbn [l0 l1 l2 l3 l4]. split; lia.
Qed.

Lemma carry_top_spec g :
  bounded (Limbs (2 ^ 51 - 1) (2 ^ 51 - 1) (2 ^ 51 - 1) (2 ^ 51 - 1) (2 ^ 52 - 1)) g →
  let c := l4 g / 2 ^ 51 in
  modulo_carry_top g = Limbs (l0 g + 19 * c) (l1 g) (l2 g) (l3 g) (l4 g mod 2 ^ 51) ∧
  0 <= c <= 1 ∧ 0 <= l4 g mod 2 ^ 51 < 2 ^ 51 ∧ l4 g = 2 ^ 51 * c + l4 g mod 2 ^ 51.
Proof.
  intros (?&?&?&?&?). cbn [l0 l1 l2 l3 l4] in *. unfold modulo_carry_top. rewrite land_low51, shiftr_div by done.
  assert (0 <= l4 g / 2 ^ 51 <= 1) by (split; [apply Z.div_pos; lia|]; apply Z.lt_succ_r, Z.div_lt_upper_bound; lia).
  rewrite (u64_small (19 * _)), u64_small by lia. split; [done|]. split; [done|]. split; [by apply Z.mod_pos_bound|].
  by apply Z.div_mod.
Qed.

Lemma carries_spec f :
  tight f →
  let g := format_fcontract_second_carry_full (format_fcontract_first_carry_full f) in
  digits g ∧ val g ≡p val f.
Proof.
  intros Hf. unfold format_fcontract_second_carry_full, format_fcontract_second_carry_pass, format_fcontract_first_carry_full.
  destruct (carry_pass_spec f) as [V1 B1]; [by apply (bounded_weaken _ _ _ Hf)|].
  set (g := format_fcontract_first_carry_pass f) in *.
  destruct Hf as (_&_&_&_&H4). cbn [all_limbs l4] in H4.
  destruct (carry_top_spec g) as (E1 & C1 & M1 & D1); [by apply (bounded_weaken _ _ _ B1); cbn [l0 l1 l2 l3 l4]; lia|].
  rewrite E1. destruct B1 as (?&?&?&?&?). cbn [l0 l1 l2 l3 l4] in *.
  set (h := Limbs (l0 g + 19 * (l4 g / 2 ^ 51)) (l1 g) (l2 g) (l3 g) (l4 g mod 2 ^ 51)).
  destruct (carry_pass_spec h) as [V2 B2]; [by unfold bounded, h; cbn [all_limbs l0 l1 l2 l3 l4]; lia|].
  set (k := format_fcontract_first_carry_pass h) in *.
  destruct (carry_top_spec k) as (E2 & C2 & M2 & D2); [by apply (bounded_weaken _ _ _ B2); cbn [h l0 l1 l2 l3 l4]; lia|].
  rewrite E2. destruct B2 as (?&?&?&?&?). cbn [l0 l1 l2 l3 l4] in *.
  (* The value is below 2^255 + 19: with a second carry there is nothing left to carry. *)
  assert (val h < 2 ^ 255 + 19) as Hh by (unfold val, h; cbn [l0 l1 l2 l3 l4]; lia).
  assert (l0 k + 19 * (l4 k / 2 ^ 51) < 2 ^ 51) by (rewrite <- V2 in Hh; unfold val in Hh; lia).
  unfold carry_first. cbn [l0 l1 l2 l3 l4]. set (k0 := l0 k + 19 * (l4 k / 2 ^ 51)) in *.
  rewrite land_low51, shiftr_div, (Z.mod_small k0), (Z.div_small k0), Z.add_0_r, u64_small by lia.
  split; [unfold digits, bounded; cbn [all_limbs l0 l1 l2 l3 l4]; lia|].
  transitivity (val k).
  - apply (eqp_multiple (- (l4 k / 2 ^ 51))). unfold val, p25519. cbn [l0 l1 l2 l3 l4]. lia.
  - rewrite V2, <- V1. apply (eqp_multiple (- (l4 g / 2 ^ 51))). unfold val, p25519, h. cbn [l0 l1 l2 l3 l4]. lia.
Qed.

Lemma trim_spec f : digits f → digits (format_fcontract_trim f) ∧ val (format_fcontract_trim f) = val f mod p25519.
Proof.
  destruct f as [a0 a1 a2 a3 a4]. intros (?&?&?&?&?). cbn [all_limbs l0 l1 l2 l3 l4] in *.
  unfold format_fcontract_trim. rewrite gte_mask_spec, !eq_mask_spec by lia.
  set (big := (0x7ffffffffffed <=? a0) && (a1 =? 0x7ffffffffffff) && (a2 =? 0x7ffffffffffff) && (a3 =? 0x7ffffffffffff)
    && (a4 =? 0x7ffffffffffff)).
  replace (Z.land _ (mask_of (a4 =? _))) with (mask_of big)
    by (subst big; by destruct (0x7ffffffffffed <=? a0), (a1 =? 0x7ffffffffffff), (a2 =? 0x7ffffffffffff), (a3 =? 0x7ffffffffffff),
      (a4 =? 0x7ffffffffffff)).
  set (v := val (Limbs a0 a1 a2 a3 a4)).
  assert (0 <= v < 2 ^ 255) as Hv by (unfold v, val; cbn [l0 l1 l2 l3 l4]; lia).
  assert (big = (p25519 <=? v)) as Hbig by (unfold big, v, val, p25519; cbn [l0 l1 l2 l3 l4]; lia).
  destruct big.
  - change (Z.land 0x7ffffffffffed (mask_of true)) with 0x7ffffffffffed. change (Z.land 0x7ffffffffffff (mask_of true)) with 0x7ffffffffffff.
    assert (v mod p25519 = v - p25519) as -> by (symmetry; apply (Z.mod_unique _ _ 1); unfold p25519 in *; lia).
    unfold v, val, p25519 in *. cbn [l0 l1 l2 l3 l4] in *. unfold digits, bounded. cbn [all_limbs l0 l1 l2 l3 l4].
    rewrite !u64_small by lia. lia.
  - rewrite !Z.land_0_r, !Z.sub_0_r. rewrite Z.mod_small by lia. unfold v, digits, bounded, val. cbn [all_limbs l0 l1 l2 l3 l4].
    rewrite !u64_small by lia. lia.
Qed.

(** A word put together of two limbs. *)
Lemma word_spec t s k :
  0 <= k <= 64 → 0 <= s < 2 ^ k → Z.lor (u64 (Z.shiftl t k)) s = s + 2 ^ k * (t mod 2 ^ (64 - k)).
Proof.
  intros Hk Hs. unfold u64, wrap. rewrite Z.shiftl_mul_pow2 by lia.
  replace (2 ^ 64) with (2 ^ (64 - k) * 2 ^ k) by (rewrite <- Z.pow_add_r by lia; f_equal; lia).
  rewrite Z.mul_mod_distr_r by lia. rewrite <- (Z.shiftl_mul_pow2 _ k), lor_shiftl_add by lia. lia.
Qed.

Lemma store_spec f : digits f → format_fcontract_store f = le_bytes 32 (val f).
Proof.
  destruct f as [t0 t1 t2 t3 t4]. intros (?&?&?&?&?). cbn [all_limbs l0 l1 l2 l3 l4] in *.
  unfold format_fcontract_store, put_unaligned_le64. rewrite !shiftr_div by done.
  assert (0 <= t1 / 2 ^ 13 < 2 ^ 38) by div_mod_lia. assert (0 <= t2 / 2 ^ 26 < 2 ^ 25) by div_mod_lia.
  assert (0 <= t3 / 2 ^ 39 < 2 ^ 12) by div_mod_lia. rewrite !word_spec by lia.
  change (64 - 51) with 13. change (64 - 38) with 26. change (64 - 25) with 39. change (64 - 12) with 52.
  pose proof (Z.mod_pos_bound t1 (2 ^ 13) eq_refl). pose proof (Z.mod_pos_bound t2 (2 ^ 26) eq_refl).
  pose proof (Z.mod_pos_bound t3 (2 ^ 39) eq_refl). rewrite (Z.mod_small t4) by lia.
  pose proof (Z.div_mod t1 (2 ^ 13) ltac:(done)). pose proof (Z.div_mod t2 (2 ^ 26) ltac:(done)).
  pose proof (Z.div_mod t3 (2 ^ 39) ltac:(done)).
  apply le_val_inj; [do 3 (apply Forall_app_2; [apply le_bytes_bytes|]); apply le_bytes_bytes|apply le_bytes_bytes|done|].
  rewrite !le_val_app, !zlen_le_bytes, !le_bytes_val by (unfold val; cbn [l0 l1 l2 l3 l4]; lia).
  unfold val. cbn [l0 l1 l2 l3 l4]. lia.
Qed.

Lemma fcontract_spec f : tight f → format_fcontract f = le_bytes 32 (val f mod p25519).
Proof.
  intros Hf. unfold format_fcontract. destruct (carries_spec f Hf) as [Hd Hv].
  destruct (trim_spec _ Hd) as [Ht Hw]. rewrite store_spec, Hw by done. f_equal. exact Hv.
Qed.

(** ** Arguments as numbers *)
Lemma le64_slice input k :
  Forall is_byte input → 0 <= k → k + 8 <= zlen input →
  get_unaligned_le64 (zdrop k input) = le_val input / 256 ^ k mod 2 ^ 64.
Proof.
  intros Hb Hk Hlen. unfold get_unaligned_le64.
  rewrite <- (ztake_zdrop k input) at 2. rewrite <- (ztake_zdrop 8 (zdrop k input)) at 2.
  rewrite !le_val_app, !zlen_ztake by (rewrite ?zlen_zdrop; lia).
  pose proof (le_val_range (ztake k input) (Forall_ztake _ _ _ Hb)) as R1.
  pose proof (le_val_range (ztake 8 (zdrop k input)) (Forall_ztake _ _ _ (Forall_zdrop _ _ _ Hb))) as R2.
  rewrite zlen_ztake in R1 by lia. rewrite zlen_ztake in R2 by (rewrite zlen_zdrop; lia).
  rewrite Z.pow_mul_r in R1 by lia. change (2 ^ 8) with 256 in R1.
  rewrite Z.mul_comm, Z.div_add by lia. rewrite Z.div_small, Z.add_0_l by lia.
  change (256 ^ 8) with (2 ^ 64). rewrite Z.mul_comm, Z.mod_add, Z.mod_small by (done || lia). done.
Qed.

(** Bits [8 k + s] and up of a number, read from its bytes. *)
Lemma limb_slice v k s i :
  0 <= k → 0 <= s <= 13 → 8 * k + s = i → v / 256 ^ k mod 2 ^ 64 / 2 ^ s mod 2 ^ 51 = v / 2 ^ i mod 2 ^ 51.
Proof.
  intros Hk Hs <-. change 256 with (2 ^ 8). rewrite <- Z.pow_mul_r by lia.
  rewrite <- !Z.shiftr_div_pow2, <- !Z.land_ones by lia. apply Z.bits_inj'. intros j Hj.
  rewrite !Z.land_spec, !Z.shiftr_spec, Z.land_spec, Z.shiftr_spec by lia. rewrite !Z.testbit_ones_nonneg by lia.
  destruct (Z.ltb_spec j 51); [|by rewrite !andb_false_r].
  rewrite (proj2 (Z.ltb_lt (j + s) 64)), !andb_true_r by lia. f_equal. lia.
Qed.

Lemma fexpand_spec input :
  Forall is_byte input → zlen input = 32 →
  tight (format_fexpand input) ∧ val (format_fexpand input) = decode_u input.
Proof.
  intros Hb Hlen. unfold format_fexpand, decode_u. change (get_unaligned_le64 input) with (get_unaligned_le64 (zdrop 0 input)).
  rewrite !le64_slice by (done || lia). rewrite !land_low51, !shiftr_div by done. set (v := le_val input).
  pose proof (limb_slice v 0 0 0 ltac:(done) ltac:(done) eq_refl) as H0. rewrite !Z.div_1_r in H0. change (256 ^ 0) with 1.
  rewrite Z.div_1_r, H0. rewrite (limb_slice v 6 3 51), (limb_slice v 12 6 102), (limb_slice v 19 1 153), (limb_slice v 24 12 204) by done.
  assert (∀ x, 0 <= x mod 2 ^ 51 <= 2 ^ 51 + 2 ^ 30) as Hm by (intros x; pose proof (Z.mod_pos_bound x (2 ^ 51) eq_refl); lia).
  split; [by split_and!; apply Hm|]. unfold val. cbn [l0 l1 l2 l3 l4].
  change (2 ^ 255) with (2 ^ 51 * (2 ^ 51 * (2 ^ 51 * (2 ^ 51 * 2 ^ 51)))). rewrite !Z.rem_mul_r, !Z.div_div by done.
  change (2 ^ 51 * 2 ^ 51) with (2 ^ 102). change (2 ^ 102 * 2 ^ 51) with (2 ^ 153). change (2 ^ 153 * 2 ^ 51) with (2 ^ 204). lia.
Qed.

Lemma clamp_bits b :
  is_byte b → Z.land b 248 = 8 * (b / 8) ∧ Z.lor (Z.land b 127) 64 = 64 + b mod 64.
Proof.
  apply (all_in_range (λ b, Z.land b 248 = 8 * (b / 8) ∧ Z.lor (Z.land b 127) 64 = 64 + b mod 64) 0 256). by vm_compute.
Qed.

Lemma clamp_secret_spec secret :
  Forall is_byte secret → zlen secret = 32 →
  Forall is_byte (clamp_secret secret) ∧ le_val (clamp_secret secret) = decode_scalar secret.
Proof.
  intros Hb Hlen. destruct secret as [|b0 rest]; [done|].
  destruct rest as [|b31 m _] using rev_ind; [done|].
  assert (length m = 30%nat) as Hm by (unfold zlen in Hlen; cbn [length] in Hlen; rewrite length_app in Hlen; cbn in Hlen; lia).
  apply Forall_cons in Hb as [H0 [Hbm [H31 _]%Forall_cons]%Forall_app].
  destruct (clamp_bits b0 H0) as [E0 _], (clamp_bits b31 H31) as [_ E31].
  assert (clamp_secret (b0 :: m ++ [b31]) = 8 * (b0 / 8) :: m ++ [64 + b31 mod 64]) as ->.
  { transitivity (Z.land b0 248 :: <[30%nat := Z.lor (Z.land (nth 30 (m ++ [b31]) 0) 127) 64]> (m ++ [b31])); [done|].
    rewrite app_nth2, insert_app_r_alt by lia. rewrite Hm. cbn [Nat.sub nth]. rewrite E0, E31. done. }
  unfold is_byte in H0, H31.
  pose proof (le_val_range m Hbm) as R. replace (8 * zlen m) with 240 in R by (unfold zlen; lia).
  split.
  { apply Forall_cons. split; [unfold is_byte; div_mod_lia|]. apply Forall_app. split; [done|].
    apply Forall_singleton. unfold is_byte. div_mod_lia. }
  unfold decode_scalar.
  assert (∀ b l, le_val (b :: l) = b + 256 * le_val l) as Hc by done.
  rewrite !Hc, !le_val_app. replace (zlen m) with 30 by (unfold zlen; lia). rewrite !Hc.
  change (le_val []) with 0. set (M := le_val m) in *.
  replace (b0 + 256 * (M + 256 ^ 30 * (b31 + 256 * 0))) with (b0 + 256 * M + 2 ^ 248 * b31) by lia.
  rewrite <- (Z.mod_unique (b0 + 256 * M + 2 ^ 248 * b31) (2 ^ 254) (b31 / 64) (b0 + 256 * M + 2 ^ 248 * (b31 mod 64))) by div_mod_lia.
  rewrite <- (Z.div_unique (b0 + 256 * M + 2 ^ 248 * (b31 mod 64)) 8 (b0 / 8 + 32 * M + 2 ^ 245 * (b31 mod 64)) (b0 mod 8)) by div_mod_lia.
  lia.
Qed.

(** ** The function *)
Lemma stands_val f : tight f → stands f (val f).
Proof. done. Qed.

(** The 64-bit implementation computes X25519. *)
Theorem curve25519_generic_exact secret basepoint :
  Forall is_byte secret → zlen secret = 32 → Forall is_byte basepoint → zlen basepoint = 32 →
  curve25519_generic secret basepoint = x25519 secret basepoint.
Proof.
  intros Hs Hsl Hb Hbl. destruct (clamp_secret_spec secret Hs Hsl) as [Hcb Hc], (fexpand_spec basepoint Hb Hbl) as [Ht Hv].
  rewrite x25519_bits, <- Hc. unfold curve25519_generic, ladder_cmult. cbn [fst].
  assert (stands (format_fexpand basepoint) (decode_u basepoint)) as Hq by (rewrite <- Hv; by apply stands_val).
  assert (stands limbs_0 0 ∧ stands limbs_1 1) as [St0 St1] by (split; by apply stands_val).
  pose proof (big_loop_sim 32 (clamp_secret secret) (limbs_1, limbs_0) (format_fexpand basepoint, limbs_1)
    ((1, 0), (decode_u basepoint, 1)) (format_fexpand basepoint) (decode_u basepoint)) as Hsim.
  destruct Hsim as [[[Tx Vx] [Tz Vz]] _]; [done|by split; split|done|].
  change (8 * 32)%nat with 256%nat in *.
  destruct (ladder_bigloop_cmult_big_loop 32 _ _ _ _) as [[x z] Q]. cbn [fst snd] in *.
  destruct (crecip_spec z Tz) as [Tr Vr]. unfold format_scalar_of_point.
  destruct (fmul_spec x (crecip_crecip z)) as [Tm Vm]; [auto with field..|].
  rewrite fcontract_spec by done. f_equal. rewrite <- affine_range.
  change (val (fmul_fmul x (crecip_crecip z)) ≡p affine (ladder_bits 256 (le_val (clamp_secret secret)) (decode_u basepoint)
    ((1, 0), (decode_u basepoint, 1))).1).
  by rewrite affine_pow, Vm, Vr, Vx, Vz.
Qed.
