(* ===== verification/Fiat32Spec.v ===== *)
(** * The 32-bit implementation computes X25519

    The same development as for the 64-bit implementation, with ten limbs.  Bounds
    of the long sums of products are computed along the expressions by the rules
    of [evaluates]. *)
From stdpp Require Import prelude list.
From Stdlib Require Import ZArith Lia.
From S2P Require Import Prelude Field25519 Curve25519 Fiat32 Curve25519Spec.

#[local] Open Scope Z_scope.
#[local] Open Scope field_scope.

(** ** Numbers and bounds *)
Definition fe_val (f : fe) : Z :=
  v0 f + 2 ^ 26 * v1 f + 2 ^ 51 * v2 f + 2 ^ 77 * v3 f + 2 ^ 102 * v4 f + 2 ^ 128 * v5 f + 2 ^ 153 * v6 f
  + 2 ^ 179 * v7 f + 2 ^ 204 * v8 f + 2 ^ 230 * v9 f.

(** Bounds for the limbs of 26 and of 25 bits. *)
Definition within (A B : Z) (f : fe) : Prop :=
  0 <= v0 f <= A ∧ 0 <= v1 f <= B ∧ 0 <= v2 f <= A ∧ 0 <= v3 f <= B ∧ 0 <= v4 f <= A ∧
  0 <= v5 f <= B ∧ 0 <= v6 f <= A ∧ 0 <= v7 f <= B ∧ 0 <= v8 f <= A ∧ 0 <= v9 f <= B.

(** The bounds the code documents for [fe] and [fe_loose]: 1.125 and 3.375 times the
    width. *)
Definition fe_tight : fe → Prop := within (9 * 2 ^ 23) (9 * 2 ^ 22).
Definition fe_loose : fe → Prop := within (27 * 2 ^ 23) (27 * 2 ^ 22).

Lemma fe_tight_loose f : fe_tight f → fe_loose f.
Proof. unfold fe_tight, fe_loose, within. lia. Qed.
#[export] Hint Resolve fe_tight_loose : field.

(** ** Expressions

    The word [c] is the number [v], which is at most [B]. *)
Definition evaluates (c v B : Z) : Prop := c = v ∧ 0 <= v <= B.

Lemma ev_var x B : 0 <= x <= B → evaluates x x B.
Proof. done. Qed.

Lemma ev_two : evaluates 2 2 2.
Proof. done. Qed.

Lemma ev_mul a va A b vb B :
  evaluates a va A → evaluates b vb B → (A * B <? 2 ^ 64) = true → evaluates (u64 (a * b)) (va * vb) (A * B).
Proof.
  intros [-> Ha] [-> Hb] HB. pose proof (mul_bound va vb A B Ha Hb). split; [|done]. apply u64_small. lia.
Qed.

Lemma ev_add a va A b vb B :
  evaluates a va A → evaluates b vb B → (A + B <? 2 ^ 64) = true → evaluates (u64 (a + b)) (va + vb) (A + B).
Proof. intros [-> Ha] [-> Hb] HB. split; [|lia]. apply u64_small. lia. Qed.

Lemma ev_double a va A :
  evaluates a va A → (2 * A <? 2 ^ 32) = true → evaluates (u32 (2 * a)) (2 * va) (2 * A).
Proof. intros [-> Ha] HB. split; [|lia]. apply (wrap_small 32). lia. Qed.

Lemma ev_quadruple a va A :
  evaluates a va A → (4 * A <? 2 ^ 32) = true → evaluates (u32 (4 * a)) (4 * va) (4 * A).
Proof. intros [-> Ha] HB. split; [|lia]. apply (wrap_small 32). lia. Qed.

Lemma ev_fold a va A b vb B :
  evaluates a va A → evaluates b vb B → (A + 19 * B <? 2 ^ 63) = true →
  evaluates (fold_column a b) (va + 19 * vb) (A + 19 * B).
Proof.
  intros [-> Ha] [-> Hb] HB. split; [|lia]. unfold fold_column. rewrite !Z.shiftl_mul_pow2 by done.
  rewrite (u64_small (vb * 2 ^ 4)), (u64_small (vb * 2 ^ 1)), (u64_small (va + _)), (u64_small (_ + vb * 2 ^ 1)), u64_small by lia. lia.
Qed.

(** The value and the bound of an expression, by its shape. *)
Ltac evaluate :=
  lazymatch goal with
  | |- evaluates (fold_column _ _) _ _ => eapply ev_fold; [evaluate|evaluate|vm_compute; reflexivity]
  | |- evaluates (u64 (_ * _)) _ _ => eapply ev_mul; [evaluate|evaluate|vm_compute; reflexivity]
  | |- evaluates (u64 (_ + _)) _ _ => eapply ev_add; [evaluate|evaluate|vm_compute; reflexivity]
  | |- evaluates (u32 (2 * _)) _ _ => eapply ev_double; [evaluate|vm_compute; reflexivity]
  | |- evaluates (u32 (4 * _)) _ _ => eapply ev_quadruple; [evaluate|vm_compute; reflexivity]
  | |- evaluates 2 _ _ => exact ev_two
  | |- evaluates ?x _ _ => apply ev_var; eassumption
  end.

(** The columns of a product: rewritten to their values, with their bounds. *)
Ltac evaluate_columns :=
  repeat match goal with
  | |- context [fold_column ?a ?b] =>
      let H := fresh "B" in eassert (evaluates (fold_column a b) _ _) as [-> H] by evaluate
  end;
  repeat match goal with
  | |- context [u64 ?a] => let H := fresh "B" in eassert (evaluates (u64 a) _ _) as [-> H] by evaluate
  end.

Ltac by_bounds :=
  match goal with
  | H : 0 <= ?x <= _ |- 0 <= ?x => exact (proj1 H)
  | H : 0 <= ?x <= _ |- ?x <= _ => apply (Z.le_trans _ _ _ (proj2 H)); by vm_compute
  end.

Definition column_bound : Z := 2 ^ 63.

Lemma mul_columns_spec f g :
  fe_loose f → fe_loose g →
  within column_bound column_bound (fe_mul_columns f g) ∧ fe_val (fe_mul_columns f g) ≡p fe_val f * fe_val g.
Proof.
  destruct f as [x5 x7 x9 x11 x13 x15 x17 x19 x21 x20], g as [x23 x25 x27 x29 x31 x33 x35 x37 x39 x38].
  intros (?&?&?&?&?&?&?&?&?&?) (?&?&?&?&?&?&?&?&?&?). cbn [v0 v1 v2 v3 v4 v5 v6 v7 v8 v9] in *.
  unfold fe_mul_columns. cbv zeta. evaluate_columns. split.
  - unfold within. cbn [v0 v1 v2 v3 v4 v5 v6 v7 v8 v9].
    split_and!; by_bounds.
  - apply (eqp_multiple (- ((2 * (x33 * x15 + x29 * x19 + x37 * x11 + x25 * x20 + x38 * x7) + x31 * x17 + x35 * x13 + x27 * x21 + x39 * x9)
      + 2 ^ 26 * (x33 * x17 + x35 * x15 + x31 * x19 + x37 * x13 + x29 * x21 + x39 * x11 + x27 * x20 + x38 * x9)
      + 2 ^ 51 * (x35 * x17 + 2 * (x33 * x19 + x37 * x15 + x29 * x20 + x38 * x11) + x31 * x21 + x39 * x13)
      + 2 ^ 77 * (x35 * x19 + x37 * x17 + x33 * x21 + x39 * x15 + x31 * x20 + x38 * x13)
      + 2 ^ 102 * (2 * (x37 * x19 + x33 * x20 + x38 * x15) + x35 * x21 + x39 * x17)
      + 2 ^ 128 * (x37 * x21 + x39 * x19 + x35 * x20 + x38 * x17)
      + 2 ^ 153 * (x39 * x21 + 2 * (x37 * x20 + x38 * x19))
      + 2 ^ 179 * (x39 * x20 + x38 * x21) + 2 ^ 204 * (2 * x38 * x20)))).
    unfold fe_val, p25519. cbn [v0 v1 v2 v3 v4 v5 v6 v7 v8 v9]. ring.
Qed.

Lemma sqr_columns_spec f :
  fe_loose f →
  within column_bound column_bound (fe_sqr_columns f) ∧ fe_val (fe_sqr_columns f) ≡p fe_val f * fe_val f.
Proof.
  destruct f as [x2 x4 x6 x8 x10 x12 x14 x16 x18 x17].
  intros (?&?&?&?&?&?&?&?&?&?). cbn [v0 v1 v2 v3 v4 v5 v6 v7 v8 v9] in *.
  unfold fe_sqr_columns. cbv zeta. evaluate_columns. split.
  - unfold within. cbn [v0 v1 v2 v3 v4 v5 v6 v7 v8 v9]. split_and!; by_bounds.
  - apply (eqp_multiple (- ((2 * (x12 * x12 + x10 * x14 + x6 * x18 + 2 * (x8 * x16 + x4 * x17)))
      + 2 ^ 26 * (2 * (x12 * x14 + x10 * x16 + x8 * x18 + x6 * x17))
      + 2 ^ 51 * (x14 * x14 + 2 * (x10 * x18 + 2 * (x12 * x16 + x8 * x17)))
      + 2 ^ 77 * (2 * (x14 * x16 + x12 * x18 + x10 * x17))
      + 2 ^ 102 * (2 * (x16 * x16 + x14 * x18 + 2 * x12 * x17))
      + 2 ^ 128 * (2 * (x16 * x18 + x14 * x17))
      + 2 ^ 153 * (x18 * x18 + 4 * x16 * x17)
      + 2 ^ 179 * (2 * x18 * x17) + 2 ^ 204 * (2 * x17 * x17)))).
    unfold fe_val, p25519. cbn [v0 v1 v2 v3 v4 v5 v6 v7 v8 v9]. ring.
Qed.

(** ** Carries *)
Lemma low_mod w x : 0 <= w → low w x = x mod 2 ^ w.
Proof. apply Z.land_ones. Qed.

Lemma low_u32 w x : 0 <= w <= 32 → low w (u32 x) = x mod 2 ^ w.
Proof.
  intros Hw. rewrite low_mod by lia. unfold u32, wrap. apply Z.mod_mod_divide. exists (2 ^ (32 - w)).
  rewrite <- Z.pow_add_r by lia. f_equal. lia.
Qed.

Lemma u32_small x : 0 <= x < 2 ^ 32 → u32 x = x.
Proof. apply wrap_small. Qed.

(** One link of the chain: the sum of a carry and a column does not overflow. *)
Lemma carry_link x w t :
  25 <= w → 0 <= x <= 2 ^ 63 + 2 ^ 39 → 0 <= t <= 2 ^ 63 →
  u64 (Z.shiftr x w + t) = x / 2 ^ w + t ∧ 0 <= x / 2 ^ w + t <= 2 ^ 63 + 2 ^ 39.
Proof.
  intros Hw Hx Ht. rewrite shiftr_div by lia.
  assert (0 <= x / 2 ^ w <= 2 ^ 39).
  { split; [apply Z.div_pos; lia|]. transitivity (x / 2 ^ 25).
    - apply Z.div_le_compat_l; [lia|]. split; [lia|]. apply Z.pow_le_mono_r; lia.
    - by apply (div_below x (2 ^ 39)); [|lia]. }
  rewrite u64_small by lia. lia.
Qed.

Lemma fe_carry_spec t :
  within column_bound column_bound t → fe_tight (fe_carry t) ∧ fe_val (fe_carry t) ≡p fe_val t.
Proof.
  destruct t as [x85 t1 t2 t3 t4 t5 t6 t7 t8 t9]. unfold within, column_bound. cbn [v0 v1 v2 v3 v4 v5 v6 v7 v8 v9].
  intros (?&?&?&?&?&?&?&?&?&?). unfold fe_carry. rewrite !low_u32 by lia.
  destruct (carry_link x85 26 t1) as [-> ?]; [lia..|]. set (x88 := x85 / 2 ^ 26 + t1) in *.
  destruct (carry_link x88 25 t2) as [-> ?]; [lia..|]. set (x91 := x88 / 2 ^ 25 + t2) in *.
  destruct (carry_link x91 26 t3) as [-> ?]; [lia..|]. set (x94 := x91 / 2 ^ 26 + t3) in *.
  destruct (carry_link x94 25 t4) as [-> ?]; [lia..|]. set (x97 := x94 / 2 ^ 25 + t4) in *.
  destruct (carry_link x97 26 t5) as [-> ?]; [lia..|]. set (x100 := x97 / 2 ^ 26 + t5) in *.
  destruct (carry_link x100 25 t6) as [-> ?]; [lia..|]. set (x103 := x100 / 2 ^ 25 + t6) in *.
  destruct (carry_link x103 26 t7) as [-> ?]; [lia..|]. set (x106 := x103 / 2 ^ 26 + t7) in *.
  destruct (carry_link x106 25 t8) as [-> ?]; [lia..|]. set (x109 := x106 / 2 ^ 25 + t8) in *.
  destruct (carry_link x109 26 t9) as [-> ?]; [lia..|]. set (x112 := x109 / 2 ^ 26 + t9) in *.
  assert (∀ x, 0 <= x mod 2 ^ 26 < 2 ^ 26 ∧ x = 2 ^ 26 * (x / 2 ^ 26) + x mod 2 ^ 26) as Q26
    by (intros x; split; [by apply Z.mod_pos_bound|by apply Z.div_mod]).
  assert (∀ x, 0 <= x mod 2 ^ 25 < 2 ^ 25 ∧ x = 2 ^ 25 * (x / 2 ^ 25) + x mod 2 ^ 25) as Q25
    by (intros x; split; [by apply Z.mod_pos_bound|by apply Z.div_mod]).
  pose proof (Q26 x85). pose proof (Q25 x88). pose proof (Q26 x91). pose proof (Q25 x94). pose proof (Q26 x97).
  pose proof (Q25 x100). pose proof (Q26 x103). pose proof (Q25 x106). pose proof (Q26 x109). pose proof (Q25 x112).
  assert (0 <= x112 / 2 ^ 25 <= 2 ^ 39) by (apply div_below; [done|lia]). rewrite !shiftr_div by done.
  rewrite (u64_small (19 * _)), (u64_small (x85 mod _ + _)) by lia. set (x115 := x85 mod 2 ^ 26 + 19 * (x112 / 2 ^ 25)) in *.
  assert (0 <= x115 / 2 ^ 26 <= 2 ^ 18) by (apply div_below; [done|lia]).
  rewrite (u32_small (x115 / 2 ^ 26)), (u32_small (x115 / 2 ^ 26 + _)) by lia. set (x118 := x115 / 2 ^ 26 + x88 mod 2 ^ 25) in *.
  assert (0 <= x118 / 2 ^ 25 <= 2) by (apply div_below; [done|lia]). rewrite u32_small by lia.
  pose proof (Q26 x115). pose proof (Q25 x118). clear Q26 Q25.
  unfold fe_tight, within, fe_val. cbn [v0 v1 v2 v3 v4 v5 v6 v7 v8 v9]. split; [lia|].
  apply (eqp_multiple (- (x112 / 2 ^ 25))). unfold p25519. lia.
Qed.

Lemma fe_mul_spec f g :
  fe_loose f → fe_loose g → fe_tight (fe_mul_impl f g) ∧ fe_val (fe_mul_impl f g) ≡p fe_val f * fe_val g.
Proof.
  intros Hf Hg. destruct (mul_columns_spec f g Hf Hg) as [HB Hv]. destruct (fe_carry_spec _ HB) as [? Hw].
  split; [done|]. etransitivity; [exact Hw|exact Hv].
Qed.

Lemma fe_sqr_spec f : fe_loose f → fe_tight (fe_sqr_impl f) ∧ fe_val (fe_sqr_impl f) ≡p fe_val f * fe_val f.
Proof.
  intros Hf. destruct (sqr_columns_spec f Hf) as [HB Hv]. destruct (fe_carry_spec _ HB) as [? Hw].
  split; [done|]. etransitivity; [exact Hw|exact Hv].
Qed.

(** ** What the operations stand for *)
Definition fe_is (f : fe) (v : Z) : Prop := fe_tight f ∧ fe_val f ≡p v.
Definition fe_is_loose (f : fe) (v : Z) : Prop := fe_loose f ∧ fe_val f ≡p v.

Lemma fe_is_widen f v : fe_is f v → fe_is_loose f v.
Proof. intros []. split; auto with field. Qed.

Lemma fe_is_mul f g v w : fe_is_loose f v → fe_is_loose g w → fe_is (fe_mul_impl f g) (v * w).
Proof. intros [Hf Vf] [Hg Vg]. destruct (fe_mul_spec f g) as [? Hv]; [done..|]. split; [done|]. by rewrite Hv, Vf, Vg. Qed.

Lemma fe_is_sqr f v : fe_is_loose f v → fe_is (fe_sqr_impl f) (v * v).
Proof. intros [Hf Vf]. destruct (fe_sqr_spec f) as [? Hv]; [done|]. split; [done|]. by rewrite Hv, Vf. Qed.

Lemma fe_is_mul_121666 f v : fe_is_loose f v → fe_is (fe_mul_121666_impl f) (121666 * v).
Proof.
  intros Hf. rewrite Z.mul_comm. apply (fe_is_mul f (Fe 121666 0 0 0 0 0 0 0 0 0)); [done|]. split; [|done].
  unfold fe_loose, within. cbn [v0 v1 v2 v3 v4 v5 v6 v7 v8 v9]. lia.
Qed.

Lemma fe_add_spec f g : fe_tight f → fe_tight g → fe_loose (fe_add_impl f g) ∧ fe_val (fe_add_impl f g) = fe_val f + fe_val g.
Proof.
  intros (?&?&?&?&?&?&?&?&?&?) (?&?&?&?&?&?&?&?&?&?). unfold fe_loose, within, fe_add_impl, fe_val.
  cbn [v0 v1 v2 v3 v4 v5 v6 v7 v8 v9]. rewrite !u32_small by lia. lia.
Qed.

Lemma fe_sub_spec f g :
  fe_tight f → fe_tight g → fe_loose (fe_sub_impl f g) ∧ fe_val (fe_sub_impl f g) ≡p fe_val f - fe_val g.
Proof.
  intros (?&?&?&?&?&?&?&?&?&?) (?&?&?&?&?&?&?&?&?&?). unfold fe_loose, within, fe_sub_impl, fe_val.
  cbn [v0 v1 v2 v3 v4 v5 v6 v7 v8 v9]. rewrite !(u32_small (_ + _)) by lia. rewrite !u32_small by lia.
  split; [lia|]. apply (eqp_multiple 2). unfold p25519. lia.
Qed.

Lemma fe_is_add f g v w : fe_is f v → fe_is g w → fe_is_loose (fe_add_impl f g) (v + w).
Proof. intros [Hf Vf] [Hg Vg]. destruct (fe_add_spec f g) as [? Hv]; [done..|]. split; [done|]. by rewrite Hv, Vf, Vg. Qed.

Lemma fe_is_sub f g v w : fe_is f v → fe_is g w → fe_is_loose (fe_sub_impl f g) (v - w).
Proof. intros [Hf Vf] [Hg Vg]. destruct (fe_sub_spec f g) as [? Hv]; [done..|]. split; [done|]. by rewrite Hv, Vf, Vg. Qed.

#[export] Hint Resolve fe_is_widen fe_is_mul fe_is_sqr fe_is_mul_121666 fe_is_add fe_is_sub : field.

Lemma fe_is_eqp f v w : fe_is f v → w ≡p v → fe_is f w.
Proof. intros [? Hv] Hw. split; [done|]. by rewrite Hv, Hw. Qed.

(** ** The inverse *)
Definition fe_power (z e : Z) (f : fe) : Prop := 0 <= e ∧ fe_is f (z ^ e).

Lemma fe_power_mul z a b f g : fe_power z a f → fe_power z b g → fe_power z (a + b) (fe_mul_impl f g).
Proof. intros [Ha Hf] [Hb Hg]. split; [lia|]. rewrite Z.pow_add_r by done. auto with field. Qed.

Lemma fe_power_sqr z a f : fe_power z a f → fe_power z (a * 2) (fe_sqr_impl f).
Proof. intros [Ha Hf]. split; [lia|]. rewrite Z.pow_mul_r, Z.pow_2_r by done. auto with field. Qed.

Lemma fe_power_sqr_times z a n f : fe_power z a f → 1 <= n → fe_power z (a * 2 ^ n) (fe_sq_times f n).
Proof.
  intros Hf Hn. unfold fe_sq_times. replace n with (1 + Z.of_nat (Z.to_nat (n - 1))) at 1 by lia.
  generalize (Z.to_nat (n - 1)) as m. induction m as [|m IH]; [by apply fe_power_sqr|].
  cbn [Nat.iter nat_rect]. fold (Nat.iter m fe_sqr_impl (fe_sqr_impl f)).
  replace (a * 2 ^ (1 + Z.of_nat (S m))) with (a * 2 ^ (1 + Z.of_nat m) * 2); [by apply fe_power_sqr|].
  replace (1 + Z.of_nat (S m)) with (Z.succ (1 + Z.of_nat m)) by lia. rewrite Z.pow_succ_r by lia. lia.
Qed.

Ltac fe_power_step :=
  lazymatch goal with
  | |- fe_power ?z ?e (let x := ?v in @?k x) =>
      let H := fresh "Hp" in
      eassert (fe_power z _ v) as H by (first [eapply fe_power_sqr_times; [eassumption|done]
        | eapply fe_power_sqr; eassumption | eapply fe_power_mul; eassumption]);
      change (fe_power z e (k v)); generalize dependent v; intros ? H; cbv beta
  end.

Lemma fe_invert_spec z v : fe_is z v → fe_is (fe_loose_invert z) (v ^ (p25519 - 2)).
Proof.
  intros Hz. assert (fe_power v 1 z) as H1 by (split; [done|by rewrite Z.pow_1_r]).
  enough (fe_power v (p25519 - 2) (fe_loose_invert z)) as [_ H] by exact H.
  cbv beta delta [fe_loose_invert]. do 21 fe_power_step.
  match goal with |- fe_power ?z ?e (fe_mul_impl ?f ?g) => eassert (fe_power z _ (fe_mul_impl f g)) as H by (eapply fe_power_mul; eassumption) end.
  exact H.
Qed.

(** ** The exchange *)
Lemma cswap_word_spec f g (b : bool) :
  0 <= f < 2 ^ 32 → 0 <= g < 2 ^ 32 → cswap_word (u32 (0 - Z.b2z b)) f g = if b then (g, f) else (f, g).
Proof.
  intros Hf Hg. unfold cswap_word. destruct b.
  - change (u32 (0 - Z.b2z true)) with (Z.ones 32). rewrite Z.land_ones, Z.mod_small by (done || by apply lxor_range).
    f_equal; [|rewrite (Z.lxor_comm f g)]; by rewrite <- Z.lxor_assoc, Z.lxor_nilpotent, Z.lxor_0_l.
  - change (u32 (0 - Z.b2z false)) with 0. by rewrite Z.land_0_r, !Z.lxor_0_r.
Qed.

Lemma fe_cswap_spec f g (b : bool) : fe_tight f → fe_tight g → fe_cswap f g (Z.b2z b) = if b then (g, f) else (f, g).
Proof.
  intros (?&?&?&?&?&?&?&?&?&?) (?&?&?&?&?&?&?&?&?&?). unfold fe_cswap. rewrite !cswap_word_spec by lia.
  by destruct f, g, b.
Qed.

(** ** The ladder *)
Definition fe_points (PQ : (fe * fe) * (fe * fe)) (pq : (Z * Z) * (Z * Z)) : Prop :=
  (fe_is PQ.1.1 pq.1.1 ∧ fe_is PQ.1.2 pq.1.2) ∧ (fe_is PQ.2.1 pq.2.1 ∧ fe_is PQ.2.2 pq.2.2).

Lemma cswap_points_spec b PQ pq : fe_points PQ pq → fe_points (cswap_points (Z.b2z b) PQ) (cswap b pq).
Proof.
  destruct PQ as [[x2 z2] [x3 z3]]. intros [[H1 H2] [H3 H4]]. cbn [fst snd] in *. unfold cswap_points.
  rewrite !fe_cswap_spec by (apply H1 || apply H2 || apply H3 || apply H4). by destruct b.
Qed.

Lemma ladder_body_spec x1 x2 z2 x3 z3 u p q :
  fe_is x1 u → fe_points ((x2, z2), (x3, z3)) (p, q) → fe_points (ladder_body x1 x2 z2 x3 z3) (ladder_step u p q).
Proof.
  intros Hu [[H1 H2] [H3 H4]]. cbn [fst snd] in *. destruct (ladder_step_spec u p q) as [[E1 E2] [E3 E4]].
  unfold ladder_body. unfold double_xz, add_xz, a24 in *. cbn [fst snd] in *. unfold fe_points. cbn [fst snd].
  split_and!; (eapply fe_is_eqp; [eauto 30 with field|]); (etransitivity; [eassumption|]);
    apply eq_subrelation; try apply _; ring.
Qed.

Lemma scalar_bit e pos :
  Forall is_byte e →
  Z.land 1 (Z.shiftr (nth (pos / 8) e 0) (Z.land (Z.of_nat pos) 7)) = Z.b2z (Z.testbit (le_val e) (Z.of_nat pos)).
Proof.
  intros He. change 7 with (Z.ones 3). rewrite (Z.land_ones _ 3) by done. change (2 ^ 3) with 8.
  replace (Z.testbit (le_val e) (Z.of_nat pos)) with (Z.testbit (nth (pos / 8) e 0) (Z.of_nat pos mod 8)).
  - change 1 with (Z.ones 1) at 1. rewrite Z.testbit_spec', Z.land_comm, Z.land_ones, Z.shiftr_div_pow2 by (done || by apply Z.mod_pos_bound). done.
  - rewrite <- le_val_testbit by (done || by apply Z.mod_pos_bound). f_equal.
    rewrite Nat2Z.inj_div. symmetry. apply Z.div_mod. done.
Qed.

Lemma ladder_rounds_spec pos e x1 u swap PQ pq :
  Forall is_byte e → fe_is x1 u → fe_points PQ pq →
  fe_points (ladder_rounds pos e x1 (Z.b2z swap) PQ) (ladder_loop pos (le_val e) u swap pq).
Proof.
  intros He Hu. revert swap PQ pq. induction pos as [|pos IH]; intros swap PQ pq HPQ; [by apply cswap_points_spec|].
  cbn [ladder_rounds ladder_loop]. rewrite scalar_bit by done.
  set (b := Z.testbit (le_val e) (Z.of_nat pos)).
  replace (Z.lxor (Z.b2z swap) (Z.b2z b)) with (Z.b2z (xorb swap b)) by (by destruct swap, b).
  pose proof (cswap_points_spec (xorb swap b) PQ pq HPQ) as Hs.
  destruct (cswap_points _ PQ) as [[x2 z2] [x3 z3]], (cswap _ pq) as [p q]. apply IH. by apply ladder_body_spec.
Qed.

(** ** Arguments as numbers *)
Lemma le_word s : 4 <= zlen s → le_val s = get_unaligned_le32 s + 2 ^ 32 * le_val (zdrop 4 s).
Proof. intros Hs. unfold get_unaligned_le32. rewrite <- (ztake_zdrop 4 s) at 1. by rewrite le_val_app, zlen_ztake by lia. Qed.

Lemma le32_range s : Forall is_byte s → 4 <= zlen s → 0 <= get_unaligned_le32 s < 2 ^ 32.
Proof.
  intros Hb Hs. unfold get_unaligned_le32. pose proof (le_val_range (ztake 4 s) (Forall_ztake _ _ _ Hb)) as R.
  by rewrite zlen_ztake in R by lia.
Qed.

(** A limb made of the top of one word and the bottom of the next. *)
Lemma limb_of_words a b k w s :
  s = 32 - k → 0 <= k <= 32 → 0 <= w → w + k <= 32 → 0 <= a < 2 ^ 32 →
  Z.lor (Z.shiftr a s) (u32 (Z.shiftl (low w b) k)) = a / 2 ^ s + 2 ^ k * (b mod 2 ^ w) ∧ 0 <= a / 2 ^ s < 2 ^ k.
Proof.
  intros -> Hk Hw Hwk Ha. rewrite shiftr_div, low_mod by lia.
  assert (0 <= a / 2 ^ (32 - k) < 2 ^ k).
  { split; [apply Z.div_pos; lia|]. apply Z.div_lt_upper_bound; [lia|]. rewrite <- Z.pow_add_r by lia.
    replace (32 - k + k) with 32 by lia. lia. }
  split; [|done]. pose proof (Z.mod_pos_bound b (2 ^ w) ltac:(lia)).
  assert (2 ^ w * 2 ^ k <= 2 ^ 32) by (rewrite <- Z.pow_add_r by lia; apply Z.pow_le_mono_r; lia).
  rewrite u32_small by (rewrite Z.shiftl_mul_pow2 by lia; nia). rewrite Z.lor_comm, lor_shiftl_add by lia. lia.
Qed.

Lemma fe_frombytes_spec s :
  Forall is_byte s → zlen s = 32 → fe_is (fe_frombytes s) (decode_u s).
Proof.
  intros Hb Hlen. unfold fe_frombytes, decode_u.
  assert (∀ k, 0 <= k <= 28 → 0 <= get_unaligned_le32 (zdrop k s) < 2 ^ 32) as Hr.
  { intros k Hk. apply le32_range; [by apply Forall_zdrop|]. rewrite zlen_zdrop; lia. }
  pose proof (Hr 0 ltac:(lia)) as R0. rewrite zdrop_0 in R0.
  pose proof (Hr 4 ltac:(lia)). pose proof (Hr 8 ltac:(lia)). pose proof (Hr 12 ltac:(lia)). pose proof (Hr 16 ltac:(lia)).
  pose proof (Hr 20 ltac:(lia)). pose proof (Hr 24 ltac:(lia)). pose proof (Hr 28 ltac:(lia)).
  assert (le_val s = get_unaligned_le32 s + 2 ^ 32 * (get_unaligned_le32 (zdrop 4 s) + 2 ^ 32 * (get_unaligned_le32 (zdrop 8 s)
    + 2 ^ 32 * (get_unaligned_le32 (zdrop 12 s) + 2 ^ 32 * (get_unaligned_le32 (zdrop 16 s) + 2 ^ 32 * (get_unaligned_le32 (zdrop 20 s)
    + 2 ^ 32 * (get_unaligned_le32 (zdrop 24 s) + 2 ^ 32 * get_unaligned_le32 (zdrop 28 s)))))))) as HV.
  { assert (∀ k j, 0 <= k <= 28 → j = k + 4 → le_val (zdrop k s) = get_unaligned_le32 (zdrop k s) + 2 ^ 32 * le_val (zdrop j s)) as Hw.
    { intros k j Hk ->. rewrite (le_word (zdrop k s)), zdrop_zdrop by (rewrite ?zlen_zdrop; lia). done. }
    rewrite (le_word s), (Hw 4 8), (Hw 8 12), (Hw 12 16), (Hw 16 20), (Hw 20 24), (Hw 24 28), (Hw 28 32) by lia.
    rewrite (zdrop_all 32) by lia. change (le_val []) with 0. lia. }
  set (a0 := get_unaligned_le32 s) in *. set (a1 := get_unaligned_le32 (zdrop 4 s)) in *. set (a2 := get_unaligned_le32 (zdrop 8 s)) in *.
  set (a3 := get_unaligned_le32 (zdrop 12 s)) in *. set (a4 := get_unaligned_le32 (zdrop 16 s)) in *. set (a5 := get_unaligned_le32 (zdrop 20 s)) in *.
  set (a6 := get_unaligned_le32 (zdrop 24 s)) in *. set (a7 := get_unaligned_le32 (zdrop 28 s)) in *.
  destruct (limb_of_words a0 a1 6 19 26) as [-> ?]; [lia..|]. destruct (limb_of_words a1 a2 13 13 19) as [-> ?]; [lia..|].
  destruct (limb_of_words a2 a3 19 6 13) as [-> ?]; [lia..|]. destruct (limb_of_words a4 a5 7 19 25) as [-> ?]; [lia..|].
  destruct (limb_of_words a5 a6 13 12 19) as [-> ?]; [lia..|]. destruct (limb_of_words a6 a7 20 6 12) as [-> ?]; [lia..|].
  rewrite !low_mod, !shiftr_div by lia.
  assert (∀ x k, 0 <= k → 0 <= x mod 2 ^ k < 2 ^ k ∧ x = 2 ^ k * (x / 2 ^ k) + x mod 2 ^ k) as Q.
  { intros x k Hk. split; [apply Z.mod_pos_bound; lia|apply Z.div_mod; lia]. }
  pose proof (Q a0 26 ltac:(lia)). pose proof (Q a1 19 ltac:(lia)). pose proof (Q a2 13 ltac:(lia)). pose proof (Q a3 6 ltac:(lia)).
  pose proof (Q a4 25 ltac:(lia)). pose proof (Q a5 19 ltac:(lia)). pose proof (Q a6 12 ltac:(lia)). pose proof (Q a7 6 ltac:(lia)).
  pose proof (Q (a7 / 2 ^ 6) 25 ltac:(lia)). clear Q Hr.
  set (t := a7 / 2 ^ 6 / 2 ^ 25) in *.
  split; [unfold fe_tight, within; cbn [v0 v1 v2 v3 v4 v5 v6 v7 v8 v9]; lia|].
  apply eq_subrelation; [apply _|]. apply (Z.mod_unique_pos _ _ t).
  - unfold fe_val. cbn [v0 v1 v2 v3 v4 v5 v6 v7 v8 v9]. lia.
  - rewrite HV. unfold fe_val. cbn [v0 v1 v2 v3 v4 v5 v6 v7 v8 v9]. lia.
Qed.

(** ** The canonical form *)
Lemma subborrow_spec w c a b :
  0 <= w <= 26 → 0 <= c <= 1 → 0 <= b < 2 ^ w → 0 <= a < 2 ^ w + b →
  ∃ k l, subborrow w c a b = (k, l) ∧ 0 <= k <= 1 ∧ 0 <= l < 2 ^ w ∧ l = a - b - c + 2 ^ w * k.
Proof.
  intros Hw Hc Hb Ha. unfold subborrow.
  assert (0 < 2 ^ w <= 2 ^ 26) by (split; [lia|apply Z.pow_le_mono_r; lia]).
  assert (u32 (u32 (a - b) - c) = if a - b - c <? 0 then a - b - c + 2 ^ 32 else a - b - c) as ->.
  { unfold u32, wrap. rewrite Zminus_mod_idemp_l.
    destruct (Z.ltb_spec (a - b - c) 0); [symmetry; apply (Z.mod_unique_pos _ _ (-1)); lia|apply Z.mod_small; lia]. }
  rewrite low_mod, shiftr_div by lia. eexists _, _. split; [done|].
  destruct (Z.ltb_spec (a - b - c) 0).
  - assert ((a - b - c + 2 ^ 32) / 2 ^ 31 = 1) as -> by (symmetry; apply (Z.div_unique_pos _ _ _ (a - b - c + 2 ^ 31)); lia).
    replace (a - b - c + 2 ^ 32) with (a - b - c + 2 ^ w + (2 ^ (32 - w) - 1) * 2 ^ w)
      by (rewrite Z.mul_sub_distr_r, <- Z.pow_add_r by lia; replace (32 - w + w) with 32 by lia; lia).
    rewrite Z.mod_add, Z.mod_small by lia. lia.
  - rewrite Z.div_small, Z.mod_small by lia. lia.
Qed.

Lemma addcarryx_spec w c a b :
  0 <= w <= 26 → 0 <= c <= 1 → 0 <= a < 2 ^ w → 0 <= b < 2 ^ w →
  ∃ k l, addcarryx w c a b = (k, l) ∧ 0 <= k <= 1 ∧ 0 <= l < 2 ^ w ∧ l = a + b + c - 2 ^ w * k.
Proof.
  intros Hw Hc Ha Hb. unfold addcarryx.
  assert (0 < 2 ^ w <= 2 ^ 26) by (split; [lia|apply Z.pow_le_mono_r; lia]).
  rewrite (u32_small (a + b)), u32_small, !low_mod, shiftr_div by lia.
  eexists _, _. split; [done|]. pose proof (Z.mod_pos_bound (a + b + c) (2 ^ w)). pose proof (Z.div_mod (a + b + c) (2 ^ w)).
  assert (0 <= (a + b + c) / 2 ^ w <= 1) by (split; [apply Z.div_pos; lia|apply Z.lt_succ_r, Z.div_lt_upper_bound; lia]).
  rewrite (Z.mod_small (_ / _)) by lia. lia.
Qed.

Lemma cmov_spec k m : 0 <= k <= 1 → 0 <= m < 2 ^ 32 → Z.land (cmovznz32 k 0 0xffffffff) m = k * m.
Proof.
  intros Hk Hm. unfold cmovznz32. assert (k = 0 ∨ k = 1) as [-> | ->] by lia; cbn [Z.eqb].
  - rewrite Z.land_0_r. done.
  - change (Z.lor _ _) with (Z.ones 32). rewrite Z.land_comm, Z.land_ones, Z.mod_small by lia. lia.
Qed.

Lemma fe_freeze_spec f :
  fe_tight f → within (2 ^ 26 - 1) (2 ^ 25 - 1) (fe_freeze f) ∧ fe_val (fe_freeze f) = fe_val f mod p25519.
Proof.
  destruct f as [x2 x4 x6 x8 x10 x12 x14 x16 x18 x17]. intros (?&?&?&?&?&?&?&?&?&?). cbn [v0 v1 v2 v3 v4 v5 v6 v7 v8 v9] in *.
  unfold fe_freeze.
  destruct (subborrow_spec 26 0 x2 0x3ffffed) as (x21 & x20 & -> & ? & ? & ?); [lia..|].
  destruct (subborrow_spec 25 x21 x4 0x1ffffff) as (x24 & x23 & -> & ? & ? & ?); [lia..|].
  destruct (subborrow_spec 26 x24 x6 0x3ffffff) as (x27 & x26 & -> & ? & ? & ?); [lia..|].
  destruct (subborrow_spec 25 x27 x8 0x1ffffff) as (x30 & x29 & -> & ? & ? & ?); [lia..|].
  destruct (subborrow_spec 26 x30 x10 0x3ffffff) as (x33 & x32 & -> & ? & ? & ?); [lia..|].
  destruct (subborrow_spec 25 x33 x12 0x1ffffff) as (x36 & x35 & -> & ? & ? & ?); [lia..|].
  destruct (subborrow_spec 26 x36 x14 0x3ffffff) as (x39 & x38 & -> & ? & ? & ?); [lia..|].
  destruct (subborrow_spec 25 x39 x16 0x1ffffff) as (x42 & x41 & -> & ? & ? & ?); [lia..|].
  destruct (subborrow_spec 26 x42 x18 0x3ffffff) as (x45 & x44 & -> & ? & ? & ?); [lia..|].
  destruct (subborrow_spec 25 x45 x17 0x1ffffff) as (x48 & x47 & -> & ? & ? & ?); [lia..|].
  rewrite !cmov_spec by lia.
  destruct (addcarryx_spec 26 0 x20 (x48 * 0x3ffffed)) as (x53 & x52 & -> & ? & ? & ?); [lia..|].
  destruct (addcarryx_spec 25 x53 x23 (x48 * 0x1ffffff)) as (x57 & x56 & -> & ? & ? & ?); [lia..|].
  destruct (addcarryx_spec 26 x57 x26 (x48 * 0x3ffffff)) as (x61 & x60 & -> & ? & ? & ?); [lia..|].
  destruct (addcarryx_spec 25 x61 x29 (x48 * 0x1ffffff)) as (x65 & x64 & -> & ? & ? & ?); [lia..|].
  destruct (addcarryx_spec 26 x65 x32 (x48 * 0x3ffffff)) as (x69 & x68 & -> & ? & ? & ?); [lia..|].
  destruct (addcarryx_spec 25 x69 x35 (x48 * 0x1ffffff)) as (x73 & x72 & -> & ? & ? & ?); [lia..|].
  destruct (addcarryx_spec 26 x73 x38 (x48 * 0x3ffffff)) as (x77 & x76 & -> & ? & ? & ?); [lia..|].
  destruct (addcarryx_spec 25 x77 x41 (x48 * 0x1ffffff)) as (x81 & x80 & -> & ? & ? & ?); [lia..|].
  destruct (addcarryx_spec 26 x81 x44 (x48 * 0x3ffffff)) as (x85 & x84 & -> & ? & ? & ?); [lia..|].
  destruct (addcarryx_spec 25 x85 x47 (x48 * 0x1ffffff)) as (x89 & x88 & -> & ? & ? & ?); [lia..|].
  unfold within, fe_val. cbn [v0 v1 v2 v3 v4 v5 v6 v7 v8 v9]. split; [lia|].
  (* Without a borrow the prime was subtracted, with one it was added again. *)
  assert (x48 = 0 ∨ x48 = 1) as [-> | ->] by lia.
  - apply (Z.mod_unique_pos _ _ 1); unfold p25519; lia.
  - symmetry. rewrite Z.mod_small; unfold p25519; lia.
Qed.

(** ** Results as bytes *)
Lemma limb_byte x k y : 0 <= k <= 8 → 0 <= x < 2 ^ k → u8 (Z.lor x (u32 (Z.shiftl y k))) = x + 2 ^ k * (y mod 2 ^ (8 - k)).
Proof.
  intros Hk Hx. unfold u8. rewrite wrap_lor by done.
  assert (2 ^ k <= 2 ^ 8) by (apply Z.pow_le_mono_r; lia). rewrite (wrap_small 8 x) by lia.
  assert (wrap 8 (u32 (Z.shiftl y k)) = Z.shiftl (y mod 2 ^ (8 - k)) k) as ->.
  { unfold u32, wrap. rewrite Z.mod_mod_divide by (exists (2 ^ 24); done). rewrite !Z.shiftl_mul_pow2 by lia.
    replace (2 ^ 8) with (2 ^ (8 - k) * 2 ^ k) by (rewrite <- Z.pow_add_r by lia; f_equal; lia).
    rewrite Z.mul_mod_distr_r by lia. done. }
  rewrite Z.lor_comm, lor_shiftl_add by lia. lia.
Qed.

Lemma byte_piece x a b : 0 <= a → b = a + 8 → 0 <= x → x / 2 ^ a = 2 ^ 8 * (x / 2 ^ b) + u8 (x / 2 ^ a).
Proof.
  intros Ha -> Hx. rewrite Z.pow_add_r, <- Z.div_div by lia. unfold u8, wrap. apply Z.div_mod. done.
Qed.

Lemma u8_small x : 0 <= x < 2 ^ 8 → u8 x = x.
Proof. apply wrap_small. Qed.

(** The decomposition of each limb into the bytes and remainders of the goal. *)
Ltac pose_pieces :=
  repeat match goal with
  | |- context [u8 (?h / 2 ^ ?a)] =>
      lazymatch goal with
      | _ : h / 2 ^ a = _ |- _ => fail
      | _ => let b := eval vm_compute in (a + 8) in pose proof (byte_piece h a b ltac:(lia) eq_refl ltac:(lia))
      end
  end.

Ltac pose_remainders :=
  repeat match goal with
  | |- context [?h mod 2 ^ ?a] =>
      lazymatch goal with
      | _ : h = 2 ^ a * _ + _ |- _ => fail
      | _ => pose proof (Z.div_mod h (2 ^ a) ltac:(done))
      end
  end.

Lemma fe_tobytes_spec f : fe_tight f → fe_tobytes f = le_bytes 32 (fe_val f mod p25519).
Proof.
  intros Hf. unfold fe_tobytes. destruct (fe_freeze_spec f Hf) as [Hb <-].
  destruct (fe_freeze f) as [h0 h1 h2 h3 h4 h5 h6 h7 h8 h9]. destruct Hb as (?&?&?&?&?&?&?&?&?&?).
  cbn [v0 v1 v2 v3 v4 v5 v6 v7 v8 v9] in *.
  assert (∀ h w s k, w = s + k → 0 <= s → 0 <= k → 0 <= h < 2 ^ w → 0 <= h / 2 ^ s < 2 ^ k) as Ht.
  { intros h w s k -> Hs Hk Hh. split; [apply Z.div_pos; lia|]. apply Z.div_lt_upper_bound; [lia|]. rewrite <- Z.pow_add_r; lia. }
  apply le_val_inj; [repeat constructor; apply is_byte_u8|apply le_bytes_bytes|done|].
  rewrite le_bytes_val by (unfold fe_val; cbn [v0 v1 v2 v3 v4 v5 v6 v7 v8 v9]; lia).
  cbn [fmap list_fmap le_val foldr]. rewrite !shiftr_div by done.
  pose proof (Ht h0 26 24 2 eq_refl ltac:(lia) ltac:(lia) ltac:(lia)). pose proof (Ht h1 25 22 3 eq_refl ltac:(lia) ltac:(lia) ltac:(lia)).
  pose proof (Ht h2 26 21 5 eq_refl ltac:(lia) ltac:(lia) ltac:(lia)). pose proof (Ht h3 25 19 6 eq_refl ltac:(lia) ltac:(lia) ltac:(lia)).
  pose proof (Ht h4 26 18 8 eq_refl ltac:(lia) ltac:(lia) ltac:(lia)). pose proof (Ht h5 25 24 1 eq_refl ltac:(lia) ltac:(lia) ltac:(lia)).
  pose proof (Ht h6 26 23 3 eq_refl ltac:(lia) ltac:(lia) ltac:(lia)). pose proof (Ht h7 25 21 4 eq_refl ltac:(lia) ltac:(lia) ltac:(lia)).
  pose proof (Ht h8 26 20 6 eq_refl ltac:(lia) ltac:(lia) ltac:(lia)). pose proof (Ht h9 25 18 7 eq_refl ltac:(lia) ltac:(lia) ltac:(lia)).
  rewrite !limb_byte by lia.
  change (8 - 1) with 7. change (8 - 2) with 6. change (8 - 3) with 5. change (8 - 4) with 4. change (8 - 5) with 3. change (8 - 6) with 2.
  rewrite (u8_small (h4 / 2 ^ 18)), (u8_small (h9 / 2 ^ 18)) by lia. pose_pieces.
  pose proof (byte_piece h0 0 8 ltac:(lia) eq_refl ltac:(lia)). pose proof (byte_piece h5 0 8 ltac:(lia) eq_refl ltac:(lia)).
  rewrite !Z.div_1_r in *. pose_remainders.
  unfold fe_val. cbn [v0 v1 v2 v3 v4 v5 v6 v7 v8 v9]. clear Ht Hf. lia.
Qed.

(** C15: Public keys are right. For every private key and every point, given as 32
    bytes each, both implementations of the tool, the one with 64-bit and the one
    with 32-bit limbs, return the bytes of the function X25519 of RFC 7748: the
    ladder over the integers modulo the prime [2^255 - 19].  No word overflows on
    the way, and the two builds of the tool agree. *)
Theorem curve25519_exact secret point :
  Forall is_byte secret → zlen secret = 32 → Forall is_byte point → zlen point = 32 →
  curve25519_generic secret point = x25519 secret point ∧ curve25519_generic32 secret point = x25519 secret point.
Proof.
  intros Hs Hsl Hb Hbl. split; [by apply curve25519_generic_exact|].
  destruct (clamp_secret_spec secret Hs Hsl) as [Hcb Hc]. pose proof (fe_frombytes_spec point Hb Hbl) as Hx.
  unfold curve25519_generic32, x25519. rewrite <- Hc.
  assert (fe_is fe_1 1 ∧ fe_is fe_0 0) as [H1 H0] by (split; split; done).
  pose proof (ladder_rounds_spec 255 (clamp_secret secret) (fe_frombytes point) (decode_u point) false
    ((fe_1, fe_0), (fe_frombytes point, fe_1)) ((1, 0), (decode_u point, 1)) Hcb Hx ltac:(done)) as [[Hx2 Hz2] _].
  cbn [Z.b2z] in *. destruct (ladder_rounds 255 _ _ _ _) as [[x2 z2] Q]. cbn [fst snd] in *.
  pose proof (fe_is_mul x2 _ _ _ (fe_is_widen _ _ Hx2) (fe_is_widen _ _ (fe_invert_spec z2 _ Hz2))) as [Ht Hv].
  rewrite fe_tobytes_spec by done. f_equal. rewrite <- affine_range.
  etransitivity; [exact Hv|]. symmetry. apply affine_pow.
Qed.

(** The arguments of the first test vector of RFC 7748. *)
Lemma curve25519_exact_witness :
  let k := be_bytes 32 0xa546e36bf0527c9d3b16154b82465edd62144c0ac1fc5a18506a2244ba449ac4 in
  let u := be_bytes 32 0xe6db6867583030db3594c1a424b15f7c726624ec26b3353b10a903a6d0ab1c4c in
  curve25519_generic k u = x25519 k u ∧ curve25519_generic32 k u = x25519 k u.
Proof.
  intros k u. apply curve25519_exact; [apply be_bytes_bytes|reflexivity|apply be_bytes_bytes|reflexivity].
Defined.
