(* ===== verification/Text.v ===== *)
(** * Text as the tool reads and prints it

    The functions of the C library that the configuration reader and the printing
    commands use (string.h, stdlib.h, printf of numbers), and the character classes
    of tools/ctype.h.  A string is the list of its characters, without the
    terminating zero; a character is the number a [char] holds.  The tool never
    calls [setlocale], so letters are the ASCII ones. *)
From stdpp Require Import prelude list.
From Stdlib Require Import ZArith Lia.
From Stdlib Require String Ascii.
From S2P Require Import Prelude.

#[local] Open Scope Z_scope.

Abbreviation text := (list Z).

(** Literals. *)
Definition str (s : String.string) : text := (λ a, Z.of_N (Ascii.N_of_ascii a)) <$> String.list_ascii_of_string s.
Arguments str s%_string_scope.

(** ** tools/ctype.h *)
Definition char_is_space (c : Z) : bool :=
  let d := u8 (c - 9) in
  negb (Z.land (Z.shiftr 0x80001F (Z.land d 31)) (Z.shiftr 1 (Z.shiftr d 5)) =? 0).

Definition char_is_digit (c : Z) : bool :=
  negb (Z.shiftr (u32 (Z.land (48 - 1 - c) (c - (57 + 1)))) 31 =? 0).

Definition char_is_alpha (c : Z) : bool :=
  negb (Z.shiftr (u32 (Z.land (97 - 1 - Z.lor c 32) (Z.lor c 32 - (122 + 1)))) 31 =? 0).

(** ** Comparison *)
Definition tolower (c : Z) : Z := if (65 <=? c) && (c <=? 90) then c + 32 else c.

Definition strcasecmp_eq (a b : text) : bool := bool_decide (tolower <$> a = tolower <$> b).

(** ** Search *)
Fixpoint strchr (s : text) (c : Z) : option (text * text) :=
  match s with
  | [] => None
  | x :: s =>
      if x =? c then Some ([], s)
      else match strchr s c with Some (before, after) => Some (x :: before, after) | None => None end
  end.

(** The last occurrence. *)
Definition strrchr (s : text) (c : Z) : option (text * text) :=
  match strchr (rev s) c with Some (after, before) => Some (rev before, rev after) | None => None end.

(** The tokens [strsep] returns one after the other. *)
Fixpoint tokens (c : Z) (s : text) : list text :=
  match s with
  | [] => [[]]
  | x :: s =>
      if x =? c then [] :: tokens c s
      else match tokens c s with t :: ts => (x :: t) :: ts | [] => [[x]] end
  end.

(** The lines [getline] returns: each with its newline. *)
Fixpoint lines (s : text) : list text :=
  match s with
  | [] => []
  | x :: s =>
      if x =? 10 then [x] :: lines s
      else match lines s with l :: ls => (x :: l) :: ls | [] => [[x]] end
  end.

(** ** Numbers *)
Definition digit_value (c : Z) : Z :=
  if (48 <=? c) && (c <=? 57) then c - 48
  else if (97 <=? tolower c) && (tolower c <=? 122) then tolower c - 87
  else 36.

Definition is_digit_of (base c : Z) : bool := digit_value c <? base.

(** The longest prefix of digits, and what follows. *)
Fixpoint span_digits (base : Z) (s : text) : text * text :=
  match s with
  | [] => ([], [])
  | c :: s' =>
      if is_digit_of base c then let '(ds, rest) := span_digits base s' in (c :: ds, rest) else ([], s)
  end.

Definition number_of (base : Z) (ds : text) : Z := foldl (λ acc c, acc * base + digit_value c) 0 ds.

Definition ULONG_MAX : Z := 2 ^ 64 - 1.

Fixpoint skip_spaces (s : text) : text :=
  match s with c :: s' => if char_is_space c then skip_spaces s' else s | [] => [] end.

(** [strtoul] for the bases 10 and 16: the number and the text at [end].  A number
    that does not fit is [ULONG_MAX]; without digits the whole text remains. *)
Definition strtoul (s : text) (base : Z) : Z * text :=
  let s1 := skip_spaces s in
  let '(neg, s2) :=
    match s1 with
    | c :: s' => if c =? 45 then (true, s') else if c =? 43 then (false, s') else (false, s1)
    | [] => (false, s1)
    end in
  let s3 :=
    match s2 with
    | z :: x :: c :: s' =>
        if (base =? 16) && (z =? 48) && (tolower x =? 120) && is_digit_of 16 c then c :: s' else s2
    | _ => s2
    end in
  match span_digits base s3 with
  | ([], _) => (0, s)
  | (ds, rest) =>
      let n := number_of base ds in
      (if ULONG_MAX <? n then ULONG_MAX else if neg then u64 (- n) else n, rest)
  end.

(** The conversions [%u] and [%x] of [printf]: the digits, with room for [fuel] of
    them. *)
Definition digit_char (d : Z) : Z := if d <? 10 then 48 + d else 87 + d.

Fixpoint print_number (fuel : nat) (base n : Z) : text :=
  match fuel with
  | O => []
  | S fuel => if n <? base then [digit_char n] else print_number fuel base (n / base) ++ [digit_char (n mod base)]
  end.

Definition print_u (n : Z) : text := print_number 20 10 n.
Definition print_x (n : Z) : text := print_number 16 16 n.

(** ** Facts *)
Lemma char_is_space_spec c : -128 <= c < 128 → char_is_space c = ((9 <=? c) && (c <=? 13) || (c =? 32)).
Proof. apply (all_in_range (λ c, char_is_space c = ((9 <=? c) && (c <=? 13) || (c =? 32))) (-128) 256). by vm_compute. Qed.

Lemma char_is_digit_spec c : -128 <= c < 128 → char_is_digit c = ((48 <=? c) && (c <=? 57)).
Proof. apply (all_in_range (λ c, char_is_digit c = ((48 <=? c) && (c <=? 57))) (-128) 256). by vm_compute. Qed.

Lemma char_is_alpha_spec c :
  -128 <= c < 128 → char_is_alpha c = ((65 <=? c) && (c <=? 90) || (97 <=? c) && (c <=? 122)).
Proof.
  apply (all_in_range (λ c, char_is_alpha c = ((65 <=? c) && (c <=? 90) || (97 <=? c) && (c <=? 122))) (-128) 256).
  by vm_compute.
Qed.

Lemma digit_char_spec d :
  0 <= d < 16 → digit_value (digit_char d) = d ∧ -128 <= digit_char d < 128 ∧
    (48 <= digit_char d <= 57 ∨ 97 <= digit_char d <= 102).
Proof.
  apply (all_in_range (λ d, digit_value (digit_char d) = d ∧ -128 <= digit_char d < 128 ∧
    (48 <= digit_char d <= 57 ∨ 97 <= digit_char d <= 102)) 0 16). by vm_compute.
Qed.

(** What the digits of a printed number are like. *)
Lemma print_number_digits fuel base n :
  2 <= base <= 16 → 0 <= n → Forall (λ c, ∃ d, 0 <= d < base ∧ c = digit_char d) (print_number fuel base n).
Proof.
  intros Hb. revert n. induction fuel as [|fuel IH]; intros n Hn; cbn [print_number]; [constructor|].
  destruct (Z.ltb_spec n base); [repeat constructor; exists n; lia|].
  apply Forall_app. split; [apply IH, Z.div_pos; lia|]. repeat constructor.
  exists (n mod base). split; [apply Z.mod_pos_bound; lia|done].
Qed.

Lemma number_of_snoc base ds c : number_of base (ds ++ [c]) = number_of base ds * base + digit_value c.
Proof. unfold number_of. by rewrite foldl_app. Qed.

Lemma number_of_print fuel base n :
  2 <= base <= 16 → 0 <= n < base ^ Z.of_nat fuel → number_of base (print_number fuel base n) = n.
Proof.
  intros Hb. revert n. induction fuel as [|fuel IH]; intros n Hn; [cbn in Hn |- *; lia|].
  cbn [print_number]. rewrite Nat2Z.inj_succ, Z.pow_succ_r in Hn by lia.
  destruct (Z.ltb_spec n base).
  - unfold number_of. cbn [foldl]. destruct (digit_char_spec n) as [-> _]; lia.
  - pose proof (Z.mod_pos_bound n base ltac:(lia)). rewrite number_of_snoc, IH.
    + destruct (digit_char_spec (n mod base)) as [-> _]; [lia|]. pose proof (Z.div_mod n base). lia.
    + split; [apply Z.div_pos; lia|apply Z.div_lt_upper_bound; lia].
Qed.

Lemma span_digits_all base ds rest :
  Forall (λ c, is_digit_of base c = true) ds → (∀ c s, rest = c :: s → is_digit_of base c = false) →
  span_digits base (ds ++ rest) = (ds, rest).
Proof.
  intros Hds Hr. induction Hds as [|c ds Hc _ IH]; cbn [app span_digits].
  - destruct rest as [|c s]; [done|]. cbn [span_digits]. by rewrite (Hr c s).
  - by rewrite Hc, IH.
Qed.

Lemma print_number_nonempty fuel base n : print_number (S fuel) base n ≠ [].
Proof. cbn [print_number]. case_if; [done|]. by destruct (print_number fuel base (n / base)). Qed.

Lemma digit_value_nonneg c : 0 <= digit_value c.
Proof. unfold digit_value. repeat case_if; lia. Qed.

Lemma number_of_nonneg base ds : 0 <= base → 0 <= number_of base ds.
Proof.
  intros Hb. induction ds as [|c ds IH] using rev_ind; [done|]. rewrite number_of_snoc.
  pose proof (digit_value_nonneg c). nia.
Qed.

Lemma strtoul_nonneg s base : 0 <= base → 0 <= (strtoul s base).1.
Proof.
  intros Hb. unfold strtoul. destruct (match skip_spaces s with c :: s' => _ | [] => _ end) as [neg s2].
  destruct (span_digits _ _) as [[|d ds] rest]; [done|]. cbn [fst]. case_if; [done|].
  destruct neg; [apply Z.mod_pos_bound; lia|by apply number_of_nonneg].
Qed.

(** ** Printed numbers are read back *)
Lemma digit_char_plain d :
  0 <= d < 16 → (digit_char d =? 45) = false ∧ (digit_char d =? 43) = false ∧ char_is_space (digit_char d) = false.
Proof.
  apply (all_in_range (λ d, (digit_char d =? 45) = false ∧ (digit_char d =? 43) = false ∧
    char_is_space (digit_char d) = false) 0 16). by vm_compute.
Qed.

Lemma print_number_span fuel base n :
  2 <= base <= 16 → 0 <= n → span_digits base (print_number fuel base n) = (print_number fuel base n, []).
Proof.
  intros Hb Hn. rewrite <- (app_nil_r (print_number fuel base n)) at 1. apply span_digits_all; [|done].
  eapply Forall_impl; [by apply print_number_digits|]. intros c (d&Hd&->). unfold is_digit_of.
  destruct (digit_char_spec d) as [-> _]; lia.
Qed.

Lemma print_number_head fuel base n :
  2 <= base <= 16 → 0 <= n → ∃ d ds, 0 <= d < base ∧ print_number (S fuel) base n = digit_char d :: ds.
Proof.
  intros Hb Hn. pose proof (print_number_digits (S fuel) base n Hb Hn) as Hd.
  destruct (print_number (S fuel) base n) as [|c ds] eqn:Hp; [by apply print_number_nonempty in Hp|].
  inversion Hd as [|? ? (d&?&->)]; subst. eauto.
Qed.

Lemma strtoul_u n : 0 <= n < 2 ^ 64 → strtoul (print_u n) 10 = (n, []).
Proof.
  intros Hn. unfold strtoul, print_u. pose proof (print_number_span 20 10 n ltac:(lia) ltac:(lia)) as Hs.
  pose proof (number_of_print 20 10 n ltac:(lia) ltac:(lia)) as Hv.
  destruct (print_number_head 19 10 n ltac:(lia) ltac:(lia)) as (d&ds&Hd&Hp). rewrite Hp in *.
  destruct (digit_char_plain d ltac:(lia)) as (H45&H43&Hsp). cbn [skip_spaces]. rewrite Hsp, H45, H43. cbn [Z.eqb Pos.eqb andb].
  replace (match ds with [] => _ | x :: l => _ end) with (digit_char d :: ds) by (by destruct ds as [|? []]).
  rewrite Hs, Hv, (proj2 (Z.ltb_ge _ _)) by (unfold ULONG_MAX; lia). done.
Qed.

Lemma strtoul_x n : 0 <= n < 2 ^ 64 → strtoul (48 :: 120 :: print_x n) 16 = (n, []).
Proof.
  intros Hn. unfold strtoul, print_x. pose proof (print_number_span 16 16 n ltac:(lia) ltac:(lia)) as Hs.
  pose proof (number_of_print 16 16 n ltac:(lia) ltac:(lia)) as Hv.
  destruct (print_number_head 15 16 n ltac:(lia) ltac:(lia)) as (d&ds&Hd&Hp). rewrite Hp in *.
  change (skip_spaces (48 :: 120 :: digit_char d :: ds)) with (48 :: 120 :: digit_char d :: ds).
  cbn [Z.eqb Pos.eqb andb]. change (tolower 120 =? 120) with true. cbn [andb].
  unfold is_digit_of at 1. destruct (digit_char_spec d) as [-> _]; [lia|]. rewrite (proj2 (Z.ltb_lt d 16)) by lia.
  rewrite Hs, Hv, (proj2 (Z.ltb_ge _ _)) by (unfold ULONG_MAX; lia). done.
Qed.
