(* ===== verification/Config.v ===== *)
(** * Reading the configuration (tools/config.c, tools/containers.h)

    The parser of configuration files and of the arguments of [wg set].  The linked
    lists of peers and of allowed addresses are lists; [last_peer] is the last peer
    of the device, and [last_allowedip] the last address of that peer, as in the
    code, where new elements are only put at the end.  A result of [None] is the
    error return, after which the caller gives up the device.

    The resolver and the address conversions of the C library, and the files named
    on the command line, are parameters.  An allocation that fails ends like bad
    input and is not part of the model. *)
From stdpp Require Import prelude list.
From Stdlib Require Import ZArith Lia Wf_nat.
From Stdlib Require String.
Import String.StringSyntax.
From S2P Require Import Prelude Net Encoding Text.

#[local] Open Scope Z_scope.

(** ** tools/containers.h *)
Definition WG_TRANSPORT_UDP := 0.
Definition WG_TRANSPORT_TCP := 1.

Definition WGALLOWEDIP_REMOVE_ME := 1.

Record wgallowedip := mk_wgallowedip { wa_family : Z; wa_ip : Z; wa_cidr : Z; wa_flags : Z }.

Definition WGPEER_REMOVE_ME := 1.
Definition WGPEER_REPLACE_ALLOWEDIPS := 2.
Definition WGPEER_HAS_PUBLIC_KEY := 4.
Definition WGPEER_HAS_PRESHARED_KEY := 8.
Definition WGPEER_HAS_PERSISTENT_KEEPALIVE_INTERVAL := 16.

Record wgpeer := mk_wgpeer {
  wp_flags : Z;
  wp_public_key : list Z;
  wp_preshared_key : list Z;
  wp_endpoint : sockaddr;
  wp_last_handshake_time : Z;
  wp_rx_bytes : Z;
  wp_tx_bytes : Z;
  wp_persistent_keepalive_interval : Z;
  wp_allowedips : list wgallowedip;
}.
#[export] Instance settable_wgpeer : Settable wgpeer :=
  λ r, mk_wgpeer (wp_flags r) (wp_public_key r) (wp_preshared_key r) (wp_endpoint r) (wp_last_handshake_time r)
    (wp_rx_bytes r) (wp_tx_bytes r) (wp_persistent_keepalive_interval r) (wp_allowedips r).

Definition WGDEVICE_REPLACE_PEERS := 1.
Definition WGDEVICE_HAS_PRIVATE_KEY := 2.
Definition WGDEVICE_HAS_PUBLIC_KEY := 4.
Definition WGDEVICE_HAS_LISTEN_PORT := 8.
Definition WGDEVICE_HAS_FWMARK := 16.
Definition WGDEVICE_HAS_TRANSPORT := 32.

Record wgdevice := mk_wgdevice {
  wd_name : text;
  wd_ifindex : Z;
  wd_flags : Z;
  wd_public_key : list Z;
  wd_private_key : list Z;
  wd_fwmark : Z;
  wd_listen_port : Z;
  wd_transport : Z;
  wd_peers : list wgpeer;
}.
#[export] Instance settable_wgdevice : Settable wgdevice :=
  λ r, mk_wgdevice (wd_name r) (wd_ifindex r) (wd_flags r) (wd_public_key r) (wd_private_key r) (wd_fwmark r)
    (wd_listen_port r) (wd_transport r) (wd_peers r).

(** [calloc] *)
Definition zero_key : list Z := repeat 0 32.
Definition new_wgpeer : wgpeer := mk_wgpeer 0 zero_key zero_key SaUnspec 0 0 0 0 [].
Definition new_wgdevice : wgdevice := mk_wgdevice [] 0 0 zero_key zero_key 0 0 0 [].

(** [flags & f] as a condition, [flags |= f] and [flags &= ~f] *)
Definition has_flag (flags f : Z) : bool := negb (Z.land flags f =? 0).
Definition set_flag (f flags : Z) : Z := Z.lor flags f.
Definition clear_flag (f flags : Z) : Z := Z.ldiff flags f.

(** ** What the C library provides *)
Inductive gai :=
  | Resolved (ai : sockaddr)
  | Failed (ret : Z).

(** One file as [fopen] and [fread] find it: its bytes, and whether reading ends in
    an error. *)
Inductive file :=
  | Missing
  | Contents (bytes : text) (ferror : bool).

Class Libc := {
  (** the answer to the [n]-th question for a host and a service *)
  getaddrinfo : option text → text → nat → gai;
  getnameinfo : sockaddr → option (text * text);
  inet_pton4 : text → option Z;
  inet_pton6 : text → option Z;
  inet_ntop4 : Z → text;
  inet_ntop6 : Z → text;
  getenv_retries : option text;
  open_file : text → file;
}.

Definition EAI_NONAME := -2.
Definition EAI_FAIL := -4.
Definition EAI_NODATA := -5.

Section config.
Context `{Libc} (patience : nat).

(** ** Values *)
Definition get_value (line key : text) : option text :=
  let keylen := zlen key in
  if zlen line <=? keylen then None
  else if negb (strcasecmp_eq (ztake keylen line) key) then None
  else Some (zdrop keylen line).

Definition parse_port (dev : wgdevice) (value : text) : option wgdevice :=
  if zlen value =? 0 then None
  else
    match getaddrinfo None value 0 with
    | Resolved (Sa4 port _) | Resolved (Sa6 port _ _) =>
        Some dev{{ wd_listen_port := port; wd_flags ::= set_flag WGDEVICE_HAS_LISTEN_PORT }}
    | _ => None
    end.

Definition UINT32_MAX := 2 ^ 32 - 1.

Definition first_char (value : text) : Z := nth 0 value 0.

Definition parse_fwmark (dev : wgdevice) (value : text) : option wgdevice :=
  if strcasecmp_eq value (str "off")
  then Some dev{{ wd_fwmark := 0; wd_flags ::= set_flag WGDEVICE_HAS_FWMARK }}
  else if negb (char_is_digit (first_char value)) then None
  else
    let base := if (2 <? zlen value) && (nth 0 value 0 =? 48) && (nth 1 value 0 =? 120) then 16 else 10 in
    let '(ret, rest) := strtoul value base in
    if negb (zlen rest =? 0) || (UINT32_MAX <? ret) then None
    else Some dev{{ wd_fwmark := ret; wd_flags ::= set_flag WGDEVICE_HAS_FWMARK }}.

Definition parse_key (value : text) : option (list Z) := key_from_base64 value.

(** The file has the text of a key, then only spaces; an empty file is the zero
    key. *)
Definition parse_keyfile (path : text) : option (list Z) :=
  match open_file path with
  | Missing => None
  | Contents bytes ferror =>
      if zlen bytes <? WG_KEY_LEN_BASE64 - 1 then
        if negb ferror && (zlen bytes =? 0) then Some zero_key else None
      else if negb (forallb char_is_space (zdrop (WG_KEY_LEN_BASE64 - 1) bytes)) then None
      else if ferror then None
      else parse_key (ztake (WG_KEY_LEN_BASE64 - 1) bytes)
  end.

Definition parse_ip (value : text) : option (Z * Z) :=
  match strchr value 58 with
  | Some _ => match inet_pton6 value with Some ip => Some (AF_INET6, ip) | None => None end
  | None => match inet_pton4 value with Some ip => Some (AF_INET, ip) | None => None end
  end.

Definition INT_MAX := 2 ^ 31 - 1.

(** How often to ask again; -1 is without end.  [None] leaves the program. *)
Definition parse_dns_retries : option Z :=
  match getenv_retries with
  | None => Some 15
  | Some retries =>
      if bool_decide (retries = str "infinity") then Some (-1)
      else
        let '(ret, rest) := strtoul retries 10 in
        if negb (zlen rest =? 0) || (INT_MAX <? ret) then None else Some ret
  end.

(** The host and the port of an endpoint. *)
Definition split_endpoint (value : text) : option (text * text) :=
  match value with
  | [] => None
  | c :: value' =>
      if c =? 91 then
        match strchr value 93 with
        | None => None
        | Some (before, after) =>
            if negb (first_char after =? 58) || (zlen after <=? 1) then None
            else Some (zdrop 1 before, zdrop 1 after)
        end
      else
        match strrchr value 58 with
        | None => None
        | Some (host, port) => if zlen port =? 0 then None else Some (host, port)
        end
  end.

(** The loop around [getaddrinfo], for at most [fuel] questions; the outer [None]
    is that it still goes on. *)
Fixpoint resolve (fuel attempt : nat) (retries : Z) (host port : text) : option (option sockaddr) :=
  match fuel with
  | O => None
  | S fuel =>
      match getaddrinfo (Some host) port attempt with
      | Resolved ai => Some (Some ai)
      | Failed ret =>
          if (ret =? EAI_NONAME) || (ret =? EAI_FAIL) || (ret =? EAI_NODATA) then Some None
          else if (0 <=? retries) && (retries =? 0) then Some None
          else resolve fuel (S attempt) (if 0 <=? retries then retries - 1 else retries) host port
      end
  end.

(** Enough questions for the number of retries; without a limit, as many as the
    user waits for. *)
Definition questions (retries : Z) : nat := if 0 <=? retries then S (Z.to_nat retries) else patience.

Definition parse_endpoint (peer : wgpeer) (value : text) : option wgpeer :=
  match parse_dns_retries with
  | None => None
  | Some retries =>
      match split_endpoint value with
      | None => None
      | Some (host, port) =>
          match resolve (questions retries) 0 retries host port with
          | Some (Some ((Sa4 _ _ | Sa6 _ _ _) as ai)) => Some peer{{ wp_endpoint := ai }}
          | _ => None
          end
      end
  end.

Definition parse_persistent_keepalive (peer : wgpeer) (value : text) : option wgpeer :=
  let done ret :=
    Some peer{{ wp_persistent_keepalive_interval := ret;
                wp_flags ::= set_flag WGPEER_HAS_PERSISTENT_KEEPALIVE_INTERVAL }} in
  if strcasecmp_eq value (str "off") then done 0
  else if negb (char_is_digit (first_char value)) then None
  else
    let '(ret, rest) := strtoul value 10 in
    if negb (zlen rest =? 0) || (65535 <? ret) then None else done (u16 ret).

Definition parse_transport (value : text) : option Z :=
  if strcasecmp_eq value (str "udp") then Some WG_TRANSPORT_UDP
  else if strcasecmp_eq value (str "tcp") then Some WG_TRANSPORT_TCP
  else None.

(** ** Allowed addresses *)
Definition netmask_word (family ip : Z) (i : Z) : Z :=
  if family =? AF_INET then ip else Z.land (Z.shiftr ip (32 * (3 - i))) (2 ^ 32 - 1).

(** The loop from word [i - 1] down to 0. *)
Fixpoint netmask_loop (a : wgallowedip) (i : nat) : bool :=
  match i with
  | O => true
  | S i' =>
      let i := Z.of_nat i' in
      if 32 * (i + 1) <=? wa_cidr a then true
      else
        let mask := 2 ^ 32 - 1 in
        let mask := if 32 * i <? wa_cidr a then Z.shiftr mask (wa_cidr a - 32 * i) else mask in
        if negb (Z.land (netmask_word (wa_family a) (wa_ip a) i) mask =? 0) then false else netmask_loop a i'
  end.

(** Whether the bits after the prefix are zero; otherwise a warning is printed. *)
Definition validate_netmask (a : wgallowedip) : bool :=
  if wa_family a =? AF_INET then netmask_loop a 1
  else if wa_family a =? AF_INET6 then netmask_loop a 4
  else true.

(** The flags of the address, the flags of the peer, and the rest of the entry. *)
Definition parse_ip_prefix (peer_flags : Z) (mask : text) : Z * Z * text :=
  if first_char mask =? 45 then
    (WGALLOWEDIP_REMOVE_ME, clear_flag WGPEER_REPLACE_ALLOWEDIPS peer_flags, zdrop 1 mask)
  else if first_char mask =? 43 then (0, clear_flag WGPEER_REPLACE_ALLOWEDIPS peer_flags, zdrop 1 mask)
  else (0, peer_flags, mask).

Definition parse_cidr (family : Z) (mask : option text) : option Z :=
  match mask with
  | Some mask =>
      if negb (char_is_digit (first_char mask)) then None
      else
        let '(cidr, rest) := strtoul mask 10 in
        if negb (zlen rest =? 0) || ((32 <? cidr) && (family =? AF_INET)) || ((128 <? cidr) && (family =? AF_INET6))
        then None else Some cidr
  | None => if family =? AF_INET then Some 32 else if family =? AF_INET6 then Some 128 else None
  end.

(** One entry of the list, up to the comma. *)
Definition parse_allowedip (peer : wgpeer) (entry : text) : option wgpeer :=
  let '(flags, peer_flags, entry) := parse_ip_prefix (wp_flags peer) entry in
  let '(ip, mask) := match strchr entry 47 with Some (ip, mask) => (ip, Some mask) | None => (entry, None) end in
  match parse_ip ip with
  | None => None
  | Some (family, ip) =>
      match parse_cidr family mask with
      | None => None
      | Some cidr =>
          Some peer{{ wp_flags := peer_flags; wp_allowedips ::= (λ l, l ++ [mk_wgallowedip family ip (u8 cidr) flags]) }}
      end
  end.

Fixpoint parse_entries (peer : wgpeer) (entries : list text) : option wgpeer :=
  match entries with
  | [] => Some peer
  | entry :: entries =>
      match parse_allowedip peer entry with Some peer => parse_entries peer entries | None => None end
  end.

Definition parse_allowedips (peer : wgpeer) (value : text) : option wgpeer :=
  let peer := peer{{ wp_flags ::= set_flag WGPEER_REPLACE_ALLOWEDIPS }} in
  if zlen value =? 0 then Some peer else parse_entries peer (tokens 44 value).

(** ** Lines *)
Record config_ctx := mk_config_ctx {
  cc_device : wgdevice;
  cc_is_peer_section : bool;
  cc_is_device_section : bool;
}.

(** An operation on [last_peer]; there is one in a peer section. *)
Fixpoint on_last_peer (f : wgpeer → option wgpeer) (peers : list wgpeer) : option (list wgpeer) :=
  match peers with
  | [] => None
  | [peer] => match f peer with Some peer => Some [peer] | None => None end
  | peer :: peers => match on_last_peer f peers with Some peers => Some (peer :: peers) | None => None end
  end.

Definition on_peer (f : wgpeer → option wgpeer) (ctx : config_ctx) : option config_ctx :=
  match on_last_peer f (wd_peers (cc_device ctx)) with
  | Some peers => Some (mk_config_ctx (cc_device ctx){{ wd_peers := peers }} (cc_is_peer_section ctx) (cc_is_device_section ctx))
  | None => None
  end.

Definition on_device (f : wgdevice → option wgdevice) (ctx : config_ctx) : option config_ctx :=
  match f (cc_device ctx) with
  | Some dev => Some (mk_config_ctx dev (cc_is_peer_section ctx) (cc_is_device_section ctx))
  | None => None
  end.

Definition set_private_key (value : text) (dev : wgdevice) : option wgdevice :=
  match parse_key value with
  | Some key => Some dev{{ wd_private_key := key; wd_flags ::= set_flag WGDEVICE_HAS_PRIVATE_KEY }}
  | None => None
  end.

Definition set_transport (value : text) (dev : wgdevice) : option wgdevice :=
  match parse_transport value with
  | Some t => Some dev{{ wd_transport := t; wd_flags ::= set_flag WGDEVICE_HAS_TRANSPORT }}
  | None => None
  end.

Definition set_public_key (value : text) (peer : wgpeer) : option wgpeer :=
  match parse_key value with
  | Some key => Some peer{{ wp_public_key := key; wp_flags ::= set_flag WGPEER_HAS_PUBLIC_KEY }}
  | None => None
  end.

Definition set_preshared_key (value : text) (peer : wgpeer) : option wgpeer :=
  match parse_key value with
  | Some key => Some peer{{ wp_preshared_key := key; wp_flags ::= set_flag WGPEER_HAS_PRESHARED_KEY }}
  | None => None
  end.

(** The chain of [key_match] tests: the first key that fits decides. *)
Fixpoint key_match {A} (line : text) (keys : list (text * (text → option A))) : option A :=
  match keys with
  | [] => None
  | (key, f) :: keys =>
      match get_value line (key ++ [61]) with Some value => f value | None => key_match line keys end
  end.

Definition device_line (ctx : config_ctx) (line : text) : option config_ctx :=
  key_match line
    [(str "ListenPort", λ v, on_device (λ d, parse_port d v) ctx);
     (str "FwMark", λ v, on_device (λ d, parse_fwmark d v) ctx);
     (str "PrivateKey", λ v, on_device (set_private_key v) ctx);
     (str "Transport", λ v, on_device (set_transport v) ctx);
     (str "TransportMode", λ v, on_device (set_transport v) ctx)].

Definition peer_line (ctx : config_ctx) (line : text) : option config_ctx :=
  key_match line
    [(str "Endpoint", λ v, on_peer (λ p, parse_endpoint p v) ctx);
     (str "PublicKey", λ v, on_peer (set_public_key v) ctx);
     (str "AllowedIPs", λ v, on_peer (λ p, parse_allowedips p v) ctx);
     (str "PersistentKeepalive", λ v, on_peer (λ p, parse_persistent_keepalive p v) ctx);
     (str "PresharedKey", λ v, on_peer (set_preshared_key v) ctx)].

Definition process_line (ctx : config_ctx) (line : text) : option config_ctx :=
  if strcasecmp_eq line (str "[Interface]") then Some (mk_config_ctx (cc_device ctx) false true)
  else if strcasecmp_eq line (str "[Peer]") then
    let new_peer := new_wgpeer{{ wp_flags ::= set_flag WGPEER_REPLACE_ALLOWEDIPS }} in
    Some (mk_config_ctx (cc_device ctx){{ wd_peers ::= (λ l, l ++ [new_peer]) }} true false)
  else if cc_is_device_section ctx then device_line ctx line
  else if cc_is_peer_section ctx then peer_line ctx line
  else None.

Definition COMMENT_CHAR := 35.

(** The characters of a line that are neither spaces nor part of a comment. *)
Definition clean_line (input : text) : text :=
  let input := match strchr input COMMENT_CHAR with Some (before, _) => before | None => input end in
  filter (λ c, char_is_space c = false) input.

Definition config_read_line (ctx : config_ctx) (input : text) : option config_ctx :=
  let line := clean_line input in
  if zlen line =? 0 then Some ctx else process_line ctx line.

Definition config_read_init (append : bool) : config_ctx :=
  let dev := new_wgdevice in
  let dev := if append then dev
             else dev{{ wd_flags ::= set_flag (Z.lor (Z.lor (Z.lor WGDEVICE_REPLACE_PEERS WGDEVICE_HAS_PRIVATE_KEY)
                         WGDEVICE_HAS_FWMARK) WGDEVICE_HAS_LISTEN_PORT) }} in
  mk_config_ctx dev false false.

Definition config_read_finish (ctx : config_ctx) : option wgdevice :=
  if forallb (λ peer, has_flag (wp_flags peer) WGPEER_HAS_PUBLIC_KEY) (wd_peers (cc_device ctx))
  then Some (cc_device ctx) else None.

Fixpoint read_lines (ctx : config_ctx) (ls : list text) : option config_ctx :=
  match ls with
  | [] => Some ctx
  | l :: ls => match config_read_line ctx l with Some ctx => read_lines ctx ls | None => None end
  end.

(** Reading a whole file, as [setconf_main] does. *)
Definition config_read (append : bool) (contents : text) : option wgdevice :=
  match read_lines (config_read_init append) (lines contents) with
  | Some ctx => config_read_finish ctx
  | None => None
  end.

(** ** Arguments *)
Definition strip_spaces (s : text) : text := filter (λ c, char_is_space c = false) s.

Definition set_private_keyfile (path : text) (dev : wgdevice) : option wgdevice :=
  match parse_keyfile path with
  | Some key => Some dev{{ wd_private_key := key; wd_flags ::= set_flag WGDEVICE_HAS_PRIVATE_KEY }}
  | None => None
  end.

Definition set_preshared_keyfile (path : text) (peer : wgpeer) : option wgpeer :=
  match parse_keyfile path with
  | Some key => Some peer{{ wp_preshared_key := key; wp_flags ::= set_flag WGPEER_HAS_PRESHARED_KEY }}
  | None => None
  end.

Definition on_last (f : wgpeer → option wgpeer) (dev : wgdevice) : option wgdevice :=
  match on_last_peer f (wd_peers dev) with Some peers => Some dev{{ wd_peers := peers }} | None => None end.

(** One option with its value; [peer] says whether a peer has been named. *)
Definition cmd_option (peer : bool) (name value : text) (dev : wgdevice) : option wgdevice :=
  let named s := bool_decide (name = s) in
  if named (str "listen-port") && negb peer then parse_port dev value
  else if named (str "fwmark") && negb peer then parse_fwmark dev value
  else if named (str "private-key") && negb peer then set_private_keyfile value dev
  else if named (str "transport") && negb peer then set_transport value dev
  else if named (str "peer") then on_last (set_public_key value) dev{{ wd_peers ::= (λ l, l ++ [new_wgpeer]) }}
  else if named (str "endpoint") && peer then on_last (λ p, parse_endpoint p value) dev
  else if named (str "allowed-ips") && peer then on_last (λ p, parse_allowedips p (strip_spaces value)) dev
  else if named (str "persistent-keepalive") && peer then on_last (λ p, parse_persistent_keepalive p value) dev
  else if named (str "preshared-key") && peer then on_last (set_preshared_keyfile value) dev
  else None.

Definition has_peer (dev : wgdevice) : bool := negb (bool_decide (wd_peers dev = [])).

(** The loop over the arguments. *)
Fixpoint read_args (argv : list text) (dev : wgdevice) : option wgdevice :=
  match argv with
  | [] => Some dev
  | arg :: argv =>
      if bool_decide (arg = str "remove") && has_peer dev then
        match on_last (λ p, Some p{{ wp_flags ::= set_flag WGPEER_REMOVE_ME }}) dev with
        | Some dev => read_args argv dev
        | None => None
        end
      else
        match argv with
        | value :: argv =>
            match cmd_option (has_peer dev) arg value dev with Some dev => read_args argv dev | None => None end
        | [] => None
        end
  end.

Definition config_read_cmd (argv : list text) : option wgdevice := read_args argv new_wgdevice.
End config.

(** ** Types

    What every value the parser produces satisfies: each field fits its C type, and
    keys, prefixes and flags are ones the interface of the device accepts. *)
Definition key_ok (key : list Z) : Prop := zlen key = WG_KEY_LEN ∧ Forall is_byte key.

Definition sockaddr_ok (a : sockaddr) : Prop :=
  match a with
  | SaUnspec => True
  | Sa4 port addr => 0 <= port < 2 ^ 16 ∧ 0 <= addr < 2 ^ 32
  | Sa6 port addr scope => 0 <= port < 2 ^ 16 ∧ 0 <= addr < 2 ^ 128 ∧ 0 <= scope < 2 ^ 32
  end.

Definition allowedip_ok (a : wgallowedip) : Prop :=
  (wa_family a = AF_INET ∧ 0 <= wa_ip a < 2 ^ 32 ∧ 0 <= wa_cidr a <= 32 ∨
   wa_family a = AF_INET6 ∧ 0 <= wa_ip a < 2 ^ 128 ∧ 0 <= wa_cidr a <= 128) ∧
  (wa_flags a = 0 ∨ wa_flags a = WGALLOWEDIP_REMOVE_ME).

Record peer_ok (p : wgpeer) : Prop := {
  po_flags : 0 <= wp_flags p < 2 ^ 5;
  po_public_key : key_ok (wp_public_key p);
  po_preshared_key : key_ok (wp_preshared_key p);
  po_endpoint : sockaddr_ok (wp_endpoint p);
  po_interval : 0 <= wp_persistent_keepalive_interval p < 2 ^ 16;
  po_allowedips : Forall allowedip_ok (wp_allowedips p);
}.

Record device_ok (d : wgdevice) : Prop := {
  do_flags : 0 <= wd_flags d < 2 ^ 6;
  do_private_key : key_ok (wd_private_key d);
  do_fwmark : 0 <= wd_fwmark d < 2 ^ 32;
  do_listen_port : 0 <= wd_listen_port d < 2 ^ 16;
  do_transport : wd_transport d = WG_TRANSPORT_UDP ∨ wd_transport d = WG_TRANSPORT_TCP;
  do_peers : Forall peer_ok (wd_peers d);
}.

(** The documented results of the C library: [inet_pton] writes 4 or 16 bytes, and
    [getaddrinfo] socket addresses. *)
Class LibcTyped `{Libc} := {
  inet_pton4_typed s ip : inet_pton4 s = Some ip → 0 <= ip < 2 ^ 32;
  inet_pton6_typed s ip : inet_pton6 s = Some ip → 0 <= ip < 2 ^ 128;
  getaddrinfo_typed host port n ai : getaddrinfo host port n = Resolved ai → sockaddr_ok ai;
}.

Create HintDb config discriminated.
#[export] Hint Constructors peer_ok device_ok : config.
#[export] Hint Resolve po_flags po_public_key po_preshared_key po_endpoint po_interval po_allowedips : config.
#[export] Hint Resolve do_flags do_private_key do_fwmark do_listen_port do_transport do_peers : config.

Lemma decode_groups_typed n ret s :
  length s = (4 * S n)%nat → Forall is_byte (decode_groups ret s).2 ∧ length (decode_groups ret s).2 = (3 * n + 2)%nat.
Proof.
  assert (Hb : ∀ v, is_byte (Z.land v 0xff)).
  { intros v. change 0xff with (Z.ones 8). rewrite Z.land_ones by lia. apply Z.mod_pos_bound. lia. }
  revert ret s. induction n as [|n IH]; intros ret s Hl.
  - destruct s as [|c0 [|c1 [|c2 [|c3 [|]]]]]; try done. cbn [decode_groups snd length]. split; [repeat constructor; apply Hb|done].
  - destruct s as [|c0 [|c1 [|c2 [|c3 [|c4 s]]]]]; try (cbn in Hl; lia).
    specialize (IH (u8 (Z.lor ret (sign_bit (decode_base64 c0 c1 c2 c3)))) (c4 :: s) ltac:(cbn in Hl |- *; lia)).
    change (decode_groups ret (c0 :: c1 :: c2 :: c3 :: c4 :: s)) with
      (let val := decode_base64 c0 c1 c2 c3 in
       let '(ret, key) := decode_groups (u8 (Z.lor ret (sign_bit val))) (c4 :: s) in
       (ret, Z.land (Z.shiftr val 16) 0xff :: Z.land (Z.shiftr val 8) 0xff :: Z.land val 0xff :: key)).
    cbv zeta. destruct (decode_groups _ (c4 :: s)) as [r key]. cbn [snd] in *. destruct IH as [IHb IHl].
    split; [repeat (constructor; [apply Hb|]); done|cbn [length]; lia].
Qed.

Lemma parse_key_typed s key : parse_key s = Some key → key_ok key.
Proof.
  unfold parse_key, key_from_base64, key_ok. change (WG_KEY_LEN_BASE64 - 1) with 44. change WG_KEY_LEN with 32.
  destruct (Z.eqb_spec (zlen s) 44) as [Hl|]; [|done]. case_if; [done|].
  destruct (decode_groups_typed 10 0 s) as [Hb Hk]; [unfold zlen in Hl; lia|].
  destruct (decode_groups 0 s) as [ret k]. case_if; [done|]. intros [= <-]. split; [unfold zlen; cbn [snd] in Hk; lia|done].
Qed.

Lemma zero_key_ok : key_ok zero_key.
Proof. split; [done|by repeat constructor]. Qed.
#[export] Hint Resolve parse_key_typed zero_key_ok : config.

Lemma width_land k x : 0 <= k → 0 <= x < 2 ^ k ↔ Z.land x (Z.ones k) = x.
Proof.
  intros Hk. rewrite Z.land_ones by done. split; [apply Z.mod_small|].
  intros <-. apply Z.mod_pos_bound. lia.
Qed.

Lemma set_flag_range k f flags : 0 <= k → 0 <= f < 2 ^ k → 0 <= flags < 2 ^ k → 0 <= set_flag f flags < 2 ^ k.
Proof. intros Hk. rewrite !width_land by done. unfold set_flag. intros Hf H. by rewrite Z.land_lor_distr_l, Hf, H. Qed.

Lemma clear_flag_range k f flags : 0 <= k → 0 <= flags < 2 ^ k → 0 <= clear_flag f flags < 2 ^ k.
Proof.
  intros Hk. rewrite !width_land by done. unfold clear_flag. intros H.
  by rewrite Z.ldiff_land, <- Z.land_assoc, (Z.land_comm (Z.lnot f)), Z.land_assoc, H.
Qed.

(** An operation on a peer that keeps its type, and the mark that it has a key. *)
Definition keyed (p : wgpeer) : Prop := has_flag (wp_flags p) WGPEER_HAS_PUBLIC_KEY = true.

Definition peer_op (f : wgpeer → option wgpeer) : Prop :=
  ∀ p p', f p = Some p' → (peer_ok p → peer_ok p') ∧ (keyed p → keyed p').

Definition device_op (f : wgdevice → option wgdevice) : Prop :=
  ∀ d d', f d = Some d' → (device_ok d → device_ok d') ∧ wd_peers d' = wd_peers d.

Lemma keyed_bit flags : has_flag flags WGPEER_HAS_PUBLIC_KEY = Z.testbit flags 2.
Proof.
  unfold has_flag. change WGPEER_HAS_PUBLIC_KEY with (2 ^ 2). destruct (Z.testbit flags 2) eqn:Ht.
  - destruct (Z.eqb_spec (Z.land flags (2 ^ 2)) 0) as [He|]; [|done].
    assert (Z.testbit (Z.land flags (2 ^ 2)) 2 = true) as Hc by (by rewrite Z.land_spec, Ht). by rewrite He in Hc.
  - replace (Z.land flags (2 ^ 2)) with 0; [done|]. apply Z.bits_inj'. intros i Hi. rewrite Z.land_spec, Z.bits_0, Z.pow2_bits_eqb by lia.
    destruct (Z.eqb_spec 2 i) as [<-|]; [by rewrite Ht|by rewrite andb_false_r].
Qed.

Lemma keyed_set f flags : has_flag flags WGPEER_HAS_PUBLIC_KEY = true → has_flag (set_flag f flags) WGPEER_HAS_PUBLIC_KEY = true.
Proof. rewrite !keyed_bit. unfold set_flag. intros H. by rewrite Z.lor_spec, H. Qed.

Lemma keyed_clear flags :
  has_flag flags WGPEER_HAS_PUBLIC_KEY = true → has_flag (clear_flag WGPEER_REPLACE_ALLOWEDIPS flags) WGPEER_HAS_PUBLIC_KEY = true.
Proof. rewrite !keyed_bit. unfold clear_flag. intros H. by rewrite Z.ldiff_spec, H. Qed.

Lemma set_peer_flag f flags : 0 <= f < 2 ^ 5 → 0 <= flags < 2 ^ 5 → 0 <= set_flag f flags < 2 ^ 5.
Proof. by apply set_flag_range. Qed.

Lemma set_device_flag f flags : 0 <= f < 2 ^ 6 → 0 <= flags < 2 ^ 6 → 0 <= set_flag f flags < 2 ^ 6.
Proof. by apply set_flag_range. Qed.

Lemma clear_peer_flag f flags : 0 <= flags < 2 ^ 5 → 0 <= clear_flag f flags < 2 ^ 5.
Proof. by apply clear_flag_range. Qed.
#[export] Hint Resolve keyed_set keyed_clear set_peer_flag set_device_flag clear_peer_flag : config.

#[export] Hint Extern 1 (0 <= ?f < _) => (first [is_const f|constr_eq f 0]; split; [by vm_compute|by vm_compute]) : config.

(** The fields that stay are typed, the one that changes is by its own lemma. *)
Ltac config_typed :=
  split; [let H := fresh in intros H; destruct H; constructor; cbn; eauto with config lia
         |try done; unfold keyed; cbn; eauto with config].

Lemma set_public_key_op s : peer_op (set_public_key s).
Proof. intros p p'. unfold set_public_key. destruct (parse_key s) eqn:Hk; [|done]. intros [= <-]. config_typed. Qed.

Lemma set_preshared_key_op s : peer_op (set_preshared_key s).
Proof. intros p p'. unfold set_preshared_key. destruct (parse_key s) eqn:Hk; [|done]. intros [= <-]. config_typed. Qed.


Section typed.
Context `{LibcTyped} (patience : nat).

Lemma parse_keyfile_typed path key : parse_keyfile path = Some key → key_ok key.
Proof.
  unfold parse_keyfile. destruct (open_file path) as [|bytes []]; [done|..]; repeat case_if; try done; eauto with config.
  intros [= <-]. apply zero_key_ok.
Qed.
#[local] Hint Resolve parse_keyfile_typed : config.

Lemma set_keyfile_op path : peer_op (set_preshared_keyfile path).
Proof. intros p p'. unfold set_preshared_keyfile. destruct (parse_keyfile path) eqn:Hk; [|done]. intros [= <-]. config_typed. Qed.

Lemma parse_persistent_keepalive_op s : peer_op (λ p, parse_persistent_keepalive p s).
Proof.
  intros p p'. unfold parse_persistent_keepalive. case_if; [intros [= <-]; config_typed|]. case_if; [done|].
  destruct (strtoul s 10) as [ret rest]. case_if; [done|]. intros [= <-]. config_typed. apply Z.mod_pos_bound. lia.
Qed.

Lemma resolve_typed fuel attempt retries host port ai :
  resolve fuel attempt retries host port = Some (Some ai) → sockaddr_ok ai.
Proof.
  revert attempt retries. induction fuel as [|fuel IH]; intros attempt retries; cbn [resolve]; [done|].
  destruct (getaddrinfo _ _ _) eqn:Hg; [intros [= <-]; by eapply getaddrinfo_typed|]. repeat (case_if; [done|]). apply IH.
Qed.

Lemma parse_endpoint_op s : peer_op (λ p, parse_endpoint patience p s).
Proof.
  intros p p'. unfold parse_endpoint. destruct parse_dns_retries as [retries|]; [|done].
  destruct (split_endpoint s) as [[host port]|]; [|done].
  destruct (resolve _ _ _ _ _) as [[[|? ?|? ? ?]|]|] eqn:Hr; try done; intros [= <-]; apply resolve_typed in Hr; config_typed.
Qed.

Lemma parse_cidr_typed family mask cidr :
  family = AF_INET ∨ family = AF_INET6 → parse_cidr family mask = Some cidr →
  0 <= cidr <= (if family =? AF_INET then 32 else 128).
Proof.
  intros Hf. unfold parse_cidr. destruct mask as [mask|].
  - case_if; [done|]. pose proof (strtoul_nonneg mask 10 ltac:(lia)). destruct (strtoul mask 10) as [n rest]. cbn [fst] in *.
    case_if; [done|]. intros [= <-]. simpl_guards. destruct Hf as [->| ->]; cbn in *; lia.
  - by destruct Hf as [->| ->]; intros [= <-].
Qed.

Lemma parse_ip_typed s family ip :
  parse_ip s = Some (family, ip) →
  family = AF_INET ∧ 0 <= ip < 2 ^ 32 ∨ family = AF_INET6 ∧ 0 <= ip < 2 ^ 128.
Proof.
  unfold parse_ip. destruct (strchr s 58); [destruct (inet_pton6 s) eqn:Hi|destruct (inet_pton4 s) eqn:Hi]; try done.
  all: intros [= <- <-]; eauto using inet_pton4_typed, inet_pton6_typed.
Qed.

Lemma parse_ip_prefix_typed flags entry :
  let '(f, pf, _) := parse_ip_prefix flags entry in
  (f = 0 ∨ f = WGALLOWEDIP_REMOVE_ME) ∧ (0 <= flags < 2 ^ 5 → 0 <= pf < 2 ^ 5) ∧
  (has_flag flags WGPEER_HAS_PUBLIC_KEY = true → has_flag pf WGPEER_HAS_PUBLIC_KEY = true).
Proof. unfold parse_ip_prefix. repeat case_if; split_and!; eauto with config. Qed.

Lemma parse_allowedip_op entry : peer_op (λ p, parse_allowedip p entry).
Proof.
  intros p p'. unfold parse_allowedip. pose proof (parse_ip_prefix_typed (wp_flags p) entry) as Hp.
  destruct (parse_ip_prefix _ _) as [[f pf] entry']. destruct Hp as (Hf&Hpf&Hk).
  destruct (match strchr entry' 47 with Some _ => _ | None => _ end) as [s mask].
  destruct (parse_ip s) as [[family ip]|] eqn:Hi; [|done]. destruct (parse_cidr family mask) as [cidr|] eqn:Hc; [|done].
  intros [= <-]. apply parse_ip_typed in Hi. apply parse_cidr_typed in Hc; [|tauto].
  assert (u8 cidr = cidr) as -> by (apply Z.mod_small; destruct (family =? AF_INET); lia).
  config_typed. apply Forall_app. split; [done|]. constructor; [|done]. split; [|done].
  cbn. destruct Hi as [[-> ?]|[-> ?]]; [left|right]; cbn in Hc; auto.
Qed.

Lemma parse_entries_op entries : peer_op (λ p, parse_entries p entries).
Proof.
  induction entries as [|e entries IH]; intros p p'; cbn [parse_entries]; [by intros [= <-]|].
  destruct (parse_allowedip p e) as [q|] eqn:He; [|done]. intros Hq.
  destruct (parse_allowedip_op e p q He), (IH q p' Hq). auto.
Qed.

Lemma parse_allowedips_op s : peer_op (λ p, parse_allowedips p s).
Proof.
  intros p p'. unfold parse_allowedips.
  assert (Hq : (peer_ok p → peer_ok p{{ wp_flags ::= set_flag WGPEER_REPLACE_ALLOWEDIPS }}) ∧
               (keyed p → keyed p{{ wp_flags ::= set_flag WGPEER_REPLACE_ALLOWEDIPS }})) by config_typed.
  case_if; [by intros [= <-]|]. intros He. apply parse_entries_op in He. tauto.
Qed.

Lemma parse_port_op s : device_op (λ d, parse_port d s).
Proof.
  intros d d'. unfold parse_port. case_if; [done|].
  destruct (getaddrinfo _ _ _) as [[|? ?|? ? ?]|] eqn:Hg; try done; apply getaddrinfo_typed in Hg; cbn in Hg; intros [= <-].
  all: config_typed.
Qed.

Lemma parse_fwmark_op s : device_op (λ d, parse_fwmark d s).
Proof.
  intros d d'. unfold parse_fwmark. case_if; [intros [= <-]; config_typed|]. case_if; [done|].
  set (base := if (2 <? zlen s) && _ && _ then 16 else 10). pose proof (strtoul_nonneg s base ltac:(subst base; case_if; lia)).
  destruct (strtoul s base) as [ret rest]. cbn [fst] in *. case_if; [done|]. intros [= <-]. simpl_guards.
  unfold UINT32_MAX in *. config_typed.
Qed.

Lemma set_private_key_op s : device_op (set_private_key s).
Proof. intros d d'. unfold set_private_key. destruct (parse_key s) eqn:Hk; [|done]. intros [= <-]. config_typed. Qed.

Lemma set_private_keyfile_op s : device_op (set_private_keyfile s).
Proof. intros d d'. unfold set_private_keyfile. destruct (parse_keyfile s) eqn:Hk; [|done]. intros [= <-]. config_typed. Qed.

Lemma set_transport_op s : device_op (set_transport s).
Proof.
  intros d d'. unfold set_transport, parse_transport. repeat case_if; try done; intros [= <-]; config_typed.
Qed.

Lemma on_last_peer_snoc f l p : on_last_peer f (l ++ [p]) = match f p with Some p => Some (l ++ [p]) | None => None end.
Proof.
  induction l as [|q l IH]; [done|]. cbn [app on_last_peer]. rewrite IH.
  destruct (l ++ [p]) eqn:Hl; [by destruct l|]. by destruct (f p).
Qed.

Lemma on_last_peer_op f l l' :
  peer_op f → on_last_peer f l = Some l' → (Forall peer_ok l → Forall peer_ok l') ∧ (Forall keyed l → Forall keyed l').
Proof.
  intros Hf. destruct l as [|p l _] using rev_ind; [done|]. rewrite on_last_peer_snoc. destruct (f p) as [p'|] eqn:Hp; [|done].
  intros [= <-]. destruct (Hf p p' Hp). rewrite !Forall_app, !Forall_singleton. tauto.
Qed.

Lemma device_peers_ok d l : device_ok d → Forall peer_ok l → device_ok d{{ wd_peers := l }}.
Proof. intros [] Hl. by constructor. Qed.

Lemma on_last_op f d d' :
  peer_op f → on_last f d = Some d' →
  (device_ok d → device_ok d') ∧ (Forall keyed (wd_peers d) → Forall keyed (wd_peers d')).
Proof.
  intros Hf. unfold on_last. destruct (on_last_peer f (wd_peers d)) as [l|] eqn:Hl; [|done]. intros [= <-].
  destruct (on_last_peer_op _ _ _ Hf Hl) as [Hok Hk]. split; [|done].
  intros Hd. apply device_peers_ok; [done|]. apply Hok, Hd.
Qed.

Lemma on_device_typed f ctx ctx' :
  device_op f → on_device f ctx = Some ctx' → device_ok (cc_device ctx) → device_ok (cc_device ctx').
Proof.
  intros Hf. unfold on_device. destruct (f (cc_device ctx)) as [d|] eqn:Hd; [|done]. intros [= <-]. apply (Hf _ _ Hd).
Qed.

Lemma on_peer_typed f ctx ctx' :
  peer_op f → on_peer f ctx = Some ctx' → device_ok (cc_device ctx) → device_ok (cc_device ctx').
Proof.
  intros Hf. unfold on_peer. destruct (on_last_peer f _) as [l|] eqn:Hl; [|done]. intros [= <-] Hd.
  apply device_peers_ok; [done|]. apply (on_last_peer_op _ _ _ Hf Hl), Hd.
Qed.

Lemma key_match_ind {A} (P : A → Prop) line keys x :
  Forall (λ kf : text * (text → option A), ∀ v x, kf.2 v = Some x → P x) keys → key_match line keys = Some x → P x.
Proof.
  induction 1 as [|[k f] keys Hf _ IH]; cbn [key_match]; [done|]. destruct (get_value line _); [apply Hf|apply IH].
Qed.
#[local] Hint Resolve on_device_typed on_peer_typed : config.
#[local] Hint Resolve parse_port_op parse_fwmark_op set_private_key_op set_transport_op : config.
#[local] Hint Resolve parse_endpoint_op set_public_key_op parse_allowedips_op parse_persistent_keepalive_op : config.
#[local] Hint Resolve set_preshared_key_op set_keyfile_op set_private_keyfile_op : config.

Lemma new_peer_ok flags : 0 <= flags < 2 ^ 5 → peer_ok new_wgpeer{{ wp_flags := flags }}.
Proof. intros. constructor; cbn; eauto with config. Qed.

Lemma process_line_typed ctx line ctx' :
  process_line patience ctx line = Some ctx' → device_ok (cc_device ctx) → device_ok (cc_device ctx').
Proof.
  unfold process_line. case_if; [by intros [= <-]|]. case_if.
  { intros [= <-] Hd. apply device_peers_ok; [done|]. apply Forall_app. split; [apply Hd|].
    apply Forall_singleton, (new_peer_ok WGPEER_REPLACE_ALLOWEDIPS). by split. }
  intros Hl Hd. revert Hl. case_if; [unfold device_line|case_if; [unfold peer_line|done]]; apply (key_match_ind (λ c, device_ok (cc_device c))).
  all: repeat (constructor; [cbn [snd]; intros v x Hx; eauto with config|]); constructor.
Qed.

Lemma read_lines_typed ctx ls ctx' :
  read_lines patience ctx ls = Some ctx' → device_ok (cc_device ctx) → device_ok (cc_device ctx').
Proof.
  revert ctx. induction ls as [|l ls IH]; intros ctx; cbn [read_lines]; [by intros [= <-]|].
  unfold config_read_line. case_if; [apply IH|]. destruct (process_line _ _ _) as [c|] eqn:Hp; [|done].
  intros Hr Hd. eapply IH; [done|]. by eapply process_line_typed.
Qed.

Lemma new_wgdevice_ok : device_ok new_wgdevice.
Proof. constructor; cbn; eauto with config. Qed.

Lemma config_read_typed append contents dev :
  config_read patience append contents = Some dev → device_ok dev ∧ Forall keyed (wd_peers dev).
Proof.
  unfold config_read. destruct (read_lines _ _ _) as [ctx|] eqn:Hr; [|done]. unfold config_read_finish. case_if; [|done].
  intros [= <-]. split.
  - eapply read_lines_typed; [done|]. destruct append; [apply new_wgdevice_ok|]. constructor; cbn; eauto with config.
  - apply Forall_forall. intros p Hp%list_elem_of_In. by apply (proj1 (forallb_forall _ _) Heqb p).
Qed.

Lemma cmd_option_typed peer name value d d' :
  cmd_option patience peer name value d = Some d' →
  device_ok d ∧ Forall keyed (wd_peers d) → device_ok d' ∧ Forall keyed (wd_peers d').
Proof.
  intros Ho [Hd Hk]. revert Ho. unfold cmd_option.
  assert (Hdev : ∀ f, device_op f → f d = Some d' → device_ok d' ∧ Forall keyed (wd_peers d')).
  { intros f Hf He. destruct (Hf _ _ He) as [? ->]. auto. }
  assert (Hpeer : ∀ f, peer_op f → on_last f d = Some d' → device_ok d' ∧ Forall keyed (wd_peers d')).
  { intros f Hf He. destruct (on_last_op _ _ _ Hf He). auto. }
  do 4 (case_if; [first [apply (Hdev (λ d, parse_port d value))|apply (Hdev (λ d, parse_fwmark d value))
                        |apply (Hdev (set_private_keyfile value))|apply Hdev]; eauto with config|]).
  case_if; [|repeat (case_if; [apply Hpeer; eauto with config|]); done].
  unfold on_last. cbn. rewrite on_last_peer_snoc. destruct (set_public_key value new_wgpeer) as [p|] eqn:Hp; [|done].
  intros [= <-]. cbn. split.
  - apply (device_peers_ok d); [done|]. apply Forall_app. split; [apply Hd|]. apply Forall_singleton.
    apply (set_public_key_op value _ _ Hp). apply (new_peer_ok 0). by split.
  - apply Forall_app. split; [done|]. apply Forall_singleton. revert Hp. unfold set_public_key.
    destruct (parse_key value); [|done]. by intros [= <-].
Qed.

Lemma remove_op : peer_op (λ p, Some p{{ wp_flags ::= set_flag WGPEER_REMOVE_ME }}).
Proof. intros p p' [= <-]. config_typed. Qed.

Lemma read_args_typed argv d d' :
  read_args patience argv d = Some d' →
  device_ok d ∧ Forall keyed (wd_peers d) → device_ok d' ∧ Forall keyed (wd_peers d').
Proof.
  revert d. induction argv as [argv IH] using (induction_ltof1 _ length).
  intros d. destruct argv as [|arg argv]; cbn [read_args]; [by intros [= <-]|]. case_if.
  - destruct (on_last _ d) as [c|] eqn:Hl; [|done]. intros Hr [Hd Hk]. apply (IH argv) in Hr; [done|unfold ltof; cbn; lia|].
    destruct (on_last_op _ _ _ remove_op Hl). auto.
  - destruct argv as [|value argv]; [done|]. destruct (cmd_option _ _ _ _ d) as [c|] eqn:Hc; [|done].
    intros Hr Hd. apply (IH argv) in Hr; [done|unfold ltof; cbn; lia|]. by eapply cmd_option_typed.
Qed.

(** C17: Whatever text a configuration file holds and whatever arguments are given,
    a device the parser returns is one the kernel interface accepts: the port, the
    mark, the keepalive interval and the flags fit their C types, the transport is
    one of the two, all keys are 32 bytes, every allowed address fits its family
    with a prefix of at most 32 or 128 bits, and every peer has a public key. *)
Theorem config_well_typed argv append contents dev :
  config_read patience append contents = Some dev ∨ config_read_cmd patience argv = Some dev →
  device_ok dev ∧ Forall keyed (wd_peers dev).
Proof.
  intros [Hr|Hc]; [by eapply config_read_typed|]. eapply read_args_typed; [done|]. split; [apply new_wgdevice_ok|constructor].
Qed.
End typed.
