(* ===== verification/ShowConf.v ===== *)
(** * Printing the configuration (tools/showconf.c)

    [showconf_main] prints a device as a configuration file.  The text is one value
    here, the concatenation of what the calls of [printf] write.  The theorem is
    that [setconf] reads it back: the device the parser of Config.v returns has the
    keys, addresses, endpoints and numbers of the printed one.

    The C library is assumed to read the numeric forms of addresses and ports that
    it prints; [NumericLibc] is one that does. *)
From stdpp Require Import prelude list.
From Stdlib Require Import ZArith Lia Wf_nat.
From Stdlib Require String.
Import String.StringSyntax.
From S2P Require Import Prelude Net Encoding Text Config.

#[local] Open Scope Z_scope.

(** ** The printer *)
Section showconf.
Context `{Libc}.

Definition show_allowedip (a : wgallowedip) : option text :=
  if wa_family a =? AF_INET then Some (inet_ntop4 (wa_ip a) ++ [47] ++ print_u (wa_cidr a))
  else if wa_family a =? AF_INET6 then Some (inet_ntop6 (wa_ip a) ++ [47] ++ print_u (wa_cidr a))
  else None.

(** The loop over the addresses; one of another family is skipped. *)
Fixpoint show_allowedips (l : list wgallowedip) : text :=
  match l with
  | [] => []
  | a :: l =>
      match show_allowedip a with
      | Some s => s ++ (if bool_decide (l = []) then [] else str ", ")
      | None => []
      end ++ show_allowedips l
  end.

Definition show_endpoint (e : sockaddr) : text :=
  if (sa_family e =? AF_INET) || (sa_family e =? AF_INET6) then
    match getnameinfo e with
    | Some (host, service) =>
        if (sa_family e =? AF_INET6) && bool_decide (is_Some (strchr host 58))
        then str "Endpoint = " ++ ([91] ++ host ++ [93; 58] ++ service) ++ [10]
        else str "Endpoint = " ++ (host ++ [58] ++ service) ++ [10]
    | None => []
    end
  else [].

Definition show_peer (peer : wgpeer) : text :=
  str "[Peer]" ++ [10] ++
  str "PublicKey = " ++ key_to_base64 (wp_public_key peer) ++ [10] ++
  (if has_flag (wp_flags peer) WGPEER_HAS_PRESHARED_KEY
   then str "PresharedKey = " ++ key_to_base64 (wp_preshared_key peer) ++ [10] else []) ++
  (if bool_decide (wp_allowedips peer = []) then []
   else str "AllowedIPs = " ++ show_allowedips (wp_allowedips peer) ++ [10]) ++
  show_endpoint (wp_endpoint peer) ++
  (if wp_persistent_keepalive_interval peer =? 0 then []
   else str "PersistentKeepalive = " ++ print_u (wp_persistent_keepalive_interval peer) ++ [10]).

Fixpoint show_peers (peers : list wgpeer) : text :=
  match peers with
  | [] => []
  | peer :: peers => show_peer peer ++ (if bool_decide (peers = []) then [] else [10]) ++ show_peers peers
  end.

(** What [showconf_main] prints for the device [ipc_get_device] found. *)
Definition showconf (dev : wgdevice) : text :=
  str "[Interface]" ++ [10] ++
  (if wd_listen_port dev =? 0 then [] else str "ListenPort = " ++ print_u (wd_listen_port dev) ++ [10]) ++
  (if wd_fwmark dev =? 0 then [] else str "FwMark = " ++ (str "0x" ++ print_x (wd_fwmark dev)) ++ [10]) ++
  (if has_flag (wd_flags dev) WGDEVICE_HAS_PRIVATE_KEY
   then str "PrivateKey = " ++ key_to_base64 (wd_private_key dev) ++ [10] else []) ++
  (if has_flag (wd_flags dev) WGDEVICE_HAS_TRANSPORT
   then str "Transport = " ++ (if wd_transport dev =? WG_TRANSPORT_TCP then str "tcp" else str "udp") ++ [10] else []) ++
  [10] ++ show_peers (wd_peers dev).
End showconf.

(** ** What is read back *)
Definition loaded_allowedip (a : wgallowedip) : wgallowedip := mk_wgallowedip (wa_family a) (wa_ip a) (wa_cidr a) 0.

Definition loaded_peer `{Libc} (p : wgpeer) : wgpeer :=
  let psk := has_flag (wp_flags p) WGPEER_HAS_PRESHARED_KEY in
  let interval := wp_persistent_keepalive_interval p in
  mk_wgpeer
    (WGPEER_REPLACE_ALLOWEDIPS + WGPEER_HAS_PUBLIC_KEY + (if psk then WGPEER_HAS_PRESHARED_KEY else 0)
     + (if interval =? 0 then 0 else WGPEER_HAS_PERSISTENT_KEEPALIVE_INTERVAL))
    (wp_public_key p) (if psk then wp_preshared_key p else zero_key)
    (match getnameinfo (wp_endpoint p) with Some _ => wp_endpoint p | None => SaUnspec end)
    0 0 0 interval (loaded_allowedip <$> wp_allowedips p).

Definition loaded `{Libc} (d : wgdevice) : wgdevice :=
  let transport := has_flag (wd_flags d) WGDEVICE_HAS_TRANSPORT in
  mk_wgdevice [] 0
    (WGDEVICE_REPLACE_PEERS + WGDEVICE_HAS_PRIVATE_KEY + WGDEVICE_HAS_FWMARK + WGDEVICE_HAS_LISTEN_PORT
     + (if transport then WGDEVICE_HAS_TRANSPORT else 0))
    zero_key (if has_flag (wd_flags d) WGDEVICE_HAS_PRIVATE_KEY then wd_private_key d else zero_key)
    (wd_fwmark d) (wd_listen_port d) (if transport then wd_transport d else 0) (loaded_peer <$> wd_peers d).

(** Characters that survive the cleaning of a line. *)
Definition plain (c : Z) : Prop := char_is_space c = false ∧ c ≠ COMMENT_CHAR.

(** A numeric address has digits, letters, dots and colons. *)
Definition addr_char (c : Z) : bool := char_is_digit c || char_is_alpha c || (c =? 46) || (c =? 58).

(** The documented behaviour of the numeric conversions. *)
Class LibcPrinted `{Libc} := {
  pton_ntop4 ip : 0 <= ip < 2 ^ 32 → inet_pton4 (inet_ntop4 ip) = Some ip;
  pton_ntop6 ip : 0 <= ip < 2 ^ 128 → inet_pton6 (inet_ntop6 ip) = Some ip;
  ntop4_chars ip : 0 <= ip < 2 ^ 32 → Forall (λ c, is_char c ∧ addr_char c = true ∧ c ≠ 58) (inet_ntop4 ip) ∧ inet_ntop4 ip ≠ [];
  ntop6_chars ip : 0 <= ip < 2 ^ 128 → Forall (λ c, is_char c ∧ addr_char c = true) (inet_ntop6 ip) ∧ 58 ∈ inet_ntop6 ip;
  (** the text of an address resolves, at once, to the address *)
  getaddrinfo_getnameinfo sa host service :
    sockaddr_ok sa → getnameinfo sa = Some (host, service) →
    getaddrinfo (Some host) service 0 = Resolved sa;
  getnameinfo_chars sa host service :
    sockaddr_ok sa → getnameinfo sa = Some (host, service) →
    Forall plain host ∧ host ≠ [] ∧ (91 ∉ host) ∧ (93 ∉ host) ∧
    Forall plain service ∧ service ≠ [] ∧ (58 ∉ service);
  getaddrinfo_port port :
    0 < port < 2 ^ 16 →
    ∃ addr, getaddrinfo None (print_u port) 0 = Resolved (Sa4 port addr) ∨
            ∃ scope, getaddrinfo None (print_u port) 0 = Resolved (Sa6 port addr scope);
  getnameinfo_unspec : getnameinfo SaUnspec = None;
}.

(** ** Searching text *)
Lemma strchr_app before after c : (c ∉ before) → strchr (before ++ c :: after) c = Some (before, after).
Proof.
  induction before as [|x before IH]; intros Hn; cbn [app strchr]; [by rewrite Z.eqb_refl|].
  apply not_elem_of_cons in Hn as [Hx Hn]. rewrite (proj2 (Z.eqb_neq x c)) by congruence. by rewrite IH.
Qed.

Lemma strchr_none s c : (c ∉ s) → strchr s c = None.
Proof.
  induction s as [|x s IH]; intros Hn; cbn [strchr]; [done|].
  apply not_elem_of_cons in Hn as [Hx Hn]. rewrite (proj2 (Z.eqb_neq x c)) by congruence. by rewrite IH.
Qed.

Lemma strchr_some s c : c ∈ s → is_Some (strchr s c).
Proof.
  induction s as [|x s IH]; [by intros ?%not_elem_of_nil|]. intros Hin. cbn [strchr].
  destruct (Z.eqb_spec x c) as [|Hx]; [done|]. apply elem_of_cons in Hin as [->|Hin]; [done|].
  by destruct (IH Hin) as [[] ->].
Qed.

Lemma strrchr_app before after c : (c ∉ after) → strrchr (before ++ c :: after) c = Some (before, after).
Proof.
  intros Hn. unfold strrchr. rewrite rev_app_distr. cbn [rev]. rewrite <- app_assoc. cbn [app].
  rewrite strchr_app, !rev_involutive; [done|]. by rewrite list_elem_of_In, <- in_rev, <- list_elem_of_In.
Qed.

Lemma tokens_one c s : (c ∉ s) → tokens c s = [s].
Proof.
  induction s as [|x s IH]; intros Hn; cbn [tokens]; [done|].
  apply not_elem_of_cons in Hn as [Hx Hn]. rewrite (proj2 (Z.eqb_neq x c)) by congruence. by rewrite IH.
Qed.

Lemma tokens_app c t s : (c ∉ t) → tokens c (t ++ c :: s) = t :: tokens c s.
Proof.
  induction t as [|x t IH]; intros Hn; cbn [app tokens]; [by rewrite Z.eqb_refl|].
  apply not_elem_of_cons in Hn as [Hx Hn]. rewrite (proj2 (Z.eqb_neq x c)) by congruence. by rewrite IH.
Qed.

(** Texts with a separator between them. *)
Fixpoint joined (c : Z) (l : list text) : text :=
  match l with
  | [] => []
  | [s] => s
  | s :: l => s ++ c :: joined c l
  end.

Lemma tokens_joined c l : Forall (λ s, c ∉ s) l → l ≠ [] → tokens c (joined c l) = l.
Proof.
  induction 1 as [|s l Hs _ IH]; intros Hne; [done|]. destruct l as [|s' l]; [by apply tokens_one|].
  change (joined c (s :: s' :: l)) with (s ++ c :: joined c (s' :: l)). by rewrite tokens_app, IH.
Qed.

Lemma lines_app l s : (10 ∉ l) → lines (l ++ 10 :: s) = (l ++ [10]) :: lines s.
Proof.
  induction l as [|x l IH]; intros Hn; cbn [app lines]; [done|].
  apply not_elem_of_cons in Hn as [Hx Hn]. rewrite (proj2 (Z.eqb_neq x 10)) by congruence. by rewrite IH.
Qed.

(** ** Lines of the file *)
Ltac by_not_in H := exfalso; revert H; apply (bool_decide_unpack _); by vm_compute.

Lemma strip_plain s : Forall plain s → strip_spaces s = s.
Proof.
  unfold strip_spaces. induction 1 as [|c s [Hc _] _ IH]; [done|]. by rewrite filter_cons_True, IH.
Qed.

Lemma clean_entry key v :
  Forall plain key → (COMMENT_CHAR ∉ v) → clean_line (key ++ str " = " ++ v ++ [10]) = key ++ 61 :: strip_spaces v.
Proof.
  intros Hk Hv. unfold clean_line. rewrite strchr_none.
  - rewrite !filter_app. fold (strip_spaces key). fold (strip_spaces v). rewrite (strip_plain key) by done.
    change (filter _ [10]) with (@nil Z). by rewrite app_nil_r.
  - rewrite !elem_of_app. intros [Hin|[Hin|[Hin|Hin]]]; [|by_not_in Hin|done|by_not_in Hin].
    by destruct (proj1 (Forall_forall _ _) Hk _ Hin).
Qed.

(** Two texts that differ in a character, whatever follows. *)
Fixpoint differ (a b : text) : bool :=
  match a, b with
  | x :: a, y :: b => negb (tolower x =? tolower y) || differ a b
  | _, _ => false
  end.

Lemma differ_app a b s t : differ a b = true → strcasecmp_eq (a ++ s) (b ++ t) = false.
Proof.
  unfold strcasecmp_eq. intros Hd. apply bool_decide_eq_false. revert b Hd.
  induction a as [|x a IH]; intros [|y b] Hd; try done. cbn [differ] in Hd. cbn.
  intros [= Hxy Hab]. rewrite Hxy, Z.eqb_refl in Hd. by apply (IH b).
Qed.

Lemma differ_take a b n s : differ a b = true → (length b ≤ n)%nat → strcasecmp_eq (take n (a ++ s)) b = false.
Proof.
  intros Hd Hn. unfold strcasecmp_eq. apply bool_decide_eq_false. revert b n Hd Hn.
  induction a as [|x a IH]; intros [|y b] [|n] Hd Hn; try done; cbn in Hn; try lia. cbn [differ] in Hd. cbn.
  intros [= Hxy Hab]. rewrite Hxy, Z.eqb_refl in Hd. apply (IH b n); [done|lia|done].
Qed.

Lemma differ_longer a b t : differ a b = true → differ a (b ++ t) = true.
Proof.
  revert b. induction a as [|x a IH]; intros [|y b] Hd; try done. cbn [differ app] in *.
  apply orb_true_iff in Hd as [->|Hd]; [done|]. by rewrite IH, orb_true_r.
Qed.

Lemma strcasecmp_refl s : strcasecmp_eq s s = true.
Proof. by apply bool_decide_eq_true. Qed.

Lemma key_match_skip {A} k f (keys : list (text * (text → option A))) key v :
  differ key k = true → key_match (key ++ 61 :: v) ((k, f) :: keys) = key_match (key ++ 61 :: v) keys.
Proof.
  intros Hd. cbn [key_match]. unfold get_value. case_if; [done|].
  replace (strcasecmp_eq _ _) with false; [done|]. symmetry. unfold ztake.
  apply differ_take; [by apply differ_longer|]. unfold zlen. lia.
Qed.

Lemma key_match_hit {A} f (keys : list (text * (text → option A))) key v :
  v ≠ [] → key_match (key ++ 61 :: v) ((key, f) :: keys) = f v.
Proof.
  intros Hv. cbn [key_match]. unfold get_value.
  replace (key ++ 61 :: v) with ((key ++ [61]) ++ v) by (by rewrite <- app_assoc).
  rewrite (proj2 (Z.leb_gt _ _)) by (destruct v; [done|]; rewrite !zlen_app, zlen_cons; zlia).
  rewrite ztake_app_length, zdrop_app_length by done. by rewrite strcasecmp_refl.
Qed.

Section read.
Context `{Libc} (patience : nat).

(** Reading text from some state of the parser on. *)
Definition read (ctx : config_ctx) (s : text) : option config_ctx := read_lines patience ctx (lines s).

Lemma read_line ctx l s :
  (10 ∉ l) → read ctx (l ++ 10 :: s) = match config_read_line patience ctx (l ++ [10]) with Some c => read c s | None => None end.
Proof. intros Hl. unfold read. by rewrite lines_app. Qed.

Lemma read_blank ctx s : read ctx (10 :: s) = read ctx s.
Proof. done. Qed.

(** A line [key = v] in a section. *)
Lemma read_entry ctx key v s :
  Forall plain key → differ key (str "[Interface]") = true → differ key (str "[Peer]") = true →
  (10 ∉ v) → (COMMENT_CHAR ∉ v) → key ≠ [] →
  read ctx (key ++ str " = " ++ v ++ 10 :: s) =
    match (let line := key ++ 61 :: strip_spaces v in
           if cc_is_device_section ctx then device_line ctx line
           else if cc_is_peer_section ctx then peer_line patience ctx line else None) with
    | Some c => read c s
    | None => None
    end.
Proof.
  intros Hk Hi Hp Hn Hc Hne.
  replace (key ++ str " = " ++ v ++ 10 :: s) with ((key ++ str " = " ++ v) ++ 10 :: s) by (by rewrite <- !app_assoc).
  rewrite read_line.
  - rewrite <- !app_assoc. unfold config_read_line. rewrite clean_entry by done.
    rewrite (proj2 (Z.eqb_neq _ _)) by (destruct key; [done|]; rewrite zlen_app; zlia).
    unfold process_line. rewrite <- (app_nil_r (str "[Interface]")), <- (app_nil_r (str "[Peer]")).
    by rewrite !differ_app.
  - rewrite !elem_of_app. intros [Hin|[Hin|Hin]]; [|by_not_in Hin|done].
    by destruct (proj1 (Forall_forall _ _) Hk _ Hin).
Qed.

(** The same with a value the cleaning does not change. *)
Lemma read_plain ctx key v s :
  Forall plain key → differ key (str "[Interface]") = true → differ key (str "[Peer]") = true → key ≠ [] → Forall plain v →
  read ctx (key ++ str " = " ++ v ++ 10 :: s) =
    match (let line := key ++ 61 :: v in
           if cc_is_device_section ctx then device_line ctx line
           else if cc_is_peer_section ctx then peer_line patience ctx line else None) with
    | Some c => read c s
    | None => None
    end.
Proof.
  intros Hk Hi Hp Hne Hv. rewrite read_entry, strip_plain; try done.
  all: intros Hin; by destruct (proj1 (Forall_forall _ _) Hv _ Hin).
Qed.
End read.

(** ** The characters that are printed *)
Lemma plain_char c : 33 <= c < 127 → c ≠ COMMENT_CHAR → plain c.
Proof. intros Hc Hn. split; [|done]. rewrite char_is_space_spec by lia. lia. Qed.

Lemma print_number_plain fuel base n : 2 <= base <= 16 → 0 <= n → Forall plain (print_number fuel base n).
Proof.
  intros Hb Hn. eapply Forall_impl; [by apply print_number_digits|]. intros c (d&Hd&->).
  destruct (digit_char_spec d) as (_&_&Hc); [lia|]. apply plain_char; unfold COMMENT_CHAR; lia.
Qed.

Lemma encode_char_plain d : 0 <= d < 64 → 43 <= encode_char d < 127.
Proof. apply (all_in_range (λ d, 43 <= encode_char d < 127) 0 64). by vm_compute. Qed.

Lemma base64_chars key : Forall (λ c, 43 <= c < 127) (key_to_base64 key).
Proof.
  assert (He : ∀ x, 43 <= encode_char (Z.land x 63) < 127).
  { intros x. apply encode_char_plain. change 63 with (Z.ones 6). rewrite Z.land_ones by lia. apply Z.mod_pos_bound. lia. }
  unfold key_to_base64. induction key as [key IH] using (induction_ltof1 _ length).
  destruct key as [|s0 [|s1 [|s2 key]]]; [constructor|constructor| |].
  - repeat (constructor; [first [apply He|lia]|]). constructor.
  - cbn [base64_groups]. apply Forall_app. split; [repeat (constructor; [apply He|]); constructor|].
    apply IH. unfold ltof. cbn. lia.
Qed.

Lemma base64_plain key : Forall plain (key_to_base64 key).
Proof. eapply Forall_impl; [apply base64_chars|]. intros c Hc. cbn in Hc. apply plain_char; unfold COMMENT_CHAR; lia. Qed.

Lemma base64_read key : key_ok key → parse_key (key_to_base64 key) = Some key ∧ key_to_base64 key ≠ [].
Proof.
  intros [Hl Hb]. assert (Hp : parse_key (key_to_base64 key) = Some key).
  { apply base64_exact; [|done]. eapply Forall_impl; [apply base64_chars|]. intros c Hc. unfold is_char. cbn in Hc. lia. }
  split; [done|]. intros He. by rewrite He in Hp.
Qed.

(** ** Reading what was printed *)
Section roundtrip.
Context `{LibcPrinted} (patience : nat).

Abbreviation device_ctx d := (mk_config_ctx d false true).
Abbreviation peer_ctx d := (mk_config_ctx d true false).

(** Read the entry [key = v] that the goal starts with. *)
Ltac read_entry full key :=
  change full with (key ++ str " = "); rewrite <- !app_assoc; cbn [app];
  rewrite read_plain; [|by repeat constructor|done..| ];
  [cbv zeta; cbn [cc_is_device_section cc_is_peer_section]; unfold device_line, peer_line;
   rewrite ?key_match_skip by done; rewrite key_match_hit|].

Lemma read_listen_port d port s :
  0 <= port < 2 ^ 16 →
  read patience (device_ctx d) ((if port =? 0 then [] else str "ListenPort = " ++ print_u port ++ [10]) ++ s) =
  read patience (device_ctx (if port =? 0 then d
    else d{{ wd_listen_port := port; wd_flags ::= set_flag WGDEVICE_HAS_LISTEN_PORT }})) s.
Proof.
  intros Hp. destruct (Z.eqb_spec port 0); [done|]. read_entry (str "ListenPort = ") (str "ListenPort").
  - unfold on_device, parse_port. cbn [cc_device]. rewrite (proj2 (Z.eqb_neq _ _)).
    + by destruct (getaddrinfo_port port) as [addr [->|[scope ->]]]; [lia|..].
    + destruct (print_u port) eqn:He; [by apply print_number_nonempty in He|zlia].
  - apply print_number_nonempty.
  - apply print_number_plain; lia.
Qed.

Lemma print_u_digit n : 0 <= n → char_is_digit (first_char (print_u n)) = true ∧ differ (print_u n) (str "off") = true.
Proof.
  intros Hn. unfold print_u. destruct (print_number_head 19 10 n) as (d&ds&Hd&->); [lia|done|]. cbn -[char_is_digit digit_char tolower].
  revert d Hd. apply (all_in_range (λ d, char_is_digit (digit_char d) = true ∧
    negb (tolower (digit_char d) =? tolower 111) || differ ds (str "ff") = true) 0 10). by vm_compute.
Qed.

Lemma read_fwmark d mark s :
  0 <= mark < 2 ^ 32 →
  read patience (device_ctx d) ((if mark =? 0 then [] else str "FwMark = " ++ (str "0x" ++ print_x mark) ++ [10]) ++ s) =
  read patience (device_ctx (if mark =? 0 then d
    else d{{ wd_fwmark := mark; wd_flags ::= set_flag WGDEVICE_HAS_FWMARK }})) s.
Proof.
  intros Hm. destruct (Z.eqb_spec mark 0); [done|].
  change (str "0x" ++ print_x mark) with (48 :: 120 :: print_x mark). remember (48 :: 120 :: print_x mark) as v eqn:Hv.
  read_entry (str "FwMark = ") (str "FwMark"); subst v.
  - unfold on_device, parse_fwmark. cbn [cc_device].
    change (48 :: 120 :: print_x mark) with ([48] ++ 120 :: print_x mark) at 1.
    rewrite <- (app_nil_r (str "off")), (differ_app [48] (str "off")) by done.
    change (char_is_digit (first_char (48 :: 120 :: print_x mark))) with true. cbn [negb nth Z.eqb Pos.eqb].
    rewrite (proj2 (Z.ltb_lt _ _)).
    + cbn [andb]. rewrite strtoul_x by lia. change (zlen (@nil Z)) with 0. cbn [Z.eqb negb orb].
      by rewrite (proj2 (Z.ltb_ge _ _)) by (unfold UINT32_MAX; lia).
    + rewrite !zlen_cons. destruct (print_x mark) eqn:He; [by apply print_number_nonempty in He|zlia].
  - done.
  - repeat (constructor; [by apply plain_char|]). apply print_number_plain; lia.
Qed.

Lemma read_private_key d (b : bool) key s :
  key_ok key →
  read patience (device_ctx d) ((if b then str "PrivateKey = " ++ key_to_base64 key ++ [10] else []) ++ s) =
  read patience (device_ctx (if b then d{{ wd_private_key := key; wd_flags ::= set_flag WGDEVICE_HAS_PRIVATE_KEY }} else d)) s.
Proof.
  intros Hk. destruct b; [|done]. destruct (base64_read key Hk) as [Hp Hn]. read_entry (str "PrivateKey = ") (str "PrivateKey").
  - unfold on_device, set_private_key. cbn [cc_device]. by rewrite Hp.
  - done.
  - apply base64_plain.
Qed.

Lemma read_transport d (b : bool) t s :
  t = WG_TRANSPORT_UDP ∨ t = WG_TRANSPORT_TCP →
  read patience (device_ctx d) ((if b then str "Transport = " ++ (if t =? WG_TRANSPORT_TCP then str "tcp" else str "udp") ++ [10] else []) ++ s) =
  read patience (device_ctx (if b then d{{ wd_transport := t; wd_flags ::= set_flag WGDEVICE_HAS_TRANSPORT }} else d)) s.
Proof.
  intros Ht. destruct b; [|done]. destruct Ht as [->| ->]; cbn [Z.eqb WG_TRANSPORT_TCP WG_TRANSPORT_UDP].
  - read_entry (str "Transport = ") (str "Transport"); [done..|repeat (constructor; [by apply plain_char|]); constructor].
  - read_entry (str "Transport = ") (str "Transport"); [done..|repeat (constructor; [by apply plain_char|]); constructor].
Qed.

(** *** Peers *)
Abbreviation at_peer d l p := (peer_ctx d{{ wd_peers := l ++ [p] }}).

Lemma on_peer_last f (d : wgdevice) l p :
  on_peer f (at_peer d l p) = match f p with Some p => Some (at_peer d l p) | None => None end.
Proof. unfold on_peer. cbn. rewrite on_last_peer_snoc. by destruct (f p). Qed.

Lemma read_public_key d l p key s :
  key_ok key →
  read patience (at_peer d l p) (str "PublicKey = " ++ key_to_base64 key ++ [10] ++ s) =
  read patience (at_peer d l p{{ wp_public_key := key; wp_flags ::= set_flag WGPEER_HAS_PUBLIC_KEY }}) s.
Proof.
  intros Hk. destruct (base64_read key Hk) as [Hp Hn]. read_entry (str "PublicKey = ") (str "PublicKey").
  - rewrite on_peer_last. unfold set_public_key. by rewrite Hp.
  - done.
  - apply base64_plain.
Qed.

Lemma read_preshared_key d l p (b : bool) key s :
  key_ok key →
  read patience (at_peer d l p) ((if b then str "PresharedKey = " ++ key_to_base64 key ++ [10] else []) ++ s) =
  read patience (at_peer d l (if b then p{{ wp_preshared_key := key; wp_flags ::= set_flag WGPEER_HAS_PRESHARED_KEY }} else p)) s.
Proof.
  intros Hk. destruct b; [|done]. destruct (base64_read key Hk) as [Hp Hn]. read_entry (str "PresharedKey = ") (str "PresharedKey").
  - rewrite on_peer_last. unfold set_preshared_key. by rewrite Hp.
  - done.
  - apply base64_plain.
Qed.

Lemma read_keepalive d l p n s :
  0 <= n < 2 ^ 16 →
  read patience (at_peer d l p) ((if n =? 0 then [] else str "PersistentKeepalive = " ++ print_u n ++ [10]) ++ s) =
  read patience (at_peer d l (if n =? 0 then p
    else p{{ wp_persistent_keepalive_interval := n; wp_flags ::= set_flag WGPEER_HAS_PERSISTENT_KEEPALIVE_INTERVAL }})) s.
Proof.
  intros Hn. destruct (Z.eqb_spec n 0); [done|]. read_entry (str "PersistentKeepalive = ") (str "PersistentKeepalive").
  - rewrite on_peer_last. unfold parse_persistent_keepalive. destruct (print_u_digit n ltac:(lia)) as [-> Hd].
    rewrite <- (app_nil_r (print_u n)) at 1. rewrite <- (app_nil_r (str "off")), differ_app by done. cbn [negb].
    rewrite strtoul_u by lia. change (zlen (@nil Z)) with 0. cbn [Z.eqb negb orb].
    rewrite (proj2 (Z.ltb_ge _ _)) by lia. unfold u16, wrap. by rewrite Z.mod_small by lia.
  - apply print_number_nonempty.
  - apply print_number_plain; lia.
Qed.

Lemma split_bracketed host service :
  (93 ∉ host) → service ≠ [] → split_endpoint ([91] ++ host ++ [93; 58] ++ service) = Some (host, service).
Proof.
  intros Hh Hs. change ([91] ++ host ++ [93; 58] ++ service) with ((91 :: host) ++ 93 :: 58 :: service).
  unfold split_endpoint. rewrite strchr_app by (by apply not_elem_of_cons). cbn [app Z.eqb Pos.eqb first_char nth negb orb].
  rewrite (proj2 (Z.leb_gt _ _)); [done|]. destruct service; [done|]. rewrite !zlen_cons. zlia.
Qed.

Lemma split_plain host service :
  host ≠ [] → (91 ∉ host) → service ≠ [] → (58 ∉ service) → split_endpoint (host ++ [58] ++ service) = Some (host, service).
Proof.
  intros Hne Hb Hs Hc. unfold split_endpoint. cbn [app]. rewrite strrchr_app by done. destruct host as [|c host]; [done|].
  apply not_elem_of_cons in Hb as [Hb _]. cbn [app]. rewrite (proj2 (Z.eqb_neq c 91)) by congruence.
  destruct service; [done|]. by rewrite (proj2 (Z.eqb_neq _ _)) by (rewrite zlen_cons; zlia).
Qed.

(** The number of questions may not be limited badly, nor may the user be in a hurry. *)
Context (Hretries : is_Some parse_dns_retries) (Hpatience : (0 < patience)%nat).

Lemma parse_endpoint_read p e host service v :
  sockaddr_ok e → getnameinfo e = Some (host, service) → split_endpoint v = Some (host, service) →
  parse_endpoint patience p v = Some p{{ wp_endpoint := e }}.
Proof.
  intros He Hn Hv. unfold parse_endpoint. destruct Hretries as [retries ->]. rewrite Hv.
  assert (∃ n, questions patience retries = S n) as [n ->].
  { unfold questions. case_if; [eauto|]. destruct patience; [lia|eauto]. }
  cbn [resolve]. rewrite (getaddrinfo_getnameinfo e host service) by done.
  destruct e; [|done..]. by rewrite getnameinfo_unspec in Hn.
Qed.

Lemma read_endpoint_value d l p e host service v s :
  sockaddr_ok e → getnameinfo e = Some (host, service) → split_endpoint v = Some (host, service) → Forall plain v → v ≠ [] →
  read patience (at_peer d l p) ((str "Endpoint = " ++ v ++ [10]) ++ s) = read patience (at_peer d l p{{ wp_endpoint := e }}) s.
Proof.
  intros He Hn Hv Hpl Hne. read_entry (str "Endpoint = ") (str "Endpoint"); [|done..].
  rewrite on_peer_last. by rewrite (parse_endpoint_read p e host service v).
Qed.

Lemma read_endpoint d l p e s :
  sockaddr_ok e →
  read patience (at_peer d l p) (show_endpoint e ++ s) =
  read patience (at_peer d l (match getnameinfo e with Some _ => p{{ wp_endpoint := e }} | None => p end)) s.
Proof.
  intros He. unfold show_endpoint. destruct (getnameinfo e) as [[host service]|] eqn:Hn; [|by case_if].
  destruct (getnameinfo_chars _ _ _ He Hn) as (Hh&Hne&H91&H93&Hs&Hsn&H58).
  replace (_ || _) with true by (by destruct e; [rewrite getnameinfo_unspec in Hn|..]).
  case_if; apply (read_endpoint_value _ _ _ e host service); try done.
  - by apply split_bracketed.
  - repeat first [apply Forall_app; split|constructor; [by apply plain_char|]|done|constructor].
  - by apply split_plain.
  - repeat first [apply Forall_app; split|constructor; [by apply plain_char|]|done|constructor].
  - by destruct host.
Qed.

(** The text of one address. *)
Lemma addr_char_plain c : is_char c → addr_char c = true → plain c ∧ c ≠ 44 ∧ c ≠ 47 ∧ c ≠ 45 ∧ c ≠ 43.
Proof.
  intros Hc. unfold addr_char. rewrite char_is_digit_spec, char_is_alpha_spec by done. intros Ha.
  split; [apply plain_char; unfold COMMENT_CHAR|]; lia.
Qed.

Lemma print_u_chars n : 0 <= n → Forall (λ c, plain c ∧ c ≠ 44) (print_u n).
Proof.
  intros Hn. eapply Forall_impl; [by apply (print_number_digits 20 10)|]. intros c (d&Hd&->).
  destruct (digit_char_spec d) as (_&_&Hc); [lia|]. split; [apply plain_char; unfold COMMENT_CHAR|]; lia.
Qed.

Lemma Forall_not_in (c : Z) (P : Z → Prop) s : Forall P s → ~ P c → (c ∉ s).
Proof. intros Hs Hc Hin. by apply Hc, (proj1 (Forall_forall _ _) Hs). Qed.

Lemma entry_ok t family ip cidr :
  Forall (λ c, is_char c ∧ addr_char c = true) t → t ≠ [] → parse_ip t = Some (family, ip) →
  0 <= cidr <= 32 ∧ family = AF_INET ∨ 0 <= cidr <= 128 ∧ family = AF_INET6 →
  let s := t ++ [47] ++ print_u cidr in
  Forall plain s ∧ (44 ∉ s) ∧ s ≠ [] ∧
  ∀ p, parse_allowedip p s = Some p{{ wp_allowedips ::= (λ l, l ++ [mk_wgallowedip family ip cidr 0]) }}.
Proof.
  intros Ht Hne Hip Hcidr s. assert (Hc : Forall (λ c, plain c ∧ c ≠ 44 ∧ c ≠ 47 ∧ c ≠ 45 ∧ c ≠ 43) t).
  { eapply Forall_impl; [done|]. intros c [? ?]. by apply addr_char_plain. }
  pose proof (print_u_chars cidr ltac:(lia)) as Hu.
  assert (Hs : Forall (λ c, plain c ∧ c ≠ 44) s).
  { subst s. rewrite !Forall_app. split_and!; [eapply Forall_impl; [exact Hc|naive_solver]| |done].
    constructor; [split; [by apply plain_char|done]|constructor]. }
  split_and!; [eapply Forall_impl; [exact Hs|naive_solver]|eapply Forall_not_in; [exact Hs|naive_solver]|by destruct t|].
  intros p. unfold parse_allowedip, parse_ip_prefix. destruct t as [|c t]; [done|].
  inversion Hc as [|? ? (_&_&_&H45&H43)]; subst. change (first_char s) with c.
  rewrite (proj2 (Z.eqb_neq c 45)), (proj2 (Z.eqb_neq c 43)) by done. cbv beta iota.
  subst s. change ([47] ++ print_u cidr) with (47 :: print_u cidr).
  rewrite (strchr_app (c :: t)) by (eapply Forall_not_in; [exact Hc|naive_solver]).
  rewrite Hip. unfold parse_cidr. destruct (print_u_digit cidr ltac:(lia)) as [-> _]. rewrite strtoul_u by lia.
  change (zlen (@nil Z)) with 0. cbn [negb Z.eqb orb].
  replace (_ || _) with false by (destruct Hcidr as [[? ->]|[? ->]]; cbn; lia). unfold u8, wrap. rewrite Z.mod_small by lia.
  unfold set. by destruct p.
Qed.

Lemma show_allowedip_ok a :
  allowedip_ok a → ∃ s, show_allowedip a = Some s ∧ Forall plain s ∧ (44 ∉ s) ∧ s ≠ [] ∧
    ∀ p, parse_allowedip p s = Some p{{ wp_allowedips ::= (λ l, l ++ [loaded_allowedip a]) }}.
Proof.
  intros [[(Hf&Hip&Hc)|(Hf&Hip&Hc)] _]; unfold show_allowedip, loaded_allowedip; rewrite Hf; (eexists; split; [done|]); apply entry_ok; auto.
  - destruct (ntop4_chars (wa_ip a) Hip) as [Hch _]. eapply Forall_impl; [exact Hch|naive_solver].
  - by apply ntop4_chars.
  - unfold parse_ip. destruct (ntop4_chars (wa_ip a) Hip) as [Hch _].
    rewrite strchr_none by (eapply Forall_not_in; [exact Hch|naive_solver]). by rewrite pton_ntop4.
  - by apply ntop6_chars.
  - destruct (ntop6_chars (wa_ip a) Hip) as [_ Hin]. by intros He; rewrite He in Hin; apply not_elem_of_nil in Hin.
  - unfold parse_ip. destruct (ntop6_chars (wa_ip a) Hip) as [_ Hin]. destruct (strchr_some _ _ Hin) as [[? ?] ->].
    by rewrite pton_ntop6.
Qed.

Lemma show_allowedips_ok l :
  Forall allowedip_ok l → l ≠ [] → ∃ ss, ss ≠ [] ∧ Forall (λ s, s ≠ [] ∧ (44 ∉ s)) ss ∧
    strip_spaces (show_allowedips l) = joined 44 ss ∧ Forall (λ c, c = 32 ∨ plain c) (show_allowedips l) ∧
    ∀ p, parse_entries p ss = Some p{{ wp_allowedips ::= (λ l0, l0 ++ (loaded_allowedip <$> l)) }}.
Proof.
  induction 1 as [|a l Ha _ IH]; intros Hne; [done|]. destruct (show_allowedip_ok a Ha) as (s&Hs&Hp&Hc&Hn&Hr).
  assert (Hp' : Forall (λ c, c = 32 ∨ plain c) s) by (eapply Forall_impl; [done|auto]).
  cbn [show_allowedips]. rewrite Hs. destruct l as [|a' l].
  - exists [s]. cbn [show_allowedips]. rewrite bool_decide_eq_true_2, !app_nil_r, strip_plain by done.
    split_and!; [done|repeat constructor; done|done|done|]. intros p. cbn [parse_entries]. by rewrite Hr.
  - destruct IH as (ss&Hss&Hcs&Hst&Hch&Hrs); [done|]. exists (s :: ss). rewrite bool_decide_eq_false_2 by done.
    split_and!; [done|by constructor| | |].
    + unfold strip_spaces in *. rewrite !filter_app, Hst. fold (strip_spaces s). rewrite strip_plain by done.
      change (filter _ (str ", ")) with [44]. rewrite <- app_assoc. by destruct ss.
    + rewrite !Forall_app. split_and!; [done| |done]. constructor; [right; by apply plain_char|]. constructor; [by left|constructor].
    + intros p. cbn [parse_entries]. rewrite Hr, Hrs. unfold set. cbn. by rewrite <- app_assoc.
Qed.

Lemma read_allowedips d l p ips s :
  Forall allowedip_ok ips → wp_allowedips p = [] → set_flag WGPEER_REPLACE_ALLOWEDIPS (wp_flags p) = wp_flags p →
  read patience (at_peer d l p) ((if bool_decide (ips = []) then [] else str "AllowedIPs = " ++ show_allowedips ips ++ [10]) ++ s) =
  read patience (at_peer d l p{{ wp_allowedips := loaded_allowedip <$> ips }}) s.
Proof.
  intros Hips Hp Hf. destruct (decide (ips = [])) as [->|Hne].
  { rewrite bool_decide_eq_true_2 by done. cbn. rewrite <- Hp. by destruct p. }
  rewrite bool_decide_eq_false_2 by done. destruct (show_allowedips_ok ips) as (ss&Hss&Hcs&Hst&Hch&Hr); [done|done|].
  change (str "AllowedIPs = ") with (str "AllowedIPs" ++ str " = "). rewrite <- !app_assoc. cbn [app].
  rewrite read_entry; [|by repeat constructor|done..| | |done].
  - cbv zeta. cbn [cc_is_device_section cc_is_peer_section]. rewrite Hst. unfold peer_line. rewrite !key_match_skip by done.
    assert (joined 44 ss ≠ []) as Hen.
    { destruct Hcs as [|? [|? ss] [] ]; try done. cbn. by destruct x. }
    rewrite key_match_hit by done. rewrite on_peer_last. unfold parse_allowedips.
    rewrite (proj2 (Z.eqb_neq _ _)) by (destruct (joined 44 ss); [done|zlia]).
    rewrite tokens_joined; [|eapply Forall_impl; [done|naive_solver]|done]. rewrite Hr. unfold set. cbn. by rewrite Hp, Hf.
  - intros Hin. destruct (proj1 (Forall_forall _ _) Hch _ Hin) as [|[]]; done.
  - intros Hin. destruct (proj1 (Forall_forall _ _) Hch _ Hin) as [|[]]; done.
Qed.

Lemma read_peer_header d l a b s :
  read patience (mk_config_ctx d{{ wd_peers := l }} a b) (str "[Peer]" ++ [10] ++ s) =
  read patience (at_peer d l new_wgpeer{{ wp_flags := WGPEER_REPLACE_ALLOWEDIPS }}) s.
Proof. done. Qed.

Lemma read_peer d l a b p s :
  peer_ok p →
  read patience (mk_config_ctx d{{ wd_peers := l }} a b) (show_peer p ++ s) = read patience (at_peer d l (loaded_peer p)) s.
Proof.
  intros [Hf Hpk Hsk He Hi Ha]. unfold show_peer. rewrite <- !app_assoc, read_peer_header, read_public_key by done.
  rewrite read_preshared_key by done. rewrite read_allowedips; [|done|by case_if..].
  rewrite read_endpoint, read_keepalive by done. unfold loaded_peer.
  by destruct (has_flag (wp_flags p) WGPEER_HAS_PRESHARED_KEY), (getnameinfo (wp_endpoint p)),
    (Z.eqb_spec (wp_persistent_keepalive_interval p) 0) as [->|].
Qed.

Lemma read_peers d l a b peers :
  Forall peer_ok peers → ∃ a' b',
  read patience (mk_config_ctx d{{ wd_peers := l }} a b) (show_peers peers) =
    Some (mk_config_ctx d{{ wd_peers := l ++ (loaded_peer <$> peers) }} a' b').
Proof.
  intros Hp. revert l a b. induction Hp as [|p peers Hp _ IH]; intros l a b; cbn [show_peers].
  { exists a, b. cbn. by rewrite app_nil_r. }
  destruct (IH (l ++ [loaded_peer p]) true false) as (a'&b'&Hr). exists a', b'.
  rewrite read_peer by done. cbn [fmap list_fmap]. rewrite <- (app_assoc l [_]) in Hr. cbn [app] in Hr. rewrite <- Hr.
  case_if; [done|]. cbn [app]. by rewrite read_blank.
Qed.

Lemma read_interface_header s :
  read patience (config_read_init false) (str "[Interface]" ++ [10] ++ s) =
  read patience (device_ctx (cc_device (config_read_init false))) s.
Proof. done. Qed.

Lemma peers_nil (d : wgdevice) : wd_peers d = [] → d = d{{ wd_peers := [] }}.
Proof. destruct d. cbn. by intros ->. Qed.

Lemma loaded_keyed peers : forallb (λ p, has_flag (wp_flags p) WGPEER_HAS_PUBLIC_KEY) (loaded_peer <$> peers) = true.
Proof.
  apply forallb_forall. intros p (q&->&_)%list_elem_of_In%list_elem_of_fmap. cbn. by repeat case_if.
Qed.

(** C16: A printed configuration is read back.  For every device whose fields fit
    their types, [setconf] accepts the text that [showconf] prints, and gets a
    device with the same port, mark, transport and private key, and for every peer
    the same keys, keepalive interval, allowed addresses in the same order, and the
    same endpoint, marked to replace the present configuration. *)
Theorem showconf_setconf dev :
  device_ok dev → config_read patience false (showconf dev) = Some (loaded dev).
Proof.
  intros [Hf Hk Hm Hp Ht Hps]. unfold config_read.
  change (read_lines patience (config_read_init false) (lines (showconf dev))) with (read patience (config_read_init false) (showconf dev)).
  unfold showconf. rewrite read_interface_header, read_listen_port, read_fwmark, read_private_key, read_transport by done.
  cbn [app]. rewrite read_blank. match goal with |- context [device_ctx ?d0] => rewrite (peers_nil d0) by (by repeat case_if) end.
  match goal with |- context [device_ctx ?d0{{ wd_peers := [] }}] => destruct (read_peers d0 [] false true (wd_peers dev) Hps) as (a&b&->) end.
  unfold config_read_finish. cbn [cc_device]. cbn [app]. change (wd_peers ?d{{ wd_peers := ?l }}) with l. rewrite loaded_keyed.
  f_equal. unfold loaded.
  by destruct (Z.eqb_spec (wd_listen_port dev) 0) as [->|], (Z.eqb_spec (wd_fwmark dev) 0) as [->|],
    (has_flag (wd_flags dev) WGDEVICE_HAS_PRIVATE_KEY), (has_flag (wd_flags dev) WGDEVICE_HAS_TRANSPORT).
Qed.
End roundtrip.
