(* ===== verification/NumericLibc.v ===== *)
(** * A C library with numeric names only

    The parameters of the configuration reader and printer, instantiated: addresses
    are dotted decimal numbers or hexadecimal groups, ports are decimal numbers, and
    there are no other names, no files and no environment.  It satisfies the laws
    that Config.v and ShowConf.v ask of the C library, and the examples run on it. *)
From stdpp Require Import prelude list.
From Stdlib Require Import ZArith Lia.
From Stdlib Require String.
Import String.StringSyntax.
From S2P Require Import Prelude Net Encoding Text Config ShowConf.

#[local] Open Scope Z_scope.

(** ** Numbers in groups of [w] bits *)
Fixpoint groups (w : Z) (n : nat) (ip : Z) : list Z :=
  match n with
  | O => []
  | S n => groups w n (ip / 2 ^ w) ++ [ip mod 2 ^ w]
  end.

Definition ungroup (w : Z) (gs : list Z) : Z := foldl (λ acc g, acc * 2 ^ w + g) 0 gs.

Lemma ungroup_snoc w gs g : ungroup w (gs ++ [g]) = ungroup w gs * 2 ^ w + g.
Proof. unfold ungroup. by rewrite foldl_app. Qed.

Lemma ungroup_groups w n ip : 0 < w → 0 <= ip < 2 ^ (w * Z.of_nat n) → ungroup w (groups w n ip) = ip.
Proof.
  intros Hw. revert ip. induction n as [|n IH]; intros ip Hip.
  - rewrite Z.mul_0_r in Hip. cbn in *. lia.
  - cbn [groups]. rewrite ungroup_snoc. rewrite Nat2Z.inj_succ, Z.mul_succ_r, Z.pow_add_r in Hip by lia.
    pose proof (Z.pow_pos_nonneg 2 w ltac:(lia) ltac:(lia)). rewrite IH.
    + pose proof (Z.div_mod ip (2 ^ w)). lia.
    + split; [apply Z.div_pos; lia|apply Z.div_lt_upper_bound; lia].
Qed.

Lemma groups_range w n ip : 0 < w → Forall (λ g, 0 <= g < 2 ^ w) (groups w n ip) ∧ length (groups w n ip) = n.
Proof.
  intros Hw. revert ip. induction n as [|n IH]; intros ip; cbn [groups]; [by split|].
  destruct (IH (ip / 2 ^ w)) as [Hr Hl]. split.
  - apply Forall_app. split; [done|]. constructor; [apply Z.mod_pos_bound, Z.pow_pos_nonneg; lia|constructor].
  - rewrite length_app, Hl. cbn. lia.
Qed.

Lemma ungroup_range w gs : 0 < w → Forall (λ g, 0 <= g < 2 ^ w) gs → 0 <= ungroup w gs < 2 ^ (w * zlen gs).
Proof.
  intros Hw. induction gs as [|g gs IH] using rev_ind; intros Hgs; [by cbn; rewrite Z.mul_0_r|].
  apply Forall_app in Hgs as [Hgs [Hg _]%Forall_cons]. specialize (IH Hgs). rewrite ungroup_snoc, zlen_app.
  change (zlen [g]) with 1. rewrite Z.mul_add_distr_l, Z.mul_1_r, Z.pow_add_r by zlia. nia.
Qed.

(** ** Their text *)
Definition read_group (w base : Z) (prefix t : text) : option Z :=
  let '(n, rest) := strtoul (prefix ++ t) base in
  if (zlen rest =? 0) && (n <? 2 ^ w) then Some n else None.

Definition pton (w base : Z) (prefix : text) (count : nat) (sep : Z) (t : text) : option Z :=
  match mapM (read_group w base prefix) (tokens sep t) with
  | Some gs => if bool_decide (length gs = count) then Some (ungroup w gs) else None
  | None => None
  end.

Definition ntop (w : Z) (show : Z → text) (count : nat) (sep ip : Z) : text := joined sep (show <$> groups w count ip).

Definition numeric_pton4 (t : text) : option Z := pton 8 10 [] 4 46 t.
Definition numeric_pton6 (t : text) : option Z := pton 16 16 [48; 120] 8 58 t.
Definition numeric_ntop4 (ip : Z) : text := ntop 8 print_u 4 46 ip.
Definition numeric_ntop6 (ip : Z) : text := ntop 16 print_x 8 58 ip.

(** ** The resolver *)
Definition numeric_port (service : text) : option Z := read_group 16 10 [] service.

Definition numeric_getaddrinfo (host : option text) (service : text) (attempt : nat) : gai :=
  match numeric_port service with
  | None => Failed EAI_NONAME
  | Some port =>
      match host with
      | None => Resolved (Sa4 port 0)
      | Some host =>
          match numeric_pton4 host with
          | Some ip => Resolved (Sa4 port ip)
          | None =>
              match numeric_pton6 host with Some ip => Resolved (Sa6 port ip 0) | None => Failed EAI_NONAME end
          end
      end
  end.

(** An address that needs an interface has no numeric form here. *)
Definition numeric_getnameinfo (sa : sockaddr) : option (text * text) :=
  match sa with
  | SaUnspec => None
  | Sa4 port addr => Some (numeric_ntop4 addr, print_u port)
  | Sa6 port addr scope => if scope =? 0 then Some (numeric_ntop6 addr, print_u port) else None
  end.

#[export] Instance numeric_libc : Libc := {|
  getaddrinfo := numeric_getaddrinfo;
  getnameinfo := numeric_getnameinfo;
  inet_pton4 := numeric_pton4;
  inet_pton6 := numeric_pton6;
  inet_ntop4 := numeric_ntop4;
  inet_ntop6 := numeric_ntop6;
  getenv_retries := None;
  open_file _ := Missing;
|}.

(** ** Laws *)
Lemma read_group_range w base prefix t n : 0 <= base → read_group w base prefix t = Some n → 0 <= n < 2 ^ w.
Proof.
  intros Hb. unfold read_group. pose proof (strtoul_nonneg (prefix ++ t) base Hb). destruct (strtoul _ _) as [m rest].
  cbn [fst] in *. case_if; [|done]. intros [= <-]. simpl_guards. lia.
Qed.

Lemma pton_range w base prefix count sep t ip :
  0 < w → 0 <= base → pton w base prefix count sep t = Some ip → 0 <= ip < 2 ^ (w * Z.of_nat count).
Proof.
  intros Hw Hb. unfold pton. destruct (mapM _ _) as [gs|] eqn:Hm; [|done]. case_bool_decide as Hl; [|done]. intros [= <-].
  rewrite <- Hl. apply ungroup_range; [done|]. eapply Forall2_Forall_r; [by apply mapM_Some_1|].
  apply Forall_true. intros t' n. by apply read_group_range.
Qed.

Lemma pton_ntop w base prefix show count sep ip :
  0 < w → 0 <= ip < 2 ^ (w * Z.of_nat count) → (0 < count)%nat →
  (∀ g, 0 <= g < 2 ^ w → read_group w base prefix (show g) = Some g ∧ (sep ∉ show g)) →
  pton w base prefix count sep (ntop w show count sep ip) = Some ip.
Proof.
  intros Hw Hip Hc Hg. destruct (groups_range w count ip Hw) as [Hr Hl]. unfold pton, ntop. rewrite tokens_joined.
  - rewrite mapM_fmap_Forall_Some by (eapply Forall_impl; [done|]; intros g ?; by apply Hg).
    by rewrite bool_decide_eq_true_2, ungroup_groups.
  - apply Forall_fmap. eapply Forall_impl; [done|]. intros g ?. by apply Hg.
  - destruct (groups w count ip); [cbn in Hl; lia|done].
Qed.

Lemma read_u w g : 0 <= w <= 64 → 0 <= g < 2 ^ w → read_group w 10 [] (print_u g) = Some g.
Proof.
  intros Hw Hg. assert (2 ^ w <= 2 ^ 64) by (apply Z.pow_le_mono_r; lia). unfold read_group. cbn [app].
  rewrite strtoul_u by lia. change (zlen (@nil Z)) with 0. by rewrite (proj2 (Z.ltb_lt _ _)) by lia.
Qed.

Lemma read_x w g : 0 <= w <= 64 → 0 <= g < 2 ^ w → read_group w 16 [48; 120] (print_x g) = Some g.
Proof.
  intros Hw Hg. assert (2 ^ w <= 2 ^ 64) by (apply Z.pow_le_mono_r; lia). unfold read_group. cbn [app].
  rewrite strtoul_x by lia. change (zlen (@nil Z)) with 0. by rewrite (proj2 (Z.ltb_lt _ _)) by lia.
Qed.

(** Digits are decimal digits or the first letters. *)
Definition hex_text (c : Z) : Prop := 48 <= c <= 57 ∨ 97 <= c <= 102.

Lemma print_hex_text fuel base n : 2 <= base <= 16 → 0 <= n → Forall hex_text (print_number fuel base n).
Proof.
  intros Hb Hn. eapply Forall_impl; [by apply print_number_digits|]. intros c (d&Hd&->).
  by apply digit_char_spec; lia.
Qed.

Lemma joined_Forall (P : Z → Prop) c l : P c → Forall (Forall P) l → Forall P (joined c l).
Proof.
  intros Hc. induction 1 as [|s l Hs Hl IH]; [constructor|]. destruct l as [|s' l]; [done|].
  change (joined c (s :: s' :: l)) with (s ++ c :: joined c (s' :: l)). apply Forall_app. auto.
Qed.

Lemma joined_sep c s s' l : c ∈ joined c (s :: s' :: l).
Proof. cbn. apply elem_of_app. right. by left. Qed.

Lemma ntop_chars w show count sep ip :
  0 < w → (∀ g, 0 <= g < 2 ^ w → Forall hex_text (show g)) → Forall (λ c, hex_text c ∨ c = sep) (ntop w show count sep ip).
Proof.
  intros Hw Hs. apply joined_Forall; [by right|]. apply Forall_fmap. eapply Forall_impl; [by apply groups_range|].
  intros g Hg. eapply Forall_impl; [by apply Hs|]. auto.
Qed.

Lemma ntop4_text ip : Forall (λ c, hex_text c ∨ c = 46) (numeric_ntop4 ip) ∧ 46 ∈ numeric_ntop4 ip.
Proof.
  split; [apply ntop_chars; [done|]; intros; apply print_hex_text; lia|]. unfold numeric_ntop4, ntop. apply joined_sep.
Qed.

Lemma ntop6_text ip : Forall (λ c, hex_text c ∨ c = 58) (numeric_ntop6 ip) ∧ 58 ∈ numeric_ntop6 ip.
Proof.
  split; [apply ntop_chars; [done|]; intros; apply print_hex_text; lia|]. unfold numeric_ntop6, ntop. apply joined_sep.
Qed.

Lemma hex_addr_char c : hex_text c ∨ c = 46 ∨ c = 58 → is_char c ∧ addr_char c = true ∧ plain c ∧ c ≠ 91 ∧ c ≠ 93.
Proof.
  intros Hc. assert (is_char c) as Hch by (unfold hex_text, is_char in *; lia). unfold addr_char.
  rewrite char_is_digit_spec, char_is_alpha_spec by done. unfold hex_text, COMMENT_CHAR in *.
  split_and!; [done|lia|apply plain_char; unfold COMMENT_CHAR; lia|lia|lia].
Qed.

#[export] Instance numeric_typed : LibcTyped.
Proof.
  split.
  - intros s ip. by apply (pton_range 8 10 [] 4 46).
  - intros s ip. by apply (pton_range 16 16 [48; 120] 8 58).
  - intros host service n ai. cbn. unfold numeric_getaddrinfo. destruct (numeric_port service) as [port|] eqn:Hp; [|done].
    apply read_group_range in Hp; [|done]. destruct host as [host|]; [|by intros [= <-]].
    destruct (numeric_pton4 host) as [ip|] eqn:H4; [apply (pton_range 8 10 [] 4 46) in H4; [|done..]; by intros [= <-]|].
    destruct (numeric_pton6 host) as [ip|] eqn:H6; [|done]. apply (pton_range 16 16 [48; 120] 8 58) in H6; [|done..].
    by intros [= <-].
Qed.

Lemma numeric_ntop4_read ip : 0 <= ip < 2 ^ 32 → numeric_pton4 (numeric_ntop4 ip) = Some ip.
Proof.
  intros Hip. apply pton_ntop; [lia|done|lia|]. intros g Hg. split; [by apply read_u|].
  eapply Forall_not_in; [apply print_hex_text; lia|]. unfold hex_text. lia.
Qed.

Lemma numeric_ntop6_read ip : 0 <= ip < 2 ^ 128 → numeric_pton6 (numeric_ntop6 ip) = Some ip.
Proof.
  intros Hip. apply pton_ntop; [lia|done|lia|]. intros g Hg. split; [by apply read_x|].
  eapply Forall_not_in; [apply print_hex_text; lia|]. unfold hex_text. lia.
Qed.

Lemma numeric_ntop6_not4 ip : numeric_pton4 (numeric_ntop6 ip) = None.
Proof.
  unfold numeric_pton4, pton. rewrite tokens_one.
  - cbn. by destruct (read_group _ _ _ _).
  - eapply Forall_not_in; [apply ntop6_text|]. unfold hex_text. lia.
Qed.

Lemma numeric_port_read port : 0 <= port < 2 ^ 16 → numeric_port (print_u port) = Some port.
Proof. by apply read_u. Qed.

Lemma print_u_service port : 0 <= port → Forall plain (print_u port) ∧ print_u port ≠ [] ∧ (58 ∉ print_u port).
Proof.
  intros Hp. pose proof (print_hex_text 20 10 port ltac:(lia) Hp) as Hh.
  split_and!; [|apply print_number_nonempty|eapply Forall_not_in; [exact Hh|unfold hex_text; lia]].
  eapply Forall_impl; [exact Hh|]. intros c Hc. by apply hex_addr_char; left.
Qed.

Lemma host_chars host (sep : Z) :
  sep = 46 ∨ sep = 58 → Forall (λ c, hex_text c ∨ c = sep) host → sep ∈ host →
  Forall plain host ∧ host ≠ [] ∧ (91 ∉ host) ∧ (93 ∉ host).
Proof.
  intros Hsep Hh Hin. assert (Hc : Forall (λ c, plain c ∧ c ≠ 91 ∧ c ≠ 93) host).
  { eapply Forall_impl; [exact Hh|]. intros c Hc. apply hex_addr_char. naive_solver. }
  split_and!; [eapply Forall_impl; [exact Hc|naive_solver]| |eapply Forall_not_in; [exact Hc|naive_solver]..].
  by intros ->; apply not_elem_of_nil in Hin.
Qed.

#[export] Instance numeric_printed : LibcPrinted.
Proof.
  split; cbn [inet_pton4 inet_pton6 inet_ntop4 inet_ntop6 getaddrinfo getnameinfo numeric_libc].
  - apply numeric_ntop4_read.
  - apply numeric_ntop6_read.
  - intros ip _. destruct (ntop4_text ip) as [Hc Hin]. split; [|by intros He; rewrite He in Hin; apply not_elem_of_nil in Hin].
    eapply Forall_impl; [exact Hc|]. intros c Hcc. destruct (hex_addr_char c) as (?&?&_); [naive_solver|].
    split_and!; [done|done|]. unfold hex_text in Hcc. lia.
  - intros ip _. destruct (ntop6_text ip) as [Hc Hin]. split; [|done].
    eapply Forall_impl; [exact Hc|]. intros c Hcc. destruct (hex_addr_char c) as (?&?&_); [naive_solver|done].
  - intros [|port addr|port addr scope] host service Hok; cbn [numeric_getnameinfo]; [done|intros [= <- <-]|case_if; [|done]; intros [= <- <-]];
      unfold numeric_getaddrinfo; cbn in Hok; rewrite numeric_port_read by lia.
    + by rewrite numeric_ntop4_read by lia.
    + rewrite numeric_ntop6_not4, numeric_ntop6_read by lia. simpl_guards. by subst.
  - intros [|port addr|port addr scope] host service Hok; cbn [numeric_getnameinfo]; [done|intros [= <- <-]|case_if; [|done]; intros [= <- <-]];
      cbn in Hok; destruct (print_u_service port) as (?&?&?); [lia| |lia|].
    + destruct (host_chars (numeric_ntop4 addr) 46) as (?&?&?&?); [by left|by apply ntop4_text..|]. by split_and!.
    + destruct (host_chars (numeric_ntop6 addr) 58) as (?&?&?&?); [by right|by apply ntop6_text..|]. by split_and!.
  - intros port Hp. exists 0. left. unfold numeric_getaddrinfo. by rewrite numeric_port_read by lia.
  - done.
Qed.

(** ** Examples *)
Definition example_peer : wgpeer :=
  mk_wgpeer (WGPEER_HAS_PUBLIC_KEY + WGPEER_HAS_PRESHARED_KEY) (seqZ 0 32) (seqZ 100 32) (Sa6 51820 (2 ^ 125 + 1) 0) 0 0 0 25
    [mk_wgallowedip AF_INET (10 * 2 ^ 24) 8 0; mk_wgallowedip AF_INET6 (2 ^ 127) 64 0].

Definition example_device : wgdevice :=
  mk_wgdevice (str "wg0") 7 (WGDEVICE_HAS_PRIVATE_KEY + WGDEVICE_HAS_TRANSPORT) (seqZ 1 32) (seqZ 2 32) 0xca6c 51820 WG_TRANSPORT_TCP
    [example_peer; new_wgpeer].

Lemma seqZ_key n : key_ok (seqZ n 32) ↔ 0 <= n <= 224.
Proof.
  unfold key_ok. split.
  - intros [_ Hb]. rewrite Forall_forall in Hb. pose proof (Hb n) as H0. pose proof (Hb (n + 31)) as H1.
    rewrite elem_of_seqZ in H0, H1. unfold is_byte in *. lia.
  - intros Hn. split; [unfold zlen; by rewrite length_seqZ|]. apply Forall_forall. intros b Hb%elem_of_seqZ. unfold is_byte. lia.
Qed.

Lemma example_device_ok : device_ok example_device.
Proof.
  constructor; [by split|by apply seqZ_key|by split|by split|by right|].
  constructor; [|constructor; [by apply (new_peer_ok 0)|constructor]].
  constructor; [by split|by apply seqZ_key|by apply seqZ_key|by repeat split|by split|].
  constructor; [split; [left|by left]|constructor; [split; [right|by left]|constructor]]; by repeat split.
Qed.

Lemma showconf_setconf_witness : config_read 1 false (showconf example_device) = Some (loaded example_device).
Proof. apply (showconf_setconf 1); [by eexists|lia|apply example_device_ok]. Defined.

(** The arguments of [wg set wg0 listen-port 51820 peer KEY allowed-ips ...]. *)
Definition example_args : list text :=
  [str "listen-port"; str "51820"; str "transport"; str "TCP"; str "peer"; key_to_base64 (seqZ 0 32);
   str "allowed-ips"; str "10.0.0.0/8, -1:2:3:4:5:6:7:8/64"; str "persistent-keepalive"; str "25";
   str "endpoint"; str "[2001:db8:0:0:0:0:0:1]:51820"].

Lemma config_well_typed_witness :
  ∃ dev, config_read_cmd 1 example_args = Some dev ∧ (device_ok dev ∧ Forall keyed (wd_peers dev)) ∧
    wd_listen_port dev = 51820 ∧ wd_transport dev = WG_TRANSPORT_TCP ∧
    (wp_allowedips <$> wd_peers dev) =
      [[mk_wgallowedip AF_INET (10 * 2 ^ 24) 8 0;
        mk_wgallowedip AF_INET6 0x00010002000300040005000600070008 64 WGALLOWEDIP_REMOVE_ME]].
Proof.
  eexists. split; [vm_compute; reflexivity|]. split; [|by split_and!].
  apply (config_well_typed 1 example_args false []). right. vm_compute. reflexivity.
Defined.
