(* ===== verification/DeviceConfig.v ===== *)
(** * Configuring a device (kernel/netlink.c, kernel/peer.c)

    The handler of [WG_CMD_SET_DEVICE] with what it calls: setting the port, the
    mark, the transport and the private key, and adding, changing and removing
    peers and their allowed addresses.  It runs under the device's update lock, so
    a request is one step.  The attributes of a request are the arrays that
    [nla_parse_nested] fills: an attribute that is not present is [None].

    The lookup structures are those of PeerLookup.v and AllowedIps.v, the keys and
    sessions those of Noise.v, Keypairs.v and Handshake.v.  Connecting and
    stopping the transport, and calls of the timers and of the packet queues, are
    recorded in [cd_calls]; the files of those components say what they do.  Reference counts are not part of the state:
    a peer stays in [cd_peers] when it has been removed, and is marked dead. *)
From stdpp Require Import prelude list gmap.
From S2P Require Import Prelude Skb Net Peer TcpPeer Endpoint AllowedIps PeerLookup Crypto Noise Keypairs Handshake Cookie.

#[local] Open Scope Z_scope.

Definition EPERM := 1.
Definition EBADR := 53.
Definition EADDRINUSE := 98.
Definition EOPNOTSUPP := 95.
Definition EPFNOSUPPORT := 96.
Definition MAX_PEERS_PER_DEVICE := 2 ^ 20.

(** ** State *)
Record config_peer := mk_config_peer {
  cp_tcp : wg_peer;
  cp_noise : noise_peer;
  cp_cookie : cookie;
  cp_persistent_keepalive_interval : Z;
}.

#[export] Instance settable_config_peer : Settable config_peer := λ p,
  mk_config_peer (cp_tcp p) (cp_noise p) (cp_cookie p) (cp_persistent_keepalive_interval p).

(** Calls of other components, with the peer they are about. *)
Inductive call :=
  | CallTimersInit (peer : Z)
  | CallTcpPeerStop (peer : Z)
  | CallTimersStop (peer : Z)
  | CallTcpConnect (peer : Z)
  | CallSetDeviceMark (mark : Z)
  | CallSendKeepalive (peer : Z)
  | CallSendStaged (peer : Z).

Record config_device := mk_config_device {
  cd_dev : wg_device;
  cd_incoming_port : Z;
  cd_update_gen : Z;
  cd_static_identity : noise_static_identity;
  cd_cookie_checker : cookie_checker;
  cd_peers : gmap Z config_peer;
  cd_peer_list : list Z;
  cd_num_peers : Z;
  cd_peer_hashtable : pubkey_hashtable;
  cd_peer_allowedips : allowedips;
  cd_store : kstore;
  cd_peer_counter : Z;
  cd_calls : list call;
  (** the outcomes of the allocations to come *)
  cd_memory : list bool;
}.

#[export] Instance settable_config_device : Settable config_device := λ d,
  mk_config_device (cd_dev d) (cd_incoming_port d) (cd_update_gen d) (cd_static_identity d) (cd_cookie_checker d)
    (cd_peers d) (cd_peer_list d) (cd_num_peers d) (cd_peer_hashtable d) (cd_peer_allowedips d) (cd_store d)
    (cd_peer_counter d) (cd_calls d) (cd_memory d).

Definition note_call (c : call) (d : config_device) : config_device := d{{ cd_calls ::= (λ l, l ++ [c]) }}.

Definition allocate (d : config_device) : bool * config_device :=
  match cd_memory d with
  | ok :: mem => (ok, d{{ cd_memory := mem }})
  | [] => (true, d)
  end.

Definition on_config_peer (peer : Z) (f : config_peer → config_peer) (d : config_device) : config_device :=
  d{{ cd_peers ::= alter f peer }}.

Definition running (d : config_device) : bool := dev_running (cd_dev d).
Definition over_tcp (d : config_device) : bool := is_tcp (cd_dev d).

(** ** Requests *)
Definition WGDEVICE_F_REPLACE_PEERS := 1.
Definition WGPEER_F_REMOVE_ME := 1.
Definition WGPEER_F_REPLACE_ALLOWEDIPS := 2.
Definition WGPEER_F_UPDATE_ONLY := 4.
Definition WGALLOWEDIP_F_REMOVE_ME := 1.
Definition WGDEVICE_F_ALL := WGDEVICE_F_REPLACE_PEERS.
Definition WGPEER_F_ALL := Z.lor (Z.lor WGPEER_F_REMOVE_ME WGPEER_F_REPLACE_ALLOWEDIPS) WGPEER_F_UPDATE_ONLY.

(** [flags & f] as a condition. *)
Definition flagged (flags f : Z) : bool := negb (Z.land flags f =? 0).

Record allowedip_attrs := mk_allowedip_attrs {
  aa_family : option Z;
  aa_ipaddr : option (list Z);
  aa_cidr_mask : option Z;
  aa_flags : option Z;
}.

(** A nested attribute that does not satisfy the policy is [Err] of its error.  An
    endpoint that is neither of the two socket addresses is [SaUnspec]. *)
Record peer_attrs := mk_peer_attrs {
  pa_public_key : option (list Z);
  pa_preshared_key : option (list Z);
  pa_flags : option Z;
  pa_protocol_version : option Z;
  pa_endpoint : option sockaddr;
  pa_allowedips : option (list (result allowedip_attrs));
  pa_persistent_keepalive_interval : option Z;
}.

Record device_attrs := mk_device_attrs {
  da_ifindex : option Z;
  da_ifname : option (list Z);
  da_flags : option Z;
  da_listen_port : option Z;
  da_fwmark : option Z;
  da_transport : option Z;
  da_private_key : option (list Z);
  da_peers : option (list (result peer_attrs));
}.

(** ** Finding the device

    The devices of the network namespace: index, name, kind and the private data
    of a WireGuard device. *)
Record net_device := mk_net_device {
  net_ifindex : Z;
  net_name : list Z;
  net_wireguard : bool;
  net_priv : Z;
}.

Definition lookup_interface (attrs : device_attrs) (net : list net_device) : result Z :=
  match da_ifindex attrs, da_ifname attrs with
  | Some _, Some _ | None, None => Err (-EBADR)
  | ifindex, ifname =>
      let found := match ifindex, ifname with
                   | Some i, _ => head (filter (λ n, net_ifindex n = i) net)
                   | None, Some s => head (filter (λ n, net_name n = s) net)
                   | None, None => None
                   end in
      match found with
      | None => Err (-ENODEV)
      | Some n => if negb (net_wireguard n) then Err (-EOPNOTSUPP) else Ok (net_priv n)
      end
  end.

Section config.
Context {C : Crypto}.

(** The keyed hash of the public key table, whether the build defines DEBUG, and
    the time of the request. *)
Context (siphash : list Z → Z) (debug : bool) (now : Z).

(** Peers in the table hold a reference, so one can always be taken. *)
Definition find_peer (public_key : list Z) (d : config_device) : option Z :=
  wg_pubkey_hashtable_lookup siphash (λ _, true) public_key (cd_peer_hashtable d).

(** ** kernel/peer.c *)
Definition wg_peer_create (public_key : list Z) (preshared_key : option (list Z)) (d : config_device)
    : result Z * config_device :=
  if MAX_PEERS_PER_DEVICE <=? cd_num_peers d then (Err (-ENOMEM), d)
  else
    let '(ok, d) := allocate d in
    if negb ok then (Err (-ENOMEM), d)
    else
      let '(ok, d) := allocate d in
      if negb ok then (Err (-ENOMEM), d)
      else
        let peer := cd_peer_counter d + 1 in
        let hs := wg_noise_handshake_init (cd_static_identity d) public_key preshared_key in
        let p := mk_config_peer (zero_peer peer)
                   (mk_noise_peer hs no_keypairs false (wg_noise_reset_last_sent_handshake now))
                   (wg_cookie_checker_precompute_peer_keys public_key wg_cookie_init) 0 in
        let d := note_call (CallTimersInit peer) d{{ cd_peer_counter := peer }} in
        let '(wq, d) :=
          if over_tcp d then
            let '(read_wq, d) := allocate d in
            if negb read_wq then (None, d)
            else let '(write_wq, d) := allocate d in (if write_wq then Some true else None, d)
          else (Some false, d) in
        match wq with
        | None => (Err (-ENOMEM), d)
        | Some wq =>
            let p := p{{ cp_tcp := (cp_tcp p){{ tcp_read_wq := wq; tcp_write_wq := wq }} }} in
            (Ok peer,
             d{{ cd_peers ::= <[peer := p]>; cd_peer_list ::= (λ l, l ++ [peer]);
                 cd_peer_hashtable ::= wg_pubkey_hashtable_add siphash public_key peer;
                 cd_num_peers ::= Z.succ }})
        end.

Definition dead_tcp (p : wg_peer) : wg_peer :=
  p{{ is_dead := true; wk_outbound_remove := None; tcp_outbound_remove_scheduled := false;
      tcp_outbound_remove_socket := None; tcp_inbound_remove_socket := None; tcp_reconnect_requested := false;
      tcp_stopping := true; wk_inbound_remove := None; tcp_inbound_remove_scheduled := false;
      wk_retry := None; tcp_retry_scheduled := false;
      wk_read := if tcp_read_worker_scheduled p then false else wk_read p; tcp_read_worker_scheduled := false;
      tcp_read_wq := false;
      wk_write := if tcp_write_worker_scheduled p then false else wk_write p; tcp_write_worker_scheduled := false;
      tcp_write_wq := false;
      read_state ::= (λ '(_, expected_len, received_len), (None, expected_len, received_len)) }}.

Definition peer_make_dead (peer : Z) (d : config_device) : config_device :=
  let d := d{{ cd_peer_list ::= filter (λ q, q ≠ peer); cd_peer_allowedips ::= wg_allowedips_remove_by_peer peer;
               cd_peer_hashtable ::= wg_pubkey_hashtable_remove peer }} in
  on_config_peer peer (λ p, p{{ cp_tcp ::= dead_tcp; cp_noise ::= (λ n, n{{ np_is_dead := true }}) }}) d.

Definition peer_remove_after_dead (peer : Z) (d : config_device) : config_device :=
  let d := match cd_peers d !! peer with
           | Some p =>
               let '(ks, st) := wg_noise_keypairs_clear (np_keypairs (cp_noise p)) (cd_store d) in
               on_config_peer peer (λ p, p{{ cp_noise ::= (λ n, n{{ np_keypairs := ks }}) }}) d{{ cd_store := st }}
           | None => d
           end in
  (note_call (CallTimersStop peer) d){{ cd_num_peers ::= Z.pred }}.

Definition wg_peer_remove (peer : Z) (d : config_device) : config_device :=
  peer_remove_after_dead peer (peer_make_dead peer (note_call (CallTcpPeerStop peer) d)).

Definition wg_peer_remove_all (d : config_device) : config_device :=
  let d := d{{ cd_peer_allowedips ::= (λ a, match wg_allowedips_free debug a with Some (a, _) => a | None => a end) }} in
  let dead_peers := cd_peer_list d in
  let d := foldl (λ d peer, note_call (CallTcpPeerStop peer) d) d dead_peers in
  let d := foldl (λ d peer, peer_make_dead peer d) d dead_peers in
  foldl (λ d peer, peer_remove_after_dead peer d) d dead_peers.

(** ** Ports

    What the kernel answers to the [n]-th pair of requests for a UDP socket: the
    port it is bound to or an error; whether there is IPv6; whether the namespace
    of the device still exists and the caller may administer it. *)
Context (udp4 : nat → result Z) (udp6 : nat → result Z) (ipv6_mod_enabled creating_net ns_capable : bool).

Definition wg_socket_reinit (port : Z) (d : config_device) : config_device := d{{ cd_incoming_port := port }}.

Fixpoint socket_attempts (fuel retries : nat) (port : Z) (d : config_device) : Z * config_device :=
  match fuel with
  | O => (-EADDRINUSE, d)
  | S fuel =>
      match udp4 retries with
      | Err e => (e, d)
      | Ok bound =>
          if negb ipv6_mod_enabled then (0, wg_socket_reinit bound d)
          else
            match udp6 retries with
            | Ok _ => (0, wg_socket_reinit bound d)
            | Err e =>
                if (e =? -EADDRINUSE) && (port =? 0) && (Z.of_nat retries <? 100)
                then socket_attempts fuel (S retries) port d else (e, d)
            end
      end
  end.

(** The first attempt and at most a hundred more. *)
Definition wg_socket_init (port : Z) (d : config_device) : Z * config_device :=
  if negb creating_net then (-ENONET, d) else socket_attempts 101 0 port d.

Definition clear_endpoint_src (peer : Z) (d : config_device) : config_device :=
  on_config_peer peer (λ p, p{{ cp_tcp ::= wg_socket_clear_peer_endpoint_src }}) d.

Definition request_reconnect (peer : Z) (d : config_device) : config_device :=
  on_config_peer peer (λ p, p{{ cp_tcp ::= wg_tcp_peer_request_reconnect (cd_dev d) }}) d.

Definition set_port (port : Z) (d : config_device) : Z * config_device :=
  if cd_incoming_port d =? port then (0, d)
  else if over_tcp d && running d then (-EBUSY, d)
  else
    let d := foldl (λ d peer, clear_endpoint_src peer d) d (cd_peer_list d) in
    if negb (running d) then (0, d{{ cd_incoming_port := port }}) else wg_socket_init port d.

(** ** Peers *)
Definition set_allowedip (peer : Z) (attrs : allowedip_attrs) (d : config_device) : Z * config_device :=
  match aa_family attrs, aa_ipaddr attrs, aa_cidr_mask attrs with
  | Some family, Some ip, Some cidr =>
      let flags := default 0 (aa_flags attrs) in
      let set bits :=
        if flagged flags WGALLOWEDIP_F_REMOVE_ME then
          let '(ret, a) := wg_allowedips_remove bits ip cidr peer (cd_peer_allowedips d) in
          (ret, d{{ cd_peer_allowedips := a }})
        else
          let '(alloc1, d) := allocate d in
          let '(alloc2, d) := allocate d in
          let '(ret, a) := wg_allowedips_insert alloc1 alloc2 bits ip cidr peer (cd_peer_allowedips d) in
          (ret, d{{ cd_peer_allowedips := a }}) in
      if (family =? AF_INET) && (cidr <=? 32) && (zlen ip =? 4) then set 32
      else if (family =? AF_INET6) && (cidr <=? 128) && (zlen ip =? 16) then set 128
      else (-EINVAL, d)
  | _, _, _ => (-EINVAL, d)
  end.

Fixpoint set_allowedips (peer : Z) (attrs : list (result allowedip_attrs)) (d : config_device) : Z * config_device :=
  match attrs with
  | [] => (0, d)
  | Err e :: _ => (e, d)
  | Ok attr :: attrs =>
      let '(ret, d) := set_allowedip peer attr d in
      if ret <? 0 then (ret, d) else set_allowedips peer attrs d
  end.

(** [wg_socket_set_peer_endpoint_configured]; TcpPeer.v has the locked section. *)
Definition set_configured (peer : Z) (ep : endpoint) (d : config_device) : config_device :=
  match cd_peers d !! peer with
  | None => d
  | Some p =>
      let t := cp_tcp p in
      if endpoint_eq ep (p_endpoint t)
         && (negb (over_tcp d) || (peer_endpoint_set t && endpoint_eq ep (peer_endpoint t))) then d
      else
        match set_endpoint_locked (cd_dev d) true ep t with
        | None => d
        | Some (t, tcp_target_changed) =>
            let d := on_config_peer peer (λ p, p{{ cp_tcp := t }}) d in
            if negb (over_tcp d) then d
            else if tcp_target_changed then request_reconnect peer d
            else if running d && negb (tcp_established t) then note_call (CallTcpConnect peer) d
            else d
        end
  end.

Definition set_endpoint_attr (peer : Z) (addr : option sockaddr) (d : config_device) : config_device :=
  match addr with
  | Some (Sa4 port addr) => set_configured peer (Ep4 port addr 0 0) d
  | Some (Sa6 port addr scope) => set_configured peer (Ep6 port addr scope 0) d
  | _ => d
  end.

Definition set_keepalive (peer : Z) (interval : option Z) (d : config_device) : config_device :=
  match interval, cd_peers d !! peer with
  | Some interval, Some p =>
      let send_keepalive := (cp_persistent_keepalive_interval p =? 0) && negb (interval =? 0) && running d in
      let d := on_config_peer peer (λ p, p{{ cp_persistent_keepalive_interval := interval }}) d in
      if send_keepalive then note_call (CallSendKeepalive peer) d else d
  | _, _ => d
  end.

Definition set_psk (peer : Z) (preshared_key : option (list Z)) (d : config_device) : config_device :=
  match preshared_key with
  | Some psk => on_config_peer peer (λ p, p{{ cp_noise ::= (λ n, n{{ np_handshake ::= (λ h, h{{ nh_preshared_key := psk }}) }}) }}) d
  | None => d
  end.

(** The rest of [set_peer], for a peer that exists now. *)
Definition update_peer (peer : Z) (flags : Z) (preshared_key : option (list Z)) (attrs : peer_attrs) (d : config_device)
    : Z * config_device :=
  if flagged flags WGPEER_F_REMOVE_ME then (0, wg_peer_remove peer d)
  else
    let d := set_psk peer preshared_key d in
    let d := set_endpoint_attr peer (pa_endpoint attrs) d in
    let d := if flagged flags WGPEER_F_REPLACE_ALLOWEDIPS
             then d{{ cd_peer_allowedips ::= wg_allowedips_remove_by_peer peer }} else d in
    let '(ret, d) := match pa_allowedips attrs with Some l => set_allowedips peer l d | None => (0, d) end in
    if ret <? 0 then (ret, d)
    else
      let d := set_keepalive peer (pa_persistent_keepalive_interval attrs) d in
      (ret, if running d then note_call (CallSendStaged peer) d else d).

Definition set_peer (attrs : peer_attrs) (d : config_device) : Z * config_device :=
  match pa_public_key attrs with
  | None => (-EINVAL, d)
  | Some public_key =>
      if negb (zlen public_key =? NOISE_PUBLIC_KEY_LEN) then (-EINVAL, d)
      else
        let preshared_key :=
          match pa_preshared_key attrs with
          | Some psk => if zlen psk =? NOISE_SYMMETRIC_KEY_LEN then Some psk else None
          | None => None
          end in
        let flags := default 0 (pa_flags attrs) in
        if negb (Z.ldiff flags WGPEER_F_ALL =? 0) then (-EOPNOTSUPP, d)
        else if match pa_protocol_version attrs with Some v => negb (v =? 1) | None => false end then (-EPFNOSUPPORT, d)
        else
          match find_peer public_key d with
          | Some peer => update_peer peer flags preshared_key attrs d
          | None =>
              if flagged flags (Z.lor WGPEER_F_REMOVE_ME WGPEER_F_UPDATE_ONLY) then (0, d)
              else
                let flags := Z.ldiff flags WGPEER_F_REPLACE_ALLOWEDIPS in
                let id := cd_static_identity d in
                if si_has_identity id && bool_decide (public_key = si_static_public id) then (0, d)
                else
                  match wg_peer_create public_key preshared_key d with
                  | (Err e, d) => (e, d)
                  | (Ok peer, d) => update_peer peer flags preshared_key attrs d
                  end
          end
  end.

Fixpoint set_peers (attrs : list (result peer_attrs)) (d : config_device) : Z * config_device :=
  match attrs with
  | [] => (0, d)
  | Err e :: _ => (e, d)
  | Ok attr :: attrs =>
      let '(ret, d) := set_peer attr d in
      if ret <? 0 then (ret, d) else set_peers attrs d
  end.

(** ** Device *)
Definition set_transport_attr (flags : Z) (transport : option Z) (d : config_device) : Z * config_device :=
  match transport with
  | None => (0, d)
  | Some t =>
      if 1 <? t then (-EINVAL, d)
      else
        let t := if t =? 1 then WG_TRANSPORT_TCP else WG_TRANSPORT_UDP in
        if bool_decide (t = dev_transport (cd_dev d)) then (0, d)
        else if running d || negb (bool_decide (cd_peer_list d = [])) && negb (flagged flags WGDEVICE_F_REPLACE_PEERS)
        then (-EBUSY, d)
        else (0, d{{ cd_dev ::= (λ v, mk_device (dev_tcp_cleanup_scheduled v) t (dev_running v) (dev_fwmark v)) }})
  end.

Definition set_fwmark (fwmark : option Z) (d : config_device) : config_device :=
  match fwmark with
  | None => d
  | Some mark =>
      let changed := negb (mark =? dev_fwmark (cd_dev d)) in
      let d := d{{ cd_dev ::= (λ v, mk_device (dev_tcp_cleanup_scheduled v) (dev_transport v) (dev_running v) mark) }} in
      let d := if over_tcp d then note_call (CallSetDeviceMark mark) d else d in
      foldl (λ d peer,
        let d := clear_endpoint_src peer d in
        if changed && over_tcp d then request_reconnect peer d else d) d (cd_peer_list d)
  end.

(** A peer after the device's keys changed. *)
Definition rekey_peer (send_staged_packets : bool) (d : config_device) (peer : Z) : config_device :=
  match cd_peers d !! peer with
  | None => d
  | Some p =>
      let n := cp_noise p in
      let hs := np_handshake n in
      let n := n{{ np_handshake := hs{{ nh_precomputed_static_static :=
                     wg_noise_precompute_static_static (cd_static_identity d) (nh_remote_static hs) }} }} in
      let '(n, st) := wg_noise_expire_current_peer_keypairs peer now n (cd_store d) in
      let d := on_config_peer peer (λ p, p{{ cp_noise := n }}) d{{ cd_store := st }} in
      if send_staged_packets then note_call (CallSendStaged peer) d else d
  end.

Definition install_private_key (private_key : list Z) (d : config_device) : config_device :=
  if bool_decide (si_static_private (cd_static_identity d) = private_key) then d
  else
    let d := match curve25519_generate_public private_key with
             | Some public_key =>
                 match find_peer public_key d with Some peer => wg_peer_remove peer d | None => d end
             | None => d
             end in
    let had_identity := si_has_identity (cd_static_identity d) in
    let d := d{{ cd_static_identity ::= wg_noise_set_static_identity_private_key private_key }} in
    let send_staged_packets := negb had_identity && running d && si_has_identity (cd_static_identity d) in
    let d := d{{ cd_cookie_checker ::= wg_cookie_checker_precompute_device_keys (cd_static_identity d) }} in
    foldl (rekey_peer send_staged_packets) d (cd_peer_list d).

(** [wg_set_device] for the device [lookup_interface] found. *)
Definition wg_set_device (attrs : device_attrs) (d : config_device) : Z * config_device :=
  let flags := default 0 (da_flags attrs) in
  if negb (Z.ldiff flags WGDEVICE_F_ALL =? 0) then (-EOPNOTSUPP, d)
  else if (isSome (da_listen_port attrs) || isSome (da_fwmark attrs) || isSome (da_transport attrs))
          && (negb creating_net || negb ns_capable) then (-EPERM, d)
  else
    let '(ret, d) := set_transport_attr flags (da_transport attrs) d in
    if negb (ret =? 0) then (ret, d)
    else
      let d := d{{ cd_update_gen ::= (λ g, u32 (g + 1)) }} in
      let d := set_fwmark (da_fwmark attrs) d in
      let '(ret, d) := match da_listen_port attrs with Some port => set_port port d | None => (0, d) end in
      if negb (ret =? 0) then (ret, d)
      else
        let d := if flagged flags WGDEVICE_F_REPLACE_PEERS then wg_peer_remove_all d else d in
        let d := match da_private_key attrs with
                 | Some key => if zlen key =? NOISE_PUBLIC_KEY_LEN then install_private_key key d else d
                 | None => d
                 end in
        match da_peers attrs with Some l => set_peers l d | None => (0, d) end.
End config.
