(* ===== verification/DeviceConfigSpec.v ===== *)
(** * Configuring a device: invariants

    Whatever requests a device gets, its lookup structures agree: the list of
    peers, the table of public keys, the count of peers and the table of allowed
    addresses name the same peers, no two peers have the same key, none has the
    device's own, and a removed peer is dead and holds no session. *)
From stdpp Require Import prelude list gmap.
From S2P Require Import Prelude Skb Net Peer TcpPeer AllowedIps AllowedIpsSpec AllowedIpsTable.
From S2P Require Import PeerLookup Crypto Noise Keypairs Handshake Cookie DeviceConfig.

#[local] Open Scope Z_scope.

(** ** The table of public keys *)
Section keys.
Context (siphash : list Z → Z).

(** The table holds the pairs of [m], each in its bucket. *)
Definition keys_ok (t : pubkey_hashtable) (m : list (list Z * Z)) : Prop :=
  ∀ b x, x ∈ default [] (t !! b) ↔ x ∈ m ∧ pubkey_bucket siphash x.1 = b.

Lemma keys_ok_empty : keys_ok ∅ [].
Proof. intros b x. rewrite lookup_empty. cbn. split; [by intros ?%not_elem_of_nil|by intros [?%not_elem_of_nil _]]. Qed.

Lemma keys_ok_add t m k p : keys_ok t m → keys_ok (wg_pubkey_hashtable_add siphash k p t) (m ++ [(k, p)]).
Proof.
  intros Hok b x. unfold wg_pubkey_hashtable_add. rewrite elem_of_app, list_elem_of_singleton.
  destruct (decide (pubkey_bucket siphash k = b)) as [<-|Hb].
  - rewrite lookup_insert_eq. change (default [] (Some ?l)) with l. rewrite elem_of_cons, (Hok _ _). naive_solver.
  - rewrite lookup_insert_ne, (Hok _ _) by done. naive_solver.
Qed.

Lemma keys_ok_remove t m p : keys_ok t m → keys_ok (wg_pubkey_hashtable_remove p t) (filter (λ x, x.2 ≠ p) m).
Proof.
  intros Hok b x. unfold wg_pubkey_hashtable_remove. rewrite lookup_fmap, list_elem_of_filter.
  specialize (Hok b x). destruct (t !! b) as [l|]; cbn -[filter] in *.
  - rewrite list_elem_of_filter, Hok. tauto.
  - rewrite <- (and_assoc (x.2 ≠ p)), <- Hok. split; [by intros ?%not_elem_of_nil|by intros [_ ?%not_elem_of_nil]].
Qed.

Lemma keys_lookup t m k p :
  keys_ok t m → NoDup m.*1 → wg_pubkey_hashtable_lookup siphash (λ _, true) k t = Some p ↔ (k, p) ∈ m.
Proof.
  intros Hok Hnd. unfold wg_pubkey_hashtable_lookup.
  assert (Hin : ∀ x, x ∈ filter (λ x, x.1 = k) (default [] (t !! pubkey_bucket siphash k)) ↔ x.1 = k ∧ x ∈ m).
  { intros x. rewrite list_elem_of_filter, (Hok _ _). naive_solver. }
  destruct (filter _ _) as [|[k' q] l] eqn:Hf; cbn.
  - split; [done|]. intros Hk. specialize (Hin (k, p)). destruct Hin as [_ Hin]. by apply not_elem_of_nil in Hin.
  - destruct (Hin (k', q)) as [[Hk Hq] _]; [by left|]. cbn in Hk. subst k'. split; [by intros [= <-]|].
    intros Hp. f_equal. by injection (NoDup_fmap_elem fst m (k, q) (k, p) Hnd Hq Hp eq_refl).
Qed.
End keys.

(** ** Invariant *)
Definition remote_static (p : config_peer) : list Z := nh_remote_static (np_handshake (cp_noise p)).

Definition key_of (d : config_device) (p : Z) : list Z := default [] (remote_static <$> cd_peers d !! p).

(** The pairs of the key table. *)
Definition bindings (d : config_device) : list (list Z * Z) := (λ p, (key_of d p, p)) <$> cd_peer_list d.

Definition peer_dead (p : config_peer) : bool := np_is_dead (cp_noise p).

(** [pending] are peers on their way out: dead, but still counted. *)
Record config_inv (siphash : list Z → Z) (pending : list Z) (d : config_device) : Prop := {
  ci_nodup : NoDup (cd_peer_list d ++ pending);
  ci_known : ∀ p, p ∈ cd_peer_list d ++ pending → is_Some (cd_peers d !! p);
  ci_fresh : ∀ p, is_Some (cd_peers d !! p) → p <= cd_peer_counter d;
  ci_alive : ∀ p cp, cd_peers d !! p = Some cp → peer_dead cp = false ↔ p ∈ cd_peer_list d;
  ci_empty : ∀ p cp, cd_peers d !! p = Some cp → p ∉ cd_peer_list d ++ pending → np_keypairs (cp_noise cp) = no_keypairs;
  ci_table : keys_ok siphash (cd_peer_hashtable d) (bindings d);
  ci_keys : NoDup (bindings d).*1;
  ci_count : cd_num_peers d = zlen (cd_peer_list d ++ pending) ∧ cd_num_peers d <= MAX_PEERS_PER_DEVICE;
  ci_own : si_has_identity (cd_static_identity d) = true →
           ∀ p, p ∈ cd_peer_list d → key_of d p ≠ si_static_public (cd_static_identity d);
  ci_allowedips : table_ok (cd_peer_allowedips d);
  ci_owners : ∀ bits i q, is_width bits → s_get bits (spec_of (cd_peer_allowedips d)) !! i = Some q → q ∈ cd_peer_list d;
}.

(** ** Changes that leave the lookup structures alone *)
Definition peer_view (p : config_peer) : list Z * bool * noise_keypairs :=
  (remote_static p, peer_dead p, np_keypairs (cp_noise p)).

Record frame (d d' : config_device) : Prop := {
  fr_list : cd_peer_list d' = cd_peer_list d;
  fr_table : cd_peer_hashtable d' = cd_peer_hashtable d;
  fr_count : cd_num_peers d' = cd_num_peers d;
  fr_counter : cd_peer_counter d' = cd_peer_counter d;
  fr_identity : cd_static_identity d' = cd_static_identity d;
  fr_allowedips : cd_peer_allowedips d' = cd_peer_allowedips d;
  fr_peers : ∀ p, peer_view <$> cd_peers d' !! p = peer_view <$> cd_peers d !! p;
}.

#[export] Instance frame_refl : Reflexive frame.
Proof. intros d. by constructor. Qed.

#[export] Instance frame_trans : Transitive frame.
Proof. intros d1 d2 d3 [] []. constructor; intros; congruence. Qed.

Lemma frame_view d d' p cp' :
  frame d d' → cd_peers d' !! p = Some cp' → ∃ cp, cd_peers d !! p = Some cp ∧ peer_view cp = peer_view cp'.
Proof.
  intros Hf Hp. pose proof (fr_peers _ _ Hf p) as Hv. rewrite Hp in Hv. cbn in Hv.
  destruct (cd_peers d !! p) as [cp|]; [|done]. exists cp. split; [done|]. cbn in Hv. congruence.
Qed.

Lemma frame_some d d' p : frame d d' → is_Some (cd_peers d' !! p) ↔ is_Some (cd_peers d !! p).
Proof.
  intros Hf. pose proof (fr_peers _ _ Hf p) as Hv.
  destruct (cd_peers d' !! p), (cd_peers d !! p); cbn in Hv; try discriminate; split; intros [? ?]; try discriminate; eauto.
Qed.

Lemma frame_key d d' p : frame d d' → key_of d' p = key_of d p.
Proof.
  intros Hf. pose proof (fr_peers _ _ Hf p) as Hv. unfold key_of.
  destruct (cd_peers d' !! p) as [c'|], (cd_peers d !! p) as [c|]; cbn in *; try discriminate; [|done].
  unfold peer_view in Hv. congruence.
Qed.

Lemma frame_inv siphash pending d d' : frame d d' → config_inv siphash pending d → config_inv siphash pending d'.
Proof.
  intros Hf [Hnd Hkn Hfr Hal Hem Hta Hke Hco Hown Hai Hpo].
  assert (Hb : bindings d' = bindings d).
  { unfold bindings. rewrite (fr_list _ _ Hf). apply list_fmap_ext. intros i p _. by rewrite (frame_key _ _ _ Hf). }
  pose proof Hf as [Hl Ht Hn Hc Hi Ha _]. constructor; rewrite ?Hb, ?Hl, ?Ht, ?Hn, ?Hc, ?Hi, ?Ha; try done.
  - intros p Hp. by apply (frame_some _ _ _ Hf), Hkn.
  - intros p Hp. by apply Hfr, (frame_some _ _ _ Hf).
  - intros p cp Hp. destruct (frame_view _ _ _ _ Hf Hp) as (c&Hc'&Hv). rewrite <- (Hal p c Hc'). unfold peer_view in Hv. by injection Hv as _ -> _.
  - intros p cp Hp Hq. destruct (frame_view _ _ _ _ Hf Hp) as (c&Hc'&Hv). rewrite <- (Hem p c Hc' Hq). unfold peer_view in Hv. by injection Hv as _ _ ->.
  - intros Hid p Hp. rewrite (frame_key _ _ _ Hf). by apply Hown.
Qed.

(** *** The operations that are frames *)
Lemma frame_call c d : frame d (note_call c d).
Proof. by constructor. Qed.

Lemma frame_allocate d : frame d (allocate d).2.
Proof. unfold allocate. destruct (cd_memory d); by constructor. Qed.

Lemma frame_on_peer p f d : (∀ cp, peer_view (f cp) = peer_view cp) → frame d (on_config_peer p f d).
Proof.
  intros Hf. constructor; try done. intros q. cbn. destruct (decide (p = q)) as [<-|Hq].
  - rewrite lookup_alter_eq. destruct (cd_peers d !! p) as [cp|]; [|done]. cbn. by rewrite Hf.
  - by rewrite lookup_alter_ne.
Qed.

Lemma frame_foldl {A} (f : config_device → A → config_device) l d : (∀ d x, frame d (f d x)) → frame d (foldl f d l).
Proof. intros Hf. revert d. induction l as [|x l IH]; intros d; [done|]. cbn. etransitivity; [apply Hf|apply IH]. Qed.

Create HintDb frame discriminated.
#[export] Hint Resolve frame_call frame_allocate frame_on_peer frame_foldl : frame.

Lemma frame_clear_endpoint_src p d : frame d (clear_endpoint_src p d).
Proof. by apply frame_on_peer. Qed.

Lemma frame_request_reconnect p d : frame d (request_reconnect p d).
Proof. by apply frame_on_peer. Qed.

#[export] Hint Resolve frame_clear_endpoint_src frame_request_reconnect : frame.

Lemma frame_set_configured p ep d : frame d (set_configured p ep d).
Proof.
  unfold set_configured. destruct (cd_peers d !! p) as [cp|]; [|done]. case_if; [done|].
  destruct (set_endpoint_locked _ _ _ _) as [[t changed]|]; [|done].
  assert (Hf : frame d (on_config_peer p (λ cp, cp{{ cp_tcp := t }}) d)) by (by apply frame_on_peer).
  repeat case_if; try done; by (etransitivity; [exact Hf|]; auto with frame).
Qed.

Lemma frame_set_endpoint p a d : frame d (set_endpoint_attr p a d).
Proof. destruct a as [[| |]|]; cbn; try done; apply frame_set_configured. Qed.

Lemma frame_set_psk p psk d : frame d (set_psk p psk d).
Proof. destruct psk; [by apply frame_on_peer|done]. Qed.

Lemma frame_set_keepalive p i d : frame d (set_keepalive p i d).
Proof.
  unfold set_keepalive. destruct i as [i|]; [|done]. destruct (cd_peers d !! p); [|done].
  case_if; [etransitivity; [|apply frame_call]|]; by apply frame_on_peer.
Qed.

Lemma frame_set_fwmark m d : frame d (set_fwmark m d).
Proof.
  unfold set_fwmark. destruct m as [m|]; [|done]. etransitivity; [|apply frame_foldl].
  - case_if; [etransitivity; [|apply frame_call]|]; by constructor.
  - intros d' p. cbn. case_if; [etransitivity; [|apply frame_request_reconnect]|]; apply frame_clear_endpoint_src.
Qed.

(** The result part of a pair, for operations that report an error. *)
Lemma frame_set_transport flags t d : frame d (set_transport_attr flags t d).2.
Proof. unfold set_transport_attr. destruct t as [t|]; [|done]. repeat case_if; by constructor. Qed.

Section ops.
Context {C : Crypto} (siphash : list Z → Z) (debug : bool) (now : Z).
Context (udp4 udp6 : nat → result Z) (ipv6_mod_enabled creating_net ns_capable : bool).

Lemma frame_attempts fuel n port d : frame d (socket_attempts udp4 udp6 ipv6_mod_enabled fuel n port d).2.
Proof.
  revert n. induction fuel as [|fuel IH]; intros n; cbn [socket_attempts]; [done|].
  destruct (udp4 n) as [b|]; [|done]. case_if; [by constructor|]. destruct (udp6 n); [by constructor|]. case_if; [apply IH|done].
Qed.

Lemma frame_set_port port d : frame d (set_port udp4 udp6 ipv6_mod_enabled creating_net port d).2.
Proof.
  unfold set_port. case_if; [done|]. case_if; [done|]. set (d1 := foldl _ d _).
  assert (H1 : frame d d1) by (apply frame_foldl; intros; apply frame_clear_endpoint_src).
  case_if; [etransitivity; [exact H1|by constructor]|]. etransitivity; [exact H1|].
  unfold wg_socket_init. case_if; [done|]. apply frame_attempts.
Qed.

Lemma frame_rekey staged d p : frame d (rekey_peer now staged d p).
Proof.
  unfold rekey_peer. destruct (cd_peers d !! p) as [cp|] eqn:Hp; [|done].
  destruct (wg_noise_expire_current_peer_keypairs _ _ _ _) as [n st] eqn:He.
  assert (Hf : frame d (on_config_peer p (λ q, q{{ cp_noise := n }}) d{{ cd_store := st }})).
  { constructor; try done. intros q. cbn. destruct (decide (p = q)) as [<-|Hq]; [|by rewrite lookup_alter_ne].
    rewrite lookup_alter_eq, Hp. cbn. unfold wg_noise_expire_current_peer_keypairs, wg_noise_handshake_clear in He.
    revert He. cbn. intros [= <- <-]. done. }
  case_if; [etransitivity; [exact Hf|apply frame_call]|exact Hf].
Qed.

(** ** Adding a peer *)
Lemma find_peer_spec pending d k p : config_inv siphash pending d → find_peer siphash k d = Some p ↔ p ∈ cd_peer_list d ∧ key_of d p = k.
Proof.
  intros Hi. unfold find_peer. rewrite (keys_lookup siphash _ _ k p (ci_table _ _ _ Hi) (ci_keys _ _ _ Hi)).
  unfold bindings. rewrite list_elem_of_fmap. naive_solver.
Qed.

(** A new peer in the structures. *)
Definition with_peer (p : Z) (k : list Z) (cp : config_peer) (d : config_device) : config_device :=
  d{{ cd_peers ::= <[p := cp]>; cd_peer_list ::= (λ l, l ++ [p]);
      cd_peer_hashtable ::= wg_pubkey_hashtable_add siphash k p; cd_num_peers ::= Z.succ }}.

Lemma with_peer_inv p k cp d :
  config_inv siphash [] d → cd_num_peers d < MAX_PEERS_PER_DEVICE → cd_peers d !! p = None → p <= cd_peer_counter d →
  peer_view cp = (k, false, no_keypairs) → find_peer siphash k d = None →
  (si_has_identity (cd_static_identity d) = true → k ≠ si_static_public (cd_static_identity d)) →
  config_inv siphash [] (with_peer p k cp d).
Proof.
  intros Hi Hn Hnew Hle Hv Hfind Hown. pose proof Hi as [Hnd Hkn Hfr Hal Hem Hta Hke Hco Ho Hai Hpo].
  rewrite app_nil_r in *. unfold peer_view in Hv. injection Hv as Hvk Hvd Hvs.
  assert (Hpl : p ∉ cd_peer_list d).
  { intros Hp. destruct (Hkn p Hp) as [c Hc]. by rewrite Hnew in Hc. }
  assert (Hkey : ∀ q, q ∈ cd_peer_list d → key_of (with_peer p k cp d) q = key_of d q).
  { intros q Hq. unfold key_of. cbn. rewrite lookup_insert_ne; [done|]. by intros ->. }
  assert (Hkp : key_of (with_peer p k cp d) p = k) by (unfold key_of; cbn; by rewrite lookup_insert_eq).
  assert (Hb : bindings (with_peer p k cp d) = bindings d ++ [(k, p)]).
  { unfold bindings. cbn [with_peer cd_peer_list]. change (cd_peer_list (with_peer p k cp d)) with (cd_peer_list d ++ [p]).
    rewrite fmap_app. cbn [fmap list_fmap]. rewrite Hkp. f_equal. apply list_fmap_ext. intros i q Hq.
    rewrite Hkey; [done|]. by eapply list_elem_of_lookup_2. }
  constructor; rewrite ?app_nil_r; change (cd_peer_list (with_peer p k cp d)) with (cd_peer_list d ++ [p]);
    change (cd_peers (with_peer p k cp d)) with (<[p := cp]> (cd_peers d)).
  - apply NoDup_app. split_and!; [done|by intros q Hq ->%list_elem_of_singleton|apply NoDup_singleton].
  - intros q [Hq| ->%list_elem_of_singleton]%elem_of_app; [|by rewrite lookup_insert_eq].
    rewrite lookup_insert_ne by (by intros ->). by apply Hkn.
  - intros q Hq. destruct (decide (p = q)) as [<-|Hpq]; [done|]. rewrite lookup_insert_ne in Hq by done. by apply Hfr.
  - intros q c Hq. rewrite elem_of_app, list_elem_of_singleton. destruct (decide (p = q)) as [<-|Hpq].
    + rewrite lookup_insert_eq in Hq. injection Hq as <-. rewrite Hvd. naive_solver.
    + rewrite lookup_insert_ne in Hq by done. rewrite (Hal q c Hq). naive_solver.
  - intros q c Hq Hql. destruct (decide (p = q)) as [<-|Hpq].
    + rewrite lookup_insert_eq in Hq. by injection Hq as <-.
    + rewrite lookup_insert_ne in Hq by done. apply (Hem q c Hq). intros Hin. apply Hql, elem_of_app. by left.
  - rewrite Hb. by apply keys_ok_add.
  - rewrite Hb, fmap_app. apply NoDup_app. split_and!; [done| |apply NoDup_singleton].
    intros k' Hk' ->%list_elem_of_singleton. apply list_elem_of_fmap in Hk' as ([k1 q]&Hk1&Hq). cbn in Hk1. subst k1.
    apply (keys_lookup siphash _ _ k q Hta Hke) in Hq. unfold find_peer in Hfind. by rewrite Hfind in Hq.
  - change (cd_num_peers (with_peer p k cp d)) with (Z.succ (cd_num_peers d)). rewrite zlen_app. change (zlen [p]) with 1. lia.
  - intros Hid q [Hq| ->%list_elem_of_singleton]%elem_of_app; [|rewrite Hkp; by apply Hown]. rewrite Hkey by done. by apply Ho.
  - done.
  - intros bits i q Hw Hq. apply elem_of_app. left. by eapply Hpo.
Qed.

Lemma counter_inv pending n d :
  cd_peer_counter d <= n → config_inv siphash pending d → config_inv siphash pending d{{ cd_peer_counter := n }}.
Proof. intros Hn []. constructor; try done. intros p Hp. cbn. etransitivity; [by eauto|done]. Qed.

Lemma nomem e : @Err Z (-ENOMEM) = Err e → e < 0.
Proof. intros [= <-]. done. Qed.

(** An allocation, in a goal. *)
Ltac allocate_in d d' :=
  let H := fresh "Hf" in
  pose proof (frame_allocate d) as H; destruct (allocate d) as [[] d']; cbn [snd negb] in H |- *.

Lemma create_inv k psk d :
  config_inv siphash [] d → find_peer siphash k d = None →
  (si_has_identity (cd_static_identity d) = true → k ≠ si_static_public (cd_static_identity d)) →
  config_inv siphash [] (wg_peer_create siphash now k psk d).2 ∧
  (∀ e, (wg_peer_create siphash now k psk d).1 = Err e → e < 0) ∧
  ∀ p, (wg_peer_create siphash now k psk d).1 = Ok p → p ∈ cd_peer_list (wg_peer_create siphash now k psk d).2.
Proof.
  intros Hi Hfind Hown. unfold wg_peer_create. destruct (Z.leb_spec MAX_PEERS_PER_DEVICE (cd_num_peers d)).
  { split; [done|]. split; [apply nomem|done]. }
  assert (Hadd : ∀ d1 d2, frame d d1 → frame (note_call (CallTimersInit (cd_peer_counter d1 + 1)) d1{{ cd_peer_counter := cd_peer_counter d1 + 1 }}) d2 →
    config_inv siphash [] d2 ∧ ∀ cp, peer_view cp = (k, false, no_keypairs) → config_inv siphash [] (with_peer (cd_peer_counter d1 + 1) k cp d2)).
  { intros d1 d2 H1 H2. assert (Hi1 : config_inv siphash [] d1) by (by eapply frame_inv).
    assert (Hi2 : config_inv siphash [] d2).
    { eapply frame_inv; [exact H2|]. eapply frame_inv; [apply frame_call|]. apply counter_inv; [lia|done]. }
    split; [done|]. intros cp Hv. pose proof H1 as []. pose proof H2 as [Hl2 Ht2 Hn2 Hc2 Hid2 _ Hp2]. cbn in Hl2, Ht2, Hn2, Hc2, Hid2, Hp2.
    apply with_peer_inv; try done.
    - congruence.
    - specialize (Hp2 (cd_peer_counter d1 + 1)). destruct (cd_peers d1 !! (cd_peer_counter d1 + 1)) eqn:He.
      + pose proof (ci_fresh _ _ _ Hi1 (cd_peer_counter d1 + 1) ltac:(by rewrite He)). lia.
      + by destruct (cd_peers d2 !! _).
    - lia.
    - unfold find_peer in *. congruence.
    - by rewrite Hid2, (fr_identity _ _ H1). }
  allocate_in d d1; [|split; [eapply frame_inv; eassumption|split; [apply nomem|done]]].
  allocate_in d1 d2; [|split; [eapply frame_inv; [eassumption|eapply frame_inv; eassumption]|split; [apply nomem|done]]].
  assert (H12 : frame d d2) by (by etransitivity).
  set (d3 := note_call _ _). case_if.
  - allocate_in d3 d4; [|split; [by eapply Hadd|split; [apply nomem|done]]].
    allocate_in d4 d5; [|split; [eapply (Hadd d2); [done|by etransitivity]|split; [apply nomem|done]]].
    destruct (Hadd d2 d5 H12) as [_ Hw]; [by etransitivity|]. split; [apply Hw; by destruct psk|]. split; [done|]. intros p [= <-].
    apply elem_of_app. right. by apply list_elem_of_singleton.
  - destruct (Hadd d2 d3 H12) as [_ Hw]; [done|]. split; [apply Hw; by destruct psk|]. split; [done|]. intros p [= <-].
    apply elem_of_app. right. by apply list_elem_of_singleton.
Qed.

(** ** Removing peers *)
Lemma filter_out (p : Z) l : NoDup l → p ∈ l → l ≡ₚ p :: filter (λ q, q ≠ p) l.
Proof.
  induction 1 as [|x l Hx Hnd IH]; [by intros ?%not_elem_of_nil|]. intros [<-|Hp]%elem_of_cons.
  - rewrite filter_cons_False by (by intros []). f_equiv. clear Hnd IH. induction l as [|y l IH]; [done|].
    apply not_elem_of_cons in Hx as [Hxy Hx]. rewrite filter_cons_True by congruence. by rewrite <- IH.
  - rewrite filter_cons_True by (by intros ->). rewrite Permutation_swap. by rewrite <- IH.
Qed.

Lemma make_dead_key p d q : key_of (peer_make_dead p d) q = key_of d q.
Proof.
  unfold key_of. cbn. destruct (decide (p = q)) as [<-|Hq]; [|by rewrite lookup_alter_ne].
  rewrite lookup_alter_eq. by destruct (cd_peers d !! p).
Qed.

Lemma make_dead_bindings p d : bindings (peer_make_dead p d) = filter (λ x, x.2 ≠ p) (bindings d).
Proof.
  unfold bindings. cbn. change (cd_peer_list (peer_make_dead p d)) with (filter (λ q, q ≠ p) (cd_peer_list d)).
  induction (cd_peer_list d) as [|q l IH]; [done|]. cbn [fmap list_fmap]. rewrite !filter_cons. cbn [snd].
  case_decide; cbn [fmap list_fmap]; rewrite ?make_dead_key; by rewrite IH.
Qed.

Lemma make_dead_inv pending p d :
  config_inv siphash pending d → p ∈ cd_peer_list d → config_inv siphash (pending ++ [p]) (peer_make_dead p d).
Proof.
  intros [Hnd Hkn Hfr Hal Hem Hta Hke Hco Ho Hai Hpo] Hp.
  assert (Hperm : filter (λ q, q ≠ p) (cd_peer_list d) ++ pending ++ [p] ≡ₚ cd_peer_list d ++ pending).
  { rewrite (filter_out p (cd_peer_list d)) at 2; [|by apply NoDup_app in Hnd as [? _]|done].
    rewrite app_assoc. symmetry. apply Permutation_cons_append. }
  destruct (remove_by_peer_ok p _ Hai) as (Hai'&_&Hspec).
  constructor; change (cd_peer_list (peer_make_dead p d)) with (filter (λ q, q ≠ p) (cd_peer_list d)).
  - by rewrite Hperm.
  - intros q Hq. rewrite Hperm in Hq. destruct (Hkn q Hq) as [c Hc]. cbn.
    destruct (decide (p = q)) as [<-|Hpq]; [rewrite lookup_alter_eq, Hc|rewrite lookup_alter_ne by done]; eauto.
  - intros q Hq. apply Hfr. cbn in Hq. destruct (decide (p = q)) as [<-|Hpq]; [by apply Hkn, elem_of_app; left|].
    by rewrite lookup_alter_ne in Hq.
  - intros q c Hq. cbn in Hq. rewrite list_elem_of_filter. destruct (decide (p = q)) as [<-|Hpq].
    + rewrite lookup_alter_eq in Hq. destruct (cd_peers d !! p) as [c0|]; [|done]. injection Hq as <-. cbn. naive_solver.
    + rewrite lookup_alter_ne in Hq by done. rewrite (Hal q c Hq). naive_solver.
  - intros q c Hq Hn. rewrite Hperm in Hn. cbn in Hq. destruct (decide (p = q)) as [<-|Hpq].
    + destruct Hn. apply elem_of_app. by left.
    + rewrite lookup_alter_ne in Hq by done. by apply (Hem q).
  - rewrite make_dead_bindings. by apply keys_ok_remove.
  - rewrite make_dead_bindings. clear -Hke. induction (bindings d) as [|x m IH]; [done|]. cbn in Hke. apply NoDup_cons in Hke as [Hx Hm].
    rewrite filter_cons. case_decide; [|by apply IH]. cbn. apply NoDup_cons. split; [|by apply IH]. contradict Hx.
    apply list_elem_of_fmap in Hx as (y&->&[_ Hy]%list_elem_of_filter). by apply list_elem_of_fmap_2.
  - unfold zlen. rewrite Hperm. exact Hco.
  - intros Hid q [_ Hq]%list_elem_of_filter. rewrite make_dead_key. by apply Ho.
  - exact Hai'.
  - intros bits i q Hw Hq. change (cd_peer_allowedips (peer_make_dead p d)) with (wg_allowedips_remove_by_peer p (cd_peer_allowedips d)) in Hq.
    rewrite Hspec in Hq. assert (s_get bits (spec_of (cd_peer_allowedips d)) !! i = Some q ∧ q ≠ p) as [Hg Hne].
    { revert Hq. unfold s_get, without. destruct Hw as [->| ->]; cbn [Z.eqb Pos.eqb fst snd]; intros [? ?]%map_lookup_filter_Some; auto. }
    apply list_elem_of_filter. split; [done|]. by eapply Hpo.
Qed.

(** A dead peer without sessions. *)
Definition sessionless (p : config_peer) : config_peer := p{{ cp_noise ::= (λ n, n{{ np_keypairs := no_keypairs }}) }}.

Lemma after_dead_peers p d : is_Some (cd_peers d !! p) → cd_peers (peer_remove_after_dead p d) = alter sessionless p (cd_peers d).
Proof. intros [cp Hp]. unfold peer_remove_after_dead. by rewrite Hp. Qed.

Lemma after_dead_rest p d :
  let d' := peer_remove_after_dead p d in
  cd_peer_list d' = cd_peer_list d ∧ cd_peer_hashtable d' = cd_peer_hashtable d ∧ cd_num_peers d' = Z.pred (cd_num_peers d) ∧
  cd_peer_counter d' = cd_peer_counter d ∧ cd_static_identity d' = cd_static_identity d ∧
  cd_peer_allowedips d' = cd_peer_allowedips d.
Proof. cbn zeta. unfold peer_remove_after_dead. by destruct (cd_peers d !! p). Qed.

Lemma after_dead_inv pending p d :
  config_inv siphash (p :: pending) d → config_inv siphash pending (peer_remove_after_dead p d).
Proof.
  intros [Hnd Hkn Hfr Hal Hem Hta Hke Hco Ho Hai Hpo].
  pose proof (after_dead_peers p d (Hkn p ltac:(apply elem_of_app; right; by left))) as Hps.
  destruct (after_dead_rest p d) as (Hl&Hh&Hn&Hc&Hid&Ha).
  assert (Hsub : ∀ q, q ∈ cd_peer_list d ++ pending → q ∈ cd_peer_list d ++ p :: pending) by (intros q; rewrite !elem_of_app, elem_of_cons; tauto).
  assert (Hk : ∀ q, key_of (peer_remove_after_dead p d) q = key_of d q).
  { intros q. unfold key_of. rewrite Hps. destruct (decide (p = q)) as [<-|Hq]; [|by rewrite lookup_alter_ne].
    rewrite lookup_alter_eq. by destruct (cd_peers d !! p). }
  assert (Hb : bindings (peer_remove_after_dead p d) = bindings d).
  { unfold bindings. rewrite Hl. apply list_fmap_ext. intros i q _. by rewrite Hk. }
  constructor; rewrite ?Hb, ?Hl, ?Hh, ?Hn, ?Hc, ?Hid, ?Ha, ?Hps; try done.
  - rewrite <- Permutation_middle in Hnd. by apply NoDup_cons in Hnd as [_ ?].
  - intros q Hq. destruct (Hkn q (Hsub q Hq)) as [c Hq'].
    destruct (decide (p = q)) as [<-|Hpq]; [rewrite lookup_alter_eq, Hq'|rewrite lookup_alter_ne by done]; eauto.
  - intros q Hq. apply Hfr. destruct (decide (p = q)) as [<-|Hpq]; [|by rewrite lookup_alter_ne in Hq].
    rewrite lookup_alter_eq in Hq. by destruct (cd_peers d !! p).
  - intros q c Hq. destruct (decide (p = q)) as [<-|Hpq]; [|rewrite lookup_alter_ne in Hq by done; by apply Hal].
    rewrite lookup_alter_eq in Hq. destruct (cd_peers d !! p) as [c0|] eqn:Hp; [|done]. injection Hq as <-. apply (Hal p c0 Hp).
  - intros q c Hq Hn'. destruct (decide (p = q)) as [<-|Hpq].
    + rewrite lookup_alter_eq in Hq. destruct (cd_peers d !! p) as [c0|]; [|done]. by injection Hq as <-.
    + rewrite lookup_alter_ne in Hq by done. apply (Hem q c Hq). rewrite elem_of_app, elem_of_cons in *. naive_solver.
  - destruct Hco as [Hco Hmax]. rewrite !zlen_app, zlen_cons in *. lia.
  - intros Hid' q Hq. rewrite Hk. by apply Ho.
Qed.

Lemma remove_inv p d : config_inv siphash [] d → p ∈ cd_peer_list d → config_inv siphash [] (wg_peer_remove p d).
Proof.
  intros Hi Hp. unfold wg_peer_remove. apply after_dead_inv. apply (make_dead_inv []); [|done].
  by eapply frame_inv; [apply frame_call|].
Qed.

Lemma allowedips_inv pending a d :
  config_inv siphash pending d → table_ok a →
  (∀ bits i q, is_width bits → s_get bits (spec_of a) !! i = Some q → q ∈ cd_peer_list d) →
  config_inv siphash pending d{{ cd_peer_allowedips := a }}.
Proof. intros [] Ha Ho. by constructor. Qed.

Lemma make_dead_all pending d :
  config_inv siphash pending d →
  let d' := foldl (λ d p, peer_make_dead p d) d (cd_peer_list d) in
  config_inv siphash (pending ++ cd_peer_list d) d' ∧ cd_peer_list d' = [].
Proof.
  cbn zeta. remember (cd_peer_list d) as l eqn:Hl. revert pending d Hl. induction l as [|p l IH]; intros pending d Hl Hi; cbn [foldl].
  { by rewrite app_nil_r. }
  assert (Hin : p ∈ cd_peer_list d) by (rewrite <- Hl; by left).
  pose proof (make_dead_inv pending p d Hi Hin) as Hi'. replace (pending ++ p :: l) with ((pending ++ [p]) ++ l) by (by rewrite <- app_assoc). apply IH; [|done].
  change (cd_peer_list (peer_make_dead p d)) with (filter (λ q, q ≠ p) (cd_peer_list d)).
  pose proof (ci_nodup _ _ _ Hi) as Hnd. rewrite <- Hl in *. apply NoDup_app in Hnd as [[Hp _]%NoDup_cons _].
  rewrite filter_cons_False by (by intros []). clear -Hp. induction l as [|q l IH]; [done|].
  apply not_elem_of_cons in Hp as [Hq Hp]. rewrite filter_cons_True by congruence. by rewrite <- IH.
Qed.

Lemma after_dead_all pending d :
  config_inv siphash pending d →
  let d' := foldl (λ d p, peer_remove_after_dead p d) d pending in
  config_inv siphash [] d' ∧ cd_peer_list d' = cd_peer_list d.
Proof.
  revert d. induction pending as [|p pending IH]; intros d Hi; cbn [foldl]; [done|].
  destruct (IH _ (after_dead_inv _ _ _ Hi)) as [H1 H2]. split; [done|]. rewrite H2. apply after_dead_rest.
Qed.

Lemma free_inv d :
  config_inv siphash [] d →
  config_inv siphash [] d{{ cd_peer_allowedips ::= (λ a, match wg_allowedips_free debug a with Some (a, _) => a | None => a end) }}.
Proof.
  intros Hi. destruct (free_ok debug _ (ci_allowedips _ _ _ Hi)) as (a&Ha&Hok&Hs&_).
  change (config_inv siphash [] d{{ cd_peer_allowedips := match wg_allowedips_free debug (cd_peer_allowedips d) with Some (a, _) => a | None => cd_peer_allowedips d end }}).
  rewrite Ha. apply allowedips_inv; [done..|]. intros bits i q [->| ->]; rewrite Hs; cbn; by rewrite lookup_empty.
Qed.

Lemma remove_all_inv d :
  config_inv siphash [] d → config_inv siphash [] (wg_peer_remove_all debug d) ∧ cd_peer_list (wg_peer_remove_all debug d) = [].
Proof.
  intros Hi%free_inv. unfold wg_peer_remove_all. set (d1 := d{{ cd_peer_allowedips ::= _ }}) in *. clearbody d1.
  set (d2 := foldl (λ d p, note_call (CallTcpPeerStop p) d) d1 (cd_peer_list d1)).
  assert (Hf : frame d1 d2) by (apply frame_foldl; intros; apply frame_call).
  rewrite <- (fr_list _ _ Hf). destruct (make_dead_all [] d2) as [H1 H2]; [by eapply frame_inv|].
  destruct (after_dead_all _ _ H1) as [H3 H4]. split; [exact H3|]. etransitivity; [exact H4|exact H2].
Qed.

(** ** Allowed addresses *)
Definition allowedip_attrs_ok (a : allowedip_attrs) : Prop :=
  from_option (Forall is_byte) True (aa_ipaddr a) ∧ from_option (λ c, 0 <= c < 256) True (aa_cidr_mask a).

Lemma exec_inv (o : op) pending d r a :
  config_inv siphash pending d → op_ok o → exec debug o (cd_peer_allowedips d) = Some (r, a) →
  match o with Insert _ _ _ _ _ p => p ∈ cd_peer_list d | _ => True end →
  config_inv siphash pending d{{ cd_peer_allowedips := a }} ∧ (r = 0 ∨ r < 0).
Proof.
  intros Hi Ho He Hp. destruct (exec_ok debug o _ (ci_allowedips _ _ _ Hi) Ho) as (r'&a'&He'&Hok&Hs).
  rewrite He in He'. injection He' as <- <-. split.
  - apply allowedips_inv; [done..|]. intros bits i q Hw Hq. pose proof (ci_owners _ _ _ Hi) as Hown.
    assert (Hset : ∀ b m, is_width b → s_get bits (s_set b m (spec_of (cd_peer_allowedips d))) !! i = Some q →
      (∀ q, m !! i = Some q → q ∈ cd_peer_list d) → q ∈ cd_peer_list d).
    { intros b m Hb. destruct Hb as [->| ->], Hw as [->| ->]; cbn; intros Hm Hm'; first [by apply Hm'|by eapply (Hown 32); [left|]|by eapply (Hown 128); [right|]]. }
    clear He Hok. remember (spec_of a) as m eqn:Hm. clear Hm. destruct Hs; try (by eapply Hown).
    + apply Hset in Hq; [done|apply Ho|]. intros q' [[_ <-]|[_ Hq']]%lookup_insert_Some; [done|]. eapply Hown; [|done]. apply Ho.
    + apply Hset in Hq; [done|apply Ho|]. intros q' [_ Hq']%lookup_delete_Some. eapply Hown; [|done]. apply Ho.
    + revert Hq. destruct Hw as [->| ->]; cbn; intros [Hq _]%map_lookup_filter_Some; [by eapply (Hown 32); [left|]|by eapply (Hown 128); [right|]].
    + revert Hq. by destruct Hw as [->| ->]; cbn; rewrite lookup_empty.
  - clear -Hs. destruct Hs; unfold EINVAL, ENOMEM; auto; right; lia.
Qed.

(** An operation that keeps the invariant and the list of peers. *)
Definition keeps_config (d d' : config_device) : Prop := config_inv siphash [] d' ∧ cd_peer_list d' = cd_peer_list d.

Lemma frame_keeps d d' : config_inv siphash [] d → frame d d' → keeps_config d d'.
Proof. intros Hi Hf. split; [by eapply frame_inv|apply Hf]. Qed.

Lemma keeps_config_trans d d1 d2 : keeps_config d d1 → keeps_config d1 d2 → keeps_config d d2.
Proof. intros [_ H1] [Hi H2]. split; [done|]. by rewrite H2. Qed.

Lemma set_allowedip_keeps p attrs d :
  config_inv siphash [] d → p ∈ cd_peer_list d → allowedip_attrs_ok attrs → keeps_config d (set_allowedip p attrs d).2.
Proof.
  intros Hi Hp [Hip Hc]. unfold set_allowedip. destruct (aa_family attrs) as [family|]; [|done].
  destruct (aa_ipaddr attrs) as [ip|]; [|done]. destruct (aa_cidr_mask attrs) as [cidr|]; [|done]. cbn in Hip, Hc.
  assert (Hset : ∀ bits, is_key bits ip → keeps_config d (if flagged (default 0 (aa_flags attrs)) WGALLOWEDIP_F_REMOVE_ME
    then let '(ret, a) := wg_allowedips_remove bits ip cidr p (cd_peer_allowedips d) in (ret, d{{ cd_peer_allowedips := a }})
    else let '(alloc1, d) := allocate d in let '(alloc2, d) := allocate d in
         let '(ret, a) := wg_allowedips_insert alloc1 alloc2 bits ip cidr p (cd_peer_allowedips d) in
         (ret, d{{ cd_peer_allowedips := a }})).2).
  { intros bits Hk. case_if.
    - destruct (wg_allowedips_remove _ _ _ _ _) as [ret a] eqn:Hr. split; [|done].
      eapply (exec_inv (Remove bits ip cidr p)); [done|done|cbn; by rewrite Hr|done].
    - pose proof (frame_allocate d) as H1. destruct (allocate d) as [alloc1 d1]. cbn [snd] in H1.
      pose proof (frame_allocate d1) as H2. destruct (allocate d1) as [alloc2 d2]. cbn [snd] in H2.
      destruct (frame_keeps d d2 Hi) as [Hi2 Hl2]; [by etransitivity|].
      destruct (wg_allowedips_insert _ _ _ _ _ _ _) as [ret a] eqn:Hr. split; [|done].
      eapply (exec_inv (Insert alloc1 alloc2 bits ip cidr p)); [done|done|cbn; by rewrite Hr|by rewrite Hl2]. }
  repeat case_if; simpl_guards; try done; apply Hset; (split; [|split; [|done]]).
  all: first [by left|by right|change (32 / 8) with 4; change (128 / 8) with 16; zlia].
Qed.

Lemma set_allowedips_keeps p l d :
  config_inv siphash [] d → p ∈ cd_peer_list d → Forall (λ r, ∀ a, r = Ok a → allowedip_attrs_ok a) l → keeps_config d (set_allowedips p l d).2.
Proof.
  intros Hi Hp Hl. revert d Hi Hp. induction Hl as [|r l Hr _ IH]; intros d Hi Hp; cbn [set_allowedips]; [done|].
  destruct r as [a|e]; [|done]. pose proof (set_allowedip_keeps p a d Hi Hp (Hr a eq_refl)) as Hk.
  destruct (set_allowedip p a d) as [ret d1]. cbn [snd] in Hk. case_if; [done|]. eapply keeps_config_trans; [exact Hk|].
  destruct Hk as [Hi1 Hl1]. apply IH; [done|by rewrite Hl1].
Qed.

(** ** Peers *)
Definition peer_attrs_ok (a : peer_attrs) : Prop :=
  from_option (Forall (λ r, ∀ x, r = Ok x → allowedip_attrs_ok x)) True (pa_allowedips a).

Lemma update_peer_inv p flags psk attrs d :
  config_inv siphash [] d → p ∈ cd_peer_list d → peer_attrs_ok attrs → config_inv siphash [] (update_peer p flags psk attrs d).2.
Proof.
  intros Hi Hp Ha. unfold update_peer. case_if; [by apply remove_inv|]. set (d1 := set_psk p psk d).
  assert (H1 : keeps_config d d1) by (apply frame_keeps; [done|]; apply frame_set_psk).
  set (d2 := set_endpoint_attr _ _ _).
  assert (H2 : keeps_config d d2) by (eapply keeps_config_trans; [exact H1|]; apply frame_keeps; [apply H1|apply frame_set_endpoint]).
  clearbody d1 d2. clear H1. set (d3 := if flagged flags WGPEER_F_REPLACE_ALLOWEDIPS then _ else d2).
  assert (H3 : keeps_config d d3).
  { eapply keeps_config_trans; [exact H2|]. destruct H2 as [Hi2 _]. subst d3. case_if; [|done].
    split; [|done]. by apply (exec_inv (RemovePeer p) [] d2 0). }
  clearbody d3. clear H2.
  destruct (match pa_allowedips attrs with Some l => _ | None => _ end) as [ret d4] eqn:H4.
  assert (Hk4 : keeps_config d d4).
  { eapply keeps_config_trans; [exact H3|]. destruct H3 as [Hi3 Hl3]. unfold peer_attrs_ok in Ha. destruct (pa_allowedips attrs) as [l|].
    - pose proof (set_allowedips_keeps p l d3 Hi3) as Hk. rewrite H4 in Hk. apply Hk; [by rewrite Hl3|done].
    - by injection H4 as <- <-. }
  clear H4. destruct Hk4 as [Hi4 _]. case_if; [done|]. eapply frame_inv; [|exact Hi4].
  case_if; [etransitivity; [|apply frame_call]|]; apply frame_set_keepalive.
Qed.

Lemma set_peer_inv attrs d :
  config_inv siphash [] d → peer_attrs_ok attrs → config_inv siphash [] (set_peer siphash now attrs d).2.
Proof.
  intros Hi Ha. unfold set_peer. destruct (pa_public_key attrs) as [k|]; [|done]. set (psk := match pa_preshared_key attrs with Some _ => _ | None => _ end).
  do 3 (case_if; [done|]).
  destruct (find_peer siphash k d) as [p|] eqn:Hf.
  { apply (find_peer_spec [] d k p Hi) in Hf as [Hp _]. by apply update_peer_inv. }
  case_if; [done|]. destruct (si_has_identity _ && _) eqn:Hown; [done|].
  destruct (create_inv k psk d Hi Hf) as (Hc&_&Hin).
  { intros Hid Hk. rewrite Hid, (bool_decide_eq_true_2 _ Hk) in Hown. done. }
  destruct (wg_peer_create _ _ _ _ _) as [[p|e] d1]; [|done]. apply update_peer_inv; [done|by apply Hin|done].
Qed.

Lemma set_peers_inv l d :
  config_inv siphash [] d → Forall (λ r, ∀ a, r = Ok a → peer_attrs_ok a) l → config_inv siphash [] (set_peers siphash now l d).2.
Proof.
  intros Hi Hl. revert d Hi. induction Hl as [|r l Hr _ IH]; intros d Hi; cbn [set_peers]; [done|].
  destruct r as [a|e]; [|done]. pose proof (set_peer_inv a d Hi (Hr a eq_refl)) as H1.
  destruct (set_peer _ _ a d) as [ret d1]. case_if; [done|]. by apply IH.
Qed.

(** ** The device *)
Lemma identity_inv id d :
  config_inv siphash [] d → (si_has_identity id = true → ∀ p, p ∈ cd_peer_list d → key_of d p ≠ si_static_public id) →
  config_inv siphash [] d{{ cd_static_identity := id }}.
Proof. intros [] Hid. by constructor. Qed.

(** A key that no peer has is the public key of the device afterwards. *)
Lemma install_private_key_inv key d : config_inv siphash [] d → config_inv siphash [] (install_private_key siphash now key d).
Proof.
  intros Hi. unfold install_private_key. case_if; [done|].
  set (d1 := match curve25519_generate_public key with Some _ => _ | None => d end).
  assert (H1 : config_inv siphash [] d1 ∧ ∀ pub, curve25519_generate_public key = Some pub → ∀ p, p ∈ cd_peer_list d1 → key_of d1 p ≠ pub).
  { subst d1. destruct (curve25519_generate_public key) as [pub|]; [|done].
    destruct (find_peer siphash pub d) as [q|] eqn:Hf.
    - apply (find_peer_spec [] d pub q Hi) in Hf as [Hq Hk]. split; [by apply remove_inv|]. intros pub' [= <-] p Hp Hkp.
      pose proof (remove_inv q d Hi Hq) as Hi'. destruct (after_dead_rest q (peer_make_dead q (note_call (CallTcpPeerStop q) d))) as (Hl&_).
      unfold wg_peer_remove in Hp. rewrite Hl in Hp. apply list_elem_of_filter in Hp as [Hpq Hp].
      assert (Hkd : key_of d p = pub).
      { rewrite <- Hkp. unfold wg_peer_remove, key_of. rewrite after_dead_peers.
        - cbn. rewrite lookup_alter_ne, lookup_alter_ne by done. done.
        - cbn. rewrite lookup_alter_eq. destruct (ci_known _ _ _ Hi q) as [? ->]; [apply elem_of_app; by left|eauto]. }
      apply Hpq. assert (find_peer siphash pub d = Some p) by (by apply (find_peer_spec [] d pub p Hi)).
      assert (find_peer siphash pub d = Some q) by (by apply (find_peer_spec [] d pub q Hi)). congruence.
    - split; [done|]. intros pub' [= <-] p Hp Hk. assert (find_peer siphash pub d = Some p) by (by apply (find_peer_spec [] d pub p Hi)). congruence. }
  clearbody d1. destruct H1 as [Hi1 Hpub]. eapply frame_inv; [apply frame_foldl; intros; apply frame_rekey|].
  apply (frame_inv _ _ d1{{ cd_static_identity ::= wg_noise_set_static_identity_private_key key }}); [by constructor|].
  apply (identity_inv (wg_noise_set_static_identity_private_key key (cd_static_identity d1))); [done|].
  unfold wg_noise_set_static_identity_private_key. destruct (curve25519_generate_public key) as [pub|]; [|done].
  intros _. by apply Hpub.
Qed.

Definition device_attrs_ok (a : device_attrs) : Prop :=
  from_option (Forall (λ r, ∀ x, r = Ok x → peer_attrs_ok x)) True (da_peers a).

Lemma set_device_inv attrs d :
  config_inv siphash [] d → device_attrs_ok attrs →
  config_inv siphash [] (wg_set_device siphash debug now udp4 udp6 ipv6_mod_enabled creating_net ns_capable attrs d).2.
Proof.
  intros Hi Ha. unfold wg_set_device. do 2 (case_if; [done|]).
  pose proof (frame_set_transport (default 0 (da_flags attrs)) (da_transport attrs) d) as H1.
  destruct (set_transport_attr _ _ d) as [ret d1]. cbn [snd] in H1. apply (frame_inv siphash []) in H1; [|done].
  case_if; [done|]. set (d2 := set_fwmark _ _).
  assert (H2 : config_inv siphash [] d2).
  { eapply frame_inv; [apply frame_set_fwmark|]. eapply frame_inv; [|exact H1]. by constructor. }
  clearbody d2. destruct (match da_listen_port attrs with Some _ => _ | None => _ end) as [ret' d3] eqn:H3.
  assert (Hi3 : config_inv siphash [] d3).
  { eapply frame_inv; [|exact H2]. destruct (da_listen_port attrs) as [port|]; [|by injection H3 as <- <-].
    pose proof (frame_set_port port d2) as Hf. by rewrite H3 in Hf. }
  case_if; [done|]. set (d4 := if flagged _ _ then _ else d3).
  assert (Hi4 : config_inv siphash [] d4) by (subst d4; case_if; [by apply remove_all_inv|done]). clearbody d4.
  set (d5 := match da_private_key attrs with Some _ => _ | None => d4 end).
  assert (Hi5 : config_inv siphash [] d5).
  { subst d5. destruct (da_private_key attrs) as [key|]; [|done]. case_if; [by apply install_private_key_inv|done]. }
  clearbody d5. unfold device_attrs_ok in Ha. destruct (da_peers attrs) as [l|]; [|done]. by apply set_peers_inv.
Qed.
End ops.

(** ** Histories

    What happens between requests: packets, handshakes, timers and the interface
    going up and down change endpoints and sessions, but no lookup structure.  A
    dead peer gets no new session. *)
Record activity (d d' : config_device) : Prop := {
  ac_list : cd_peer_list d' = cd_peer_list d;
  ac_table : cd_peer_hashtable d' = cd_peer_hashtable d;
  ac_count : cd_num_peers d' = cd_num_peers d;
  ac_counter : cd_peer_counter d' = cd_peer_counter d;
  ac_identity : cd_static_identity d' = cd_static_identity d;
  ac_allowedips : cd_peer_allowedips d' = cd_peer_allowedips d;
  ac_peers : ∀ p, (λ c, (remote_static c, peer_dead c)) <$> cd_peers d' !! p = (λ c, (remote_static c, peer_dead c)) <$> cd_peers d !! p;
  ac_dead : ∀ p c c', cd_peers d !! p = Some c → cd_peers d' !! p = Some c' → peer_dead c = true →
            np_keypairs (cp_noise c') = np_keypairs (cp_noise c);
}.

(** A device that was just created. *)
Definition new_device (dev : wg_device) (checker : cookie_checker) (st : kstore) (memory : list bool) : config_device :=
  mk_config_device dev 0 0 (mk_identity (zeros 32) (zeros 32) false) checker ∅ [] 0 ∅ wg_allowedips_init st 0 [] memory.

Inductive configured {C : Crypto} (siphash : list Z → Z) (debug : bool) : config_device → Prop :=
  | configured_new dev checker st memory : configured siphash debug (new_device dev checker st memory)
  | configured_request d now udp4 udp6 ipv6 net capable attrs :
      configured siphash debug d → device_attrs_ok attrs →
      configured siphash debug (wg_set_device siphash debug now udp4 udp6 ipv6 net capable attrs d).2
  | configured_activity d d' : configured siphash debug d → activity d d' → configured siphash debug d'.

Lemma new_device_inv siphash dev checker st memory : config_inv siphash [] (new_device dev checker st memory).
Proof.
  constructor; cbn; try done; try (intros p c Hp; by rewrite lookup_empty in Hp).
  - constructor.
  - by intros p ?%not_elem_of_nil.
  - intros p [c Hp]. by rewrite lookup_empty in Hp.
  - apply keys_ok_empty.
  - constructor.
  - apply init_ok.
  - intros bits i q [->| ->]; cbn; by rewrite lookup_empty.
Qed.

Lemma activity_inv siphash d d' : config_inv siphash [] d → activity d d' → config_inv siphash [] d'.
Proof.
  intros [Hnd Hkn Hfr Hal Hem Hta Hke Hco Ho Hai Hpo] [Hl Ht Hn Hc Hid Ha Hp Hd].
  assert (Hview : ∀ p c', cd_peers d' !! p = Some c' → ∃ c, cd_peers d !! p = Some c ∧ remote_static c = remote_static c' ∧ peer_dead c = peer_dead c').
  { intros p c' Hc'. specialize (Hp p). rewrite Hc' in Hp. destruct (cd_peers d !! p) as [c|]; [|done]. cbn in Hp. exists c. naive_solver. }
  assert (Hsome : ∀ p, is_Some (cd_peers d' !! p) ↔ is_Some (cd_peers d !! p)).
  { intros p. specialize (Hp p). destruct (cd_peers d' !! p), (cd_peers d !! p); cbn in Hp; try discriminate; split; intros [? ?]; try discriminate; eauto. }
  assert (Hk : ∀ p, key_of d' p = key_of d p).
  { intros p. unfold key_of. specialize (Hp p). destruct (cd_peers d' !! p), (cd_peers d !! p); cbn in Hp |- *; try discriminate; [|done]. congruence. }
  assert (Hb : bindings d' = bindings d).
  { unfold bindings. rewrite Hl. apply list_fmap_ext. intros i p _. by rewrite Hk. }
  constructor; rewrite ?Hb, ?Hl, ?Ht, ?Hn, ?Hc, ?Hid, ?Ha; try done.
  - intros p Hin. by apply Hsome, Hkn.
  - intros p Hin. by apply Hfr, Hsome.
  - intros p c' Hc'. destruct (Hview p c' Hc') as (c&Hc0&_&<-). by apply Hal.
  - intros p c' Hc' Hin. destruct (Hview p c' Hc') as (c&Hc0&_&Hdead). rewrite (Hd p c c' Hc0 Hc'); [by apply (Hem p)|].
    destruct (peer_dead c) eqn:Hpd; [done|]. apply (Hal p c Hc0) in Hpd. rewrite app_nil_r in Hin. done.
  - intros Hhas p Hin. rewrite Hk. by apply Ho.
Qed.

Lemma configured_inv {C : Crypto} siphash debug d : configured siphash debug d → config_inv siphash [] d.
Proof.
  induction 1 as [dev checker st memory|d now udp4 udp6 ipv6 net capable attrs _ IH Ha|d d' _ IH Hact].
  - apply new_device_inv.
  - by apply set_device_inv.
  - by eapply activity_inv.
Qed.

Lemma lpm_upto_owner bits m k c p : lpm_upto bits m k c = Some p → ∃ i, m !! i = Some p.
Proof. induction c as [|c IH]; cbn [lpm_upto]; destruct (m !! _) eqn:Hm; intros; simplify_eq; eauto. Qed.

(** C12: After any history of requests - with any allocation failing, any socket
    refused and any request stopped half way by an error - the structures of a
    device agree.  The table of public keys finds exactly the listed peers, each by
    its own key; the count is the length of the list and within the limit; no peer
    has the device's own public key; an address is only ever routed to a listed
    peer; and a peer that was removed is dead and holds no session. *)
Theorem device_structures_agree {C : Crypto} (siphash : list Z → Z) (debug : bool) (d : config_device) :
  configured siphash debug d →
  NoDup (cd_peer_list d) ∧
  (∀ k p, find_peer siphash k d = Some p ↔ p ∈ cd_peer_list d ∧ key_of d p = k) ∧
  cd_num_peers d = zlen (cd_peer_list d) ∧ cd_num_peers d <= MAX_PEERS_PER_DEVICE ∧
  (si_has_identity (cd_static_identity d) = true → find_peer siphash (si_static_public (cd_static_identity d)) d = None) ∧
  (∀ bits ip p, is_key bits ip → lookup (root bits (cd_peer_allowedips d)) bits ip = Some p → p ∈ cd_peer_list d) ∧
  (∀ p c, cd_peers d !! p = Some c → p ∉ cd_peer_list d → peer_dead c = true ∧ np_keypairs (cp_noise c) = no_keypairs).
Proof.
  intros Hi%configured_inv. pose proof Hi as [Hnd Hkn Hfr Hal Hem Hta Hke [Hco Hmax] Ho Hai Hpo]. rewrite app_nil_r in *.
  split_and!; [done| |done|done| | |].
  - intros k p. by apply (find_peer_spec _ []).
  - intros Hid. destruct (find_peer _ _ d) as [p|] eqn:Hf; [|done]. apply (find_peer_spec _ [] _ _ _ Hi) in Hf as [Hp Hk].
    by destruct (Ho Hid p Hp).
  - intros bits ip p Hk. rewrite lookup_ok by done. intros [i Hl]%lpm_upto_owner. eapply Hpo; [apply Hk|done].
  - intros p c Hp Hn. split; [|by apply (Hem p)]. destruct (peer_dead c) eqn:Hd; [done|]. by apply (Hal p c Hp) in Hd.
Qed.

(** Two peers, an address that moves from one to the other, and then a private key
    whose public key is that of the first. *)
Definition example_route (a b c e cidr : Z) : result allowedip_attrs :=
  Ok (mk_allowedip_attrs (Some AF_INET) (Some [a; b; c; e]) (Some cidr) None).

Definition example_add (k : Z) (routes : list (result allowedip_attrs)) : result peer_attrs :=
  Ok (mk_peer_attrs (Some (replicate 32 k)) None None None (Some (Sa4 51820 k)) (Some routes) (Some 25)).

Definition example_request1 : device_attrs :=
  mk_device_attrs (Some 1) None (Some WGDEVICE_F_REPLACE_PEERS) (Some 51820) None (Some 1) None
    (Some [example_add 7 [example_route 10 0 0 0 8; example_route 10 1 0 0 16]; example_add 9 [example_route 10 1 0 0 16]]).

Definition example_request2 : device_attrs :=
  mk_device_attrs (Some 1) None None None None None (Some (replicate 32 7)) None.

Definition example_wg : config_device :=
  let set attrs d := (wg_set_device (C := toy_crypto) (λ _, 0) false 0 (λ _, Ok 51820) (λ _, Ok 51820) true true true attrs d).2 in
  let checker := mk_cookie_checker [] [] [] 0 in
  set example_request2 (set example_request1 (new_device (mk_device false WG_TRANSPORT_UDP false 0) checker (mk_kstore ∅ ∅ 0 []) [])).

Lemma device_structures_agree_witness :
  cd_peer_list example_wg = [2] ∧ key_of example_wg 2 = replicate 32 9 ∧ dev_transport (cd_dev example_wg) = WG_TRANSPORT_TCP ∧
  cd_incoming_port example_wg = 51820 ∧
  lookup (root 32 (cd_peer_allowedips example_wg)) 32 [10; 1; 2; 3] = Some 2 ∧
  lookup (root 32 (cd_peer_allowedips example_wg)) 32 [10; 2; 2; 3] = None ∧
  find_peer (λ _, 0) (replicate 32 7) example_wg = None ∧ find_peer (λ _, 0) (replicate 32 9) example_wg = Some 2.
Proof.
  assert (Hc : configured (C := toy_crypto) (λ _, 0) false example_wg).
  { apply configured_request; [apply configured_request; [apply configured_new|]|done].
    cbn. repeat (constructor; [intros x [= <-]; cbn; repeat (constructor; [intros y [= <-]; split; cbn; [repeat constructor; unfold is_byte; lia|lia]|]); constructor|]).
    constructor. }
  destruct (device_structures_agree (C := toy_crypto) (λ _, 0) false example_wg Hc) as (_&Hf&_).
  do 7 (split; [vm_compute; reflexivity|]). apply Hf.
  split; [apply list_elem_of_In; vm_compute; by left|vm_compute; reflexivity].
Defined.
