(* ===== verification/Netlink.v ===== *)
(** * Netlink attributes (tools/netlink.h)

    The part of the tool's small netlink library that builds and reads messages.  A
    message is the list of its bytes; its length is always a multiple of four, so
    the place for the next attribute is its end.  Numbers are in the byte order of
    the machine, taken to be little endian.

    [mnl_attr_nest_start] leaves the length of the nest as it finds it in the
    buffer; it is zero here until [mnl_attr_nest_end] writes it. *)
From stdpp Require Import prelude list.
From Stdlib Require Import ZArith Lia.
From S2P Require Import Prelude.

#[local] Open Scope Z_scope.

Definition MNL_ALIGN (len : Z) : Z := Z.land (len + 3) (Z.lnot 3).
Definition MNL_ATTR_HDRLEN := 4.
Definition NLA_F_NESTED := 0x8000.
Definition NLA_TYPE_MASK := 0x3fff.

(** An attribute: the type with its flags, and the payload. *)
Abbreviation attr := (Z * list Z)%type.

(** ** Building *)

(** The length field has sixteen bits, and the message grows by what the field
    says. *)
Definition mnl_attr_put (type : Z) (data nlh : list Z) : list Z :=
  let payload_len := u16 (MNL_ATTR_HDRLEN + zlen data) in
  let pad := MNL_ALIGN (zlen data) - zlen data in
  ztake (zlen nlh + MNL_ALIGN payload_len)
    (nlh ++ le_bytes 2 payload_len ++ le_bytes 2 type ++ data ++ repeat 0 (Z.to_nat pad)).

Definition mnl_attr_put_check (buflen type : Z) (data nlh : list Z) : option (list Z) :=
  if buflen <? zlen nlh + MNL_ATTR_HDRLEN + MNL_ALIGN (zlen data) then None else Some (mnl_attr_put type data nlh).

(** The place of the nest and the message. *)
Definition mnl_attr_nest_start (type : Z) (nlh : list Z) : Z * list Z :=
  (zlen nlh, nlh ++ [0; 0] ++ le_bytes 2 (Z.lor NLA_F_NESTED type)).

Definition mnl_attr_nest_start_check (buflen type : Z) (nlh : list Z) : option (Z * list Z) :=
  if buflen <? zlen nlh + MNL_ATTR_HDRLEN then None else Some (mnl_attr_nest_start type nlh).

Definition mnl_attr_nest_end (start : Z) (nlh : list Z) : list Z :=
  ztake start nlh ++ le_bytes 2 (u16 (zlen nlh - start)) ++ zdrop (start + 2) nlh.

Definition mnl_attr_nest_cancel (start : Z) (nlh : list Z) : list Z := ztake start nlh.

(** ** Reading *)
Definition mnl_attr_get_type (a : attr) : Z := Z.land a.1 NLA_TYPE_MASK.

Definition nla_len (bytes : list Z) : Z := le_val (ztake 2 bytes).

Definition mnl_attr_ok (bytes : list Z) : bool :=
  (4 <=? zlen bytes) && (4 <=? nla_len bytes) && (nla_len bytes <=? zlen bytes).

(** The attributes the loops [mnl_attr_for_each] visit, for at most [fuel] of
    them. *)
Fixpoint attrs_from (fuel : nat) (bytes : list Z) : list attr :=
  match fuel with
  | O => []
  | S fuel =>
      if mnl_attr_ok bytes then
        let len := nla_len bytes in
        (le_val (ztake 2 (zdrop 2 bytes)), ztake (len - MNL_ATTR_HDRLEN) (zdrop MNL_ATTR_HDRLEN bytes))
          :: attrs_from fuel (zdrop (MNL_ALIGN len) bytes)
      else []
  end.

(** Every attribute takes at least four bytes. *)
Definition mnl_attrs (bytes : list Z) : list attr := attrs_from (length bytes) bytes.

(** ** Facts *)
Lemma MNL_ALIGN_spec len : MNL_ALIGN len = (len + 3) / 4 * 4.
Proof.
  unfold MNL_ALIGN. change (Z.lnot 3) with (Z.lnot (Z.ones 2)). rewrite <- Z.ldiff_land, Z.ldiff_ones_r by lia.
  by rewrite Z.shiftr_div_pow2, Z.shiftl_mul_pow2 by lia.
Qed.

Lemma MNL_ALIGN_bounds len : len <= MNL_ALIGN len < len + 4.
Proof. rewrite MNL_ALIGN_spec. div_mod_lia. Qed.

Lemma MNL_ALIGN_add4 len : MNL_ALIGN (4 + len) = 4 + MNL_ALIGN len.
Proof. rewrite !MNL_ALIGN_spec. div_mod_lia. Qed.

(** The bytes of an attribute. *)
Definition attr_bytes (a : attr) : list Z :=
  le_bytes 2 (4 + zlen a.2) ++ le_bytes 2 a.1 ++ a.2 ++ repeat 0 (Z.to_nat (MNL_ALIGN (zlen a.2) - zlen a.2)).

Definition attrs_bytes (l : list attr) : list Z := concat (attr_bytes <$> l).

Definition attr_ok (a : attr) : Prop := 0 <= a.1 < 2 ^ 16 ∧ 4 + zlen a.2 < 2 ^ 16.

Lemma zlen_repeat (x : Z) n : 0 <= n → zlen (repeat x (Z.to_nat n)) = n.
Proof. intros. unfold zlen. rewrite repeat_length. lia. Qed.

Lemma zlen_attr_bytes a : zlen (attr_bytes a) = 4 + MNL_ALIGN (zlen a.2).
Proof.
  unfold attr_bytes. rewrite !zlen_app, !zlen_le_bytes. pose proof (MNL_ALIGN_bounds (zlen a.2)).
  rewrite zlen_repeat by lia. lia.
Qed.

Lemma attrs_bytes_app l k : attrs_bytes (l ++ k) = attrs_bytes l ++ attrs_bytes k.
Proof. unfold attrs_bytes. by rewrite fmap_app, concat_app. Qed.

Lemma attrs_bytes_cons a l : attrs_bytes (a :: l) = attr_bytes a ++ attrs_bytes l.
Proof. done. Qed.

Lemma attrs_from_bytes fuel l :
  Forall attr_ok l → (length l < fuel)%nat → attrs_from fuel (attrs_bytes l) = l.
Proof.
  intros Hl. revert fuel. induction Hl as [|a l [Ht Hp] _ IH]; intros [|fuel] Hf; cbn in Hf; try lia; [done|].
  rewrite attrs_bytes_cons. cbn [attrs_from]. unfold mnl_attr_ok. 
  set (rest := attrs_bytes l) in *. pose proof (zlen_nonneg a.2). pose proof (MNL_ALIGN_bounds (zlen a.2)).
  assert (Hlen : nla_len (attr_bytes a ++ rest) = 4 + zlen a.2).
  { unfold nla_len, attr_bytes. rewrite <- !app_assoc, ztake_app_length by (by rewrite zlen_le_bytes).
    apply le_bytes_val. cbn. lia. }
  rewrite Hlen, zlen_app, zlen_attr_bytes. pose proof (zlen_nonneg rest).
  rewrite !(proj2 (Z.leb_le _ _)) by lia. cbn [andb]. destruct a as [t d]. cbn [fst snd] in *.
  f_equal; [f_equal|].
  - unfold attr_bytes. cbn [fst snd]. rewrite <- !app_assoc, zdrop_app_length, ztake_app_length by (by rewrite zlen_le_bytes).
    apply le_bytes_val. cbn. lia.
  - unfold attr_bytes, MNL_ATTR_HDRLEN. cbn [fst snd]. rewrite <- !app_assoc, app_assoc.
    rewrite zdrop_app_length, ztake_app_length by (rewrite ?zlen_app, ?zlen_le_bytes; lia). done.
  - rewrite MNL_ALIGN_add4, zdrop_app_length by (by rewrite zlen_attr_bytes). apply IH. lia.
Qed.

Lemma attrs_bytes_length l : (length l <= length (attrs_bytes l))%nat.
Proof.
  induction l as [|a l IH]; [done|]. rewrite attrs_bytes_cons, length_app. pose proof (zlen_attr_bytes a) as Hz.
  pose proof (MNL_ALIGN_bounds (zlen a.2)). pose proof (zlen_nonneg a.2). unfold zlen at 1 in Hz. cbn [length]. lia.
Qed.

Lemma mnl_attrs_bytes l : Forall attr_ok l → mnl_attrs (attrs_bytes l) = l.
Proof.
  intros Hl. unfold mnl_attrs. destruct l as [|a l]; [done|]. apply attrs_from_bytes; [done|].
  pose proof (attrs_bytes_length l). rewrite attrs_bytes_cons, length_app. pose proof (zlen_attr_bytes a) as Hz.
  pose proof (MNL_ALIGN_bounds (zlen a.2)). pose proof (zlen_nonneg a.2). unfold zlen at 1 in Hz. cbn [length]. lia.
Qed.

(** Building in terms of attributes. *)
Lemma mnl_attr_put_bytes type data nlh :
  attr_ok (type, data) → mnl_attr_put type data nlh = nlh ++ attr_bytes (type, data).
Proof.
  intros [_ Hd]. cbn [fst snd] in Hd. pose proof (zlen_nonneg data). unfold mnl_attr_put, MNL_ATTR_HDRLEN.
  unfold u16, wrap; rewrite Z.mod_small by lia. fold (attr_bytes (type, data)).
  apply ztake_all. rewrite zlen_app, zlen_attr_bytes, MNL_ALIGN_add4. cbn [snd]. lia.
Qed.

Lemma mnl_attr_put_check_spec buflen type data nlh :
  attr_ok (type, data) →
  mnl_attr_put_check buflen type data nlh =
    if buflen <? zlen (nlh ++ attr_bytes (type, data)) then None else Some (nlh ++ attr_bytes (type, data)).
Proof.
  intros Ha. unfold mnl_attr_put_check. rewrite mnl_attr_put_bytes by done.
  rewrite zlen_app, zlen_attr_bytes. unfold MNL_ATTR_HDRLEN. by rewrite Z.add_assoc.
Qed.

(** A nest around aligned contents. *)
Lemma mnl_attr_nest_bytes type body nlh :
  0 <= type < 2 ^ 15 → 4 + zlen body < 2 ^ 16 → MNL_ALIGN (zlen body) = zlen body →
  let '(nest, m) := mnl_attr_nest_start type nlh in
  mnl_attr_nest_end nest (m ++ body) = nlh ++ attr_bytes (Z.lor NLA_F_NESTED type, body).
Proof.
  intros Ht Hb Hal. unfold mnl_attr_nest_start, mnl_attr_nest_end. pose proof (zlen_nonneg body).
  rewrite <- !app_assoc, ztake_app_length by done. f_equal. unfold attr_bytes. cbn [fst snd].
  rewrite Hal, Z.sub_diag. cbn [repeat Z.to_nat]. rewrite app_nil_r. f_equal.
  - f_equal. rewrite !zlen_app, zlen_le_bytes. unfold u16, wrap. rewrite Z.mod_small; zlia.
  - rewrite app_assoc, zdrop_app_length by zlia. done.
Qed.

Lemma mnl_attr_nest_cancel_start type body nlh :
  let '(nest, m) := mnl_attr_nest_start type nlh in mnl_attr_nest_cancel nest (m ++ body) = nlh.
Proof. unfold mnl_attr_nest_start, mnl_attr_nest_cancel. rewrite <- app_assoc. by apply ztake_app_length. Qed.

Lemma attrs_bytes_aligned l : MNL_ALIGN (zlen (attrs_bytes l)) = zlen (attrs_bytes l).
Proof.
  induction l as [|a l IH]; [done|]. rewrite attrs_bytes_cons, zlen_app, zlen_attr_bytes. revert IH.
  rewrite !MNL_ALIGN_spec. intros IH. div_mod_lia.
Qed.

Lemma nested_type_range type : 0 <= type < 2 ^ 14 → 0 <= Z.lor NLA_F_NESTED type < 2 ^ 16 ∧ Z.land (Z.lor NLA_F_NESTED type) NLA_TYPE_MASK = type.
Proof.
  intros Ht. unfold NLA_F_NESTED, NLA_TYPE_MASK. split.
  - split; [apply Z.lor_nonneg; lia|]. change 0x8000 with (2 ^ 15).
    destruct (Z.eq_dec type 0) as [->|Hz]; [done|]. apply Z.log2_lt_pow2; [apply Z.lt_le_trans with (2 ^ 15); [lia|]|].
    + rewrite <- (Z.lor_0_r (2 ^ 15)) at 1. apply Z.ldiff_le; [apply Z.lor_nonneg; lia|].
      rewrite Z.lor_0_r. apply Z.bits_inj'. intros n Hn. rewrite Z.ldiff_spec, Z.lor_spec, Z.bits_0. by destruct (Z.testbit (2 ^ 15) n).
    + rewrite Z.log2_lor by lia. apply Z.max_lub_lt; [done|]. apply Z.log2_lt_pow2; lia.
  - rewrite Z.land_lor_distr_l. change 0x3fff with (Z.ones 14). rewrite !Z.land_ones by lia.
    change (0x8000 mod 2 ^ 14) with 0. rewrite Z.mod_small by lia. done.
Qed.
