(* ===== verification/IpcSet.v ===== *)
(** * Sending a configuration to the kernel (tools/ipc-linux.h)

    [kernel_set_device] turns a device into requests.  A request must fit into the
    socket buffer, so a device with many peers or addresses takes several: the loop
    remembers the peer and the allowed address it has come to, sends what it has,
    waits for the answer and goes on in a new message.

    The list pointers [peer] and [allowedip] are the lists that start there. *)
From stdpp Require Import prelude list.
From Stdlib Require Import ZArith Lia.
From S2P Require Import Prelude Net Text Config Netlink.

#[local] Open Scope Z_scope.

(** ** Attribute numbers (uapi/linux/wireguard.h) *)
Definition WG_CMD_SET_DEVICE := 1.
Definition WG_GENL_VERSION := 1.
Definition WGDEVICE_A_IFNAME := 2.
Definition WGDEVICE_A_PRIVATE_KEY := 3.
Definition WGDEVICE_A_FLAGS := 5.
Definition WGDEVICE_A_LISTEN_PORT := 6.
Definition WGDEVICE_A_FWMARK := 7.
Definition WGDEVICE_A_PEERS := 8.
Definition WGDEVICE_A_TRANSPORT := 9.
Definition WGPEER_A_PUBLIC_KEY := 1.
Definition WGPEER_A_PRESHARED_KEY := 2.
Definition WGPEER_A_FLAGS := 3.
Definition WGPEER_A_ENDPOINT := 4.
Definition WGPEER_A_PERSISTENT_KEEPALIVE_INTERVAL := 5.
Definition WGPEER_A_ALLOWEDIPS := 9.
Definition WGALLOWEDIP_A_FAMILY := 1.
Definition WGALLOWEDIP_A_IPADDR := 2.
Definition WGALLOWEDIP_A_CIDR_MASK := 3.
Definition WGALLOWEDIP_A_FLAGS := 4.
Definition NLM_F_REQUEST_ACK := 5.

(** ** Building a message *)

(** [sysconf] reports the page size. *)
Definition mnl_ideal_socket_buffer_size (pagesize : Z) : Z := if 8192 <? pagesize then 8192 else pagesize.

(** The headers; the length in front is written when the message is sent. *)
Definition mnlg_msg_prepare (id seq cmd flags : Z) : list Z :=
  le_bytes 4 0 ++ le_bytes 2 id ++ le_bytes 2 flags ++ le_bytes 4 seq ++ le_bytes 4 0
    ++ [cmd; WG_GENL_VERSION; 0; 0].

Definition mnlg_socket_send (nlh : list Z) : list Z := le_bytes 4 (zlen nlh) ++ zdrop 4 nlh.

Definition sockaddr_bytes (a : sockaddr) : list Z :=
  match a with
  | SaUnspec => []
  | Sa4 port addr => le_bytes 2 AF_INET ++ be_bytes 2 port ++ be_bytes 4 addr ++ repeat 0 8
  | Sa6 port addr scope => le_bytes 2 AF_INET6 ++ be_bytes 2 port ++ le_bytes 4 0 ++ be_bytes 16 addr ++ le_bytes 4 scope
  end.

Section message.
Context (buflen : Z).

(** One attribute after the other, up to the first that does not fit: whether all
    did, and the message. *)
Fixpoint puts (l : list attr) (nlh : list Z) : bool * list Z :=
  match l with
  | [] => (true, nlh)
  | (type, data) :: l =>
      match mnl_attr_put_check buflen type data nlh with
      | Some nlh => puts l nlh
      | None => (false, nlh)
      end
  end.

Definition allowedip_puts (a : wgallowedip) : list attr :=
  [(WGALLOWEDIP_A_FAMILY, le_bytes 2 (wa_family a))]
    ++ (if wa_family a =? AF_INET then [(WGALLOWEDIP_A_IPADDR, be_bytes 4 (wa_ip a))]
        else if wa_family a =? AF_INET6 then [(WGALLOWEDIP_A_IPADDR, be_bytes 16 (wa_ip a))] else [])
    ++ [(WGALLOWEDIP_A_CIDR_MASK, le_bytes 1 (wa_cidr a))]
    ++ (if negb (wa_flags a =? 0) then [(WGALLOWEDIP_A_FLAGS, le_bytes 4 (wa_flags a))] else []).

Definition put_allowedip (a : wgallowedip) (nlh : list Z) : bool * list Z :=
  match mnl_attr_nest_start_check buflen 0 nlh with
  | None => (false, nlh)
  | Some (allowedip_nest, nlh) =>
      let '(ok, nlh) := puts (allowedip_puts a) nlh in
      if ok then (true, mnl_attr_nest_end allowedip_nest nlh) else (false, mnl_attr_nest_cancel allowedip_nest nlh)
  end.

(** The addresses that are left, and the message. *)
Fixpoint put_allowedips (l : list wgallowedip) (nlh : list Z) : list wgallowedip * list Z :=
  match l with
  | [] => ([], nlh)
  | a :: l' =>
      let '(ok, nlh) := put_allowedip a nlh in
      if ok then put_allowedips l' nlh else (l, nlh)
  end.

(** [allowedip] is the list of the addresses to go on with, empty for a peer that
    has not been begun. *)
Definition peer_puts (allowedip : list wgallowedip) (p : wgpeer) : list attr :=
  let fresh := bool_decide (allowedip = []) in
  let flags := Z.lor (if has_flag (wp_flags p) WGPEER_REMOVE_ME then 1 else 0)
                     (if fresh && has_flag (wp_flags p) WGPEER_REPLACE_ALLOWEDIPS then 2 else 0) in
  [(WGPEER_A_PUBLIC_KEY, wp_public_key p)]
    ++ (if fresh then
          (if has_flag (wp_flags p) WGPEER_HAS_PRESHARED_KEY then [(WGPEER_A_PRESHARED_KEY, wp_preshared_key p)] else [])
            ++ match wp_endpoint p with
               | SaUnspec => []
               | ep => [(WGPEER_A_ENDPOINT, sockaddr_bytes ep)]
               end
            ++ (if has_flag (wp_flags p) WGPEER_HAS_PERSISTENT_KEEPALIVE_INTERVAL
                then [(WGPEER_A_PERSISTENT_KEEPALIVE_INTERVAL, le_bytes 2 (wp_persistent_keepalive_interval p))] else [])
        else [])
    ++ (if negb (flags =? 0) then [(WGPEER_A_FLAGS, le_bytes 4 flags)] else []).

(** How the body of the loop over the peers ends. *)
Inductive put_outcome :=
  | PeerPut (nlh : list Z)
  | TooBigAllowedips (allowedip : list wgallowedip) (nlh : list Z)
  | TooBigPeers (nlh : list Z).

Definition put_peer (allowedip : list wgallowedip) (p : wgpeer) (nlh : list Z) : put_outcome :=
  match mnl_attr_nest_start_check buflen 0 nlh with
  | None => TooBigPeers nlh
  | Some (peer_nest, nlh) =>
      let '(ok, nlh) := puts (peer_puts allowedip p) nlh in
      if negb ok then TooBigPeers (mnl_attr_nest_cancel peer_nest nlh)
      else if bool_decide (wp_allowedips p = []) then PeerPut (mnl_attr_nest_end peer_nest nlh)
      else
        let allowedip := if bool_decide (allowedip = []) then wp_allowedips p else allowedip in
        match mnl_attr_nest_start_check buflen WGPEER_A_ALLOWEDIPS nlh with
        | None => TooBigAllowedips allowedip (mnl_attr_nest_end peer_nest nlh)
        | Some (allowedips_nest, nlh) =>
            let '(allowedip, nlh) := put_allowedips allowedip nlh in
            let nlh := mnl_attr_nest_end peer_nest (mnl_attr_nest_end allowedips_nest nlh) in
            if bool_decide (allowedip = []) then PeerPut nlh else TooBigAllowedips allowedip nlh
        end
  end.

(** Where the loop has come to: [peer] and [allowedip]. *)
Fixpoint put_peers (peer : list wgpeer) (allowedip : list wgallowedip) (nlh : list Z)
    : (list wgpeer * list wgallowedip) * list Z :=
  match peer with
  | [] => (([], allowedip), nlh)
  | p :: peer' =>
      match put_peer allowedip p nlh with
      | PeerPut nlh => put_peers peer' [] nlh
      | TooBigAllowedips allowedip nlh => ((peer, allowedip), nlh)
      | TooBigPeers nlh => ((peer, allowedip), nlh)
      end
  end.

Definition device_puts (d : wgdevice) : list attr :=
  (if has_flag (wd_flags d) WGDEVICE_HAS_PRIVATE_KEY then [(WGDEVICE_A_PRIVATE_KEY, wd_private_key d)] else [])
    ++ (if has_flag (wd_flags d) WGDEVICE_HAS_LISTEN_PORT then [(WGDEVICE_A_LISTEN_PORT, le_bytes 2 (wd_listen_port d))] else [])
    ++ (if has_flag (wd_flags d) WGDEVICE_HAS_FWMARK then [(WGDEVICE_A_FWMARK, le_bytes 4 (wd_fwmark d))] else [])
    ++ (if has_flag (wd_flags d) WGDEVICE_HAS_TRANSPORT then [(WGDEVICE_A_TRANSPORT, le_bytes 1 (wd_transport d))] else [])
    ++ (if has_flag (wd_flags d) WGDEVICE_REPLACE_PEERS then [(WGDEVICE_A_FLAGS, le_bytes 4 1)] else []).

(** From [again] to [send]. *)
Definition build_message (header : list Z) (d : wgdevice) (peer : list wgpeer) (allowedip : list wgallowedip)
    : (list wgpeer * list wgallowedip) * list Z :=
  let fixed := (WGDEVICE_A_IFNAME, wd_name d ++ [0]) :: (if bool_decide (peer = []) then device_puts d else []) in
  let nlh := foldl (λ nlh a, mnl_attr_put a.1 a.2 nlh) header fixed in
  if bool_decide (wd_peers d = []) then (([], allowedip), nlh)
  else
    let '(peers_nest, nlh) := mnl_attr_nest_start WGDEVICE_A_PEERS nlh in
    let '(cursor, nlh) := put_peers (if bool_decide (peer = []) then wd_peers d else peer) allowedip nlh in
    (cursor, mnl_attr_nest_end peers_nest nlh).

(** The loop, with the kernel's answer to each message; [None] when it does not end
    within [fuel] messages. *)
Fixpoint set_device_loop {S} (send : list Z → S → Z * S) (header : list Z) (fuel : nat) (d : wgdevice)
    (peer : list wgpeer) (allowedip : list wgallowedip) (s : S) : option (Z * S) :=
  match fuel with
  | O => None
  | Datatypes.S fuel =>
      let '((peer, allowedip), nlh) := build_message header d peer allowedip in
      let '(ret, s) := send (mnlg_socket_send nlh) s in
      if ret <? 0 then Some (ret, s)
      else if bool_decide (peer = []) then Some (0, s)
      else set_device_loop send header fuel d peer allowedip s
  end.
End message.

(** The check in front of the loop: what [kernel_get_device] returned, and the
    device to send. *)
Definition check_transport (current : result wgdevice) (d : wgdevice) : result wgdevice :=
  if has_flag (wd_flags d) WGDEVICE_HAS_TRANSPORT then
    match current with
    | Err e => Err e
    | Ok current =>
        if has_flag (wd_flags current) WGDEVICE_HAS_TRANSPORT then Ok d
        else if wd_transport d =? 1 then Err (-95)
        else Ok (d{{ wd_flags := Z.ldiff (wd_flags d) WGDEVICE_HAS_TRANSPORT }})
    end
  else Ok d.
