(* ===== verification/IpcSetSpec.v ===== *)
(** * The messages the tool builds *)
From stdpp Require Import prelude list.
From Stdlib Require Import ZArith Lia.
From S2P Require Import Prelude Net Encoding Text Config Netlink IpcSet.

#[local] Open Scope Z_scope.

(** ** Messages as attributes *)
Definition nest (type : Z) (l : list attr) : attr := (Z.lor NLA_F_NESTED type, attrs_bytes l).

Definition allowedip_attr (a : wgallowedip) : attr := nest 0 (allowedip_puts a).

(** What a message says of one peer: the peer, the addresses the loop goes on with,
    and those the message holds, if it has a list of them. *)
Record chunk := mk_chunk { ck_peer : wgpeer; ck_cont : list wgallowedip; ck_ips : option (list wgallowedip) }.

Definition chunk_attrs (c : chunk) : list attr :=
  peer_puts (ck_cont c) (ck_peer c)
    ++ match ck_ips c with Some l => [nest WGPEER_A_ALLOWEDIPS (allowedip_attr <$> l)] | None => [] end.

Definition chunk_attr (c : chunk) : attr := nest 0 (chunk_attrs c).

(** The addresses of a peer that are still to be sent. *)
Definition rest_ips (cont : list wgallowedip) (p : wgpeer) : list wgallowedip :=
  if bool_decide (cont = []) then wp_allowedips p else cont.

(** The list in the last part of a peer, and in an earlier part that leaves [l2]. *)
Definition whole_ips (cont : list wgallowedip) (p : wgpeer) : option (list wgallowedip) :=
  if bool_decide (wp_allowedips p = []) then None else Some (rest_ips cont p).

Definition part_ips (cont : list wgallowedip) (p : wgpeer) (ips : option (list wgallowedip)) (l2 : list wgallowedip) : Prop :=
  ∃ l1, rest_ips cont p = l1 ++ l2 ∧ l2 ≠ [] ∧ (ips = Some l1 ∨ ips = None ∧ l1 = []).

(** *** The loop's place *)
Abbreviation cursor := (list wgpeer * list wgallowedip)%type.

(** Addresses to go on with are some of the first peer's last ones. *)
Definition cursor_ok (c : cursor) : Prop := ∀ p peer, c.1 = p :: peer → c.2 ≠ [] → wp_allowedips p ≠ [].

(** What is left to send. *)
Definition remaining (c : cursor) : nat :=
  match c.1 with
  | [] => 0
  | p :: peer => S (length (rest_ips c.2 p)) + sum_list ((λ p, S (length (wp_allowedips p))) <$> peer)
  end.

(** A message that takes the loop from one place to another. *)
Inductive covers : cursor → list chunk → cursor → Prop :=
  | covers_nil c : covers c [] c
  | covers_peer p peer cont chunks c :
      covers (peer, []) chunks c → covers (p :: peer, cont) (mk_chunk p cont (whole_ips cont p) :: chunks) c
  | covers_part p peer cont ips l2 :
      part_ips cont p ips l2 → covers (p :: peer, cont) [mk_chunk p cont ips] (p :: peer, l2).

Lemma covers_remaining c chunks c' : covers c chunks c' → (remaining c' <= remaining c)%nat.
Proof.
  induction 1 as [c|p peer cont chunks c _ IH|p peer cont ips l2 (l1&Hl&Hl2&_)]; [done| |].
  - etransitivity; [exact IH|]. unfold remaining. cbn [fst snd]. destruct peer as [|q peer]; [lia|].
    change (rest_ips [] q) with (wp_allowedips q). cbn. lia.
  - unfold remaining. cbn [fst snd]. rewrite Hl, length_app. unfold rest_ips. rewrite bool_decide_eq_false_2 by done. lia.
Qed.

(** *** Sizes *)
(** The length of an attribute of given payload length. *)
Lemma zlen_attrs_cons a l : zlen (attrs_bytes (a :: l)) = 4 + MNL_ALIGN (zlen a.2) + zlen (attrs_bytes l).
Proof. by rewrite attrs_bytes_cons, zlen_app, zlen_attr_bytes. Qed.

Lemma zlen_sockaddr_bytes a : zlen (sockaddr_bytes a) = match a with SaUnspec => 0 | Sa4 _ _ => 16 | Sa6 _ _ _ => 28 end.
Proof. destruct a; [done| |]; unfold sockaddr_bytes; rewrite !zlen_app, !zlen_le_bytes, ?zlen_be_bytes; done. Qed.

Lemma peer_puts_size p cont : peer_ok p → zlen (attrs_bytes (peer_puts cont p)) <= 124.
Proof.
  intros [_ [Hk _] [Hpsk _] _ _ _]. unfold WG_KEY_LEN in *. unfold peer_puts. cbv zeta. rewrite !attrs_bytes_app, !zlen_app.
  destruct (wp_endpoint p); repeat case_if; cbn [app];
    rewrite ?attrs_bytes_app, ?zlen_app, ?zlen_attrs_cons; cbn [snd]; rewrite ?Hk, ?Hpsk, ?zlen_le_bytes, ?zlen_sockaddr_bytes;
    vm_compute; discriminate.
Qed.

Lemma allowedip_size a : zlen (attr_bytes (allowedip_attr a)) <= 52.
Proof.
  unfold allowedip_attr, nest. rewrite zlen_attr_bytes. cbn [snd]. rewrite attrs_bytes_aligned. unfold allowedip_puts.
  repeat case_if; cbn [app]; rewrite !zlen_attrs_cons; cbn [snd]; rewrite ?zlen_le_bytes, ?zlen_be_bytes; vm_compute; discriminate.
Qed.

Section bytes.
Context (buflen : Z) (Hbuf : buflen < 2 ^ 16).

(** The message [nlh] with [more] behind it fits. *)
Definition fits (nlh more : list Z) : Prop := zlen nlh + zlen more <= buflen.

Lemma put_check_cases type data nlh :
  0 <= type < 2 ^ 16 →
  (fits nlh (attr_bytes (type, data)) ∧ mnl_attr_put_check buflen type data nlh = Some (nlh ++ attr_bytes (type, data)))
  ∨ (¬ fits nlh (attr_bytes (type, data)) ∧ mnl_attr_put_check buflen type data nlh = None).
Proof.
  intros Ht. unfold fits. rewrite zlen_attr_bytes. cbn [snd]. pose proof (MNL_ALIGN_bounds (zlen data)). pose proof (zlen_nonneg nlh).
  unfold mnl_attr_put_check, MNL_ATTR_HDRLEN. destruct (Z.ltb_spec buflen (zlen nlh + 4 + MNL_ALIGN (zlen data))); [right; split; [lia|done]|].
  left. split; [lia|]. f_equal. apply mnl_attr_put_bytes. split; cbn [fst snd]; [done|]. lia.
Qed.

Lemma puts_cases l nlh :
  Forall (λ a, 0 <= a.1 < 2 ^ 16) l → zlen nlh <= buflen →
  (fits nlh (attrs_bytes l) ∧ puts buflen l nlh = (true, nlh ++ attrs_bytes l))
  ∨ (¬ fits nlh (attrs_bytes l) ∧ ∃ l1, puts buflen l nlh = (false, nlh ++ attrs_bytes l1)).
Proof.
  intros Hl. revert nlh. induction Hl as [|[type data] l Ht _ IH]; intros nlh Hn.
  - left. split; [unfold fits; cbn; zlia|]. cbn [puts]. by rewrite app_nil_r.
  - cbn [puts fst] in *. unfold fits. rewrite attrs_bytes_cons, zlen_app.
    destruct (put_check_cases type data nlh Ht) as [[Hf ->]|[Hf ->]]; unfold fits in Hf.
    + destruct (IH (nlh ++ attr_bytes (type, data))) as [[Hf' ->]|[Hf' [l1 ->]]]; [rewrite zlen_app; lia| |].
      * left. unfold fits in Hf'. rewrite zlen_app in Hf'. split; [lia|]. by rewrite <- app_assoc.
      * right. unfold fits in Hf'. rewrite zlen_app in Hf'. split; [lia|]. exists ((type, data) :: l1). by rewrite attrs_bytes_cons, app_assoc.
    + right. pose proof (zlen_nonneg (attrs_bytes l)). split; [lia|]. exists []. by rewrite app_nil_r.
Qed.

Lemma nest_bytes type l nlh :
  0 <= type < 2 ^ 14 → 4 + zlen (attrs_bytes l) < 2 ^ 16 →
  mnl_attr_nest_end (zlen nlh) ((mnl_attr_nest_start type nlh).2 ++ attrs_bytes l) = nlh ++ attr_bytes (nest type l).
Proof. intros Ht Hl. apply (mnl_attr_nest_bytes type (attrs_bytes l) nlh); [lia|done|apply attrs_bytes_aligned]. Qed.

Lemma zlen_nest_start type nlh : zlen (mnl_attr_nest_start type nlh).2 = zlen nlh + 4.
Proof. unfold mnl_attr_nest_start. cbn [snd]. rewrite !zlen_app, zlen_le_bytes. done. Qed.

Lemma zlen_nest type l : zlen (attr_bytes (nest type l)) = 4 + zlen (attrs_bytes l).
Proof. rewrite zlen_attr_bytes. cbn [snd nest]. by rewrite attrs_bytes_aligned. Qed.

Lemma nest_cancel type l nlh : mnl_attr_nest_cancel (zlen nlh) ((mnl_attr_nest_start type nlh).2 ++ attrs_bytes l) = nlh.
Proof. apply (mnl_attr_nest_cancel_start type (attrs_bytes l) nlh). Qed.

Lemma allowedip_puts_types a : Forall (λ a, 0 <= a.1 < 2 ^ 16) (allowedip_puts a).
Proof. unfold allowedip_puts. repeat case_if; repeat constructor; done. Qed.

Lemma peer_puts_types cont p : Forall (λ a, 0 <= a.1 < 2 ^ 16) (peer_puts cont p).
Proof. unfold peer_puts. cbv zeta. destruct (wp_endpoint p); repeat case_if; repeat constructor; done. Qed.

Lemma put_allowedip_cases a nlh :
  zlen nlh <= buflen →
  (fits nlh (attr_bytes (allowedip_attr a)) ∧ put_allowedip buflen a nlh = (true, nlh ++ attr_bytes (allowedip_attr a)))
  ∨ (¬ fits nlh (attr_bytes (allowedip_attr a)) ∧ put_allowedip buflen a nlh = (false, nlh)).
Proof.
  intros Hn. unfold put_allowedip, mnl_attr_nest_start_check, fits, allowedip_attr, MNL_ATTR_HDRLEN. rewrite zlen_nest.
  pose proof (zlen_nonneg (attrs_bytes (allowedip_puts a))). pose proof (zlen_nonneg nlh).
  destruct (Z.ltb_spec buflen (zlen nlh + 4)); [right; split; [lia|done]|].
  change (mnl_attr_nest_start 0 nlh) with (zlen nlh, (mnl_attr_nest_start 0 nlh).2). cbv iota beta.
  destruct (puts_cases (allowedip_puts a) (mnl_attr_nest_start 0 nlh).2 (allowedip_puts_types a)) as [[Hf ->]|[Hf [l1 ->]]];
    unfold fits in *; rewrite ?zlen_nest_start in *; [lia|left|right].
  - split; [lia|]. f_equal. apply nest_bytes; lia.
  - split; [lia|]. f_equal. apply nest_cancel.
Qed.

Lemma put_allowedips_cases l nlh :
  zlen nlh <= buflen →
  ∃ l1 l2, l = l1 ++ l2 ∧ put_allowedips buflen l nlh = (l2, nlh ++ attrs_bytes (allowedip_attr <$> l1)) ∧
    fits nlh (attrs_bytes (allowedip_attr <$> l1)) ∧
    (∀ a l2', l1 = [] → l2 = a :: l2' → ¬ fits nlh (attr_bytes (allowedip_attr a))).
Proof.
  revert nlh. induction l as [|a l IH]; intros nlh Hn.
  - exists [], []. cbn. rewrite app_nil_r. split_and!; [done|done|unfold fits; cbn; zlia|done].
  - cbn [put_allowedips]. destruct (put_allowedip_cases a nlh Hn) as [[Hf ->]|[Hf ->]].
    + destruct (IH (nlh ++ attr_bytes (allowedip_attr a))) as (l1&l2&->&->&Hf'&_); [unfold fits in Hf; rewrite zlen_app; lia|].
      exists (a :: l1), l2. cbn [fmap list_fmap]. rewrite attrs_bytes_cons, <- app_assoc. split_and!; [done|done| |done].
      unfold fits in *. rewrite zlen_app in *. lia.
    + exists [], (a :: l). cbn. rewrite app_nil_r. split_and!; [done|done|unfold fits; cbn; zlia|]. by intros ? ? _ [= <- <-].
Qed.
(** *** A peer *)
Lemma zlen_chunk_none p cont : zlen (attr_bytes (chunk_attr (mk_chunk p cont None))) = 4 + zlen (attrs_bytes (peer_puts cont p)).
Proof. unfold chunk_attr, chunk_attrs. cbn [ck_cont ck_peer ck_ips]. by rewrite app_nil_r, zlen_nest. Qed.

Lemma zlen_chunk_some p cont l :
  zlen (attr_bytes (chunk_attr (mk_chunk p cont (Some l)))) =
  8 + zlen (attrs_bytes (peer_puts cont p)) + zlen (attrs_bytes (allowedip_attr <$> l)).
Proof.
  unfold chunk_attr, chunk_attrs. cbn [ck_cont ck_peer ck_ips].
  rewrite zlen_nest, attrs_bytes_app, zlen_app, attrs_bytes_cons, zlen_app, zlen_nest.
  change (zlen (attrs_bytes [])) with 0. lia.
Qed.

Lemma put_peer_cases cont p nlh :
  zlen nlh <= buflen → (cont ≠ [] → wp_allowedips p ≠ []) →
  (∃ c, c = mk_chunk p cont (whole_ips cont p) ∧ fits nlh (attr_bytes (chunk_attr c)) ∧
        put_peer buflen cont p nlh = PeerPut (nlh ++ attr_bytes (chunk_attr c)))
  ∨ (∃ ips l2, part_ips cont p ips l2 ∧ fits nlh (attr_bytes (chunk_attr (mk_chunk p cont ips))) ∧
        put_peer buflen cont p nlh = TooBigAllowedips l2 (nlh ++ attr_bytes (chunk_attr (mk_chunk p cont ips))) ∧
        (l2 = rest_ips cont p → ∀ a l2', l2 = a :: l2' → ¬ fits nlh (attr_bytes (chunk_attr (mk_chunk p cont (Some [a]))))))
  ∨ (¬ fits nlh (attr_bytes (chunk_attr (mk_chunk p cont None))) ∧ put_peer buflen cont p nlh = TooBigPeers nlh).
Proof.
  intros Hn Hc. unfold put_peer, mnl_attr_nest_start_check, MNL_ATTR_HDRLEN. pose proof (zlen_nonneg nlh).
  pose proof (zlen_nonneg (attrs_bytes (peer_puts cont p))).
  destruct (Z.ltb_spec buflen (zlen nlh + 4)).
  { right; right. split; [unfold fits; rewrite zlen_chunk_none; lia|done]. }
  change (mnl_attr_nest_start 0 nlh) with (zlen nlh, (mnl_attr_nest_start 0 nlh).2). cbv iota beta. set (m := (mnl_attr_nest_start 0 nlh).2).
  assert (Hm : zlen m = zlen nlh + 4) by apply zlen_nest_start.
  destruct (puts_cases (peer_puts cont p) m (peer_puts_types cont p)) as [[Hf ->]|[Hf [l1 ->]]]; [lia| |]; cbn [negb].
  2: { right; right. unfold fits in *. rewrite zlen_chunk_none. split; [lia|]. f_equal. apply nest_cancel. }
  unfold fits in Hf. set (m' := m ++ attrs_bytes (peer_puts cont p)). assert (Hm' : zlen m' = zlen m + zlen (attrs_bytes (peer_puts cont p))) by apply zlen_app.
  assert (Hend : ∀ l, zlen (m' ++ attrs_bytes l) <= buflen →
    mnl_attr_nest_end (zlen nlh) (m' ++ attrs_bytes l) = nlh ++ attr_bytes (nest 0 (peer_puts cont p ++ l))).
  { intros l Hl. rewrite zlen_app in Hl. unfold m'. rewrite <- app_assoc, <- attrs_bytes_app.
    apply nest_bytes; [lia|]. rewrite attrs_bytes_app, zlen_app. lia. }
  pose proof (Hend [] ltac:(rewrite app_nil_r; lia)) as Hend0. rewrite !app_nil_r in Hend0.
  unfold whole_ips, part_ips, rest_ips. case_bool_decide as Hips.
  { left. eexists. split; [done|]. unfold fits. rewrite zlen_chunk_none. split; [lia|]. f_equal. rewrite Hend0. unfold chunk_attr, chunk_attrs. cbn. by rewrite app_nil_r. }
  set (rest := if bool_decide (cont = []) then wp_allowedips p else cont).
  assert (Hrest : rest ≠ []) by (subst rest; case_bool_decide; auto).
  destruct (Z.ltb_spec buflen (zlen m' + 4)).
  { right; left. exists None, rest. split; [exists []; split_and!; [done|done|by right]|]. unfold fits. rewrite zlen_chunk_none. split; [lia|].
    split; [f_equal; rewrite Hend0; unfold chunk_attr, chunk_attrs; cbn; by rewrite app_nil_r|].
    intros _ a l2 _. rewrite zlen_chunk_some. pose proof (zlen_nonneg (attrs_bytes (allowedip_attr <$> [a]))). lia. }
  change (mnl_attr_nest_start 9 m') with (zlen m', (mnl_attr_nest_start 9 m').2).
  change (mnl_attr_nest_start WGPEER_A_ALLOWEDIPS m') with (zlen m', (mnl_attr_nest_start 9 m').2). cbv iota beta.
  destruct (put_allowedips_cases rest (mnl_attr_nest_start 9 m').2) as (l1&l2&Hl&->&Hf1&Hno); [rewrite zlen_nest_start; lia|].
  unfold fits in Hf1. rewrite zlen_nest_start in Hf1. rewrite nest_bytes by lia.
  pose proof (Hend [nest 9 (allowedip_attr <$> l1)]) as Hend1. cbn [attrs_bytes] in Hend1. rewrite attrs_bytes_cons in Hend1.
  change (attrs_bytes []) with (@nil Z) in Hend1. rewrite app_nil_r, zlen_app, zlen_nest in Hend1. rewrite Hend1 by lia.
  assert (Hfit : fits nlh (attr_bytes (chunk_attr (mk_chunk p cont (Some l1))))) by (unfold fits; rewrite zlen_chunk_some; lia).
  case_bool_decide as Hl2.
  - left. exists (mk_chunk p cont (Some l1)). subst l2. rewrite app_nil_r in Hl. rewrite Hl. done.
  - right; left. exists (Some l1), l2. split; [exists l1; split_and!; [done|done|by left]|]. split; [done|]. split; [done|].
    intros He a l2' Ha. assert (l1 = []) as -> by (destruct l1; [done|]; apply (f_equal length) in Hl; rewrite length_app, He in Hl; cbn in Hl; lia).
    specialize (Hno a l2' eq_refl Ha). unfold fits in *. rewrite zlen_nest_start in Hno. rewrite zlen_chunk_some. cbn [fmap list_fmap].
    rewrite attrs_bytes_cons, zlen_app. change (zlen (attrs_bytes [])) with 0. lia.
Qed.
Lemma chunk_size_none p cont : peer_ok p → zlen (attr_bytes (chunk_attr (mk_chunk p cont None))) <= 256.
Proof. intros Hp. rewrite zlen_chunk_none. pose proof (peer_puts_size p cont Hp). lia. Qed.

Lemma chunk_size p cont a : peer_ok p → zlen (attr_bytes (chunk_attr (mk_chunk p cont (Some [a])))) <= 256.
Proof.
  intros Hp. rewrite zlen_chunk_some. cbn [fmap list_fmap]. rewrite attrs_bytes_cons, zlen_app. change (zlen (attrs_bytes [])) with 0.
  pose proof (peer_puts_size p cont Hp). pose proof (allowedip_size a). lia.
Qed.

(** *** All peers *)
Lemma put_peers_cases peer cont nlh :
  zlen nlh <= buflen → cursor_ok (peer, cont) →
  ∃ chunks c, put_peers buflen peer cont nlh = (c, nlh ++ attrs_bytes (chunk_attr <$> chunks)) ∧
    fits nlh (attrs_bytes (chunk_attr <$> chunks)) ∧ covers (peer, cont) chunks c ∧
    (∀ p peer', peer = p :: peer' → peer_ok p → zlen nlh + 256 <= buflen → (remaining c < remaining (peer, cont))%nat).
Proof.
  revert cont nlh. induction peer as [|p peer IH]; intros cont nlh Hn Hc; cbn [put_peers].
  { exists [], ([], cont). cbn. rewrite app_nil_r. split_and!; [done|unfold fits; cbn; zlia|constructor|done]. }
  destruct (put_peer_cases cont p nlh Hn) as [(c&Hc'&Hf&->)|[(ips&l2&Hips&Hf&->&Hsmall)|[Hf ->]]]; [by apply (Hc p peer)| | |].
  - destruct (IH [] (nlh ++ attr_bytes (chunk_attr c))) as (chunks&c'&->&Hf'&Hcov&_); [unfold fits in Hf; rewrite zlen_app; lia|intros ? ? _ Hne; by destruct Hne|].
    exists (c :: chunks), c'. cbn [fmap list_fmap]. rewrite attrs_bytes_cons, <- app_assoc. unfold fits in *. rewrite zlen_app in *.
    split_and!; [done|lia|subst c; by constructor|]. intros ?? [= <- <-] _ _. apply covers_remaining in Hcov.
    cbn [remaining sum_list fmap list_fmap]. revert Hcov. unfold remaining, rest_ips. destruct peer; cbn; case_bool_decide; cbn; lia.
  - exists [mk_chunk p cont ips], (p :: peer, l2). cbn [fmap list_fmap]. rewrite attrs_bytes_cons. change (attrs_bytes []) with (@nil Z). rewrite app_nil_r.
    split_and!; [done|done|by constructor|]. intros ?? [= <- <-] Hp Hroom. destruct Hips as (l1&Hl&Hl2&_).
    unfold remaining. cbn [fst snd]. rewrite Hl, length_app. unfold rest_ips. rewrite bool_decide_eq_false_2 by done.
    destruct l1 as [|x l1]; [|cbn; lia]. exfalso. cbn in Hl. destruct l2 as [|a l2]; [done|]. destruct (Hsmall (eq_sym Hl) a l2 eq_refl).
    unfold fits. pose proof (chunk_size p cont a Hp). lia.
  - exists [], (p :: peer, cont). cbn [fmap list_fmap]. change (attrs_bytes []) with (@nil Z). rewrite app_nil_r.
    split_and!; [done|unfold fits; cbn; zlia|constructor|]. intros ?? [= <- <-] Hp Hroom. destruct Hf. unfold fits.
    pose proof (chunk_size_none p cont Hp). lia.
Qed.
End bytes.

(** ** A whole message *)
Definition fixed_attrs (d : wgdevice) (first : bool) : list attr :=
  (WGDEVICE_A_IFNAME, wd_name d ++ [0]) :: (if first then device_puts d else []).

Definition message_attrs (d : wgdevice) (first : bool) (chunks : list chunk) : list attr :=
  fixed_attrs d first ++ (if bool_decide (wd_peers d = []) then [] else [nest WGDEVICE_A_PEERS (chunk_attr <$> chunks)]).

(** Where a message starts: the loop variable is null before the first one. *)
Definition start_of (d : wgdevice) (peer : list wgpeer) : list wgpeer := if bool_decide (peer = []) then wd_peers d else peer.

(** What the code relies on: a device of the parser, with a name that fits the
    interface. *)
Definition sendable (d : wgdevice) : Prop := device_ok d ∧ zlen (wd_name d) <= 15 ∧ 0 ∉ wd_name d.

Lemma fixed_attrs_ok d first : sendable d → Forall attr_ok (fixed_attrs d first) ∧ zlen (attrs_bytes (fixed_attrs d first)) <= 88.
Proof.
  intros [[_ [Hk _] _ _ _ _] [Hn _]]. unfold WG_KEY_LEN in Hk. unfold fixed_attrs. rewrite zlen_attrs_cons. cbn [snd].
  assert (Hname : zlen (wd_name d ++ [0]) <= 16) by (rewrite zlen_app; change (zlen [0]) with 1; lia).
  pose proof (MNL_ALIGN_bounds (zlen (wd_name d ++ [0]))) as Hal. rewrite MNL_ALIGN_spec in *.
  assert (Hrest : Forall attr_ok (device_puts d) ∧ zlen (attrs_bytes (device_puts d)) <= 68).
  { unfold device_puts. split.
    - repeat case_if; repeat constructor; cbn [fst snd]; rewrite ?zlen_le_bytes, ?Hk; done.
    - repeat case_if; cbn [app]; rewrite ?zlen_attrs_cons; cbn [snd]; rewrite ?zlen_le_bytes, ?Hk; vm_compute; discriminate. }
  destruct Hrest as [Hr1 Hr2]. split.
  - constructor; [split; cbn [fst snd]; [done|lia]|]. by destruct first.
  - destruct first; [|change (zlen (attrs_bytes [])) with 0]; div_mod_lia.
Qed.

Lemma foldl_put l nlh : Forall attr_ok l → foldl (λ nlh a, mnl_attr_put a.1 a.2 nlh) nlh l = nlh ++ attrs_bytes l.
Proof.
  intros Hl. revert nlh. induction Hl as [|[type data] l Ha _ IH]; intros nlh; cbn [foldl fst snd]; [by rewrite app_nil_r|].
  by rewrite mnl_attr_put_bytes, IH, attrs_bytes_cons, app_assoc.
Qed.

(** One message: it holds the chunks it covers, fits into the buffer, and the loop
    gets ahead. *)
Lemma build_message_spec buflen header d peer cont :
  512 <= buflen <= 8192 → zlen header = 20 → sendable d → Forall peer_ok peer → cursor_ok (start_of d peer, cont) →
  ∃ chunks c, build_message buflen header d peer cont = (c, header ++ attrs_bytes (message_attrs d (bool_decide (peer = [])) chunks)) ∧
    zlen (header ++ attrs_bytes (message_attrs d (bool_decide (peer = [])) chunks)) <= buflen ∧
    (wd_peers d = [] → c = ([], cont) ∧ chunks = []) ∧
    (wd_peers d ≠ [] → covers (start_of d peer, cont) chunks c ∧ (remaining c < remaining (start_of d peer, cont))%nat).
Proof.
  intros Hb Hh Hs Hp Hc. destruct (fixed_attrs_ok d (bool_decide (peer = [])) Hs) as [Hok Hsize].
  unfold build_message, message_attrs. cbv zeta.
  fold (fixed_attrs d (bool_decide (peer = []))). rewrite foldl_put by done. set (nlh := header ++ attrs_bytes (fixed_attrs d _)) in *.
  pose proof (zlen_nonneg nlh). assert (Hn : zlen nlh <= 108) by (subst nlh; rewrite zlen_app; lia).
  destruct (bool_decide (wd_peers d = [])) eqn:Hpeers; [apply bool_decide_eq_true in Hpeers|apply bool_decide_eq_false in Hpeers].
  { exists [], ([], cont). rewrite app_nil_r. split_and!; [done|fold nlh; lia|done|done]. }
  change (mnl_attr_nest_start WGDEVICE_A_PEERS nlh) with (zlen nlh, (mnl_attr_nest_start WGDEVICE_A_PEERS nlh).2). cbv iota beta.
  destruct (put_peers_cases buflen ltac:(lia) (start_of d peer) cont (mnl_attr_nest_start WGDEVICE_A_PEERS nlh).2) as (chunks&c&Hput&Hf&Hcov&Hprog).
  { rewrite zlen_nest_start. lia. }
  { done. }
  unfold start_of in Hput at 1. rewrite Hput. unfold fits in Hf. rewrite zlen_nest_start in Hf, Hprog.
  exists chunks, c. rewrite nest_bytes by (unfold WGDEVICE_A_PEERS; lia).
  rewrite attrs_bytes_app, app_assoc, attrs_bytes_cons. change (attrs_bytes []) with (@nil Z). rewrite app_nil_r. fold nlh.
  split_and!; [done|rewrite zlen_app, zlen_nest; lia|done|]. intros _. split; [done|].
  destruct (start_of d peer) as [|p rest] eqn:Hst; [by unfold start_of in Hst; case_bool_decide|].
  eapply Hprog; [done| |lia]. assert (Hall : Forall peer_ok (p :: rest)).
  { rewrite <- Hst. unfold start_of. case_bool_decide; [apply Hs|done]. }
  by inversion Hall.
Qed.
