(* ===== verification/IpcKernel.v ===== *)
(** * The requests as the kernel reads them

    The kernel's netlink library fills the arrays of attributes that [wg_set_device]
    looks at.  It is a parameter here; what it is relied on for is that attributes
    which satisfy the policies of netlink.c are found in the arrays, the last one of
    a kind if there are several. *)
From stdpp Require Import prelude list.
From Stdlib Require Import ZArith Lia.
From S2P Require Import Prelude Net Encoding Text Config Netlink IpcSet IpcSetSpec DeviceConfig.

#[local] Open Scope Z_scope.

(** ** Policies *)
Definition allowedip_valid (a : attr) : Prop :=
  attr_ok a ∧
  match mnl_attr_get_type a with 1 => zlen a.2 = 2 | 2 => 4 <= zlen a.2 | 3 => zlen a.2 = 1 | 4 => zlen a.2 = 4 | _ => False end.

(** A list of nests, each with attributes that satisfy [P]. *)
Definition nests_of (P : attr → Prop) (payload : list Z) : Prop :=
  ∃ ls, payload = attrs_bytes (nest 0 <$> ls) ∧ Forall (Forall P) ls ∧ Forall (λ l, attr_ok (nest 0 l)) ls.

Definition peer_valid (a : attr) : Prop :=
  attr_ok a ∧
  match mnl_attr_get_type a with
  | 1 | 2 => zlen a.2 = 32
  | 3 => zlen a.2 = 4
  | 4 => 16 <= zlen a.2
  | 5 => zlen a.2 = 2
  | 9 => nests_of allowedip_valid a.2
  | _ => False
  end.

Definition device_valid (a : attr) : Prop :=
  attr_ok a ∧
  match mnl_attr_get_type a with
  | 2 => (∃ name, a.2 = name ++ [0] ∧ (0 ∉ name) ∧ zlen name <= 15)
  | 3 => zlen a.2 = 32
  | 5 | 7 => zlen a.2 = 4
  | 6 => zlen a.2 = 2
  | 8 => nests_of peer_valid a.2
  | 9 => zlen a.2 = 1
  | _ => False
  end.

(** ** The arrays *)
Fixpoint last_attr (type : Z) (l : list attr) : option (list Z) :=
  match l with
  | [] => None
  | a :: l =>
      match last_attr type l with
      | Some data => Some data
      | None => if mnl_attr_get_type a =? type then Some a.2 else None
      end
  end.

Definition read_allowedip (l : list attr) : allowedip_attrs :=
  mk_allowedip_attrs (le_val <$> last_attr 1 l) (last_attr 2 l) (le_val <$> last_attr 3 l) (le_val <$> last_attr 4 l).

(** The structure an endpoint is cast to. *)
Definition read_sockaddr (b : list Z) : sockaddr :=
  let family := le_val (ztake 2 b) in
  let port := be_val (ztake 2 (zdrop 2 b)) in
  if (zlen b =? 16) && (family =? AF_INET) then Sa4 port (be_val (ztake 4 (zdrop 4 b)))
  else if (zlen b =? 28) && (family =? AF_INET6) then Sa6 port (be_val (ztake 16 (zdrop 8 b))) (le_val (ztake 4 (zdrop 24 b)))
  else SaUnspec.

Definition read_nests {A} (read : list attr → A) (payload : list Z) : list (result A) :=
  (λ a, Ok (read (mnl_attrs a.2))) <$> mnl_attrs payload.

Definition read_peer (l : list attr) : peer_attrs :=
  mk_peer_attrs (last_attr 1 l) (last_attr 2 l) (le_val <$> last_attr 3 l) (le_val <$> last_attr 10 l)
    (read_sockaddr <$> last_attr 4 l) (read_nests read_allowedip <$> last_attr 9 l) (le_val <$> last_attr 5 l).

Fixpoint until_nul (s : list Z) : list Z :=
  match s with
  | [] => []
  | c :: s => if c =? 0 then [] else c :: until_nul s
  end.

Definition read_request (l : list attr) : device_attrs :=
  mk_device_attrs (le_val <$> last_attr 1 l) (until_nul <$> last_attr 2 l) (le_val <$> last_attr 5 l) (le_val <$> last_attr 6 l)
    (le_val <$> last_attr 7 l) (le_val <$> last_attr 9 l) (last_attr 3 l) (read_nests read_peer <$> last_attr 8 l).

Class KernelNla := { nla_request : list Z → device_attrs }.
Class KernelNlaLaws `{KernelNla} := {
  nla_request_valid l : Forall device_valid l → nla_request (attrs_bytes l) = read_request l;
}.

(** ** What a message says *)
Definition oks {A} (l : list A) : list (result A) := (λ x, Ok x) <$> l.

Definition allowedip_request (a : wgallowedip) : allowedip_attrs :=
  mk_allowedip_attrs (Some (wa_family a)) (Some (be_bytes (if wa_family a =? AF_INET then 4 else 16) (wa_ip a)))
    (Some (wa_cidr a)) (if wa_flags a =? 0 then None else Some (wa_flags a)).

Definition chunk_flags (fresh : bool) (p : wgpeer) : Z :=
  Z.lor (if has_flag (wp_flags p) WGPEER_REMOVE_ME then WGPEER_F_REMOVE_ME else 0)
        (if fresh && has_flag (wp_flags p) WGPEER_REPLACE_ALLOWEDIPS then WGPEER_F_REPLACE_ALLOWEDIPS else 0).

Definition chunk_request (c : chunk) : peer_attrs :=
  let p := ck_peer c in
  let fresh := bool_decide (ck_cont c = []) in
  mk_peer_attrs (Some (wp_public_key p))
    (if fresh && has_flag (wp_flags p) WGPEER_HAS_PRESHARED_KEY then Some (wp_preshared_key p) else None)
    (if chunk_flags fresh p =? 0 then None else Some (chunk_flags fresh p)) None
    (if fresh then match wp_endpoint p with SaUnspec => None | ep => Some ep end else None)
    ((λ l : list wgallowedip, oks (allowedip_request <$> l)) <$> ck_ips c)
    (if fresh && has_flag (wp_flags p) WGPEER_HAS_PERSISTENT_KEEPALIVE_INTERVAL
     then Some (wp_persistent_keepalive_interval p) else None).

Definition message_request (d : wgdevice) (first : bool) (chunks : list chunk) : device_attrs :=
  let given f v := if first && has_flag (wd_flags d) f then Some v else None in
  mk_device_attrs None (Some (wd_name d)) (if first && has_flag (wd_flags d) WGDEVICE_REPLACE_PEERS then Some 1 else None)
    (given WGDEVICE_HAS_LISTEN_PORT (wd_listen_port d)) (given WGDEVICE_HAS_FWMARK (wd_fwmark d))
    (given WGDEVICE_HAS_TRANSPORT (wd_transport d))
    (if first && has_flag (wd_flags d) WGDEVICE_HAS_PRIVATE_KEY then Some (wd_private_key d) else None)
    (if bool_decide (wd_peers d = []) then None else Some (oks (chunk_request <$> chunks))).

(** ** The kernel reads what the tool wrote *)
Lemma attrs_ok_of_size l : Forall (λ a, 0 <= a.1 < 2 ^ 16) l → zlen (attrs_bytes l) < 2 ^ 16 → Forall attr_ok l.
Proof.
  induction 1 as [|a l Ha _ IH]; [constructor|]. rewrite zlen_attrs_cons. pose proof (MNL_ALIGN_bounds (zlen a.2)).
  pose proof (zlen_nonneg (attrs_bytes l)). pose proof (zlen_nonneg a.2). intros Hs. constructor; [split; [done|lia]|apply IH; lia].
Qed.

Lemma read_nests_bytes {A} (read : list attr → A) ls :
  Forall (λ l, attr_ok (nest 0 l)) ls → Forall (Forall attr_ok) ls →
  read_nests read (attrs_bytes (nest 0 <$> ls)) = oks (read <$> ls).
Proof.
  intros Hn Hl. unfold read_nests, oks. rewrite mnl_attrs_bytes by (by apply Forall_fmap).
  rewrite <- !list_fmap_compose. apply list_fmap_ext. intros i l Hi. unfold compose, nest. cbn [snd]. by rewrite mnl_attrs_bytes by (by eapply Forall_lookup_1).
Qed.

(** Looks attributes with known types up. *)
Ltac read_attrs :=
  cbn [last_attr app];
  repeat match goal with
  | |- context [mnl_attr_get_type (?t, ?d) =? ?k] =>
      let b := eval vm_compute in (Z.land t NLA_TYPE_MASK =? k) in
      change (mnl_attr_get_type (t, d) =? k) with b; cbv iota
  end; cbn [fmap option_fmap option_map snd fst].

Lemma allowedip_valid_intro t d :
  0 <= t < 2 ^ 16 → zlen d <= 16 →
  match Z.land t NLA_TYPE_MASK with 1 => zlen d = 2 | 2 => 4 <= zlen d | 3 => zlen d = 1 | 4 => zlen d = 4 | _ => False end →
  allowedip_valid (t, d).
Proof. intros Ht Hd Hm. split; [split; cbn [fst snd]; [done|lia]|done]. Qed.

Lemma allowedip_read a :
  allowedip_ok a → read_allowedip (allowedip_puts a) = allowedip_request a ∧ Forall allowedip_valid (allowedip_puts a).
Proof.
  intros [Hip Hfl]. unfold allowedip_puts, allowedip_request, read_allowedip, WGALLOWEDIP_REMOVE_ME in *. split.
  - destruct Hip as [(->&Hi&Hc)|(->&Hi&Hc)], Hfl as [->| ->]; cbn [negb Z.eqb Pos.eqb AF_INET AF_INET6]; read_attrs;
      rewrite !le_bytes_val by (unfold AF_INET, AF_INET6; cbn; lia); done.
  - destruct Hip as [(->&Hi&Hc)|(->&Hi&Hc)], Hfl as [->| ->]; cbn [negb Z.eqb Pos.eqb AF_INET AF_INET6 app];
      repeat constructor; apply allowedip_valid_intro; rewrite ?zlen_le_bytes, ?zlen_be_bytes; done.
Qed.

Lemma slice_mid {A} n m (a b c : list A) : n = zlen a → m = zlen b → ztake m (zdrop n (a ++ b ++ c)) = b.
Proof. intros -> ->. by rewrite zdrop_app_length, ztake_app_length. Qed.

Lemma sockaddr_read a : sockaddr_ok a → a ≠ SaUnspec → read_sockaddr (sockaddr_bytes a) = a.
Proof.
  intros Ha Hu. unfold read_sockaddr. rewrite zlen_sockaddr_bytes. destruct a as [|port addr|port addr scope]; [done| |]; cbn [sockaddr_bytes sockaddr_ok] in *.
  - set (f := le_bytes 2 AF_INET). set (q := be_bytes 2 port). set (h := be_bytes 4 addr). set (z := repeat 0 8).
    rewrite (ztake_app_length 2 f), (slice_mid 2 2 f q) by done.
    assert (Hh : ztake 4 (zdrop 4 (f ++ q ++ h ++ z)) = h) by (rewrite (app_assoc f); by apply slice_mid). rewrite Hh.
    unfold f, q, h. rewrite le_bytes_val, !be_bytes_val by (unfold AF_INET; cbn; lia). done.
  - set (f := le_bytes 2 AF_INET6). set (q := be_bytes 2 port). set (w := le_bytes 4 0). set (h := be_bytes 16 addr). set (s := le_bytes 4 scope).
    rewrite (ztake_app_length 2 f), (slice_mid 2 2 f q) by done.
    assert (Hh : ztake 16 (zdrop 8 (f ++ q ++ w ++ h ++ s)) = h) by (rewrite (app_assoc q), (app_assoc f); by apply slice_mid).
    assert (Hs : ztake 4 (zdrop 24 (f ++ q ++ w ++ h ++ s)) = s).
    { rewrite (app_assoc w), (app_assoc q), (app_assoc f), <- (app_nil_r s) at 1. by apply slice_mid. }
    rewrite Hh, Hs. unfold f, q, h, s. rewrite !le_bytes_val, !be_bytes_val by (unfold AF_INET6; cbn; lia). done.
Qed.

(** Nests of things the kernel reads one by one. *)
Lemma nests_read {A B} (f : A → list attr) (P : attr → Prop) (read : list attr → B) (request : A → B) l :
  (∀ a, P a → attr_ok a) →
  Forall (λ x, zlen (attrs_bytes (f x)) < 2 ^ 16 → read (f x) = request x ∧ Forall P (f x)) l →
  zlen (attrs_bytes ((λ x, nest 0 (f x)) <$> l)) < 2 ^ 16 →
  nests_of P (attrs_bytes ((λ x, nest 0 (f x)) <$> l)) ∧
  read_nests read (attrs_bytes ((λ x, nest 0 (f x)) <$> l)) = oks (request <$> l).
Proof.
  intros HP Hl Hs. assert (Hn : Forall attr_ok ((λ x, nest 0 (f x)) <$> l)).
  { apply attrs_ok_of_size; [|done]. apply Forall_fmap, Forall_true. done. }
  apply (proj1 (Forall_fmap (λ x, nest 0 (f x)) attr_ok l)) in Hn. assert (Hall : Forall (λ x, read (f x) = request x ∧ Forall P (f x)) l).
  { apply Forall_forall. intros x Hx. pose proof (proj1 (Forall_forall _ _) Hl x Hx) as Hl'. apply Hl'.
    pose proof (proj1 (Forall_forall _ _) Hn x Hx) as [_ Hx']. cbn in Hx'. lia. }
  rewrite (list_fmap_compose f (nest 0) l : (λ x, nest 0 (f x)) <$> l = nest 0 <$> (f <$> l)).
  assert (Hn' : Forall (λ k, attr_ok (nest 0 k)) (f <$> l)) by (by apply Forall_fmap).
  assert (Hv : Forall (Forall P) (f <$> l)) by (apply Forall_fmap; eapply Forall_impl; [exact Hall|by intros x [_ Hx]]).
  split; [by exists (f <$> l)|]. rewrite read_nests_bytes; [|done|].
  - unfold oks. rewrite <- !list_fmap_compose. apply list_fmap_ext. intros i x Hi. unfold compose. f_equal.
    by destruct (Forall_lookup_1 _ _ _ _ Hall Hi).
  - eapply Forall_impl; [exact Hv|]. intros k Hk. eapply Forall_impl; [exact Hk|]. done.
Qed.

Lemma allowedips_nests l :
  Forall allowedip_ok l → zlen (attrs_bytes (allowedip_attr <$> l)) < 2 ^ 16 →
  nests_of allowedip_valid (attrs_bytes (allowedip_attr <$> l)) ∧
  read_nests read_allowedip (attrs_bytes (allowedip_attr <$> l)) = oks (allowedip_request <$> l).
Proof.
  intros Hl. apply (nests_read allowedip_puts); [by intros a [? _]|]. eapply Forall_impl; [exact Hl|]. intros a Ha _. by apply allowedip_read.
Qed.

Definition chunk_ok (c : chunk) : Prop := peer_ok (ck_peer c) ∧ from_option (Forall allowedip_ok) True (ck_ips c).

(** The list of addresses at the end of a chunk. *)
Lemma chunk_tail_read (ips : option (list wgallowedip)) :
  let tail := match ips with Some l => [nest WGPEER_A_ALLOWEDIPS (allowedip_attr <$> l)] | None => [] end in
  from_option (Forall allowedip_ok) True ips → zlen (attrs_bytes tail) < 2 ^ 16 →
  Forall peer_valid tail ∧
  ∀ l, ips = Some l → read_nests read_allowedip (attrs_bytes (allowedip_attr <$> l)) = oks (allowedip_request <$> l).
Proof.
  destruct ips as [l|]; cbn [from_option]; [|done]. intros Hips Hs. rewrite zlen_attrs_cons in Hs. change (zlen (attrs_bytes [])) with 0 in Hs.
  cbn [snd nest] in Hs. rewrite attrs_bytes_aligned in Hs. destruct (allowedips_nests l Hips) as [Hn Hr]; [lia|]. split; [|by intros ? [= <-]].
  constructor; [|constructor]. split; [split; cbn [fst snd nest]; [done|lia]|exact Hn].
Qed.

Lemma peer_puts_valid cont p : peer_ok p → Forall peer_valid (peer_puts cont p).
Proof.
  intros Hp. destruct (po_public_key _ Hp) as [Hk _], (po_preshared_key _ Hp) as [Hpsk _]. unfold WG_KEY_LEN in *. unfold peer_puts. cbv zeta.
  destruct (wp_endpoint p); repeat case_if; repeat constructor; cbn [fst snd]; rewrite ?Hk, ?Hpsk, ?zlen_le_bytes, ?zlen_sockaddr_bytes; done.
Qed.

Lemma chunk_read c :
  chunk_ok c → zlen (attrs_bytes (chunk_attrs c)) < 2 ^ 16 → read_peer (chunk_attrs c) = chunk_request c ∧ Forall peer_valid (chunk_attrs c).
Proof.
  destruct c as [p cont ips]. intros [Hp Hips] Hs. unfold chunk_attrs in *. cbn [ck_peer ck_cont ck_ips] in *. rewrite attrs_bytes_app, zlen_app in Hs.
  pose proof (zlen_nonneg (attrs_bytes (peer_puts cont p))). destruct (chunk_tail_read ips Hips) as [Htail Hread]; [lia|].
  split; [|apply Forall_app; split; [by apply peer_puts_valid|done]]. clear Htail Hs.
  pose proof (po_interval _ Hp). pose proof (po_endpoint _ Hp) as Hep.
  unfold read_peer, chunk_request, peer_puts, chunk_flags. cbv zeta. cbn [ck_peer ck_cont ck_ips].
  destruct ips as [l|]; [specialize (Hread l eq_refl)|clear Hread];
  destruct (bool_decide (cont = [])); destruct (wp_endpoint p) as [|port addr|port addr scope];
  destruct (has_flag (wp_flags p) WGPEER_REMOVE_ME), (has_flag (wp_flags p) WGPEER_REPLACE_ALLOWEDIPS),
    (has_flag (wp_flags p) WGPEER_HAS_PRESHARED_KEY), (has_flag (wp_flags p) WGPEER_HAS_PERSISTENT_KEEPALIVE_INTERVAL);
  cbn [andb]; unfold WGPEER_F_REMOVE_ME, WGPEER_F_REPLACE_ALLOWEDIPS, nest;
  change (Z.lor 1 2) with 3; change (Z.lor 1 0) with 1; change (Z.lor 0 2) with 2; change (Z.lor 0 0) with 0; cbn [negb Z.eqb]; read_attrs; rewrite ?Hread, ?sockaddr_read, ?le_bytes_val by (done || (cbn; lia)); done.
Qed.

Lemma chunks_nests l :
  Forall chunk_ok l → zlen (attrs_bytes (chunk_attr <$> l)) < 2 ^ 16 →
  nests_of peer_valid (attrs_bytes (chunk_attr <$> l)) ∧
  read_nests read_peer (attrs_bytes (chunk_attr <$> l)) = oks (chunk_request <$> l).
Proof.
  intros Hl. apply (nests_read chunk_attrs); [by intros a [? _]|]. eapply Forall_impl; [exact Hl|]. intros c Hc Hs. by apply chunk_read.
Qed.

Lemma until_nul_app s : 0 ∉ s → until_nul (s ++ [0]) = s.
Proof.
  induction s as [|c s IH]; [done|]. rewrite not_elem_of_cons. intros [Hc Hs]. cbn. destruct (Z.eqb_spec c 0); [by subst|]. by rewrite IH.
Qed.

Lemma fixed_valid d first : sendable d → Forall device_valid (fixed_attrs d first).
Proof.
  intros Hs. pose proof (fixed_attrs_ok d first Hs) as [Hok _]. destruct Hs as [Hd [Hn Hz]].
  destruct (do_private_key _ Hd) as [Hk _]. unfold WG_KEY_LEN in Hk. unfold fixed_attrs in *.
  assert (Hv : Forall (λ a, attr_ok a → device_valid a) ((WGDEVICE_A_IFNAME, wd_name d ++ [0]) :: (if first then device_puts d else []))).
  { constructor; [intros Ha; split; [done|]; by exists (wd_name d)|]. destruct first; [|constructor]. unfold device_puts.
    repeat case_if; repeat constructor; cbn [fst snd]; rewrite ?zlen_le_bytes, ?Hk; done. }
  rewrite Forall_forall in *. intros a Ha. by apply Hv, Hok.
Qed.

Lemma message_read d first chunks :
  sendable d → Forall chunk_ok chunks → zlen (attrs_bytes (message_attrs d first chunks)) < 2 ^ 16 →
  read_request (message_attrs d first chunks) = message_request d first chunks ∧ Forall device_valid (message_attrs d first chunks).
Proof.
  intros Hs Hc Hsize. pose proof (fixed_valid d first Hs) as Hf. destruct Hs as [Hd [Hn Hz]].
  unfold message_attrs in *. rewrite attrs_bytes_app, zlen_app in Hsize. pose proof (zlen_nonneg (attrs_bytes (fixed_attrs d first))).
  pose proof (do_fwmark _ Hd). pose proof (do_listen_port _ Hd). assert (0 <= wd_transport d < 256) by (destruct (do_transport _ Hd) as [-> | ->]; done).
  pose proof (chunks_nests chunks Hc) as Hnest. unfold message_request. cbv zeta.
  destruct (bool_decide (wd_peers d = [])).
  - split; [|by rewrite app_nil_r]. clear Hnest Hf. unfold read_request, fixed_attrs, device_puts.
    destruct first; [|read_attrs; rewrite until_nul_app by done; done].
    destruct (has_flag (wd_flags d) WGDEVICE_HAS_PRIVATE_KEY), (has_flag (wd_flags d) WGDEVICE_HAS_LISTEN_PORT), (has_flag (wd_flags d) WGDEVICE_HAS_FWMARK),
      (has_flag (wd_flags d) WGDEVICE_HAS_TRANSPORT), (has_flag (wd_flags d) WGDEVICE_REPLACE_PEERS);
      cbn [andb]; read_attrs; rewrite until_nul_app, ?le_bytes_val by (done || (cbn; lia)); done.
  - rewrite zlen_attrs_cons in Hsize. change (zlen (attrs_bytes [])) with 0 in Hsize. cbn [snd nest] in Hsize. rewrite attrs_bytes_aligned in Hsize.
    destruct Hnest as [Hnv Hnr]; [lia|]. split.
    + unfold read_request, fixed_attrs, device_puts.
      destruct first; [|unfold nest; read_attrs; rewrite Hnr, until_nul_app by done; done].
      destruct (has_flag (wd_flags d) WGDEVICE_HAS_PRIVATE_KEY), (has_flag (wd_flags d) WGDEVICE_HAS_LISTEN_PORT), (has_flag (wd_flags d) WGDEVICE_HAS_FWMARK),
        (has_flag (wd_flags d) WGDEVICE_HAS_TRANSPORT), (has_flag (wd_flags d) WGDEVICE_REPLACE_PEERS);
        cbn [andb]; unfold nest; read_attrs; rewrite Hnr, until_nul_app, ?le_bytes_val by (done || (cbn; lia)); done.
    + apply Forall_app. split; [done|]. constructor; [|constructor]. split; [split; cbn [fst snd nest]; [done|lia]|exact Hnv].
Qed.
