(* ===== verification/IpcRefine.v ===== *)
(** * Several messages have the effect of one

    A device that does not fit into one message is sent in several.  The file shows
    that the kernel ends in the state that one request with everything would have
    led to, but for the count of requests and the order in which other components
    were called. *)
From stdpp Require Import prelude list gmap.
From Stdlib Require Import ZArith Lia.
From S2P Require Import Prelude Skb Net Peer TcpPeer Endpoint AllowedIps PeerLookup Crypto Noise Keypairs Handshake Cookie.
From S2P Require Import Encoding Text Config Netlink IpcSet IpcSetSpec DeviceConfig DeviceConfigSpec IpcKernel.

#[local] Open Scope Z_scope.

(** ** What no operation on peers looks at

    The count of requests and the record of calls. *)
Definition relog (g : Z) (c : list call) (d : config_device) : config_device := d{{ cd_update_gen := g; cd_calls := c }}.

(** An operation that only adds to the record. *)
Definition respects (op : config_device → config_device) : Prop := ∀ g c d, ∃ c', op (relog g c d) = relog g c' (op d).
Definition respects_ret {A} (op : config_device → A * config_device) : Prop :=
  ∀ g c d, ∃ c', op (relog g c d) = ((op d).1, relog g c' (op d).2).

Lemma relog_self d : d = relog (cd_update_gen d) (cd_calls d) d.
Proof. by destruct d. Qed.

Lemma respects_note c : respects (note_call c).
Proof. intros g l d. by exists (l ++ [c]). Qed.

Lemma respects_on_peer p f : respects (on_config_peer p f).
Proof. intros g l d. by exists l. Qed.

Lemma respects_comp op op' : respects op → respects op' → respects (λ d, op' (op d)).
Proof. intros H1 H2 g c d. destruct (H1 g c d) as [c1 E1]. destruct (H2 g c1 (op d)) as [c2 E2]. exists c2. by rewrite E1, E2. Qed.

Lemma respects_id : respects (λ d, d).
Proof. intros g c d. by exists c. Qed.

Create HintDb respects discriminated.
#[export] Hint Resolve respects_note respects_on_peer respects_id : respects.

Lemma respects_reconnect p : respects (request_reconnect p).
Proof. intros g c d. by exists c. Qed.

Lemma allocate_relog g c d : allocate (relog g c d) = ((allocate d).1, relog g c (allocate d).2).
Proof. unfold allocate. cbn. by destruct (cd_memory d). Qed.

Lemma respects_configured p ep : respects (set_configured p ep).
Proof.
  intros g c d. unfold set_configured. change (cd_peers (relog g c d)) with (cd_peers d). destruct (cd_peers d !! p) as [cp|]; [|by exists c].
  change (over_tcp (relog g c d)) with (over_tcp d). change (cd_dev (relog g c d)) with (cd_dev d).
  case_if; [by exists c|]. destruct (set_endpoint_locked _ _ _ _) as [[t changed]|]; [|by exists c].
  set (f := λ q : config_peer, _). change (on_config_peer p f (relog g c d)) with (relog g c (on_config_peer p f d)).
  change (over_tcp (relog g c (on_config_peer p f d))) with (over_tcp (on_config_peer p f d)).
  change (running (relog g c (on_config_peer p f d))) with (running (on_config_peer p f d)).
  repeat case_if; [by exists c|apply respects_reconnect|apply respects_note|by exists c].
Qed.

Lemma respects_endpoint p a : respects (set_endpoint_attr p a).
Proof. intros g c d. destruct a as [[| |]|]; cbn [set_endpoint_attr]; first [by exists c|apply respects_configured]. Qed.

Lemma respects_psk p psk : respects (set_psk p psk).
Proof. intros g c d. exists c. by destruct psk. Qed.

Lemma respects_keepalive p k : respects (set_keepalive p k).
Proof.
  intros g c d. unfold set_keepalive. destruct k as [k|]; [|by exists c]. change (cd_peers (relog g c d)) with (cd_peers d).
  destruct (cd_peers d !! p) as [cp|]; [|by exists c]. change (running (relog g c d)) with (running d).
  case_if; [|by exists c]. by eexists.
Qed.

Lemma respects_remove p : respects (wg_peer_remove p).
Proof.
  intros g c d. unfold wg_peer_remove, peer_remove_after_dead. set (d1 := peer_make_dead p (note_call _ d)).
  change (peer_make_dead p (note_call (CallTcpPeerStop p) (relog g c d))) with (relog g (c ++ [CallTcpPeerStop p]) d1).
  change (cd_peers (relog g (c ++ [CallTcpPeerStop p]) d1)) with (cd_peers d1). destruct (cd_peers d1 !! p) as [cp|]; [|by eexists].
  change (cd_store (relog g (c ++ [CallTcpPeerStop p]) d1)) with (cd_store d1). destruct (wg_noise_keypairs_clear _ _) as [ks st]. by eexists.
Qed.

(** *** Allowed addresses

    They also do not look at the peers. *)
Definition overlay (x : gmap Z config_peer) (g : Z) (c : list call) (d : config_device) : config_device :=
  d{{ cd_peers := x; cd_update_gen := g; cd_calls := c }}.

Lemma overlay_relog g c d : relog g c d = overlay (cd_peers d) g c d.
Proof. by destruct d. Qed.

Lemma allocate_overlay x g c d : allocate (overlay x g c d) = ((allocate d).1, overlay x g c (allocate d).2).
Proof. unfold allocate. cbn. by destruct (cd_memory d). Qed.

Lemma set_allowedip_overlay p a x g c d :
  set_allowedip p a (overlay x g c d) = ((set_allowedip p a d).1, overlay x g c (set_allowedip p a d).2).
Proof.
  unfold set_allowedip. destruct (aa_family a) as [family|], (aa_ipaddr a) as [ip|], (aa_cidr_mask a) as [cidr|]; try done.
  repeat case_if; try done.
  all: try (change (cd_peer_allowedips (overlay x g c d)) with (cd_peer_allowedips d); by destruct (wg_allowedips_remove _ _ _ _ _)).
  all: rewrite allocate_overlay; destruct (allocate d) as [a1 d1]; cbn [fst snd]; rewrite allocate_overlay; destruct (allocate d1) as [a2 d2]; cbn [fst snd];
    change (cd_peer_allowedips (overlay x g c d2)) with (cd_peer_allowedips d2); by destruct (wg_allowedips_insert _ _ _ _ _ _ _).
Qed.

Lemma set_allowedips_overlay p l x g c d :
  set_allowedips p l (overlay x g c d) = ((set_allowedips p l d).1, overlay x g c (set_allowedips p l d).2).
Proof.
  revert d. induction l as [|[a|e] l IH]; intros d; cbn [set_allowedips]; [done| |done].
  rewrite set_allowedip_overlay. destruct (set_allowedip p a d) as [ret d1]. cbn [fst snd]. case_if; [done|]. apply IH.
Qed.

Lemma overlay_self d : overlay (cd_peers d) (cd_update_gen d) (cd_calls d) d = d.
Proof. by destruct d. Qed.

Lemma set_allowedips_peers p l d : cd_peers (set_allowedips p l d).2 = cd_peers d.
Proof. rewrite <- (overlay_self d) at 1. by rewrite set_allowedips_overlay. Qed.

Lemma respects_allowedips p l g c d : set_allowedips p l (relog g c d) = ((set_allowedips p l d).1, relog g c (set_allowedips p l d).2).
Proof. by rewrite overlay_relog, set_allowedips_overlay, overlay_relog, set_allowedips_peers. Qed.

Section kernel.
Context {C : Crypto} (siphash : list Z → Z) (debug : bool) (now : Z).

Lemma respects_create k psk : respects_ret (wg_peer_create siphash now k psk).
Proof.
  intros g c d. unfold wg_peer_create. change (cd_num_peers (relog g c d)) with (cd_num_peers d). case_if; [by exists c|].
  rewrite allocate_relog. destruct (allocate d) as [[] d1]; cbn [fst snd negb]; [|by exists c].
  rewrite allocate_relog. destruct (allocate d1) as [[] d2]; cbn [fst snd negb]; [|by exists c].
  change (cd_peer_counter (relog g c d2)) with (cd_peer_counter d2). set (q := cd_peer_counter d2 + 1).
  change (cd_static_identity (relog g c d2)) with (cd_static_identity d2).
  set (d3 := note_call (CallTimersInit q) d2{{ cd_peer_counter := q }}).
  change (note_call (CallTimersInit q) (relog g c d2){{ cd_peer_counter := q }}) with (relog g (c ++ [CallTimersInit q]) d3).
  change (over_tcp (relog g (c ++ [CallTimersInit q]) d3)) with (over_tcp d3). exists (c ++ [CallTimersInit q]). clearbody d3. case_if; [|done].
  rewrite allocate_relog. destruct (allocate d3) as [[] d4]; cbn [fst snd negb]; [|done].
  rewrite allocate_relog. by destruct (allocate d4) as [[] d5].
Qed.

Lemma respects_update p flags psk attrs : respects_ret (update_peer p flags psk attrs).
Proof.
  intros g c d. unfold update_peer. case_if.
  { destruct (respects_remove p g c d) as [c' ->]. by exists c'. }
  destruct (respects_psk p psk g c d) as [c1 ->]. set (d1 := set_psk p psk d). clearbody d1.
  destruct (respects_endpoint p (pa_endpoint attrs) g c1 d1) as [c2 ->]. set (d2 := set_endpoint_attr p (pa_endpoint attrs) d1). clearbody d2.
  set (d3 := if flagged flags WGPEER_F_REPLACE_ALLOWEDIPS then d2{{ cd_peer_allowedips ::= wg_allowedips_remove_by_peer p }} else d2).
  assert (Hd3 : (if flagged flags WGPEER_F_REPLACE_ALLOWEDIPS then (relog g c2 d2){{ cd_peer_allowedips ::= wg_allowedips_remove_by_peer p }} else relog g c2 d2) = relog g c2 d3)
    by (subst d3; by case_if). rewrite Hd3. clearbody d3. clear Hd3.
  assert (Ha : match pa_allowedips attrs with Some l => set_allowedips p l (relog g c2 d3) | None => (0, relog g c2 d3) end =
    let '(r, e) := match pa_allowedips attrs with Some l => set_allowedips p l d3 | None => (0, d3) end in (r, relog g c2 e)).
  { destruct (pa_allowedips attrs) as [l|]; [|done]. rewrite respects_allowedips. by destruct (set_allowedips p l d3). }
  rewrite Ha. destruct (match pa_allowedips attrs with Some l => _ | None => (0, d3) end) as [ret d4]. case_if; [by exists c2|].
  destruct (respects_keepalive p (pa_persistent_keepalive_interval attrs) g c2 d4) as [c3 ->]. set (d5 := set_keepalive _ _ d4). clearbody d5.
  change (running (relog g c3 d5)) with (running d5). case_if; [|by exists c3]. by eexists.
Qed.

Lemma respects_peer attrs : respects_ret (set_peer siphash now attrs).
Proof.
  intros g c d. unfold set_peer. destruct (pa_public_key attrs) as [k|]; [|by exists c]. cbv zeta. do 3 (case_if; [by exists c|]).
  change (find_peer siphash k (relog g c d)) with (find_peer siphash k d). destruct (find_peer siphash k d) as [q|]; [apply respects_update|].
  case_if; [by exists c|]. change (cd_static_identity (relog g c d)) with (cd_static_identity d). case_if; [by exists c|].
  set (psk := match pa_preshared_key attrs with Some _ => _ | None => None end).
  destruct (respects_create k psk g c d) as [c1 ->]. destruct (wg_peer_create siphash now k psk d) as [[q|e] d1]; cbn [fst snd]; [apply respects_update|by exists c1].
Qed.

Lemma respects_peers l : respects_ret (set_peers siphash now l).
Proof.
  intros g c d. revert c d. induction l as [|[a|e] l IH]; intros c d; cbn [set_peers]; [by exists c| |by exists c].
  destruct (respects_peer a g c d) as [c1 ->]. destruct (set_peer siphash now a d) as [ret d1]. cbn [fst snd]. case_if; [by exists c1|]. apply IH.
Qed.
(** ** One peer in two parts *)
Lemma set_allowedips_oks p l d : (set_allowedips p (oks l) d).1 = 0 ∨ (set_allowedips p (oks l) d).1 < 0.
Proof.
  revert d. induction l as [|a l IH]; intros d; [by left|]. cbn [oks fmap list_fmap set_allowedips]. destruct (set_allowedip p a d) as [ret d1].
  destruct (Z.ltb_spec ret 0); [by right|apply IH].
Qed.

Lemma set_allowedips_app p l1 l2 d :
  set_allowedips p (oks (l1 ++ l2)) d =
  let '(ret, d1) := set_allowedips p (oks l1) d in if ret <? 0 then (ret, d1) else set_allowedips p (oks l2) d1.
Proof.
  revert d. induction l1 as [|a l1 IH]; intros d; [done|]. cbn [oks app fmap list_fmap set_allowedips]. destruct (set_allowedip p a d) as [ret d1].
  destruct (ret <? 0) eqn:Hr; [by rewrite Hr|apply IH].
Qed.

(** The keepalive interval and the addresses do not meet. *)
Lemma relog_keepalive p k g c d :
  relog g c (set_keepalive p k d) =
  overlay (match k with Some k => alter (λ q, q{{ cp_persistent_keepalive_interval := k }}) p (cd_peers d) | None => cd_peers d end) g c d.
Proof.
  unfold set_keepalive. destruct k as [k|]; [|apply overlay_relog]. destruct (cd_peers d !! p) as [cp|] eqn:Hp.
  - case_if; done.
  - rewrite overlay_relog. f_equal. apply map_eq. intros q. destruct (decide (p = q)) as [<-|Hq]; [by rewrite lookup_alter_eq, Hp|by rewrite lookup_alter_ne].
Qed.

Lemma allowedips_keepalive p k l g c d :
  set_allowedips p l (relog g c (set_keepalive p k d)) =
  ((set_allowedips p l d).1, relog g c (set_keepalive p k (set_allowedips p l d).2)).
Proof. by rewrite !relog_keepalive, set_allowedips_overlay, set_allowedips_peers. Qed.

Lemma relog_note g c x d : relog g c (note_call x d) = relog g c d.
Proof. done. Qed.

(** The peer of a request that is sent in two parts: [ips] are the addresses in the
    first, and [l2] those in the second. *)
Lemma update_split p flags psk attrs attrs1 attrs2 ips l1 l2 d ret dW :
  flagged flags WGPEER_F_REMOVE_ME = false → ips = Some l1 ∨ ips = None ∧ l1 = [] →
  pa_allowedips attrs = Some (oks (l1 ++ l2)) → pa_allowedips attrs1 = oks <$> ips → pa_allowedips attrs2 = Some (oks l2) →
  pa_endpoint attrs1 = pa_endpoint attrs → pa_endpoint attrs2 = None →
  pa_persistent_keepalive_interval attrs1 = pa_persistent_keepalive_interval attrs → pa_persistent_keepalive_interval attrs2 = None →
  update_peer p flags psk attrs d = (ret, dW) → 0 <= ret →
  ∃ d1, update_peer p flags psk attrs1 d = (0, d1) ∧ ∀ g c, ∃ c', update_peer p 0 None attrs2 (relog g c d1) = (0, relog g c' dW).
Proof.
  intros Hfl Hips Ha Ha1 Ha2 He1 He2 Hk1 Hk2. unfold update_peer. rewrite Hfl, Ha, Ha1, Ha2, He1, He2, Hk1, Hk2.
  set (d3 := if flagged flags WGPEER_F_REPLACE_ALLOWEDIPS then _ else _). clearbody d3. rewrite set_allowedips_app.
  assert (H1 : match oks <$> ips with Some l => set_allowedips p l d3 | None => (0, d3) end = set_allowedips p (oks l1) d3)
    by (destruct Hips as [->|[-> ->]]; done). rewrite H1. clear H1.
  destruct (set_allowedips p (oks l1) d3) as [r1 d4] eqn:Hs1. pose proof (set_allowedips_oks p l1 d3) as Hr1. rewrite Hs1 in Hr1. cbn [fst] in Hr1.
  destruct (Z.ltb_spec r1 0) as [Hlt|Hge]; [rewrite (proj2 (Z.ltb_lt r1 0) Hlt); intros [= <- <-]; lia|]. assert (r1 = 0) as -> by lia.
  destruct (set_allowedips p (oks l2) d4) as [r2 d5] eqn:Hs2. pose proof (set_allowedips_oks p l2 d4) as Hr2. rewrite Hs2 in Hr2. cbn [fst] in Hr2.
  destruct (Z.ltb_spec r2 0) as [Hlt|Hge2]; [intros [= <- <-]; lia|]. assert (r2 = 0) as -> by lia. intros [= <- <-] _.
  eexists. split; [done|]. intros g c. cbn [flagged].
  change (flagged 0 WGPEER_F_REMOVE_ME) with false. change (flagged 0 WGPEER_F_REPLACE_ALLOWEDIPS) with false. cbv iota. cbn [set_psk set_endpoint_attr].
  set (ka := set_keepalive p _ d4). set (first := if running ka then note_call (CallSendStaged p) ka else ka).
  assert (Hfirst : relog g c first = relog g c ka) by (subst first; by case_if). rewrite Hfirst. unfold ka. rewrite allowedips_keepalive, Hs2. cbn [fst snd].
  change (0 <? 0) with false. cbv iota. cbn [set_keepalive]. set (kb := set_keepalive p _ d5). change (running (relog g c kb)) with (running kb).
  case_if; [by exists (c ++ [CallSendStaged p])|by exists c].
Qed.
(** *** The table of keys *)
Lemma set_allowedip_table p a d : cd_peer_hashtable (set_allowedip p a d).2 = cd_peer_hashtable d.
Proof.
  unfold set_allowedip. destruct (aa_family a) as [family|], (aa_ipaddr a) as [ip|], (aa_cidr_mask a) as [cidr|]; try done.
  assert (Hal : ∀ e, cd_peer_hashtable (allocate e).2 = cd_peer_hashtable e) by (intros e; apply frame_allocate).
  repeat case_if; try done; try (by destruct (wg_allowedips_remove _ _ _ _ _)).
  all: pose proof (Hal d); destruct (allocate d) as [a1 d1]; pose proof (Hal d1); destruct (allocate d1) as [a2 d2];
    destruct (wg_allowedips_insert _ _ _ _ _ _ _); cbn in *; congruence.
Qed.

Lemma set_allowedips_table p l d : cd_peer_hashtable (set_allowedips p l d).2 = cd_peer_hashtable d.
Proof.
  revert d. induction l as [|[a|e] l IH]; intros d; cbn [set_allowedips]; [done| |done]. pose proof (set_allowedip_table p a d) as Ht.
  destruct (set_allowedip p a d) as [ret d1]. cbn [snd] in Ht. case_if; [done|]. by rewrite IH.
Qed.

Lemma update_table p flags psk attrs d :
  flagged flags WGPEER_F_REMOVE_ME = false → cd_peer_hashtable (update_peer p flags psk attrs d).2 = cd_peer_hashtable d.
Proof.
  intros Hfl. unfold update_peer. rewrite Hfl. set (d2 := set_endpoint_attr _ _ _).
  assert (H2 : cd_peer_hashtable d2 = cd_peer_hashtable d).
  { subst d2. by rewrite (fr_table _ _ (frame_set_endpoint _ _ _)), (fr_table _ _ (frame_set_psk p psk d)). }
  set (d3 := if flagged flags WGPEER_F_REPLACE_ALLOWEDIPS then _ else d2).
  assert (H3 : cd_peer_hashtable d3 = cd_peer_hashtable d) by (subst d3; by case_if). clearbody d3. rewrite <- H3. clear H3 H2.
  assert (H4 : cd_peer_hashtable (match pa_allowedips attrs with Some l => set_allowedips p l d3 | None => (0, d3) end).2 = cd_peer_hashtable d3)
    by (destruct (pa_allowedips attrs); [apply set_allowedips_table|done]).
  destruct (match pa_allowedips attrs with Some l => _ | None => _ end) as [ret d4]. cbn [snd] in H4. case_if; [done|].
  cbn [snd]. rewrite <- H4, <- (fr_table _ _ (frame_set_keepalive p (pa_persistent_keepalive_interval attrs) d4)). by case_if.
Qed.

Lemma find_removed k q d : config_inv siphash [] d → find_peer siphash k d = Some q → find_peer siphash k (wg_peer_remove q d) = None.
Proof.
  intros Hi Hf. destruct (find_peer siphash k (wg_peer_remove q d)) as [r|] eqn:Hr; [|done].
  pose proof Hf as [Hq Hk]%(find_peer_spec siphash [] _ _ _ Hi). pose proof (remove_inv siphash q d Hi Hq) as Hi'.
  apply (find_peer_spec siphash [] _ _ _ Hi') in Hr as [Hr Hkr]. unfold wg_peer_remove in Hr, Hkr.
  set (d0 := note_call (CallTcpPeerStop q) d) in *. destruct (after_dead_rest q (peer_make_dead q d0)) as [Hl _]. rewrite Hl in Hr.
  apply list_elem_of_filter in Hr as [Hne Hr]. destruct Hne.
  assert (Hkey : key_of (peer_remove_after_dead q (peer_make_dead q d0)) r = key_of d r).
  { etransitivity; [|apply (make_dead_key q d0 r)]. unfold peer_remove_after_dead. destruct (cd_peers (peer_make_dead q d0) !! q) as [cp|] eqn:Hcp; [|done].
    destruct (wg_noise_keypairs_clear _ _) as [ks st]. unfold key_of. cbn. destruct (decide (q = r)) as [<-|Hqr]; [|by rewrite lookup_alter_ne].
    rewrite lookup_alter_eq. cbn in Hcp. by rewrite Hcp. }
  assert (Hr' : find_peer siphash k d = Some r) by (apply (find_peer_spec siphash [] _ _ _ Hi); split; [exact Hr|congruence]). congruence.
Qed.

Lemma create_key k psk d q d1 : wg_peer_create siphash now k psk d = (Ok q, d1) → key_of d1 q = k.
Proof.
  unfold wg_peer_create. case_if; [done|]. destruct (allocate d) as [[] e1]; cbn [negb]; [|done]. destruct (allocate e1) as [[] e2]; cbn [negb]; [|done].
  set (e3 := note_call _ _). case_if; [destruct (allocate e3) as [[] e4]; cbn [negb]; [|done]; destruct (allocate e4) as [[] e5]; [|done]|].
  all: intros [= <- <-]; unfold key_of; cbn; rewrite lookup_insert_eq; cbn; by destruct psk.
Qed.
(** *** A part of a peer as a request *)
Definition removing (p : wgpeer) : bool := has_flag (wp_flags p) WGPEER_REMOVE_ME.

Definition own_key (k : list Z) (d : config_device) : bool :=
  si_has_identity (cd_static_identity d) && bool_decide (k = si_static_public (cd_static_identity d)).

Definition fresh_chunk (c : chunk) : bool := bool_decide (ck_cont c = []).

(** [set_peer] for what the tool sends. *)
Lemma set_peer_chunk c d :
  peer_ok (ck_peer c) →
  let p := ck_peer c in
  let flags := chunk_flags (fresh_chunk c) p in
  let psk := pa_preshared_key (chunk_request c) in
  set_peer siphash now (chunk_request c) d =
  match find_peer siphash (wp_public_key p) d with
  | Some q => update_peer q flags psk (chunk_request c) d
  | None =>
      if removing p then (0, d)
      else if own_key (wp_public_key p) d then (0, d)
      else match wg_peer_create siphash now (wp_public_key p) psk d with
           | (Err e, d) => (e, d)
           | (Ok q, d) => update_peer q (Z.ldiff flags WGPEER_F_REPLACE_ALLOWEDIPS) psk (chunk_request c) d
           end
  end.
Proof.
  intros Hp. cbv zeta. destruct (po_public_key _ Hp) as [Hk _], (po_preshared_key _ Hp) as [Hpsk _]. unfold set_peer.
  destruct c as [p cont ips]. unfold fresh_chunk. cbn [ck_peer ck_cont] in *.
  set (fresh := bool_decide (cont = [])). set (r := chunk_request _). unfold WG_KEY_LEN in *.
  assert (Hpk : pa_public_key r = Some (wp_public_key p)) by done. assert (Hpv : pa_protocol_version r = None) by done.
  assert (Hflags : default 0 (pa_flags r) = chunk_flags fresh p).
  { change (pa_flags r) with (if chunk_flags fresh p =? 0 then None else Some (chunk_flags fresh p)). destruct (Z.eqb_spec (chunk_flags fresh p) 0); [by symmetry|done]. }
  assert (Hps : match pa_preshared_key r with Some psk => if zlen psk =? NOISE_SYMMETRIC_KEY_LEN then Some psk else None | None => None end = pa_preshared_key r).
  { change (pa_preshared_key r) with (if fresh && has_flag (wp_flags p) WGPEER_HAS_PRESHARED_KEY then Some (wp_preshared_key p) else None). case_if; [|done]. by rewrite Hpsk. }
  rewrite Hpk, Hflags, Hps, Hpv, Hk. change (32 =? NOISE_PUBLIC_KEY_LEN) with true. cbn [negb]. clearbody r.
  assert (Hall : Z.ldiff (chunk_flags fresh p) WGPEER_F_ALL = 0 ∧ flagged (chunk_flags fresh p) (Z.lor WGPEER_F_REMOVE_ME WGPEER_F_UPDATE_ONLY) = removing p)
    by (unfold chunk_flags, removing; split; repeat case_if; done).
  destruct Hall as [-> ->]. done.
Qed.

Lemma chunk_remove c : flagged (chunk_flags (fresh_chunk c) (ck_peer c)) WGPEER_F_REMOVE_ME = removing (ck_peer c) ∧
  flagged (Z.ldiff (chunk_flags (fresh_chunk c) (ck_peer c)) WGPEER_F_REPLACE_ALLOWEDIPS) WGPEER_F_REMOVE_ME = removing (ck_peer c).
Proof. unfold chunk_flags, removing. split; repeat case_if; done. Qed.

Lemma whole_ips_some cont p : wp_allowedips p ≠ [] → whole_ips cont p = Some (rest_ips cont p).
Proof. intros Hp. unfold whole_ips. by rewrite bool_decide_eq_false_2. Qed.

Lemma find_relog k g c d : find_peer siphash k (relog g c d) = find_peer siphash k d.
Proof. done. Qed.

Lemma own_relog k g c d : own_key k (relog g c d) = own_key k d.
Proof. done. Qed.

(** *** A peer that is sent in two parts

    The first part holds [ips], the second goes on with [l2]. *)
Section parts.
Context (p : wgpeer) (cont : list wgallowedip) (ips : option (list wgallowedip)) (l1 l2 : list wgallowedip).
Context (Hp : peer_ok p) (Hl2 : l2 ≠ []) (Hips : ips = Some l1 ∨ ips = None ∧ l1 = []).

#[local] Abbreviation k := (wp_public_key p).
#[local] Abbreviation whole := (chunk_request (mk_chunk p cont (Some (l1 ++ l2)))).
#[local] Abbreviation part1 := (chunk_request (mk_chunk p cont ips)).
#[local] Abbreviation part2 := (chunk_request (mk_chunk p l2 (Some l2))).

Lemma second_part d :
  set_peer siphash now part2 d =
  match find_peer siphash k d with
  | Some q => update_peer q (chunk_flags false p) None part2 d
  | None =>
      if removing p then (0, d)
      else if own_key k d then (0, d)
      else match wg_peer_create siphash now k None d with
           | (Err e, d) => (e, d)
           | (Ok q, d) => update_peer q (Z.ldiff (chunk_flags false p) WGPEER_F_REPLACE_ALLOWEDIPS) None part2 d
           end
  end.
Proof.
  rewrite (set_peer_chunk (mk_chunk p l2 (Some l2))) by done. cbv zeta. unfold fresh_chunk. cbn [ck_peer ck_cont].
  rewrite bool_decide_eq_false_2 by done. assert (Hpsk : pa_preshared_key part2 = None); [|by rewrite Hpsk].
  unfold chunk_request. cbn [ck_cont pa_preshared_key]. by rewrite bool_decide_eq_false_2.
Qed.

(** Both parts, for the peer [q] that has the key. *)
Lemma update_parts q flags psk d ret dW :
  removing p = false → flagged flags WGPEER_F_REMOVE_ME = false → find_peer siphash k d = Some q →
  update_peer q flags psk whole d = (ret, dW) → 0 <= ret →
  ∃ d1, update_peer q flags psk part1 d = (0, d1) ∧ ∀ g c, ∃ c', set_peer siphash now part2 (relog g c d1) = (0, relog g c' dW).
Proof.
  intros Hno Hf Hq HW Hret.
  destruct (update_split q flags psk whole part1 part2 ((λ l : list wgallowedip, allowedip_request <$> l) <$> ips)
    (allowedip_request <$> l1) (allowedip_request <$> l2) d ret dW) as (d1&H1&H2); try done.
  - destruct Hips as [->|[-> ->]]; [by left|by right].
  - cbn. by rewrite fmap_app.
  - cbn. by destruct ips.
  - unfold chunk_request. cbn [ck_cont pa_endpoint]. by rewrite bool_decide_eq_false_2.
  - unfold chunk_request. cbn [ck_cont pa_persistent_keepalive_interval]. by rewrite bool_decide_eq_false_2.
  - exists d1. split; [done|]. intros g c. rewrite second_part, find_relog.
    pose proof (update_table q flags psk part1 d Hf) as Ht. rewrite H1 in Ht. cbn [snd] in Ht.
    assert (Hq1 : find_peer siphash k d1 = Some q) by (unfold find_peer in *; by rewrite Ht). rewrite Hq1.
    assert (chunk_flags false p = 0) as -> by (unfold chunk_flags; fold (removing p); by rewrite Hno). apply H2.
Qed.

Lemma set_peer_parts d ret dW :
  config_inv siphash [] d → set_peer siphash now whole d = (ret, dW) → 0 <= ret →
  ∃ d1, set_peer siphash now part1 d = (0, d1) ∧ ∀ g c, ∃ c', set_peer siphash now part2 (relog g c d1) = (0, relog g c' dW).
Proof.
  intros Hi. destruct (chunk_remove (mk_chunk p cont ips)) as [Hrm Hrm'].
  rewrite (set_peer_chunk (mk_chunk p cont (Some (l1 ++ l2)))), (set_peer_chunk (mk_chunk p cont ips)) by done. cbv zeta.
  change (fresh_chunk (mk_chunk p cont (Some (l1 ++ l2)))) with (fresh_chunk (mk_chunk p cont ips)). cbn [ck_peer] in *.
  change (pa_preshared_key whole) with (pa_preshared_key part1). set (psk := pa_preshared_key part1).
  set (flags := chunk_flags (fresh_chunk (mk_chunk p cont ips)) p) in *.
  destruct (find_peer siphash k d) as [q|] eqn:Hq, (removing p) eqn:Hrem.
  - unfold update_peer. rewrite Hrm. intros [= <- <-] _. eexists. split; [done|]. intros g c.
    rewrite second_part, find_relog, (find_removed k q d Hi Hq), Hrem. by exists c.
  - by apply update_parts.
  - intros [= <- <-] _. exists d. split; [done|]. intros g c. rewrite second_part, find_relog, Hq, Hrem. by exists c.
  - destruct (own_key k d) eqn:Hown.
    { intros [= <- <-] _. exists d. split; [done|]. intros g c. rewrite second_part, find_relog, own_relog, Hq, Hrem, Hown. by exists c. }
    destruct (create_inv siphash now k psk d Hi Hq) as (Hi1&Herr&Hin).
    { intros Hid Hk. unfold own_key in Hown. rewrite Hid, bool_decide_eq_true_2 in Hown; done. }
    destruct (wg_peer_create siphash now k psk d) as [[q|e] d0] eqn:Hc; cbn [fst snd] in *; [|intros [= <- <-]; pose proof (Herr e eq_refl); lia].
    apply update_parts; [done|done|]. apply (find_peer_spec siphash [] _ _ _ Hi1). split; [by apply Hin|by eapply create_key].
Qed.
End parts.

Lemma peer_split p cont ips l2 d ret dW :
  peer_ok p → wp_allowedips p ≠ [] → config_inv siphash [] d → part_ips cont p ips l2 →
  set_peer siphash now (chunk_request (mk_chunk p cont (whole_ips cont p))) d = (ret, dW) → 0 <= ret →
  ∃ d1, set_peer siphash now (chunk_request (mk_chunk p cont ips)) d = (0, d1) ∧
    ∀ g c, ∃ c', set_peer siphash now (chunk_request (mk_chunk p l2 (whole_ips l2 p))) (relog g c d1) = (0, relog g c' dW).
Proof.
  intros Hp Hne Hi (l1&Hrest&Hl2&Hips). rewrite !whole_ips_some by done. rewrite Hrest.
  assert (Hr2 : rest_ips l2 p = l2) by (unfold rest_ips; by rewrite bool_decide_eq_false_2). rewrite Hr2. by apply set_peer_parts.
Qed.

(** ** All peers in several messages *)
Definition whole_chunks (c : cursor) : list chunk :=
  match c.1 with
  | [] => []
  | p :: peer => mk_chunk p c.2 (whole_ips c.2 p) :: ((λ p, mk_chunk p [] (whole_ips [] p)) <$> peer)
  end.

Definition set_chunks (l : list chunk) (d : config_device) : Z * config_device := set_peers siphash now (oks (chunk_request <$> l)) d.

Record cursor_wf (c : cursor) : Prop := {
  cw_peers : Forall peer_ok c.1;
  cw_cont : Forall allowedip_ok c.2;
  cw_cursor : cursor_ok c;
}.

Lemma set_chunks_cons x l d :
  set_chunks (x :: l) d = let '(ret, d1) := set_peer siphash now (chunk_request x) d in if ret <? 0 then (ret, d1) else set_chunks l d1.
Proof. done. Qed.

Lemma respects_chunks l : respects_ret (set_chunks l).
Proof. apply respects_peers. Qed.

Lemma allowedip_request_ok a : allowedip_ok a → allowedip_attrs_ok (allowedip_request a).
Proof. intros [Hip _]. split; cbn; [apply be_bytes_bytes|]. destruct Hip as [(_&_&H)|(_&_&H)]; lia. Qed.

Lemma chunk_request_ok c : chunk_ok c → peer_attrs_ok (chunk_request c).
Proof.
  intros [_ Hips]. unfold peer_attrs_ok. destruct c as [p cont [l|]]; cbn [chunk_request pa_allowedips ck_ips fmap option_fmap option_map from_option] in *; [|done].
  unfold oks. rewrite <- list_fmap_compose. apply Forall_fmap. eapply Forall_impl; [exact Hips|]. intros a Ha x [= <-]. by apply allowedip_request_ok.
Qed.

Lemma whole_ips_ok cont p : peer_ok p → Forall allowedip_ok cont → chunk_ok (mk_chunk p cont (whole_ips cont p)).
Proof.
  intros Hp Hc. split; [done|]. cbn [ck_ips]. unfold whole_ips, rest_ips. pose proof (po_allowedips _ Hp). repeat case_bool_decide; done.
Qed.

Lemma part_ips_ok cont p ips l2 : peer_ok p → Forall allowedip_ok cont → part_ips cont p ips l2 → chunk_ok (mk_chunk p cont ips) ∧ Forall allowedip_ok l2.
Proof.
  intros Hp Hc (l1&Hl&_&Hips). assert (Hr : Forall allowedip_ok (rest_ips cont p)) by (unfold rest_ips; case_bool_decide; [apply Hp|done]).
  rewrite Hl in Hr. apply Forall_app in Hr as [H1 H2]. split; [|done]. split; [done|]. by destruct Hips as [->|[-> ->]].
Qed.

Lemma part_ips_nonempty cont p peer ips l2 : cursor_ok (p :: peer, cont) → part_ips cont p ips l2 → wp_allowedips p ≠ [].
Proof.
  intros Hc (l1&Hl&Hl2&_). destruct (decide (cont = [])) as [->|Hne]; [|by apply (Hc p peer)]. change (rest_ips [] p) with (wp_allowedips p) in Hl.
  rewrite Hl. by destruct l1.
Qed.

Lemma whole_chunks_ok c : cursor_wf c → Forall chunk_ok (whole_chunks c).
Proof.
  destruct c as [[|p peer] cont]; intros [Hp Hc _]; cbn in *; [constructor|]. apply Forall_cons in Hp as [Hp Hps].
  constructor; [by apply whole_ips_ok|]. apply Forall_fmap. eapply Forall_impl; [exact Hps|]. intros q Hq. by apply whole_ips_ok.
Qed.

Lemma covers_split c chunks c' d dW :
  covers c chunks c' → cursor_wf c → config_inv siphash [] d → set_chunks (whole_chunks c) d = (0, dW) →
  Forall chunk_ok chunks ∧ cursor_wf c' ∧
  ∃ d1, set_chunks chunks d = (0, d1) ∧ config_inv siphash [] d1 ∧
    ∀ g l, ∃ l', set_chunks (whole_chunks c') (relog g l d1) = (0, relog g l' dW).
Proof.
  intros Hcov. revert d. induction Hcov as [c|p peer cont chunks c Hcov IH|p peer cont ips l2 Hpart]; intros d Hwf Hi HW.
  - split; [constructor|]. split; [done|]. exists d. split_and!; [done|done|]. intros g l. destruct (respects_chunks (whole_chunks c) g l d) as [l' ->]. rewrite HW. by exists l'.
  - destruct Hwf as [Hps Hcont Hcur]. cbn [fst snd] in *. apply Forall_cons in Hps as [Hp Hps]. cbn [whole_chunks fst snd] in HW. rewrite set_chunks_cons in *.
    pose proof (whole_ips_ok cont p Hp Hcont) as Hck. pose proof (set_peer_inv siphash debug now _ d Hi (chunk_request_ok _ Hck)) as Hi1.
    destruct (set_peer siphash now _ d) as [ret e]. cbn [snd] in Hi1. destruct (ret <? 0) eqn:Hr; [injection HW as -> ->; done|].
    destruct (IH e) as (Hch&Hwf'&Hd); [split; [done|constructor|intros ? ? _ Hne; by destruct Hne]|done|by destruct peer|].
    split; [by constructor|]. split; done.
  - destruct Hwf as [Hps Hcont Hcur]. cbn [fst snd] in *. apply Forall_cons in Hps as [Hp Hps]. cbn [whole_chunks fst snd] in HW |- *. rewrite set_chunks_cons in HW.
    destruct (part_ips_ok _ _ _ _ Hp Hcont Hpart) as [Hck Hl2]. pose proof (part_ips_nonempty _ _ _ _ _ Hcur Hpart) as Hne.
    destruct (set_peer siphash now _ d) as [ret e] eqn:Hfull. destruct (Z.ltb_spec ret 0) as [Hr|Hr]; [injection HW as -> ->; lia|].
    destruct (peer_split p cont ips l2 d ret e Hp Hne Hi Hpart Hfull Hr) as (d1&H1&H2).
    split; [by constructor|]. split; [split; [by constructor|done|by intros q ? [= <- <-]]|].
    exists d1. rewrite set_chunks_cons, H1. split; [done|]. split.
    + pose proof (set_peer_inv siphash debug now _ d Hi (chunk_request_ok _ Hck)) as Hi1. by rewrite H1 in Hi1.
    + intros g l. rewrite set_chunks_cons. destruct (H2 g l) as [l1 ->]. change (0 <? 0) with false. cbv iota.
      destruct (respects_chunks ((λ p, mk_chunk p [] (whole_ips [] p)) <$> peer) g l1 e) as [l3 ->]. rewrite HW. by exists l3.
Qed.
End kernel.
