(* ===== verification/IpcSplit.v ===== *)
(** * The tool and the kernel together

    [kernel_set_device] of the tool, with the kernel at the other end of the socket:
    the messages are read by the kernel's netlink library and handled by
    [wg_set_device], one after the other.  Nothing else happens to the device in
    between, and the time does not change. *)
From stdpp Require Import prelude list gmap.
From Stdlib Require Import ZArith Lia.
From S2P Require Import Prelude Skb Net Peer TcpPeer Endpoint AllowedIps PeerLookup Crypto Noise Keypairs Handshake Cookie.
From S2P Require Import Encoding Text Config Netlink IpcSet IpcSetSpec DeviceConfig DeviceConfigSpec IpcKernel IpcRefine.

#[local] Open Scope Z_scope.

Section split.
Context {C : Crypto} (siphash : list Z → Z) (debug : bool) (now : Z).
Context (udp4 udp6 : nat → result Z) (ipv6_mod_enabled creating_net ns_capable : bool).
Context `{KernelNlaLaws}.

(** The devices of the namespace. *)
Context (net : list net_device).

Definition set_device (attrs : device_attrs) (d : config_device) : Z * config_device :=
  wg_set_device siphash debug now udp4 udp6 ipv6_mod_enabled creating_net ns_capable attrs d.

(** The kernel's end: the attributes are behind the two headers. *)
Definition kernel_receive (msg : list Z) (d : config_device) : Z * config_device :=
  let attrs := nla_request (zdrop 20 msg) in
  match lookup_interface attrs net with
  | Err e => (e, d)
  | Ok _ => set_device attrs d
  end.

(** The same, with a record of the messages. *)
Definition kernel_send (msg : list Z) (s : config_device * list (list Z)) : Z * (config_device * list (list Z)) :=
  let '(ret, d) := kernel_receive msg s.1 in (ret, (d, s.2 ++ [msg])).

(** The request that would say everything at once. *)
Definition whole_request (dev : wgdevice) : device_attrs := message_request dev true (whole_chunks (wd_peers dev, [])).

Definition interface_found (name : list Z) : Prop :=
  ∃ n, head (filter (λ n, net_name n = name) net) = Some n ∧ net_wireguard n = true.

(** ** The device part and the peers of a request *)
Definition without_peers (a : device_attrs) : device_attrs :=
  mk_device_attrs (da_ifindex a) (da_ifname a) (da_flags a) (da_listen_port a) (da_fwmark a) (da_transport a) (da_private_key a) None.

Lemma set_device_peers a d :
  set_device a d =
  let '(ret, d1) := set_device (without_peers a) d in
  if ret =? 0 then match da_peers a with Some l => set_peers siphash now l d1 | None => (0, d1) end else (ret, d1).
Proof.
  unfold set_device, wg_set_device. cbn [without_peers da_flags da_listen_port da_fwmark da_transport da_private_key da_peers].
  case_if; [done|]. case_if; [done|]. destruct (set_transport_attr _ _ d) as [r1 d1]. destruct (r1 =? 0) eqn:H1; cbn [negb]; [|by rewrite H1].
  destruct (match da_listen_port a with Some _ => _ | None => _ end) as [r2 d2]. destruct (r2 =? 0) eqn:H2; cbn [negb]; [done|by rewrite H2].
Qed.

(** A message that goes on with the peers. *)
Lemma set_device_more dev chunks d :
  wd_peers dev ≠ [] →
  set_device (message_request dev false chunks) d = set_chunks siphash now chunks (relog (u32 (cd_update_gen d + 1)) (cd_calls d) d).
Proof.
  intros Hp. rewrite set_device_peers. unfold message_request. cbn [without_peers da_peers andb]. rewrite bool_decide_eq_false_2 by done.
  unfold set_chunks. f_equal.
Qed.

Lemma relog_inv pending g l d : config_inv siphash pending d → config_inv siphash pending (relog g l d).
Proof. apply frame_inv. by constructor. Qed.

(** ** One message *)
Definition headers (id seq : Z) : list Z := mnlg_msg_prepare id seq WG_CMD_SET_DEVICE NLM_F_REQUEST_ACK.

Lemma sent_bytes header l : zlen header = 20 → zlen (mnlg_socket_send (header ++ l)) = zlen (header ++ l) ∧ zdrop 20 (mnlg_socket_send (header ++ l)) = l.
Proof.
  intros Hh. unfold mnlg_socket_send. rewrite zdrop_app_le by lia. pose proof (zlen_nonneg l). split.
  - rewrite !zlen_app, zlen_le_bytes, zlen_zdrop; lia.
  - rewrite app_assoc, zdrop_app_length; [done|]. rewrite zlen_app, zlen_le_bytes, zlen_zdrop; lia.
Qed.

Lemma kernel_receives dev first chunks header d :
  zlen header = 20 → sendable dev → interface_found (wd_name dev) → Forall chunk_ok chunks →
  zlen (header ++ attrs_bytes (message_attrs dev first chunks)) <= 8192 →
  kernel_receive (mnlg_socket_send (header ++ attrs_bytes (message_attrs dev first chunks))) d = set_device (message_request dev first chunks) d.
Proof.
  intros Hh Hs (n&Hn&Hwg) Hc Hsize. rewrite zlen_app in Hsize. unfold kernel_receive.
  destruct (sent_bytes header (attrs_bytes (message_attrs dev first chunks)) Hh) as [_ ->].
  destruct (message_read dev first chunks Hs Hc) as [Hread Hvalid]; [lia|]. rewrite nla_request_valid, Hread by done.
  assert (Hl : lookup_interface (message_request dev first chunks) net = Ok (net_priv n)).
  { unfold lookup_interface. cbn. rewrite Hn, Hwg. done. }
  by rewrite Hl.
Qed.
(** ** The loop *)
Lemma relog_relog g l g' l' d : relog g l (relog g' l' d) = relog g l d.
Proof. done. Qed.

Context (buflen : Z) (header : list Z) (dev : wgdevice).
Context (Hbuf : 512 <= buflen <= 8192) (Hheader : zlen header = 20) (Hdev : sendable dev) (Hnet : interface_found (wd_name dev)).

(** A message is sent that covers [chunks]; the state and the record are what the
    loop goes on with. *)
Lemma message_sent peer cont :
  cursor_wf (start_of dev peer, cont) → Forall peer_ok peer →
  ∃ chunks c msg, build_message buflen header dev peer cont = (c, msg) ∧ zlen (mnlg_socket_send msg) <= buflen ∧
    (wd_peers dev = [] → c = ([], cont) ∧ chunks = []) ∧
    (wd_peers dev ≠ [] → covers (start_of dev peer, cont) chunks c ∧ (remaining c < remaining (start_of dev peer, cont))%nat) ∧
    (Forall chunk_ok chunks → ∀ d log, kernel_send (mnlg_socket_send msg) (d, log) =
      let '(ret, d) := set_device (message_request dev (bool_decide (peer = [])) chunks) d in (ret, (d, log ++ [mnlg_socket_send msg]))).
Proof.
  intros [Hps Hcont Hcur] Hp. destruct (build_message_spec buflen header dev peer cont Hbuf Hheader Hdev Hp Hcur) as (chunks&c&Hb&Hsize&Hnil&Hcov).
  exists chunks, c, (header ++ attrs_bytes (message_attrs dev (bool_decide (peer = [])) chunks)). split; [done|].
  destruct (sent_bytes header (attrs_bytes (message_attrs dev (bool_decide (peer = [])) chunks)) Hheader) as [Hlen _].
  split; [by rewrite Hlen|]. split; [done|]. split; [done|]. intros Hok d log. unfold kernel_send. cbn [fst snd].
  rewrite kernel_receives; [done|done|done|done|done|lia].
Qed.

Lemma start_of_peers p peer : start_of dev (p :: peer) = p :: peer.
Proof. done. Qed.

(** From the second message on. *)
Lemma loop_more fuel peer cont d dW log :
  wd_peers dev ≠ [] → peer ≠ [] → cursor_wf (peer, cont) → config_inv siphash [] d → (remaining (peer, cont) <= fuel)%nat →
  set_chunks siphash now (whole_chunks (peer, cont)) d = (0, dW) →
  ∃ g l more, set_device_loop buflen kernel_send header fuel dev peer cont (d, log) = Some (0, (relog g l dW, log ++ more)) ∧
    Forall (λ m, zlen m <= buflen) more.
Proof.
  intros Hpeers. revert peer cont d dW log. induction fuel as [|fuel IH]; intros [|p peer] cont d dW log Hne Hwf Hi Hfuel HW; try done.
  { cbn in Hfuel. lia. }
  destruct (message_sent (p :: peer) cont) as (chunks&c&msg&Hb&Hsize&_&Hcov&Hsend); [by rewrite start_of_peers|apply Hwf|].
  destruct (Hcov Hpeers) as [Hc Hlt]. rewrite start_of_peers in Hc, Hlt. cbn [set_device_loop]. rewrite Hb.
  set (s := relog (u32 (cd_update_gen d + 1)) (cd_calls d) d). assert (Hs : config_inv siphash [] s) by (by apply relog_inv).
  destruct (respects_chunks siphash now (whole_chunks (p :: peer, cont)) (u32 (cd_update_gen d + 1)) (cd_calls d) d) as [l1 Hl1]. fold s in Hl1.
  rewrite HW in Hl1. cbn [fst snd] in Hl1. destruct (covers_split siphash debug now _ _ _ _ _ Hc Hwf Hs Hl1) as (Hok&Hwf'&d1&Hd1&Hi1&Hnext).
  destruct c as [peer' cont']. rewrite (Hsend Hok), bool_decide_eq_false_2 by done. rewrite set_device_more by done. fold s. rewrite Hd1.
  change (0 <? 0) with false. cbv iota. destruct (Hnext (cd_update_gen d1) (cd_calls d1)) as [l2 Hl2]. rewrite <- relog_self, relog_relog in Hl2.
  destruct (decide (peer' = [])) as [->|Hend].
  - rewrite bool_decide_eq_true_2 by done. injection Hl2 as Hl2. exists (cd_update_gen d1), l2, [mnlg_socket_send msg].
    split; [by rewrite Hl2 at 1|by repeat constructor].
  - rewrite bool_decide_eq_false_2 by done.
    destruct (IH peer' cont' d1 _ (log ++ [mnlg_socket_send msg]) Hend Hwf' Hi1 ltac:(lia) Hl2) as (g&l&more&->&Hmore).
    exists g, l, (mnlg_socket_send msg :: more). rewrite relog_relog, <- app_assoc. split; [done|by constructor].
Qed.

Lemma device_head_inv a d r d1 : config_inv siphash [] d → set_device (without_peers a) d = (r, d1) → config_inv siphash [] d1.
Proof.
  intros Hi Hs. pose proof (set_device_inv siphash debug now udp4 udp6 ipv6_mod_enabled creating_net ns_capable (without_peers a) d Hi I) as Hi1.
  fold (set_device (without_peers a) d) in Hi1. by rewrite Hs in Hi1.
Qed.

Lemma start_wf : cursor_wf (wd_peers dev, []).
Proof. split; [apply Hdev|constructor|intros ? ? _ Hne; by destruct Hne]. Qed.

(** The whole run. *)
Lemma loop_whole fuel d dW :
  config_inv siphash [] d → set_device (whole_request dev) d = (0, dW) → (remaining (wd_peers dev, []) < fuel)%nat →
  ∃ g l sent, set_device_loop buflen kernel_send header fuel dev [] [] (d, []) = Some (0, (relog g l dW, sent)) ∧ Forall (λ m, zlen m <= buflen) sent.
Proof.
  intros Hi HW Hfuel. destruct fuel as [|fuel]; [lia|]. cbn [set_device_loop].
  destruct (message_sent [] []) as (chunks&c&msg&Hb&Hsize&Hnil&Hcov&Hsend); [apply start_wf|constructor|].
  change (start_of dev []) with (wd_peers dev) in Hcov. rewrite Hb. destruct (decide (wd_peers dev = [])) as [Hp|Hp].
  { destruct (Hnil Hp) as [-> ->]. rewrite Hsend by constructor. rewrite ?bool_decide_eq_true_2 by done.
    unfold whole_request in HW. rewrite Hp in HW. change (whole_chunks ([], [])) with (@nil chunk) in HW. rewrite HW.
    change (0 <? 0) with false. cbv iota. rewrite ?bool_decide_eq_true_2 by done.
    exists (cd_update_gen dW), (cd_calls dW), [mnlg_socket_send msg]. rewrite <- relog_self. split; [done|by repeat constructor]. }
  destruct (Hcov Hp) as [Hc Hlt]. rewrite set_device_peers in HW.
  change (without_peers (whole_request dev)) with (without_peers (message_request dev true chunks)) in HW.
  destruct (set_device (without_peers (message_request dev true chunks)) d) as [r d5] eqn:H5. pose proof (device_head_inv _ _ _ _ Hi H5) as Hi5.
  destruct (r =? 0) eqn:Hr; [|injection HW as -> ->; done].
  unfold whole_request, message_request in HW. cbn [da_peers] in HW. rewrite bool_decide_eq_false_2 in HW by done. fold (set_chunks siphash now (whole_chunks (wd_peers dev, [])) d5) in HW.
  destruct (covers_split siphash debug now _ _ _ _ _ Hc start_wf Hi5 HW) as (Hok&Hwf'&d1&Hd1&Hi1&Hnext).
  destruct c as [peer' cont']. rewrite (Hsend Hok), ?bool_decide_eq_true_2 by done. rewrite set_device_peers, H5, Hr.
  unfold message_request. cbn [da_peers]. rewrite bool_decide_eq_false_2 by done. fold (set_chunks siphash now chunks d5). rewrite Hd1.
  change (0 <? 0) with false. cbv iota. destruct (Hnext (cd_update_gen d1) (cd_calls d1)) as [l2 Hl2]. rewrite <- relog_self in Hl2.
  destruct (decide (peer' = [])) as [->|Hend].
  - rewrite ?bool_decide_eq_true_2 by done. injection Hl2 as Hl2. exists (cd_update_gen d1), l2, [mnlg_socket_send msg].
    split; [by rewrite Hl2 at 1|by repeat constructor].
  - rewrite bool_decide_eq_false_2 by done. cbn [app].
    destruct (loop_more fuel peer' cont' d1 _ [mnlg_socket_send msg] Hp Hend Hwf' Hi1 ltac:(lia) Hl2) as (g&l&more&->&Hmore).
    exists g, l, ([mnlg_socket_send msg] ++ more). rewrite relog_relog. split; [done|by constructor].
Qed.
End split.

(** C13: Configuring a device in pieces.  The tool splits a configuration into as many
    messages as it needs, and the kernel handles them one by one.  If the kernel
    would accept the configuration in one request of unlimited size, then the tool
    gets through all of its messages, each of which fits into the socket buffer, and
    the device ends in the same state - peers, keys, endpoints, allowed addresses and
    all - but for the count of requests and the record of calls.  This holds for
    every device the parser can return and every buffer of at least 512 bytes, with
    a message for each peer and each address at most. *)
Theorem split_configuration_exact {C : Crypto} `{KernelNlaLaws} (siphash : list Z → Z) (debug : bool) (now : Z)
    (udp4 udp6 : nat → result Z) (ipv6_mod_enabled creating_net ns_capable : bool) (net : list net_device)
    (pagesize id seq : Z) (dev : wgdevice) (d dW : config_device) (fuel : nat) :
  512 <= pagesize → sendable dev → interface_found net (wd_name dev) → configured siphash debug d →
  wg_set_device siphash debug now udp4 udp6 ipv6_mod_enabled creating_net ns_capable (whole_request dev) d = (0, dW) →
  (remaining (wd_peers dev, []) < fuel)%nat →
  ∃ generation calls sent,
    set_device_loop (mnl_ideal_socket_buffer_size pagesize)
      (kernel_send siphash debug now udp4 udp6 ipv6_mod_enabled creating_net ns_capable net)
      (headers id seq) fuel dev [] [] (d, []) =
    Some (0, (dW{{ cd_update_gen := generation; cd_calls := calls }}, sent)) ∧
    Forall (λ m, zlen m <= mnl_ideal_socket_buffer_size pagesize) sent.
Proof.
  intros Hpage Hdev Hnet Hi%configured_inv HW Hfuel.
  apply (loop_whole siphash debug now udp4 udp6 ipv6_mod_enabled creating_net ns_capable net); try done.
  unfold mnl_ideal_socket_buffer_size. case_if; simpl_guards; lia.
Qed.

(** A kernel that reads attributes as the tool does. *)
#[local] Instance example_nla : KernelNla := {| nla_request bytes := read_request (mnl_attrs bytes) |}.
#[local] Instance example_nla_laws : KernelNlaLaws.
Proof. constructor. intros l Hl. cbn. rewrite mnl_attrs_bytes; [done|]. eapply Forall_impl; [exact Hl|]. by intros a [? _]. Qed.

(** Two peers with twelve networks each, and a buffer of 512 bytes. *)
Definition example_networks (a : Z) : list wgallowedip :=
  (λ i, mk_wgallowedip AF_INET (a * 2 ^ 24 + Z.of_nat i * 2 ^ 16) 16 0) <$> List.seq 0 12.

Definition example_wgpeer (k : Z) : wgpeer :=
  mk_wgpeer (WGPEER_HAS_PUBLIC_KEY + WGPEER_REPLACE_ALLOWEDIPS + WGPEER_HAS_PERSISTENT_KEEPALIVE_INTERVAL)
    (replicate 32 k) (replicate 32 0) (Sa4 51820 k) 0 0 0 25 (example_networks k).

Definition example_wgdevice : wgdevice :=
  mk_wgdevice [119; 103; 48] 0 (WGDEVICE_REPLACE_PEERS + WGDEVICE_HAS_LISTEN_PORT) zero_key zero_key 0 51820 0
    [example_wgpeer 7; example_wgpeer 9].

Definition example_start : config_device :=
  new_device (mk_device false Peer.WG_TRANSPORT_UDP false 0) (mk_cookie_checker [] [] [] 0) (mk_kstore ∅ ∅ 0 []) [].

Definition example_net : list net_device := [mk_net_device 4 [101; 48] false 0; mk_net_device 5 [119; 103; 48] true 1].

Abbreviation example_run :=
  (set_device_loop (mnl_ideal_socket_buffer_size 512)
    (kernel_send (C := toy_crypto) (λ _, 0) false 0 (λ _, Ok 51820) (λ _, Ok 51820) true true true example_net)
    (headers 28 1) 30 example_wgdevice [] [] (example_start, [])).

Lemma example_sendable : sendable example_wgdevice.
Proof.
  assert (Hk : ∀ k, 0 <= k < 256 → key_ok (replicate 32 k)).
  { intros k Hk. split; [done|]. by apply Forall_replicate. }
  assert (Hn : ∀ k, 0 <= k < 256 → Forall allowedip_ok (example_networks k)).
  { intros k Hk'. apply Forall_fmap, Forall_forall. intros i [_ Hi]%elem_of_seq. split; [left|by left]. cbn [wa_family wa_ip wa_cidr].
    split; [done|]. split; [|lia]. change (2 ^ 32) with (256 * 2 ^ 24). lia. }
  assert (Hp : ∀ k, 0 <= k < 256 → peer_ok (example_wgpeer k)).
  { intros k Hk'. split; cbn [example_wgpeer wp_flags wp_public_key wp_preshared_key wp_endpoint wp_persistent_keepalive_interval wp_allowedips]; try done; auto.
    - apply Hk. lia.
    - split; lia. }
  split; [|split; [done|]].
  - split; cbn [example_wgdevice wd_flags wd_private_key wd_fwmark wd_listen_port wd_transport wd_peers]; try done.
    + by apply Hk.
    + by left.
    + apply Forall_cons; split; [apply Hp; lia|]. apply Forall_cons; split; [apply Hp; lia|constructor].
  - intros Hin. apply list_elem_of_In in Hin. cbn in Hin. intuition lia.
Qed.

(** The state one request with everything leads to. *)
Abbreviation example_whole :=
  (wg_set_device (C := toy_crypto) (λ _, 0) false 0 (λ _, Ok 51820) (λ _, Ok 51820) true true true (whole_request example_wgdevice) example_start).

Lemma example_accepted : example_whole = (0, example_whole.2).
Proof.
  assert (Hret : example_whole.1 = 0) by (vm_compute; reflexivity). rewrite (surjective_pairing example_whole) at 1. rewrite Hret. reflexivity.
Qed.

Lemma example_messages : (λ r : Z * (config_device * list (list Z)), length r.2.2) <$> example_run = Some 2%nat.
Proof. by vm_compute. Qed.

Lemma example_state :
  cd_peer_list example_whole.2 = [1; 2] ∧ lookup (root 32 (cd_peer_allowedips example_whole.2)) 32 [9; 11; 0; 1] = Some 2.
Proof. by vm_compute. Qed.

Lemma split_configuration_exact_witness :
  ∃ d sent, example_run = Some (0, (d, sent)) ∧ length sent = 2%nat ∧ cd_peer_list d = [1; 2] ∧
    lookup (root 32 (cd_peer_allowedips d)) 32 [9; 11; 0; 1] = Some 2.
Proof.
  destruct (split_configuration_exact (C := toy_crypto) (λ _, 0) false 0 (λ _, Ok 51820) (λ _, Ok 51820) true true true example_net 512 28 1
    example_wgdevice example_start example_whole.2 30) as (g&calls&sent&Hrun&_).
  - lia.
  - exact example_sendable.
  - by exists (mk_net_device 5 [119; 103; 48] true 1).
  - apply configured_new.
  - exact example_accepted.
  - vm_compute. lia.
  - pose proof example_messages as Hlen. rewrite Hrun in Hlen. injection Hlen as Hlen.
    pose proof example_state as Hstate. revert Hrun Hstate. generalize example_whole.2. intros w Hrun Hstate.
    eexists _, sent. split; [exact Hrun|]. split; [exact Hlen|exact Hstate].
Defined.
